(* ===== verification/_CoqProject ===== *)
-Q . S2P
Prelude.v
GoPath.v
Url.v
OsFS.v
OsLemmas.v
OsWalk.v
Api.v
GoHeap.v
DeepCopy.v
DeepCopyCorrect.v
Storage.v
StorageDemo.v
StorageCorrect.v
Http.v
StorageServer.v
StorageRequests.v
ServerCorrect.v
Source.v
Controller.v
ControllerLemmas.v
ControllerCorrect.v
ImageSource.v
ImageTrees.v
ImageFrame.v
ImageCorrect.v
ImageOutcome.v
Pull.v
ImageDemo.v
Regexp.v
Crd.v
CrdCorrect.v
Converge.v
ControllerDemo.v
ControllerWitness.v
GarbageCollector.v
PullSecret.v
Webhook.v
System.v
Server.v
ServerUtil.v
Manager.v
ManagerCorrect.v
ManagerSystem.v
Service.v
Availability.v
Addresses.v
EndToEnd.v
ManagerDemo.v
Util.v
Registration.v
