(* ===== verification/Prelude.v ===== *)
(** * catalogd: a verification development

    catalogd serves the file-based catalogs (FBC) that [ClusterCatalog] objects
    of a Kubernetes cluster name. This library models the program's own logic
    as executable functions over an explicit state and proves what the parts
    promise to each other and to their users.

    ** The program and the files that model it

    - The API ([api/v1/clustercatalog_types.go]): [Api.v]. The object, its
      spec and its status are records with the fields of the Go structs;
      pointers are options, times are nanoseconds in [Z]. The validation rules
      in the markers of the types are in [Crd.v], over the regular expressions
      of [Regexp.v]; what they guarantee and what they miss is in
      [CrdCorrect.v].
    - The generated deep copies ([api/v1/zz_generated.deepcopy.go]):
      [DeepCopy.v], on the heap with pointers and slices of [GoHeap.v];
      properties in [DeepCopyCorrect.v].
    - The ClusterCatalog controller
      ([internal/controllers/core/clustercatalog_controller.go]):
      [Controller.v]. [Reconcile] reads an object, runs [reconcile] on it and
      writes status and finalizers back; [reconcile] removes the content of an
      unavailable or deleted catalog, decides whether to unpack
      ([getCurrentState], [needsPoll]), unpacks, stores and reports. Its state
      is the object it was handed, the map of stored catalogs and the world
      ([RS]); between two calls it is the map, the world and the API server
      ([Ctl]). Lemmas are in [ControllerLemmas.v], the properties in
      [ControllerCorrect.v], a concrete environment in [ControllerDemo.v] and
      the properties applied there in [ControllerWitness.v]. [Converge.v] has
      its progress; [Service.v] the abstract service it implements.
    - The storage ([internal/storage]): [Storage.v]. The interface [Instance]
      is the class [StorageInstance] with the laws [StorageContract], against
      which the controller is verified; [LocalDirV1] implements it on the file
      system and is proved to meet the laws. Properties in
      [StorageCorrect.v], a concrete directory in [StorageDemo.v]. Its HTTP
      handler ([StorageServerHandler], [filesOnlyFilesystem]) is in
      [StorageServer.v], on the file server of [Http.v]; how requests are
      answered is computed in [StorageRequests.v], the properties are in
      [ServerCorrect.v].
    - The catalog server: [Server.v] has the listener of
      [internal/third_party/server/server.go] as a state machine of its two
      goroutines with clients, context and clock ([HttpServer.next]);
      [ServerUtil.v] puts handler, metrics, TLS and listener together
      ([internal/serverutil], [internal/metrics]).
    - The unpacker ([internal/source]): [Source.v] has the interface
      ([Unpacker], [Result], [UnpackerContract]), [ImageSource.v] the
      implementation [ContainersImageRegistry] ([containers_image.go]).
      [ImageTrees.v] has the lemmas on its tree operations, [ImageFrame.v]
      that it meets the contract of the controller, [ImageCorrect.v] its
      properties, [ImageOutcome.v] what each of its outcomes leaves in the
      cache, [Pull.v] that it succeeds when the registry has the image,
      [ImageDemo.v] a concrete image library.
    - The garbage collector
      ([internal/garbagecollection/garbage_collector.go]):
      [GarbageCollector.v].
    - The pull secret controller
      ([internal/controllers/core/pull_secret_controller.go]): [PullSecret.v].
    - The defaulting webhook
      ([internal/webhook/cluster_catalog_webhook.go]): [Webhook.v].
    - The assembled controller, storage and unpacker on one file system:
      [System.v].
    - The manager command ([cmd/manager/main.go]): [Manager.v]. Flags and their
      checks, the source context of the unpacker, the options of the manager,
      and [setup], which makes the parts and adds them to the manager in the
      order of the code; [main] gives the exit status. Properties in
      [ManagerCorrect.v]; in [ManagerSystem.v] the parts [setup] makes run
      together ([program_step]), in [Availability.v] they are shown to
      implement the abstract service, in [Addresses.v] are the addresses of the
      catalogs, in [EndToEnd.v] the way of a catalog from its object to its
      clients; [ManagerDemo.v] has a configuration.
    - What the packages register when the program is loaded
      ([api/v1/groupversion_info.go], [internal/features], the histogram of
      [internal/metrics], the [init] functions): [Registration.v].
    - [internal/k8sutil] and [internal/version]: [Util.v].

    The parts of Go's library the program leans on are modelled where the
    properties depend on them: [GoPath.v] ([strings], [path], [path/filepath]
    on Unix), [Url.v] ([net/url]), [Http.v] ([net/http]), [OsFS.v] ([os], [filepath.WalkDir]) with its
    lemmas in [OsLemmas.v] and [OsWalk.v]. This file has the errors, the monad
    of all effectful code, 64-bit durations and the shared automation.

    ** How effects are modelled

    A function with effects is a [GoM S A]: from a state to an outcome and a
    state. The outcome is a value, an error, a panic, or the end of the process
    ([Crash]); after any of the last three the rest of the function does not
    run, except deferred calls after an error or a panic. The operating system
    [OS] has a list of coming faults, so that every system call of every run
    may fail or be the last one the process makes; the theorems that speak of
    failures hold for every such list. Errors keep what the program can observe
    of them: system error, wrapping, joining, being terminal, being not-found,
    and their text through the parameter [ErrorText]. A [time.Duration] is a
    64-bit integer whose overflow is written out.

    The file system is a map from paths to directories, files, symbolic links
    and special nodes with modes. Its nodes belong to the process, which is not
    the superuser. [os.Open], through which the HTTP handler reads, follows
    symbolic links, at the end of a path and on the way, up to a number of them; the other calls
    answer [ELOOP] when their path leads through a link, which the program does not
    make in its directories. The clock moves by arbitrary steps between two
    readings.

    Code of other projects is a parameter with laws, each a class with a
    concrete instance in the demo files: [DeclCfg] (operator-registry),
    [ImageLib], [ImageLibContract] and [ApplyRoot] (containers/image, containerd's
    [archive.Apply], which keeps the directory it extracts to; [LibReturns] when
    they do not panic), [Client] (the API server as the controller-runtime client
    shows it; [CalmClient] when the server can be reached), [FinalizerLib] and [FinalizerUtil] (controller-runtime),
    [ConditionSetter] and [SemanticEquality] (apimachinery), [Jitterer]
    ([wait.Jitter]), [SchemeLib] and [FeatureGateLib] (registration), [MetaTypes] and [MetaCopy] (deep copies of apimachinery
    types), [ContentServer] ([http.ServeContent] of ranges), [GzipLib]
    ([gzhttp]), [ServerLib] (listening, Prometheus), [UrlParser] ([url.Parse]
    of addresses with a query, user or escape), [ManagerLib] (the manager and
    the certificate watcher of controller-runtime).

    ** What the theorems show

    - Storage: storing is atomic under every failure and complete without one,
      deleting is exact, catalogs never share an address. Serving: every answer
      is a refusal or a regular file that a path below the storage directory
      leads to, and lies below it when there are no symbolic links; nothing is
      changed, and a [GET] after a [Store] returns what was stored.
    - Controller, one call: it writes status and finalizers only; success makes
      the status true of what is served; a settled catalog is left alone, and
      after a success the next call only reads, through the server's rounding of times
      ([success_settles]);
      an unavailable or deleted catalog is cleaned before its finalizer goes;
      the finalizer comes before any effect; errors are reported and retried
      and leave the served content alone; polling happens when it is due.
    - Controller, against the server: [Reconcile] persists both the status and
      the finalizers that [reconcile] computed.
    - Controller, all runs: whatever is recorded as stored is served, in every
      state reachable by reconciliations, crashes, restarts and changes from
      outside; in [System.v] the same for the assembled controller, down to the
      file that is served.
    - Controller, progress ([reconcile_converges]): while the server answers and
      storage and unpacker work, one or two calls lead to the state the object
      asks for (served, withdrawn, or gone). The object must not have conditions of
      others, and a deleted one must have the finalizer of this controller and no
      other; [foreign_condition_never_settles] and [deleted_object_is_stored_again]
      show what happens otherwise.
    - Whole program: [main] makes parts that fit (one storage for the
      controller and the server, one cache for the unpacker and the collector,
      one auth file for the pull secret controller and the unpacker). In every
      state the parts reach together, clients get the content of each catalog
      that is recorded ([program_answers_clients]): garbage collection, pull
      secrets and requests are changes of the environment that the
      controller's invariant allows. The program refines the abstract service:
      each step publishes what was unpacked for an available object, withdraws a
      catalog whose object is unavailable or being deleted, or changes nothing
      ([program_refines_service]); between two system calls of a call that
      updates a catalog it is answered all the time ([no_downtime]). The
      addresses in the status are admitted by the schema up to an exact length
      ([base_url_admitted]). While the API server and the file system work, a
      catalog whose image the registry has ends up served at the address in its
      status ([catalog_ends_up_served]); what is assumed is what the calls of the
      image and catalog libraries return ([has_image], [provided]), while the
      success of [Unpack] ([Unpack_total]) and of [Store] is proved. Credentials reach the registry client
      ([pull_secret_reaches_unpacker]).
    - Listener: [Start] returns only after the shutdown, and does return within
      its timeout. Flags: what is refused, before anything is touched.
    - API: admitted specifications are well typed for the controller; the
      searches of the rules are simple scans; a deep copy is equal to its
      original and shares no memory with it.
    - Unpacker: which layer entries are extracted and with which owner and
      mode, the exact effect of [deleteRecursive], [setReadOnlyRecursive] and
      [deleteOtherImages], which references are resolved without a registry,
      which errors are terminal, that stored catalogs are never touched, and
      that an unpack that returns an error leaves nothing that would pass for an
      image ([unpack_leaves_no_debris]), which is not so after the panic for an
      image that can not be closed.
    - Garbage collector, pull secret controller, webhook: what they change and
      what they leave.
    - Ten theorems state behaviour that the code hardly means to have:
      [gc_stuck_on_unpacked_image], [deleted_object_is_stored_again],
      [foreign_condition_never_settles], [needs_poll_overflow],
      [existing_directory_is_trusted], [unfinished_file_is_served],
      [path_below_catalog_is_internal_error], [no_tls_never_starts],
      [exit_code_needs_auth_file] and [short_digest_admitted_with_port].

    ** Bounds

    The recursion of [filepath_WalkDir] has fuel: one more than the depth of the
    deepest node, which is enough because each level of the recursion goes one
    level down. That it never runs out is proved, for the runs without failures
    in [OsWalk.v] by the exact result of the walk, and for runs with any failures by
    [no_panic_WalkDir]. [os.CreateTemp] and [os.MkdirTemp] try the coming random
    numbers of the world instead of ten thousand. [follow] gives up with [ELOOP] after
    [MAXSYMLINKS] links, as Linux does. A star of a regular
    expression has as many rounds as the text has characters, and one more;
    every round of the expressions in use takes a character.

    ** What is not modelled

    - The parts of [net/http] and [url.Parse] that the parameters named above
      stand for; connections below the level of requests.
    - What controller-runtime does with the registration of the controllers and
      the webhook, beyond the predicate of the pull secret controller.
    - The OpenAPI types of the generated resource definition, beyond the rules
      of the markers. The range of [priority] is that of its Go type: the
      markers for it do not reach the generated definition.
    - Symbolic links for other calls than [os.Open], see above.
    - Calls of [Reconcile] take turns, as they do with the one worker that
      controller-runtime starts by default, which the code does not change.
      Requests may come between any two system calls of a call
      ([no_downtime]); a request itself is one step.
    - Logging, contexts (other than those of the garbage collector and the
      listener), and
      the scheduling of work queues by controller-runtime. *)
From Stdlib Require Import Ascii.
From stdpp Require Export base gmap strings list.
From Stdlib Require Export ZArith Lia.

(** * Errors

    Go error values, as far as the program can tell them apart. *)

Inductive errno :=
  | ENOENT | EEXIST | ENOTDIR | EISDIR | EACCES | ENOTEMPTY | ELOOP | EINVAL
  | EIO | ENOSPC.

(** [ErrString] is [errors.New] or [fmt.Errorf] without [%w] (the cause is only
    text), [ErrWrap] is [fmt.Errorf] with one [%w], [ErrJoin] is the value of
    [errors.Join], [ErrTerminal] is [reconcile.TerminalError], [ErrErrno] is an
    [*fs.PathError] around a system error (its path as elements, leaf first) and [ErrNotFound] is an API error
    for which [apierrors.IsNotFound] holds. *)
Inductive error :=
  | ErrString (msg : string)
  | ErrWrap (prefix : string) (e : error)
  | ErrJoin (es : list error)
  | ErrTerminal (e : error)
  | ErrErrno (op : string) (p : list string) (en : errno)
  | ErrNotFound (name : string).

#[global] Instance errno_eq_dec : EqDecision errno.
Proof. solve_decision. Defined.

(** [errors.Is(err, reconcile.TerminalError(nil))]: some error of the tree that
    [Unwrap] spans is a terminal error. *)
Fixpoint is_terminal (e : error) : bool :=
  match e with
  | ErrString _ | ErrErrno _ _ _ | ErrNotFound _ => false
  | ErrWrap _ e' => is_terminal e'
  | ErrJoin es => existsb is_terminal es
  | ErrTerminal _ => true
  end.

(** [errors.Join]: drops nil errors, nil when none is left. *)
Definition errors_Join (es : list (option error)) : option error :=
  match omap id es with
  | [] => None
  | es' => Some (ErrJoin es')
  end.

(** [os.IsNotExist]: does not unwrap [fmt.Errorf] errors. *)
Definition os_IsNotExist (e : error) : bool :=
  match e with ErrErrno _ _ ENOENT => true | _ => false end.

(** How the errors of code outside the repository print. *)
Class ErrorText := {
  terminal_text : string → string;
  errno_text : string → list string → errno → string;
  notfound_text : string → string
}.

(** The verb [%q], for text without anything to escape. *)
Definition quoted (s : string) : string :=
  String (ascii_of_nat 34) s +:+ String (ascii_of_nat 34) EmptyString.

Fixpoint join_lines (l : list string) : string :=
  match l with
  | [] => ""
  | [s] => s
  | s :: l' => s +:+ String "010"%char EmptyString +:+ join_lines l'
  end.

(** The [Error] method. *)
Fixpoint error_text `{!ErrorText} (e : error) : string :=
  match e with
  | ErrString msg => msg
  | ErrWrap prefix e' => prefix +:+ error_text e'
  | ErrJoin es => join_lines (map error_text es)
  | ErrTerminal e' => terminal_text (error_text e')
  | ErrErrno op p en => errno_text op p en
  | ErrNotFound name => notfound_text name
  end.

(** * The monad of the program

    A Go function that mutates state [S] and returns [(A, error)]. It may also
    panic, and the process may be killed ([Crash]) in a system call; the state
    survives each of these. *)

Inductive outcome (A : Type) :=
  | Ok (a : A)
  | Err (e : error)
  | Panic (msg : string)
  | Crash.
Arguments Ok {A} a.
Arguments Err {A} e.
Arguments Panic {A} msg.
Arguments Crash {A}.

Definition GoM (S A : Type) : Type := S → outcome A * S.

Definition ret {S A} (a : A) : GoM S A := λ s, (Ok a, s).
Definition throw {S A} (e : error) : GoM S A := λ s, (Err e, s).
Definition panic {S A} (msg : string) : GoM S A := λ s, (Panic msg, s).

Definition bind {S A B} (m : GoM S A) (f : A → GoM S B) : GoM S B :=
  λ s, match m s with
       | (Ok a, s') => f a s'
       | (Err e, s') => (Err e, s')
       | (Panic msg, s') => (Panic msg, s')
       | (Crash, s') => (Crash, s')
       end.

(** [v, err := f()]: the error becomes a value the caller inspects. *)
Definition try {S A} (m : GoM S A) : GoM S (A + error) :=
  λ s, match m s with
       | (Ok a, s') => (Ok (inl a), s')
       | (Err e, s') => (Ok (inr e), s')
       | (Panic msg, s') => (Panic msg, s')
       | (Crash, s') => (Crash, s')
       end.

(** [defer cleanup()] before [m]: runs on return and on panic, and its own
    error is dropped; a killed process runs nothing. *)
Definition defer {S A} (m : GoM S A) (cleanup : GoM S unit) : GoM S A :=
  λ s, match m s with
       | (Crash, s') => (Crash, s')
       | (r, s') =>
           match cleanup s' with
           | (Panic msg, s'') => (Panic msg, s'')
           | (Crash, s'') => (Crash, s'')
           | (_, s'') => (r, s'')
           end
       end.

(** [fmt.Errorf("prefix%w", err)] on the error path. *)
Definition wrap_err {S A} (prefix : string) (m : GoM S A) : GoM S A :=
  λ s, match m s with
       | (Err e, s') => (Err (ErrWrap prefix e), s')
       | r => r
       end.

Definition gets {S A} (f : S → A) : GoM S A := λ s, (Ok (f s), s).
Definition modify {S} (f : S → S) : GoM S unit := λ s, (Ok tt, f s).

(** [for _, x := range l { if err := f(x); err != nil { return err } }] *)
Fixpoint forM {S A} (l : list A) (f : A → GoM S unit) : GoM S unit :=
  match l with
  | [] => ret tt
  | x :: l' => bind (f x) (λ _, forM l' f)
  end.

Declare Scope go_scope.
Delimit Scope go_scope with go.
Notation "x <- m ;; k" := (bind m (λ x, k))
  (at level 100, m at next level, right associativity) : go_scope.
Notation "m ;; k" := (bind m (λ _, k))
  (at level 100, right associativity) : go_scope.
Open Scope go_scope.

(** * Machine integers and time

    [int64] values are [Z] in range; arithmetic wraps. A [time.Time] is the
    number of nanoseconds since the zero time as a [Z], a [time.Duration] is an
    [int64] number of nanoseconds. *)

Definition min_int64 : Z := - 2 ^ 63.
Definition max_int64 : Z := 2 ^ 63 - 1.
Definition wrap64 (z : Z) : Z := (z + 2 ^ 63) `mod` 2 ^ 64 - 2 ^ 63.
Definition int64_ok (z : Z) : Prop := (min_int64 ≤ z ≤ max_int64)%Z.

Definition Second : Z := 1000000000.
Definition Minute : Z := 60 * Second.

Definition duration_mul (a b : Z) : Z := wrap64 (a * b).
Definition time_Add (t d : Z) : Z := t + d.
(** [Time.Sub] saturates. *)
Definition time_Sub (t u : Z) : Z := Z.max min_int64 (Z.min max_int64 (t - u)).
Definition time_Before (t u : Z) : bool := (t <? u)%Z.
Definition time_Truncate (t d : Z) : Z := if (d <=? 0)%Z then t else t - t `mod` d.

(** * Lemmas and automation *)

Create HintDb go.

Ltac go_unfold := unfold bind, try, defer, wrap_err, gets, modify, ret, throw, panic in *.

(** Case on the outermost monadic call that blocks a hypothesis or the goal. *)
Ltac go_case :=
  match goal with
  | H : context [ match ?m ?s with (_, _) => _ end ] |- _ =>
      let r := fresh "r" in let s' := fresh "s" in let E := fresh "E" in
      destruct (m s) as [r s'] eqn:E; destruct r; simpl in *
  | |- context [ match ?m ?s with (_, _) => _ end ] =>
      let r := fresh "r" in let s' := fresh "s" in let E := fresh "E" in
      destruct (m s) as [r s'] eqn:E; destruct r; simpl in *
  end.

Lemma bind_Ok {S A B} (m : GoM S A) (f : A → GoM S B) s b s' :
  bind m f s = (Ok b, s') ↔ ∃ a s1, m s = (Ok a, s1) ∧ f a s1 = (Ok b, s').
Proof.
  unfold bind. split.
  - destruct (m s) as [[a|e|msg|] s1] eqn:E; try done. eauto.
  - intros (a & s1 & -> & H). done.
Qed.

Lemma bind_step {S A B} (m : GoM S A) (f : A → GoM S B) s a s1 :
  m s = (Ok a, s1) → bind m f s = f a s1.
Proof. unfold bind. by intros ->. Qed.

Lemma bind_assoc {S A B C} (m : GoM S A) (f : A → GoM S B) (k : B → GoM S C) s :
  bind m (λ a, bind (f a) k) s = bind (bind m f) k s.
Proof. unfold bind. by destruct (m s) as [[a|e|msg|] s1]. Qed.

Lemma try_Ok {S A} (m : GoM S A) s r s' :
  try m s = (Ok r, s') ↔
  m s = (match r with inl a => Ok a | inr e => Err e end, s').
Proof.
  unfold try. destruct (m s) as [[a|e|msg|] s1]; destruct r; split; intros; simplify_eq; done.
Qed.

Lemma try_step {S A} (m : GoM S A) s r s' :
  m s = (match r with inl a => Ok a | inr e => Err e end, s') → try m s = (Ok r, s').
Proof. apply try_Ok. Qed.

Lemma try_state {S A} (m : GoM S A) s : (try m s).2 = (m s).2.
Proof. unfold try. by destruct (m s) as [[] ?]. Qed.

Lemma forM_app {S A} (l1 l2 : list A) (f : A → GoM S unit) s :
  forM (l1 ++ l2) f s = bind (forM l1 f) (λ _, forM l2 f) s.
Proof.
  revert s. induction l1 as [|x l1 IH]; intros s; [done|]. simpl. unfold bind at 1 2 3.
  destruct (f x s) as [[u|e|msg|] s1]; done || apply IH.
Qed.

Lemma forM_ext {S A} (l : list A) (f g : A → GoM S unit) s :
  (∀ x, x ∈ l → ∀ s, f x s = g x s) → forM l f s = forM l g s.
Proof.
  revert s. induction l as [|x l IH]; intros s H; [done|]. simpl. unfold bind.
  rewrite H by (by left). destruct (g x s) as [[u|e|msg|] s1]; try done.
  apply IH. intros y Hy. apply H. by right.
Qed.

(** A computation that relates its initial and final state, whatever happens. *)
Definition stable {S A} (R : S → S → Prop) (m : GoM S A) : Prop :=
  ∀ s, R s (m s).2.

Section stable.
Context {S : Type} (R : S → S → Prop) `{!PreOrder R}.

Lemma stable_ret {A} (a : A) : stable R (ret a).
Proof. intros s. simpl. reflexivity. Qed.

Lemma stable_throw {A} e : stable R (@throw S A e).
Proof. intros s. simpl. reflexivity. Qed.

Lemma stable_panic {A} msg : stable R (@panic S A msg).
Proof. intros s. simpl. reflexivity. Qed.

Lemma stable_gets {A} (f : S → A) : stable R (gets f).
Proof. intros s. simpl. reflexivity. Qed.

Lemma stable_modify (f : S → S) : (∀ s, R s (f s)) → stable R (modify f).
Proof. intros H s. apply H. Qed.

Lemma stable_bind {A B} (m : GoM S A) (f : A → GoM S B) :
  stable R m → (∀ a, stable R (f a)) → stable R (bind m f).
Proof.
  intros Hm Hf s. specialize (Hm s). unfold bind.
  destruct (m s) as [[a|e|msg|] s'] eqn:E; simpl in *; auto.
  etrans; [exact Hm|apply Hf].
Qed.

Lemma stable_try {A} (m : GoM S A) : stable R m → stable R (try m).
Proof.
  intros Hm s. specialize (Hm s). unfold try.
  destruct (m s) as [[a|e|msg|] s'] eqn:E; simpl in *; auto.
Qed.

Lemma stable_wrap_err {A} p (m : GoM S A) : stable R m → stable R (wrap_err p m).
Proof.
  intros Hm s. specialize (Hm s). unfold wrap_err.
  destruct (m s) as [[a|e|msg|] s'] eqn:E; simpl in *; auto.
Qed.

Lemma stable_defer {A} (m : GoM S A) c :
  stable R m → stable R c → stable R (defer m c).
Proof.
  intros Hm Hc s. specialize (Hm s). unfold defer.
  destruct (m s) as [r s'] eqn:E; simpl in *. pose proof (Hc s') as Hc'.
  destruct r, (c s') as [[[]|?|?|] s''] eqn:E'; simpl in *; auto;
    (etrans; [exact Hm|exact Hc']).
Qed.

Lemma stable_forM {A} (l : list A) f :
  (∀ x, x ∈ l → stable R (f x)) → stable R (forM l f).
Proof.
  induction l as [|x l IH]; intros Hf; simpl; [apply stable_ret|].
  apply stable_bind; [apply Hf; left|intros _; apply IH; intros; apply Hf; by right].
Qed.
End stable.

#[export] Hint Resolve stable_ret stable_throw stable_panic stable_gets stable_bind
  stable_try stable_wrap_err stable_defer : go.

Lemma string_app_nil_r (s : string) : s +:+ "" = s.
Proof. induction s as [|c s IH]; [done|]. exact (f_equal (String _) IH). Qed.

Lemma string_length_app a b : String.length (a +:+ b) = String.length a + String.length b.
Proof. induction a as [|c a IH]; [done|]. simpl. by rewrite IH. Qed.

Lemma string_app_assoc (a b c : string) : (a +:+ b) +:+ c = a +:+ (b +:+ c).
Proof. induction a as [|x a IH]; [done|]. exact (f_equal (String _) IH). Qed.

Lemma wrap64_id z : int64_ok z → wrap64 z = z.
Proof.
  unfold int64_ok, min_int64, max_int64, wrap64. intros H.
  rewrite Z.mod_small; lia.
Qed.

Lemma wrap64_ok z : int64_ok (wrap64 z).
Proof.
  unfold int64_ok, min_int64, max_int64, wrap64.
  pose proof (Z.mod_pos_bound (z + 2 ^ 63) (2 ^ 64)). lia.
Qed.

Lemma time_Truncate_le t d : (0 < d)%Z → (time_Truncate t d ≤ t < time_Truncate t d + d)%Z.
Proof.
  intros Hd. unfold time_Truncate. rewrite (proj2 (Z.leb_gt d 0)) by lia.
  pose proof (Z.mod_pos_bound t d). lia.
Qed.

Lemma time_Truncate_idemp t d :
  (0 < d)%Z → time_Truncate (time_Truncate t d) d = time_Truncate t d.
Proof.
  intros Hd. unfold time_Truncate. rewrite (proj2 (Z.leb_gt d 0)) by lia.
  replace (t - t `mod` d)%Z with ((t / d) * d)%Z by (pose proof (Z.div_mod t d); lia).
  rewrite Z.mod_mul; lia.
Qed.
