(* ===== verification/GoPath.v ===== *)
(** Slash-separated paths: the parts of Go's [strings], [path] and
    [path/filepath] packages (Unix) the program uses, and their lemmas. A path
    string is worked on through its elements; [clean_stack] keeps them leaf
    first, the order in which the file system model indexes its nodes. *)
From S2P Require Import Prelude.
From Stdlib Require Import Ascii.

Definition is_slash (c : ascii) : bool := Ascii.eqb c "/"%char.

(** [strings.Split(s, "/")] *)
Fixpoint split_slash (s : string) : list string :=
  match s with
  | EmptyString => [""]
  | String c s' =>
      if is_slash c then "" :: split_slash s'
      else match split_slash s' with
           | w :: ws => String c w :: ws
           | [] => [String c ""]
           end
  end.

(** [strings.Join(l, "/")] *)
Fixpoint join_slash (l : list string) : string :=
  match l with
  | [] => ""
  | [w] => w
  | w :: ws => w +:+ String "/" (join_slash ws)
  end.

Fixpoint slash_free (s : string) : bool :=
  match s with
  | EmptyString => true
  | String c s' => negb (is_slash c) && slash_free s'
  end.

Fixpoint HasPrefix (s p : string) : bool :=
  match p, s with
  | EmptyString, _ => true
  | String _ _, EmptyString => false
  | String c p', String d s' => Ascii.eqb c d && HasPrefix s' p'
  end.

(** [strings.TrimPrefix(s, "/")]: at most one slash goes. *)
Definition TrimPrefix_slash (s : string) : string :=
  match s with
  | String c s' => if is_slash c then s' else s
  | EmptyString => ""
  end.

Definition is_rooted (s : string) : bool :=
  match s with String c _ => is_slash c | EmptyString => false end.

(** One element of the path read by [path.Clean]: empty elements and [.] go, an
    inner [..] takes its parent with it, and [..] at the root goes. *)
Definition clean_step (rooted : bool) (st : list string) (c : string) : list string :=
  if decide (c = "" ∨ c = ".") then st
  else if decide (c = "..") then
    match st with
    | [] => if rooted then [] else [".."]
    | t :: st' => if decide (t = "..") then ".." :: st else st'
    end
  else c :: st.

Definition clean_stack (rooted : bool) (cs : list string) : list string :=
  foldl (clean_step rooted) [] cs.

(** The elements of the cleaned path, root first. *)
Definition path_comps (s : string) : list string :=
  reverse (clean_stack (is_rooted s) (split_slash s)).

Definition render (rooted : bool) (cs : list string) : string :=
  if rooted then String "/" (join_slash cs)
  else match cs with [] => "." | _ => join_slash cs end.

(** [path.Clean] and, on Unix, [filepath.Clean]. *)
Definition path_Clean (s : string) : string := render (is_rooted s) (path_comps s).

Definition not_empty (s : string) : bool :=
  match s with EmptyString => false | _ => true end.

(** [path.Join] and [filepath.Join]: empty elements are ignored. *)
Definition path_Join (elems : list string) : string :=
  match List.filter not_empty elems with
  | [] => ""
  | l => path_Clean (join_slash l)
  end.

Fixpoint strip_common (bs ts : list string) : list string * list string :=
  match bs, ts with
  | b :: bs', t :: ts' => if decide (b = t) then strip_common bs' ts' else (bs, ts)
  | _, _ => (bs, ts)
  end.

(** [filepath.Rel]: a path that, joined to [basepath], leads to [targpath]; an
    error when one of them is rooted and the other is not, or when the working
    directory would have to be known. *)
Definition filepath_Rel (basepath targpath : string) : string + error :=
  let fail := inr (ErrString ("Rel: can't make " +:+ targpath +:+ " relative to " +:+ basepath)) in
  if decide (path_Clean basepath = path_Clean targpath) then inl "."
  else if negb (Bool.eqb (is_rooted basepath) (is_rooted targpath)) then fail
  else
    let ts := if decide (path_Clean targpath = ".") then ["."] else path_comps targpath in
    let '(bs', ts') := strip_common (path_comps basepath) ts in
    match bs' with
    | [] => inl (join_slash ts')
    | b :: _ =>
        if decide (b = "..") then fail
        else inl (join_slash (replicate (length bs') ".." ++ ts'))
    end.

(** The node a path string names in the file system: elements, leaf first. *)
Definition fpath (s : string) : list string := clean_stack true (split_slash s).

(** A name that is one plain path element. *)
Definition elem_ok (c : string) : Prop :=
  c ≠ "" ∧ c ≠ "." ∧ c ≠ ".." ∧ slash_free c = true.

#[global] Instance elem_ok_dec c : Decision (elem_ok c).
Proof. unfold elem_ok. apply _. Defined.

(** What [clean_stack] leaves: plain elements above a run of [..]. *)
Definition normal (rooted : bool) (st : list string) : Prop :=
  ∃ oks n, st = oks ++ replicate n ".." ∧ Forall elem_ok oks ∧ (rooted = true → n = 0).

(** ** Splitting and joining *)

Lemma split_slash_cons s : ∃ w ws, split_slash s = w :: ws.
Proof.
  destruct s as [|c s]; simpl; [eauto|].
  destruct (is_slash c); [eauto|]. destruct (split_slash s); eauto.
Qed.

Lemma split_slash_free s : slash_free s = true → split_slash s = [s].
Proof.
  induction s as [|c s IH]; simpl; [done|].
  intros [Hc Hs]%andb_true_iff. apply negb_true_iff in Hc. rewrite Hc.
  by rewrite IH.
Qed.

Lemma split_slash_all_free s : Forall (λ w, slash_free w = true) (split_slash s).
Proof.
  induction s as [|c s IH]; simpl; [by repeat constructor|].
  destruct (is_slash c) eqn:E; [by constructor|].
  destruct (split_slash s) as [|w ws]; simpl in *.
  - repeat constructor. simpl. by rewrite E.
  - inversion_clear IH. constructor; [|done]. simpl. by rewrite E.
Qed.

Lemma split_slash_app a b :
  split_slash (a +:+ String "/" b) = split_slash a ++ split_slash b.
Proof.
  induction a as [|c a IH]; simpl; [done|].
  unfold app in IH. rewrite IH.
  destruct (is_slash c); [done|].
  destruct (split_slash_cons a) as (w & ws & ->). done.
Qed.

Lemma split_join_slash l :
  l ≠ [] → split_slash (join_slash l) = mjoin (split_slash <$> l).
Proof.
  induction l as [|w l IH]; [done|]. intros _.
  destruct l as [|w' l]; [simpl; by rewrite app_nil_r|].
  change (join_slash (w :: w' :: l)) with (w +:+ String "/" (join_slash (w' :: l))).
  rewrite split_slash_app, IH by done. done.
Qed.

Lemma split_join_free l :
  l ≠ [] → Forall (λ w, slash_free w = true) l → split_slash (join_slash l) = l.
Proof.
  intros Hl H. rewrite split_join_slash by done.
  induction H as [|w l Hw Hall IH]; [done|].
  destruct l as [|w' l]; simpl; rewrite split_slash_free by done; [done|].
  simpl in IH. by rewrite IH.
Qed.

(** ** [path.Clean] *)

Lemma clean_step_ok r st c : elem_ok c → clean_step r st c = c :: st.
Proof.
  intros (? & ? & ? & ?). unfold clean_step.
  rewrite decide_False by (by intros [|]). by rewrite decide_False.
Qed.

Lemma clean_step_normal r st c :
  slash_free c = true → normal r st → normal r (clean_step r st c).
Proof.
  intros Hf (oks & n & -> & Hoks & Hn). unfold clean_step.
  destruct (decide (c = "" ∨ c = ".")) as [|Hc]; [by exists oks, n|].
  destruct (decide (c = "..")) as [->|Hc2].
  - destruct oks as [|t oks]; simpl.
    + destruct n as [|n]; simpl.
      * destruct r; [by exists [], 0|]. by exists [], 1.
      * exists [], (S (S n)). repeat split; [by constructor|].
        intros Hr. by specialize (Hn Hr).
    + apply Forall_cons in Hoks as [Ht Hoks']. destruct Ht as (_ & _ & Ht & _).
      rewrite decide_False by done. by exists oks, n.
  - exists (c :: oks), n. repeat split; [|done].
    constructor; [|done]. unfold elem_ok. naive_solver.
Qed.

Lemma clean_stack_normal r cs :
  Forall (λ w, slash_free w = true) cs → normal r (clean_stack r cs).
Proof.
  intros H. unfold clean_stack.
  assert (Hst : normal r []) by (by exists [], 0).
  revert Hst. generalize ([] : list string). induction H as [|c cs Hc Hcs IH]; [done|].
  intros st Hst. simpl. apply IH. by apply clean_step_normal.
Qed.

Lemma clean_stack_split_normal r s : normal r (clean_stack r (split_slash s)).
Proof. apply clean_stack_normal, split_slash_all_free. Qed.

Lemma clean_foldl_ok r st cs :
  Forall elem_ok cs → foldl (clean_step r) st cs = reverse cs ++ st.
Proof.
  intros H. revert st. induction H as [|c cs Hc Hcs IH]; intros st; [done|].
  simpl. rewrite clean_step_ok by done. rewrite IH, reverse_cons.
  by rewrite <-app_assoc.
Qed.

Lemma clean_foldl_dots n m :
  foldl (clean_step false) (replicate m "..") (replicate n "..")
  = replicate (n + m) "..".
Proof.
  revert m. induction n as [|n IH]; intros m; [done|]. simpl.
  replace (clean_step false (replicate m "..") "..") with (replicate (S m) "..").
  - rewrite IH. replace (n + S m) with (S (n + m)) by lia. done.
  - destruct m; done.
Qed.

Lemma clean_stack_fix r st : normal r st → clean_stack r (reverse st) = st.
Proof.
  intros (oks & n & -> & Hoks & Hn). unfold clean_stack.
  rewrite reverse_app, foldl_app, reverse_replicate.
  rewrite clean_foldl_ok by (by apply Forall_reverse).
  rewrite reverse_involutive. f_equal. destruct r.
  - by rewrite (Hn eq_refl).
  - change [] with (replicate 0 ".."). rewrite clean_foldl_dots. f_equal. lia.
Qed.

Lemma normal_slash_free r st :
  normal r st → Forall (λ w, slash_free w = true) (reverse st).
Proof.
  intros (oks & n & -> & Hoks & _). apply Forall_reverse, Forall_app. split.
  - eapply Forall_impl; [exact Hoks|]. by intros ? (_ & _ & _ & ?).
  - apply Forall_replicate. done.
Qed.

Lemma normal_head r st :
  normal r st → match reverse st with [] => True | w :: _ => w ≠ "" end.
Proof.
  intros (oks & n & -> & Hoks & _).
  assert (Forall (λ w, w ≠ "") (reverse (oks ++ replicate n ".."))) as H.
  { apply Forall_reverse, Forall_app. split; [|by apply Forall_replicate].
    eapply Forall_impl; [exact Hoks|]. by intros ? (? & _). }
  by destruct H.
Qed.

Lemma is_rooted_app w s : w ≠ "" → is_rooted (w +:+ s) = is_rooted w.
Proof. by destruct w. Qed.

Lemma slash_free_not_rooted w : slash_free w = true → is_rooted w = false.
Proof.
  destruct w as [|c w]; [done|]. simpl.
  by intros [?%negb_true_iff _]%andb_true_iff.
Qed.

Lemma is_rooted_render r st : normal r st → is_rooted (render r (reverse st)) = r.
Proof.
  intros Hn. pose proof (normal_head _ _ Hn) as Hh.
  pose proof (normal_slash_free _ _ Hn) as Hf. destruct r; [done|]. simpl.
  destruct (reverse st) as [|w [|w' l]]; [done| |]; inversion_clear Hf as [|?? Hw].
  - by apply slash_free_not_rooted.
  - simpl. rewrite is_rooted_app by done. by apply slash_free_not_rooted.
Qed.

(** Cleaning the rendered path again finds the same elements. *)
Lemma clean_render r st :
  normal r st → clean_stack r (split_slash (render r (reverse st))) = st.
Proof.
  intros Hn. pose proof (normal_slash_free _ _ Hn) as Hf.
  destruct (decide (reverse st = [])) as [Hnil|Hne].
  - apply (f_equal reverse) in Hnil. rewrite reverse_involutive in Hnil. subst st.
    by destruct r.
  - destruct r; simpl.
    + unfold clean_stack. simpl.
      rewrite split_join_free by done. by apply clean_stack_fix.
    + destruct (reverse st) as [|w l] eqn:E; [done|].
      rewrite split_join_free by done. rewrite <-E. by apply clean_stack_fix.
Qed.

Lemma is_rooted_Clean s : is_rooted (path_Clean s) = is_rooted s.
Proof. apply is_rooted_render, clean_stack_split_normal. Qed.

Lemma path_comps_Clean s : path_comps (path_Clean s) = path_comps s.
Proof.
  unfold path_comps. rewrite is_rooted_Clean. f_equal.
  apply clean_render, clean_stack_split_normal.
Qed.

Lemma path_Clean_idemp s : path_Clean (path_Clean s) = path_Clean s.
Proof. unfold path_Clean at 1. by rewrite is_rooted_Clean, path_comps_Clean. Qed.

Lemma fpath_Clean s : is_rooted s = true → fpath (path_Clean s) = fpath s.
Proof.
  intros Hr. pose proof (path_comps_Clean s) as H. unfold path_comps in H.
  rewrite is_rooted_Clean, Hr in H. by apply (inj reverse) in H.
Qed.

(** ** [filepath.Join] *)

Lemma join_slash_app p l : l ≠ [] → join_slash (p :: l) = p +:+ String "/" (join_slash l).
Proof. by destruct l. Qed.

Lemma not_empty_all l :
  Forall (λ e, e ≠ "") l → List.filter not_empty l = l.
Proof.
  induction 1 as [|e l He Hl IH]; [done|]. destruct e; [done|]. simpl. by rewrite IH.
Qed.

(** Joining plain elements to a rooted path descends through them. *)
Lemma fpath_Join_split p es :
  is_rooted p = true → Forall (λ e, e ≠ "") es →
  fpath (path_Join (p :: es)) = foldl (clean_step true) (fpath p) (mjoin (split_slash <$> es)).
Proof.
  intros Hp Hes. unfold path_Join.
  rewrite not_empty_all by (constructor; [by destruct p|done]).
  rewrite fpath_Clean.
  - unfold fpath, clean_stack. rewrite split_join_slash by done.
    simpl. by rewrite foldl_app.
  - destruct p; [done|]. destruct es; done.
Qed.

Lemma fpath_Join p es :
  is_rooted p = true → Forall elem_ok es →
  fpath (path_Join (p :: es)) = reverse es ++ fpath p.
Proof.
  intros Hp Hes. rewrite fpath_Join_split; [|done|].
  - assert (mjoin (split_slash <$> es) = es) as ->.
    { clear Hp. induction Hes as [|e es (_ & _ & _ & He) Hes IH]; [done|].
      rewrite fmap_cons. cbn [mjoin list_join]. rewrite split_slash_free by done.
      simpl. f_equal. exact IH. }
    by apply clean_foldl_ok.
  - eapply Forall_impl; [exact Hes|]. by intros ? (? & _).
Qed.

Lemma is_rooted_Join p es : is_rooted p = true → is_rooted (path_Join (p :: es)) = true.
Proof.
  intros Hp. destruct p as [|c p]; [done|]. unfold path_Join.
  change (List.filter not_empty (String c p :: es))
    with (String c p :: List.filter not_empty es). cbv iota.
  rewrite is_rooted_Clean. by destruct (List.filter not_empty es).
Qed.

(** ** [filepath.Rel] *)

Lemma strip_common_spec bs ts :
  ∃ l, bs = l ++ (strip_common bs ts).1 ∧ ts = l ++ (strip_common bs ts).2.
Proof.
  revert ts. induction bs as [|b bs IH]; intros ts; [by exists []|].
  destruct ts as [|t ts]; [by exists []|]. simpl.
  destruct (decide (b = t)) as [->|]; [|by exists []].
  destruct (IH ts) as (l & H1 & H2). exists (t :: l). simpl.
  split; by f_equal.
Qed.

Lemma strip_common_prefix bs rest : strip_common bs (bs ++ rest) = ([], rest).
Proof.
  induction bs as [|b bs IH]; [by destruct rest|]. simpl. by rewrite decide_True.
Qed.

Lemma strip_common_nil bs ts rest : strip_common bs ts = ([], rest) → ts = bs ++ rest.
Proof.
  intros H. destruct (strip_common_spec bs ts) as (l & H1 & H2).
  rewrite H in H1, H2. simpl in *. rewrite app_nil_r in H1. by subst.
Qed.

(** [..] elements of a cleaned path come first. *)
Lemma path_comps_shape s :
  ∃ n oks, path_comps s = replicate n ".." ++ oks ∧ Forall elem_ok oks
           ∧ (is_rooted s = true → n = 0).
Proof.
  destruct (clean_stack_split_normal (is_rooted s) s) as (oks & n & H & Hoks & Hn).
  exists n, (reverse oks). unfold path_comps. rewrite H, reverse_app, reverse_replicate.
  split; [done|]. split; [by apply Forall_reverse|done].
Qed.

Lemma path_Clean_eq a b :
  is_rooted a = is_rooted b → path_comps a = path_comps b → path_Clean a = path_Clean b.
Proof. unfold path_Clean. by intros -> ->. Qed.

Lemma path_comps_eq a b :
  path_Clean a = path_Clean b → path_comps a = path_comps b.
Proof. intros H. by rewrite <-(path_comps_Clean a), H, path_comps_Clean. Qed.
