(* ===== verification/Url.v ===== *)
(** URLs: the parts of Go's [net/url] the storage uses to form the address of
    a catalog. A base URL here has a scheme, a host and a path; [cmd/manager]
    builds it as [<external address>/catalogs/], without user information,
    query or fragment. *)
From Stdlib Require Import Ascii.
From S2P Require Import Prelude GoPath.

Record URL := mkURL {
  uScheme : string;
  uHost : string;
  uPath : string;      (** decoded *)
  uRawPath : string    (** the encoded path, when the default encoding differs *)
}.

(** ** Percent encoding *)

Definition between (a b : nat) (c : ascii) : bool :=
  Nat.leb a (nat_of_ascii c) && Nat.leb (nat_of_ascii c) b.

Definition is_alnum (c : ascii) : bool :=
  between 97 122 c || between 65 90 c || between 48 57 c.

Definition one_of (s : string) (c : ascii) : bool :=
  existsb (Ascii.eqb c) (String.list_ascii_of_string s).

Definition unreserved (c : ascii) : bool := is_alnum c || one_of "-_.~" c.

(** [shouldEscape(c, encodePath)]: of the reserved characters only [?]. *)
Definition shouldEscapePath (c : ascii) : bool :=
  negb (unreserved c || one_of "$&+,/:;=@" c).

(** [shouldEscape(c, encodeHost)]; character 34 is the quotation mark. *)
Definition shouldEscapeHost (c : ascii) : bool :=
  negb (unreserved c || one_of "!$&'()*+,;=:[]<>" c || Ascii.eqb c (ascii_of_nat 34)).

Definition upperhex (n : nat) : ascii :=
  ascii_of_nat (if Nat.ltb n 10 then 48 + n else 55 + n).

Fixpoint url_escape (should : ascii → bool) (s : string) : string :=
  match s with
  | EmptyString => EmptyString
  | String c s' =>
      if should c then
        String "%" (String (upperhex (nat_of_ascii c / 16))
          (String (upperhex (nat_of_ascii c mod 16)) (url_escape should s')))
      else String c (url_escape should s')
  end.

Definition unhex (c : ascii) : option nat :=
  if between 48 57 c then Some (nat_of_ascii c - 48)
  else if between 97 102 c then Some (nat_of_ascii c - 87)
  else if between 65 70 c then Some (nat_of_ascii c - 55)
  else None.

(** [unescape(s, encodePath)]: [None] is an [EscapeError]. *)
Fixpoint url_unescape (s : string) : option string :=
  match s with
  | EmptyString => Some EmptyString
  | String c s' =>
      if Ascii.eqb c "%" then
        match s' with
        | String a (String b s'') =>
            x ← unhex a; y ← unhex b; r ← url_unescape s'';
            Some (String (ascii_of_nat (16 * x + y)) r)
        | _ => None
        end
      else r ← url_unescape s'; Some (String c r)
  end.

Definition validEncoded (s : string) : bool :=
  forallb (λ c, one_of "!$&'()*+,;=:@[]%" c || negb (shouldEscapePath c))
    (String.list_ascii_of_string s).

(** ** Methods of [URL] *)

Definition EscapedPath (u : URL) : string :=
  if not_empty (uRawPath u) && validEncoded (uRawPath u)
     && bool_decide (url_unescape (uRawPath u) = Some (uPath u))
  then uRawPath u
  else if decide (uPath u = "*") then "*"
  else url_escape shouldEscapePath (uPath u).

Definition setPath (p : string) (u : URL) : URL :=
  match url_unescape p with
  | None => u
  | Some path =>
      mkURL (uScheme u) (uHost u) path
        (if decide (p = url_escape shouldEscapePath path) then EmptyString else p)
  end.

Definition ends_in_slash (s : string) : bool :=
  match reverse (String.list_ascii_of_string s) with c :: _ => is_slash c | [] => false end.

Definition drop1 (s : string) : string :=
  match s with String _ s' => s' | EmptyString => EmptyString end.

(** [u.JoinPath(elem)] with one element. *)
Definition JoinPath (u : URL) (elem : string) : URL :=
  let e0 := EscapedPath u in
  let p := if is_rooted e0 then path_Join [e0; elem]
           else drop1 (path_Join [String "/" e0; elem]) in
  let p' := if ends_in_slash elem && negb (ends_in_slash p) then p +:+ "/" else p in
  setPath p' u.

(** The path element before the first slash has a colon. *)
Definition colon_first (path : string) : bool :=
  match split_slash path with
  | seg :: _ => existsb (Ascii.eqb ":") (String.list_ascii_of_string seg)
  | [] => false
  end.

Definition URL_String (u : URL) : string :=
  let scheme := if not_empty (uScheme u) then uScheme u +:+ ":" else EmptyString in
  let authority :=
    if not_empty (uScheme u) || not_empty (uHost u) then
      (if not_empty (uHost u) || not_empty (uPath u) then "//" else EmptyString)
      +:+ url_escape shouldEscapeHost (uHost u)
    else EmptyString in
  let path := EscapedPath u in
  let slash := if not_empty path && negb (is_rooted path) && not_empty (uHost u)
               then "/" else EmptyString in
  let head := scheme +:+ authority +:+ slash in
  let dot := if negb (not_empty head) && colon_first path then "./" else EmptyString in
  head +:+ dot +:+ path.

(** ** [url.Parse] *)

(** The characters that start a query, a fragment, user information, an IPv6
    address or an escape, and control characters. *)
Definition special_char (c : ascii) : bool :=
  one_of "#?@[]%" c || Nat.ltb (nat_of_ascii c) 32 || Nat.eqb (nat_of_ascii c) 127.

(** The lower case letters before the first colon, and the rest. *)
Fixpoint cut_scheme (s : string) : option (string * string) :=
  match s with
  | EmptyString => None
  | String c s' =>
      if Ascii.eqb c ":" then Some (EmptyString, s')
      else if between 97 122 c then
        match cut_scheme s' with Some (a, b) => Some (String c a, b) | None => None end
      else None
  end.

(** Up to the first slash, and from there on. *)
Fixpoint cut_host (s : string) : string * string :=
  match s with
  | EmptyString => (EmptyString, EmptyString)
  | String c s' => if is_slash c then (EmptyString, s) else let '(a, b) := cut_host s' in (String c a, b)
  end.

(** After the last colon only digits. *)
Definition valid_port (host : string) : bool :=
  let cs := String.list_ascii_of_string host in
  if existsb (Ascii.eqb ":") cs
  then forallb (between 48 57) (List.rev ((fix upto (l : list ascii) :=
         match l with [] => [] | c :: l' => if Ascii.eqb c ":" then [] else c :: upto l' end) (List.rev cs)))
  else true.

(** URLs of other forms. *)
Class UrlParser := { url_Parse_other : string → URL + error }.

Definition url_Parse {UP : UrlParser} (s : string) : URL + error :=
  if existsb special_char (String.list_ascii_of_string s) then url_Parse_other s
  else
    match cut_scheme s with
    | Some (String _ _ as scheme, String "/" (String "/" rest)) =>
        let '(host, path) := cut_host rest in
        if negb (valid_port host) then inr (ErrString ("parse " +:+ s +:+ ": invalid port after host"))
        else if existsb shouldEscapeHost (String.list_ascii_of_string host)
        then inr (ErrString ("parse " +:+ s +:+ ": invalid character in host name"))
        else inl (setPath path (mkURL scheme host "" ""))
    | _ => url_Parse_other s
    end.

(** ** Plain paths: nothing to encode *)

Definition plain (s : string) : bool := forallb (λ c, negb (shouldEscapePath c)) (String.list_ascii_of_string s).

Lemma plain_cons c s : plain (String c s) = negb (shouldEscapePath c) && plain s.
Proof. done. Qed.

Lemma plain_app a b : plain (a +:+ b) = plain a && plain b.
Proof.
  induction a as [|c a IH]; [done|]. change (String c a +:+ b) with (String c (a +:+ b)).
  by rewrite !plain_cons, IH, andb_assoc.
Qed.

Lemma escape_plain s : plain s = true → url_escape shouldEscapePath s = s.
Proof.
  induction s as [|c s IH]; [done|]. rewrite plain_cons. intros [Hc Hs]%andb_true_iff.
  apply negb_true_iff in Hc. simpl. rewrite Hc. by rewrite IH.
Qed.

Lemma unescape_plain s : plain s = true → url_unescape s = Some s.
Proof.
  induction s as [|c s IH]; [done|]. rewrite plain_cons. intros [Hc Hs]%andb_true_iff.
  simpl. destruct (Ascii.eqb_spec c "%") as [->|]; [done|]. by rewrite IH.
Qed.

Lemma plain_split s : plain s = true → Forall (λ w, plain w = true) (split_slash s).
Proof.
  induction s as [|c s IH]; [by repeat constructor|]. rewrite plain_cons.
  intros [Hc Hs]%andb_true_iff. specialize (IH Hs). simpl.
  destruct (is_slash c); [by constructor|].
  destruct (split_slash s) as [|w ws]; inversion_clear IH; repeat constructor; try done.
  - by rewrite plain_cons, Hc.
  - rewrite plain_cons, Hc. done.
Qed.

Lemma plain_clean r cs : Forall (λ w, plain w = true) cs → Forall (λ w, plain w = true) (clean_stack r cs).
Proof.
  unfold clean_stack. assert (Forall (λ w, plain w = true) []) as H0 by constructor.
  revert H0. generalize (@nil string). intros st Hst Hcs. revert st Hst.
  induction Hcs as [|c cs Hc Hcs IH]; intros st Hst; [done|]. simpl. apply IH.
  unfold clean_step. case_decide; [done|]. case_decide; [|by constructor].
  destruct Hst; [destruct r; by repeat constructor|].
  case_decide; [|done]. repeat constructor; done.
Qed.

Lemma plain_join l : Forall (λ w, plain w = true) l → plain (join_slash l) = true.
Proof.
  induction 1 as [|w l Hw Hl IH]; [done|]. destruct l as [|w' l]; [done|].
  rewrite join_slash_app by done. rewrite plain_app, Hw. by rewrite plain_cons, IH.
Qed.

Lemma plain_comps s : plain s = true → Forall (λ w, plain w = true) (path_comps s).
Proof. intros Hs. apply Forall_reverse, plain_clean, plain_split, Hs. Qed.

(** A base URL as [cmd/manager] makes it: absolute, and with nothing to encode
    in its path. *)
Definition plain_base (u : URL) : Prop :=
  uScheme u ≠ "" ∧ uHost u ≠ "" ∧ uRawPath u = "" ∧ is_rooted (uPath u) = true ∧
  plain (uPath u) = true.

Lemma EscapedPath_plain u :
  uRawPath u = "" → is_rooted (uPath u) = true → plain (uPath u) = true →
  EscapedPath u = uPath u.
Proof.
  intros Hraw Hr Hp. unfold EscapedPath. rewrite Hraw. simpl. rewrite decide_False.
  - by apply escape_plain.
  - intros Heq. by rewrite Heq in Hr.
Qed.

Lemma join_elem p name :
  is_rooted p = true → elem_ok name → path_Join [p; name] = render true (path_comps p ++ [name]).
Proof.
  intros Hp Hn. pose proof Hn as (Hne & _ & _ & Hf).
  assert (Hj : path_Join [p; name] = path_Clean (p +:+ String "/" name)).
  { unfold path_Join. by destruct p, name. }
  rewrite Hj. unfold path_Clean, path_comps.
  rewrite is_rooted_app by (by destruct p). rewrite Hp. f_equal.
  rewrite split_slash_app, (split_slash_free name) by done. unfold clean_stack.
  rewrite foldl_app. simpl. rewrite clean_step_ok by done. by rewrite reverse_cons.
Qed.

Lemma ends_in_slash_free s : slash_free s = true → ends_in_slash s = false.
Proof.
  intros H. unfold ends_in_slash.
  assert (Hall : Forall (λ c, is_slash c = false) (String.list_ascii_of_string s)).
  { induction s as [|c s IH]; [by constructor|]. simpl in H.
    apply andb_true_iff in H as [Hc%negb_true_iff Hs]. constructor; [done|by apply IH]. }
  apply Forall_reverse in Hall. by destruct Hall.
Qed.

Lemma JoinPath_plain u name :
  plain_base u → elem_ok name → plain name = true →
  let p := render true (path_comps (uPath u) ++ [name]) in
  JoinPath u name = mkURL (uScheme u) (uHost u) p "" ∧ plain p = true.
Proof.
  intros (_ & _ & Hraw & Hr & Hp) Hn Hpn p.
  assert (Hpp : plain p = true).
  { unfold p, render. rewrite plain_cons. simpl. apply plain_join, Forall_app.
    split; [by apply plain_comps|by constructor]. }
  split; [|done]. unfold JoinPath. rewrite EscapedPath_plain, Hr, join_elem by done. fold p.
  rewrite ends_in_slash_free by apply Hn. simpl.
  unfold setPath. rewrite unescape_plain by done. rewrite escape_plain by done.
  by rewrite decide_True.
Qed.

(** The address of a catalog: its name is the last element of the path. *)
Lemma JoinPath_String u name :
  plain_base u → elem_ok name → plain name = true →
  URL_String (JoinPath u name) =
    uScheme u +:+ "://" +:+ url_escape shouldEscapeHost (uHost u)
    +:+ render true (path_comps (uPath u) ++ [name]).
Proof.
  intros Hu Hn Hp. destruct (JoinPath_plain u name Hu Hn Hp) as [-> Hpp].
  destruct Hu as (Hs & Hh & _).
  set (p := render true (path_comps (uPath u) ++ [name])) in *.
  unfold URL_String. rewrite EscapedPath_plain by done. cbn [uScheme uHost uPath].
  assert (not_empty (uScheme u) = true) as -> by (by destruct (uScheme u)).
  assert (not_empty (uHost u) = true) as -> by (by destruct (uHost u)).
  assert (not_empty p = true) as -> by done. assert (is_rooted p = true) as -> by done.
  cbn [andb orb negb].
  assert (∀ t, not_empty ((uScheme u +:+ ":") +:+ t) = true) as -> by (by destruct (uScheme u)).
  cbn [andb orb negb]. rewrite !string_app_assoc. done.
Qed.

Lemma render_last_inj cs a b :
  elem_ok a → elem_ok b → Forall (λ w, slash_free w = true) cs →
  render true (cs ++ [a]) = render true (cs ++ [b]) → a = b.
Proof.
  intros (_ & _ & _ & Ha) (_ & _ & _ & Hb) Hcs H. injection H as H.
  apply (f_equal split_slash) in H.
  rewrite !split_join_free in H; try (by destruct cs);
    try (apply Forall_app; split; [done|by constructor]).
  by apply app_inj_2 in H as [_ [= ?]].
Qed.
