(* ===== verification/OsFS.v ===== *)
(** The operating system: a file system tree, the calls of Go's [os] and
    [path/filepath] packages the program makes, and what each of them does to
    the tree, with every call able to fail or to be the last one the process
    makes. *)
From stdpp Require Import sorting pretty.
From S2P Require Import Prelude GoPath.

(** ** The tree

    Nodes are indexed by their path elements, leaf first, so the parent of
    [x :: p] is [p]. All nodes belong to the process, which is not the
    superuser: only the owner bits of a mode count. [os.Open] follows symbolic
    links ([leads] below); the other calls, which the program makes on
    directories it creates itself, fail with [ELOOP] on a path that
    leads through one. *)

Inductive node :=
  | Dir (mode : Z)
  | File (mode : Z) (data : string)
  | Symlink (target : string)
  | Special.

Abbreviation path := (list string).
Abbreviation fsT :=
  (@gmap (list string) (@list_eq_dec string String.eq_dec)
     (@list_countable string String.eq_dec String.countable) node).

#[global] Instance node_eq_dec : EqDecision node.
Proof. solve_decision. Defined.

Definition can_r (mode : Z) : bool := Z.testbit mode 8.
Definition can_w (mode : Z) : bool := Z.testbit mode 7.
Definition can_x (mode : Z) : bool := Z.testbit mode 6.

(** Modes in octal. *)
Definition m0700 : Z := 448.
Definition m0600 : Z := 384.
Definition m0500 : Z := 320.
Definition m0400 : Z := 256.

Inductive kind := KDir | KFile | KLink | KOther.

#[global] Instance kind_eq_dec : EqDecision kind.
Proof. solve_decision. Defined.

Definition node_kind (n : node) : kind :=
  match n with Dir _ => KDir | File _ _ => KFile | Symlink _ => KLink | Special => KOther end.

(** Searching the directories above [p]. *)
Fixpoint walk (m : fsT) (p : path) : option errno :=
  match p with
  | [] => None
  | _ :: q =>
      match walk m q with
      | Some e => Some e
      | None =>
          match m !! q with
          | None => Some ENOENT
          | Some (Dir md) => if can_x md then None else Some EACCES
          | Some (Symlink _) => Some ELOOP
          | Some _ => Some ENOTDIR
          end
      end
  end.

Definition find_node (m : fsT) (p : path) : errno + node :=
  match walk m p with
  | Some e => inl e
  | None => match m !! p with None => inl ENOENT | Some n => inr n end
  end.

(** The search for a path that follows symbolic links, as the kernel makes it:
    from the directory [cur], along the elements [todo], through at most [links]
    links, each of which is replaced by the elements of its target. *)
Fixpoint follow (links : nat) (m : fsT) : path → list string → errno + path :=
  fix go cur todo :=
    match todo with
    | [] => inr cur
    | x :: rest =>
        match m !! cur with
        | None => inl ENOENT
        | Some (Dir md) =>
            if can_x md then
              if decide (x = "" ∨ x = ".") then go cur rest
              else if decide (x = "..") then go (tail cur) rest
              else
                match m !! (x :: cur) with
                | None => inl ENOENT
                | Some (Symlink target) =>
                    match links with
                    | 0 => inl ELOOP
                    | S links' =>
                        follow links' m (if is_rooted target then [] else cur) (split_slash target ++ rest)
                    end
                | Some _ => go (x :: cur) rest
                end
            else inl EACCES
        | Some _ => inl ENOTDIR
        end
    end.

Definition MAXSYMLINKS : nat := 40.

(** The node a path leads to. *)
Definition leads (m : fsT) (p : path) : errno + node :=
  match follow MAXSYMLINKS m [] (reverse p) with
  | inl e => inl e
  | inr q => match m !! q with None => inl ENOENT | Some n => inr n end
  end.

(** Entries of the parent directory of [p] may be created and removed. *)
Definition parent_writable (m : fsT) (p : path) : bool :=
  match p with
  | [] => false
  | _ :: q => match m !! q with Some (Dir md) => can_w md | _ => false end
  end.

Definition child_entry (p : path) (kn : path * node) : option (string * kind) :=
  match kn.1 with
  | x :: q => if decide (q = p) then Some (x, node_kind kn.2) else None
  | [] => None
  end.

Definition entry_le (a b : string * kind) : Prop := String.le a.1 b.1.
#[global] Instance entry_le_dec : RelDecision entry_le.
Proof. intros a b. unfold entry_le. apply _. Defined.

(** The entries of a directory, sorted by name. *)
Definition entries (m : fsT) (p : path) : list (string * kind) :=
  merge_sort entry_le (omap (child_entry p) (map_to_list m)).

Definition longer (a b : path) : Prop := length b ≤ length a.
#[global] Instance longer_dec : RelDecision longer.
Proof. intros a b. unfold longer. apply _. Defined.

(** The nodes at and below [p], children before their parents. *)
Definition postorder (m : fsT) (p : path) : list path :=
  merge_sort longer (List.filter (λ q, bool_decide (p `suffix_of` q)) (map_to_list m).*1).

(** The directories from [p] down to the parent of [q] can be listed. *)
Fixpoint listable (m : fsT) (p q : path) : bool :=
  match q with
  | [] => true
  | _ :: q' =>
      if decide (p `suffix_of` q') then
        listable m p q' && match m !! q' with Some (Dir md) => can_r md | _ => false end
      else true
  end.

Definition fs_depth (m : fsT) : nat := max_list (length <$> (map_to_list m).*1).

(** ** The process and its environment *)

(** What may happen to a system call: nothing, a failure of the device (it is
    full, or broken; a failing write has already written some bytes), or the
    end of the process. *)
Inductive fault :=
  | FNone
  | FErr (full : bool) (written : nat)
  | FKill.

Definition fault_errno (full : bool) : errno := if full then ENOSPC else EIO.

Record OS := mkOS {
  os_fs : fsT;
  os_faults : list fault;      (** of the coming system calls; none when empty *)
  os_rand : list N;            (** random numbers [os.CreateTemp] will draw *)
  os_clock : Z;
  os_ticks : list Z            (** how far the clock moves before each reading *)
}.

Definition set_fs (m : fsT) (w : OS) : OS :=
  mkOS m (os_faults w) (os_rand w) (os_clock w) (os_ticks w).
Definition set_faults (l : list fault) (w : OS) : OS :=
  mkOS (os_fs w) l (os_rand w) (os_clock w) (os_ticks w).
Definition set_rand (l : list N) (w : OS) : OS :=
  mkOS (os_fs w) (os_faults w) l (os_clock w) (os_ticks w).

Definition pop_fault (w : OS) : fault * OS :=
  match os_faults w with
  | [] => (FNone, w)
  | f :: l => (f, set_faults l w)
  end.

(** [time.Now()] *)
Definition time_Now : GoM OS Z := λ w,
  match os_ticks w with
  | [] => (Ok (os_clock w), w)
  | d :: l =>
      let t := (os_clock w + d)%Z in
      (Ok t, mkOS (os_fs w) (os_faults w) (os_rand w) t l)
  end.

(** A system call on the tree. *)
Definition sys {A : Type} (op : string) (p : path) (f : fsT → errno + A * fsT) : GoM OS A := λ w,
  match pop_fault w with
  | (FKill, w1) => (Crash, w1)
  | (FErr full _, w1) => (Err (ErrErrno op p (fault_errno full)), w1)
  | (FNone, w1) =>
      match f (os_fs w1) with
      | inl en => (Err (ErrErrno op p en), w1)
      | inr (a, m') => (Ok a, set_fs m' w1)
      end
  end.

Definition os_Lstat (p : path) : GoM OS node :=
  sys "lstat" p (λ m, match find_node m p with inl e => inl e | inr n => inr (n, m) end).

Definition os_Stat (p : path) : GoM OS node :=
  sys "stat" p (λ m,
    match find_node m p with
    | inl e => inl e
    | inr (Symlink _) => inl ELOOP
    | inr n => inr (n, m)
    end).

Definition set_mode (mode : Z) (n : node) : node :=
  match n with
  | Dir _ => Dir mode
  | File _ d => File mode d
  | n => n
  end.

Definition os_Chmod (p : path) (mode : Z) : GoM OS unit :=
  sys "chmod" p (λ m,
    match find_node m p with
    | inl e => inl e
    | inr (Symlink _) => inl ELOOP
    | inr n => inr (tt, <[p := set_mode mode n]> m)
    end).

Definition os_Mkdir (p : path) (perm : Z) : GoM OS unit :=
  sys "mkdir" p (λ m,
    match walk m p with
    | Some e => inl e
    | None =>
        match m !! p with
        | Some _ => inl EEXIST
        | None => if parent_writable m p then inr (tt, <[p := Dir perm]> m) else inl EACCES
        end
    end).

(** [os.MkdirAll]: ask first, then create the parent, then the directory; a
    directory that someone else made in between is fine. *)
Fixpoint os_MkdirAll (p : path) (perm : Z) : GoM OS unit :=
  st <- try (os_Stat p) ;;
  match st with
  | inl (Dir _) => ret tt
  | inl _ => throw (ErrErrno "mkdir" p ENOTDIR)
  | inr _ =>
      (match p with [] => ret tt | _ :: q => os_MkdirAll q perm end) ;;
      r <- try (os_Mkdir p perm) ;;
      match r with
      | inl _ => ret tt
      | inr e =>
          l <- try (os_Lstat p) ;;
          match l with
          | inl (Dir _) => ret tt
          | _ => throw e
          end
      end
  end.

(** [os.ReadDir] *)
Definition os_ReadDir (p : path) : GoM OS (list (string * kind)) :=
  sys "readdir" p (λ m,
    match find_node m p with
    | inl e => inl e
    | inr (Dir md) => if can_r md then inr (entries m p, m) else inl EACCES
    | inr (Symlink _) => inl ELOOP
    | inr _ => inl ENOTDIR
    end).

Definition remove_node (m : fsT) (p : path) : errno + unit * fsT :=
  match find_node m p with
  | inl e => inl e
  | inr n =>
      if parent_writable m p then
        match n, entries m p with
        | Dir _, _ :: _ => inl ENOTEMPTY
        | _, _ => inr (tt, delete p m)
        end
      else inl EACCES
  end.

(** [os.Remove]: a file or an empty directory. *)
Definition os_Remove (p : path) : GoM OS unit := sys "remove" p (λ m, remove_node m p).

(** [os.RemoveAll]: removes what it can below [p], children first, and reports
    the first error when [p] is still there in the end. A path that does not
    exist is not an error. *)
Fixpoint remove_each (p : path) (qs : list path) (first : option error)
    : GoM OS (option error) :=
  match qs with
  | [] => ret first
  | q :: qs' =>
      r <- try (sys "unlinkat" q (λ m,
                  if listable m p q then remove_node m q else inl EACCES)) ;;
      remove_each p qs'
        (match first, r with None, inr e => Some e | _, _ => first end)
  end.

Definition os_RemoveAll (p : path) : GoM OS unit :=
  r <- try (os_Lstat p) ;;
  match r with
  | inr e => if os_IsNotExist e then ret tt else throw e
  | inl _ =>
      m <- gets os_fs ;;
      first <- remove_each p (postorder m p) None ;;
      m' <- gets os_fs ;;
      match first, m' !! p with
      | Some e, Some _ => throw e
      | _, _ => ret tt
      end
  end.

(** [os.CreateTemp(dir, prefix)]: tries random names until one is free. *)
Definition open_excl (p : path) (mode : Z) : GoM OS unit :=
  sys "open" p (λ m,
    match walk m p with
    | Some e => inl e
    | None =>
        match m !! p with
        | Some _ => inl EEXIST
        | None => if parent_writable m p then inr (tt, <[p := File mode ""]> m) else inl EACCES
        end
    end).

Definition temp_path (dir : path) (prefix : string) (x : N) : path :=
  (prefix +:+ pretty x) :: dir.

Fixpoint create_temp (dir : path) (prefix : string) (draws : list N) : GoM OS path :=
  match draws with
  | [] => throw (ErrErrno "createtemp" ((prefix +:+ "*") :: dir) EEXIST)
  | x :: draws' =>
      let p := temp_path dir prefix x in
      modify (set_rand draws') ;;
      r <- try (open_excl p m0600) ;;
      match r with
      | inl _ => ret p
      | inr (ErrErrno _ _ EEXIST) => create_temp dir prefix draws'
      | inr e => throw e
      end
  end.

Definition os_CreateTemp (dir : path) (prefix : string) : GoM OS path :=
  draws <- gets os_rand ;; create_temp dir prefix draws.

(** [os.MkdirTemp(dir, prefix)] likewise makes a directory. *)
Fixpoint mkdir_temp (dir : path) (prefix : string) (draws : list N) : GoM OS path :=
  match draws with
  | [] => throw (ErrErrno "mkdirtemp" ((prefix +:+ "*") :: dir) EEXIST)
  | x :: draws' =>
      let p := temp_path dir prefix x in
      modify (set_rand draws') ;;
      r <- try (os_Mkdir p m0700) ;;
      match r with
      | inl _ => ret p
      | inr (ErrErrno _ _ EEXIST) => mkdir_temp dir prefix draws'
      | inr e => throw e
      end
  end.

Definition os_MkdirTemp (dir : path) (prefix : string) : GoM OS path :=
  draws <- gets os_rand ;; mkdir_temp dir prefix draws.

Definition append_data (p : path) (d : string) (m : fsT) : fsT :=
  match m !! p with
  | Some (File md d0) => <[p := File md (d0 +:+ d)]> m
  | _ => m
  end.

(** The [Write] method of an [os.File] opened for appending output; a failing write
    may leave a part of the data behind. *)
Definition file_Write (p : path) (d : string) : GoM OS unit := λ w,
  match pop_fault w with
  | (FKill, w1) => (Crash, w1)
  | (FErr full k, w1) =>
      (Err (ErrErrno "write" p (fault_errno full)), set_fs (append_data p (String.substring 0 k d) (os_fs w1)) w1)
  | (FNone, w1) => (Ok tt, set_fs (append_data p d (os_fs w1)) w1)
  end.

(** [os.Open] for reading: what the descriptor refers to. *)
Definition os_Open (p : path) : GoM OS node :=
  sys "open" p (λ m,
    match leads m p with
    | inl en => inl en
    | inr (Dir md) => if can_r md then inr (Dir md, m) else inl EACCES
    | inr (File md d) => if can_r md then inr (File md d, m) else inl EACCES
    | inr (Symlink _) => inl ELOOP
    | inr Special => inr (Special, m)
    end).

(** [file.Stat] on an open file. *)
Definition file_Stat (p : path) (n : node) : GoM OS node := sys "stat" p (λ m, inr (n, m)).

(** [os.ReadFile]: opens the file and reads it to its end. *)
Definition os_ReadFile (p : path) : GoM OS string :=
  n <- os_Open p ;;
  sys "read" p (λ m, match n with
                     | File _ d => inr (d, m)
                     | Dir _ => inl EISDIR
                     | _ => inl EINVAL
                     end).

(** [os.Rename] of a file: replaces a file at the new name in one step, and
    refuses a directory there. *)
Definition os_Rename (p q : path) : GoM OS unit :=
  sys "rename" p (λ m,
    match find_node m p, walk m q with
    | inl e, _ => inl e
    | _, Some e => inl e
    | inr n, None =>
        if parent_writable m p && parent_writable m q then
          match n, m !! q with
          | Dir _, _ => inl EINVAL
          | _, Some (Dir _) => inl EEXIST
          | _, _ => inr (tt, <[q := n]> (delete p m))
          end
        else inl EACCES
    end).

(** [os.WriteFile]: truncates or creates, then writes. *)
Definition os_WriteFile (p : path) (d : string) (perm : Z) : GoM OS unit :=
  sys "open" p (λ m,
    match walk m p with
    | Some e => inl e
    | None =>
        match m !! p with
        | Some (File md _) => if can_w md then inr (tt, <[p := File md ""]> m) else inl EACCES
        | Some (Dir _) => inl EISDIR
        | Some (Symlink _) => inl ELOOP
        | Some Special => inl EINVAL
        | None => if parent_writable m p then inr (tt, <[p := File perm ""]> m) else inl EACCES
        end
    end) ;;
  file_Write p d.

(** [filepath.WalkDir]: pre-order, entries in lexical order, links not
    followed. The callbacks of this program never return [SkipDir]. *)
Definition walk_fn : Type := path → kind → option error → GoM OS unit.

Fixpoint walk_dir (fuel : nat) (fn : walk_fn) (p : path) (k : kind) : GoM OS unit :=
  fn p k None ;;
  match k with
  | KDir =>
      match fuel with
      | 0 => panic "walk_dir: fuel"
      | S fuel' =>
          r <- try (os_ReadDir p) ;;
          match r with
          | inl es => forM es (λ e, walk_dir fuel' fn (e.1 :: p) e.2)
          | inr e => fn p k (Some e)
          end
      end
  | _ => ret tt
  end.

Definition filepath_WalkDir (root : path) (fn : walk_fn) : GoM OS unit :=
  r <- try (os_Lstat root) ;;
  match r with
  | inr e => fn root KOther (Some e)
  | inl n =>
      m <- gets os_fs ;;
      walk_dir (S (fs_depth m)) fn root (node_kind n)
  end.

(** ** Well-formed trees *)

Definition path_ok (p : path) : Prop := Forall elem_ok p.

(** Every node has a plain name and its parent is a directory. *)
Definition wf_fs (m : fsT) : Prop :=
  ∀ x p n, m !! (x :: p) = Some n → elem_ok x ∧ ∃ md, m !! p = Some (Dir md).

Definition no_faults (w : OS) : Prop := os_faults w = [].

(** The path can be reached, and is a directory in which the process may do
    everything. *)
Definition usable_dir (m : fsT) (p : path) : Prop :=
  walk m p = None ∧ ∃ md, m !! p = Some (Dir md) ∧ can_r md = true ∧ can_w md = true ∧ can_x md = true.

(** Relations between trees, and between the states of the process. *)
Definition changes_only (P : path → Prop) (m m' : fsT) : Prop :=
  ∀ q, ¬ P q → m' !! q = m !! q.

Definition keeps_wf (m m' : fsT) : Prop := wf_fs m → wf_fs m'.

Definition fs_rel (R : fsT → fsT → Prop) (w w' : OS) : Prop := R (os_fs w) (os_fs w').

Definition keeps_calm (w w' : OS) : Prop := no_faults w → no_faults w'.
