(* ===== verification/OsLemmas.v ===== *)
(** Facts about the operating system model: which nodes each call touches
    whatever fails, that trees stay well formed, and what the calls do when
    nothing fails. *)
From stdpp Require Import sorting pretty.
From S2P Require Import Prelude GoPath OsFS.

(** ** Relations *)

#[global] Instance changes_only_preorder P : PreOrder (changes_only P).
Proof.
  split; [intros m q _; done|].
  intros m1 m2 m3 H1 H2 q Hq. by rewrite H2, H1.
Qed.

#[global] Instance keeps_wf_preorder : PreOrder keeps_wf.
Proof. split; [by intros m H|]. intros m1 m2 m3 H1 H2 H. by apply H2, H1. Qed.

#[global] Instance fs_rel_preorder R : PreOrder R → PreOrder (fs_rel R).
Proof.
  intros [Hr Ht]. split; unfold fs_rel; [intros w; apply Hr|].
  intros w1 w2 w3; apply Ht.
Qed.

#[global] Instance keeps_calm_preorder : PreOrder keeps_calm.
Proof. split; [by intros w H|]. intros w1 w2 w3 H1 H2 H. by apply H2, H1. Qed.

Lemma changes_only_insert (P : path → Prop) (m : fsT) p n : P p → changes_only P m (<[p := n]> m).
Proof. intros Hp q Hq. rewrite lookup_insert_ne; [done|]. by intros ->. Qed.

Lemma changes_only_delete (P : path → Prop) (m : fsT) p : P p → changes_only P m (delete p m).
Proof. intros Hp q Hq. rewrite lookup_delete_ne; [done|]. by intros ->. Qed.

Lemma changes_only_mono (P Q : path → Prop) m m' :
  (∀ q, P q → Q q) → changes_only P m m' → changes_only Q m m'.
Proof. intros HPQ H q Hq. apply H. naive_solver. Qed.

Lemma stable_fs_mono {A : Type} (R R' : fsT → fsT → Prop) (c : GoM OS A) :
  (∀ m m', R m m' → R' m m') → stable (fs_rel R) c → stable (fs_rel R') c.
Proof. intros H Hc w. apply H, Hc. Qed.

(** ** System calls *)

Section sys.
Context (R : fsT → fsT → Prop) `{!PreOrder R}.

Lemma stable_sys {A : Type} op p (f : fsT → errno + A * fsT) :
  (∀ m a m', f m = inr (a, m') → R m m') → stable (fs_rel R) (sys op p f).
Proof.
  intros Hf w. unfold sys, pop_fault, fs_rel.
  destruct (os_faults w) as [|[| |] l]; simpl; try reflexivity.
  - destruct (f (os_fs w)) as [e|[a m']] eqn:E; simpl; [reflexivity|eauto].
  - destruct (f (os_fs w)) as [e|[a m']] eqn:E; simpl; [reflexivity|eauto].
Qed.

Lemma stable_read {A : Type} op p (f : fsT → errno + A) :
  stable (fs_rel R) (sys op p (λ m, match f m with inl e => inl e | inr a => inr (a, m) end)).
Proof.
  apply stable_sys. intros m a m'. destruct (f m); [done|]. intros [= _ <-]. reflexivity.
Qed.

Lemma stable_Lstat p : stable (fs_rel R) (os_Lstat p).
Proof. apply stable_read. Qed.

Lemma stable_Stat p : stable (fs_rel R) (os_Stat p).
Proof.
  apply stable_sys. intros m a m'. destruct (find_node m p) as [|[]]; try done;
    intros [= _ <-]; reflexivity.
Qed.

Lemma stable_ReadDir p : stable (fs_rel R) (os_ReadDir p).
Proof.
  apply stable_sys. intros m a m'. destruct (find_node m p) as [|[md| | |]]; try done.
  destruct (can_r md); [|done]. intros [= _ <-]; reflexivity.
Qed.

Lemma stable_Chmod p mode :
  (∀ m n, m !! p = Some n → R m (<[p := set_mode mode n]> m)) →
  stable (fs_rel R) (os_Chmod p mode).
Proof.
  intros HR. apply stable_sys. intros m a m'. unfold find_node.
  destruct (walk m p); [done|]. destruct (m !! p) as [n|] eqn:E; [|done].
  destruct n as [md|md d| |]; try done; intros [= _ <-];
    [apply (HR m (Dir md))|apply (HR m (File md d))|apply (HR m Special)]; done.
Qed.

Lemma stable_Mkdir p perm :
  (∀ m, walk m p = None → m !! p = None → parent_writable m p = true →
        R m (<[p := Dir perm]> m)) →
  stable (fs_rel R) (os_Mkdir p perm).
Proof.
  intros HR. apply stable_sys. intros m a m'. destruct (walk m p) eqn:Ew; [done|].
  destruct (m !! p) as [n|] eqn:E; [done|]. destruct (parent_writable m p) eqn:Ep; [|done].
  intros [= _ <-]. by apply HR.
Qed.

Lemma stable_open_excl p mode :
  (∀ m, walk m p = None → m !! p = None → parent_writable m p = true →
        R m (<[p := File mode ""]> m)) →
  stable (fs_rel R) (open_excl p mode).
Proof.
  intros HR. apply stable_sys. intros m a m'. destruct (walk m p) eqn:Ew; [done|].
  destruct (m !! p) as [n|] eqn:E; [done|]. destruct (parent_writable m p) eqn:Ep; [|done].
  intros [= _ <-]. by apply HR.
Qed.

Lemma remove_node_inv m p u m' :
  remove_node m p = inr (u, m') →
  ∃ n, m !! p = Some n ∧ walk m p = None ∧ parent_writable m p = true ∧ m' = delete p m
       ∧ (∀ md, n = Dir md → entries m p = []).
Proof.
  unfold remove_node, find_node. destruct (walk m p) eqn:Ew; [done|].
  destruct (m !! p) as [n|] eqn:E; [|done]. destruct (parent_writable m p); [|done].
  destruct n, (entries m p) eqn:Ee; try done; intros [= _ <-]; eexists; repeat split; naive_solver.
Qed.

Lemma stable_remove_sys op p (g : fsT → bool) :
  (∀ m n, m !! p = Some n → (∀ md, n = Dir md → entries m p = []) → R m (delete p m)) →
  stable (fs_rel R) (sys op p (λ m, if g m then remove_node m p else inl EACCES)).
Proof.
  intros HR. apply stable_sys. intros m a m'. destruct (g m); [|done].
  intros (n & Hn & _ & _ & -> & He)%remove_node_inv. eauto.
Qed.

Lemma stable_Remove p :
  (∀ m n, m !! p = Some n → (∀ md, n = Dir md → entries m p = []) → R m (delete p m)) →
  stable (fs_rel R) (os_Remove p).
Proof.
  intros HR. apply stable_sys. intros m a m'.
  intros (n & Hn & _ & _ & -> & He)%remove_node_inv. eauto.
Qed.

Lemma stable_RemoveAll p :
  (∀ m q n, p `suffix_of` q → m !! q = Some n → (∀ md, n = Dir md → entries m q = []) →
            R m (delete q m)) →
  stable (fs_rel R) (os_RemoveAll p).
Proof.
  intros HR. unfold os_RemoveAll.
  assert (Hrem : ∀ qs first, (∀ q, q ∈ qs → p `suffix_of` q) →
            stable (fs_rel R) (remove_each p qs first)).
  { induction qs as [|q qs IH]; intros first Hqs; simpl; [apply stable_ret, _|].
    apply (stable_bind (fs_rel R)).
    - apply (stable_try (fs_rel R)), stable_remove_sys. intros m n. apply HR, Hqs. left.
    - intros r. apply IH. intros q' Hq'. apply Hqs. by right. }
  apply (stable_bind (fs_rel R)); [apply (stable_try (fs_rel R)), stable_Lstat|].
  intros [n|e].
  - apply (stable_bind (fs_rel R)); [apply stable_gets, _|]. intros m.
    apply (stable_bind (fs_rel R)).
    + apply Hrem. intros q Hq. unfold postorder in Hq. rewrite merge_sort_Permutation in Hq.
      apply list_elem_of_In, filter_In in Hq as [_ Hq]. by apply bool_decide_eq_true in Hq.
    + intros first. apply (stable_bind (fs_rel R)); [apply stable_gets, _|]. intros m'.
      destruct first, (m' !! p); apply stable_ret || apply stable_throw; apply _.
  - destruct (os_IsNotExist e); [apply stable_ret, _|apply stable_throw, _].
Qed.

Lemma stable_Write p d :
  (∀ m md d0 d1, m !! p = Some (File md d0) → R m (<[p := File md d1]> m)) →
  stable (fs_rel R) (file_Write p d).
Proof.
  intros HR w. unfold file_Write, pop_fault, fs_rel.
  assert (Ha : ∀ d' m, R m (append_data p d' m)).
  { intros d' m. unfold append_data. destruct (m !! p) as [[]|] eqn:E; try reflexivity. eauto. }
  destruct (os_faults w) as [|[| |] l]; simpl; try reflexivity; apply Ha.
Qed.

Lemma stable_CreateTemp dir prefix :
  (∀ m x, walk m (temp_path dir prefix x) = None → m !! temp_path dir prefix x = None →
          R m (<[temp_path dir prefix x := File m0600 ""]> m)) →
  stable (fs_rel R) (os_CreateTemp dir prefix).
Proof.
  intros HR. unfold os_CreateTemp.
  apply (stable_bind (fs_rel R)); [apply stable_gets, _|].
  induction a as [|x draws IH]; simpl; [apply stable_throw, _|].
  apply (stable_bind (fs_rel R)).
  { apply stable_modify. intros w. unfold fs_rel. simpl. reflexivity. }
  intros _. apply (stable_bind (fs_rel R)).
  { apply (stable_try (fs_rel R)), stable_open_excl. eauto. }
  intros [u|e]; [apply stable_ret, _|].
  destruct e as [| | | |? ? []|]; try apply stable_throw, _. exact IH.
Qed.
End sys.

Lemma stable_MkdirAll (R : fsT → fsT → Prop) `{!PreOrder R} p perm :
  (∀ m q, q `suffix_of` p → walk m q = None → m !! q = None → parent_writable m q = true →
          R m (<[q := Dir perm]> m)) →
  stable (fs_rel R) (os_MkdirAll p perm).
Proof.
  induction p as [|x p IH]; intros HR; simpl.
  all: apply (stable_bind (fs_rel R)); [apply (stable_try (fs_rel R)), stable_Stat, _|].
  all: intros [[]|]; try apply stable_ret, _; try apply stable_throw, _.
  all: apply (stable_bind (fs_rel R)).
  1: apply stable_ret, _.
  2: { apply IH. intros m q Hq. apply HR. by apply suffix_cons_r. }
  all: intros _; apply (stable_bind (fs_rel R)).
  1, 3: apply (stable_try (fs_rel R)), stable_Mkdir; [apply _|]; intros m; by apply HR.
  all: intros [|]; [apply stable_ret, _|].
  all: apply (stable_bind (fs_rel R)); [apply (stable_try (fs_rel R)), stable_Lstat, _|].
  all: intros [[]|]; first [apply stable_ret, _ | apply stable_throw, _].
Qed.

(** ** Directories and searching *)

Lemma elem_of_entries m p x k :
  (x, k) ∈ entries m p ↔ ∃ n, m !! (x :: p) = Some n ∧ node_kind n = k.
Proof.
  unfold entries. rewrite merge_sort_Permutation, list_elem_of_omap. split.
  - intros ([q n] & Hq & He). apply elem_of_map_to_list in Hq.
    unfold child_entry in He. simpl in He. destruct q as [|y q]; [done|].
    case_decide; [|done]. simplify_eq. eauto.
  - intros (n & Hn & <-). exists (x :: p, n). rewrite elem_of_map_to_list.
    split; [done|]. unfold child_entry. simpl. by rewrite decide_True.
Qed.

Lemma entries_nil m p : entries m p = [] ↔ ∀ x, m !! (x :: p) = None.
Proof.
  split.
  - intros He x. apply eq_None_not_Some. intros [n Hn].
    assert ((x, node_kind n) ∈ entries m p) as Hin by (apply elem_of_entries; eauto).
    rewrite He in Hin. by apply not_elem_of_nil in Hin.
  - intros H. destruct (entries m p) as [|[x k] l] eqn:E; [done|].
    destruct (proj1 (elem_of_entries m p x k)) as (n & Hn & _).
    { rewrite E. left. }
    by rewrite H in Hn.
Qed.

Lemma walk_cons m x q :
  walk m (x :: q) = None ↔
  walk m q = None ∧ ∃ md, m !! q = Some (Dir md) ∧ can_x md = true.
Proof.
  simpl. split.
  - destruct (walk m q); [done|].
    destruct (m !! q) as [[md| | |]|]; try done. destruct (can_x md) eqn:E; [eauto|done].
  - intros (-> & md & -> & ->). done.
Qed.

(** Searching only reads the directories strictly above. *)
Lemma walk_ext m m' p :
  (∀ q x, (x :: q) `suffix_of` p → m' !! q = m !! q) → walk m' p = walk m p.
Proof.
  induction p as [|x p IH]; intros H; [done|]. simpl.
  rewrite IH by (intros q y Hq; apply (H q y); by apply suffix_cons_r).
  by rewrite (H p x) by done.
Qed.

Lemma suffix_strict (x : string) (q p : path) :
  (x :: q) `suffix_of` p → p `suffix_of` q → False.
Proof.
  intros H1%suffix_length H2%suffix_length. simpl in *. lia.
Qed.

Lemma suffix_child_inj (x y : string) (p q : path) :
  (x :: p) `suffix_of` q → (y :: p) `suffix_of` q → x = y.
Proof.
  intros [k1 ->] [k2 H]. assert (length k1 = length k2) as Hl.
  { apply (f_equal length) in H. rewrite !length_app in H. simpl in H. lia. }
  apply app_inj_1 in H as [_ H]; [|done]. by simplify_eq.
Qed.

(** A proper ancestor has a child on the way. *)
Lemma suffix_child (q p : path) :
  q `suffix_of` p → q ≠ p → ∃ x, (x :: q) `suffix_of` p.
Proof.
  intros [k ->] Hne. destruct k as [|x k _] using rev_ind; [done|].
  exists x. exists k. by rewrite <-app_assoc.
Qed.

(** *** Following links *)

Lemma follow_step links m x p rest :
  elem_ok x →
  follow links m p (x :: rest) =
  match m !! p with
  | None => inl ENOENT
  | Some (Dir md) =>
      if can_x md then
        match m !! (x :: p) with
        | None => inl ENOENT
        | Some (Symlink target) =>
            match links with
            | 0 => inl ELOOP
            | S links' => follow links' m (if is_rooted target then [] else p) (split_slash target ++ rest)
            end
        | Some _ => follow links m (x :: p) rest
        end
      else inl EACCES
  | Some _ => inl ENOTDIR
  end.
Proof.
  intros (H1 & H2 & H3 & _). destruct links; simpl;
    destruct (m !! p) as [[md| | |]|]; try done; destruct (can_x md); try done;
    rewrite decide_False by (by intros [|]); by rewrite decide_False by done.
Qed.

Definition is_link (n : node) : bool := match n with Symlink _ => true | _ => false end.

(** Up to a place that is reached without links, the two searches agree. *)
Lemma follow_reached links m p n rest :
  path_ok p → walk m p = None → m !! p = Some n → is_link n = false →
  follow links m [] (reverse p ++ rest) = follow links m p rest.
Proof.
  revert n rest. induction p as [|x p IH]; intros n rest Hok Hw Hn Hl; [done|].
  apply Forall_cons in Hok as [Hx Hok]. apply walk_cons in Hw as [Hw (md & Hmd & Hcx)].
  rewrite reverse_cons, <-app_assoc, (IH (Dir md)) by done. simpl. rewrite follow_step by done.
  rewrite Hmd, Hcx, Hn. by destruct n.
Qed.

Lemma follow_blocked links m p e rest :
  path_ok p → walk m p = Some e → e ≠ ELOOP → follow links m [] (reverse p ++ rest) = inl e.
Proof.
  revert rest. induction p as [|x p IH]; intros rest Hok Hw He; [done|].
  apply Forall_cons in Hok as [Hx Hok]. rewrite reverse_cons, <-app_assoc. simpl in Hw |- *.
  destruct (walk m p) as [e'|] eqn:Ew; [injection Hw as ->; by apply IH|].
  destruct (m !! p) as [n|] eqn:En.
  - assert (is_link n = false) as Hl by (destruct n; try done; congruence).
    rewrite (follow_reached _ _ _ n) by done. rewrite follow_step, En by done.
    destruct n as [md| | |]; try (injection Hw as <-; done). destruct (can_x md); [done|].
    by injection Hw as <-.
  - injection Hw as <-. destruct p as [|y p]; simpl; [by rewrite follow_step, En by done|].
    apply Forall_cons in Hok as [Hy Hok]. apply walk_cons in Ew as [Ew (md & Hmd & Hcx)].
    rewrite reverse_cons, <-app_assoc, (follow_reached _ _ _ (Dir md)) by done. simpl.
    by rewrite follow_step, Hmd, Hcx, En by done.
Qed.

Lemma leads_find m p :
  path_ok p →
  match find_node m p with
  | inl ELOOP | inr (Symlink _) => True
  | r => leads m p = r
  end.
Proof.
  intros Hok. unfold find_node, leads. rewrite <-(app_nil_r (reverse p)).
  destruct (walk m p) as [e|] eqn:Ew.
  { destruct (decide (e = ELOOP)) as [->|He]; [done|]. rewrite (follow_blocked _ _ _ e) by done.
    by destruct e. }
  destruct (m !! p) as [n|] eqn:En.
  - destruct (is_link n) eqn:El; [by destruct n|]. rewrite (follow_reached _ _ _ n) by done.
    assert (follow MAXSYMLINKS m p [] = inr p) as -> by done. rewrite En. by destruct n.
  - destruct p as [|x p]; [simpl; by rewrite En|].
    apply Forall_cons in Hok as [Hx Hok]. apply walk_cons in Ew as [Ew (md & Hmd & Hcx)].
    rewrite reverse_cons, <-app_assoc, (follow_reached _ _ _ (Dir md)) by done. cbn [app].
    by rewrite follow_step, Hmd, Hcx, En by done.
Qed.

(** Where there are no links to follow, a node that is found is the one with that
    path. *)
Definition link_free (m : fsT) (dir : path) : Prop :=
  ∀ q t, dir `suffix_of` q ∨ q `suffix_of` dir → m !! q ≠ Some (Symlink t).

Lemma walk_loop m p : walk m p = Some ELOOP → ∃ q t, q `suffix_of` p ∧ m !! q = Some (Symlink t).
Proof.
  induction p as [|x p IH]; [done|]. simpl. destruct (walk m p) as [e|] eqn:Ew.
  - intros [= ->]. destruct (IH eq_refl) as (q & t & Hq & Ht). exists q, t.
    split; [by apply suffix_cons_r|done].
  - destruct (m !! p) as [[md| |t|]|] eqn:E; try done; [by destruct (can_x md)|].
    intros _. exists p, t. split; [by apply suffix_cons_r|done].
Qed.

Lemma leads_link_free m dir p n :
  path_ok p → link_free m dir → dir `suffix_of` p → leads m p = inr n → m !! p = Some n.
Proof.
  intros Hok Hlf Hp Hn. pose proof (leads_find m p Hok) as H. unfold find_node in H.
  destruct (walk m p) as [e|] eqn:Ew.
  - destruct (decide (e = ELOOP)) as [->|He]; [|destruct e; congruence].
    destruct (walk_loop m p Ew) as (q & t & Hq & Ht). exfalso. apply (Hlf q t); [|done].
    destruct (suffix_weak_total _ _ _ Hq Hp); auto.
  - destruct (m !! p) as [n'|] eqn:En; [|congruence].
    destruct (is_link n') eqn:El; [|destruct n'; try done; rewrite Hn in H; by injection H as ->].
    destruct n' as [| |t|]; try done. exfalso. apply (Hlf p t); auto.
Qed.

Lemma walk_outside m m' p (P : path → Prop) :
  changes_only P m m' → (∀ q, P q → p `suffix_of` q) → walk m' p = walk m p.
Proof.
  intros Hc HP. apply walk_ext. intros q x Hq. apply Hc. intros Hq'.
  eapply suffix_strict; eauto.
Qed.

Lemma walk_dirs m p q x :
  walk m p = None → (x :: q) `suffix_of` p → ∃ md, m !! q = Some (Dir md) ∧ can_x md = true.
Proof.
  intros Hw [k ->]. induction k as [|y k IH]; simpl in *.
  - by apply walk_cons in Hw as (_ & ?).
  - apply IH. by apply (walk_cons m y) in Hw as [? _].
Qed.

Lemma walk_below m p q :
  wf_fs m → walk m p = None → p `suffix_of` q → is_Some (m !! q) →
  (∀ r md, p `suffix_of` r → m !! r = Some (Dir md) → can_x md = true) →
  walk m q = None.
Proof.
  intros Hwf Hp [l ->] Hq Hx. induction l as [|x l IH]; [done|].
  destruct Hq as [n Hn]. simpl in Hn. destruct (Hwf _ _ _ Hn) as (_ & md & Hmd).
  apply walk_cons. split; [apply IH; eauto|]. exists md. split; [done|].
  eapply Hx; [|exact Hmd]. by exists l.
Qed.

Lemma wf_ancestor m p q :
  wf_fs m → p `suffix_of` q → is_Some (m !! q) → is_Some (m !! p).
Proof.
  intros Hwf [l ->]. induction l as [|x l IH]; [done|].
  intros [n Hn]. destruct (Hwf _ _ _ Hn) as (_ & md & Hmd). eauto.
Qed.

Lemma wf_gone m p q : wf_fs m → m !! p = None → p `suffix_of` q → m !! q = None.
Proof.
  intros Hwf Hp Hq. apply eq_None_not_Some. intros H.
  destruct (wf_ancestor _ _ _ Hwf Hq H). congruence.
Qed.

(** Below a missing node nothing is found. *)
Lemma find_missing m p l : walk m p = None → m !! p = None → find_node m (l ++ p) = inl ENOENT.
Proof.
  intros Hw Hp. destruct l as [|x l]; [unfold find_node; simpl; by rewrite Hw, Hp|].
  assert (walk m ((x :: l) ++ p) = Some ENOENT) as H.
  { revert x. induction l as [|y l IH]; intros x; simpl in *; [by rewrite Hw, Hp|]. by rewrite IH. }
  unfold find_node. by rewrite H.
Qed.

Lemma fpath_ok s : path_ok (fpath s).
Proof.
  destruct (clean_stack_split_normal true s) as (oks & n & H & Hok & Hn).
  unfold fpath, path_ok. rewrite H, (Hn eq_refl). by rewrite app_nil_r.
Qed.

(** ** Well-formedness *)

Lemma wf_insert_new m p n :
  wf_fs m → path_ok p → walk m p = None → m !! p = None → wf_fs (<[p := n]> m).
Proof.
  intros Hwf Hok Hw Hp x q n'. destruct (decide (p = x :: q)) as [->|Hne].
  - intros _. apply Forall_cons in Hok as [Hx _]. split; [done|].
    apply walk_cons in Hw as (_ & md & Hmd & _). exists md.
    rewrite lookup_insert_ne; [done|]. intros Heq. apply (f_equal length) in Heq.
    simpl in Heq. lia.
  - rewrite lookup_insert_ne by done. intros Hq. destruct (Hwf _ _ _ Hq) as (Hx & md & Hmd).
    split; [done|]. exists md. rewrite lookup_insert_ne; [done|]. congruence.
Qed.

Lemma wf_replace m p n n' :
  wf_fs m → m !! p = Some n → (∀ md, n = Dir md → ∃ md', n' = Dir md') →
  wf_fs (<[p := n']> m).
Proof.
  intros Hwf Hp Hd x q n0. destruct (decide (p = x :: q)) as [->|Hne].
  - intros _. destruct (Hwf _ _ _ Hp) as (Hx & md & Hmd). split; [done|].
    exists md. rewrite lookup_insert_ne; [done|]. intros Heq.
    apply (f_equal length) in Heq. simpl in Heq. lia.
  - rewrite lookup_insert_ne by done. intros Hq. destruct (Hwf _ _ _ Hq) as (Hx & md & Hmd).
    split; [done|]. destruct (decide (p = q)) as [->|].
    + rewrite lookup_insert_eq. rewrite Hmd in Hp. simplify_eq.
      destruct (Hd md eq_refl) as [md' ->]. eauto.
    + rewrite lookup_insert_ne by done. eauto.
Qed.

Lemma wf_delete m p n :
  wf_fs m → m !! p = Some n → (∀ md, n = Dir md → entries m p = []) → wf_fs (delete p m).
Proof.
  intros Hwf Hp He x q n0 Hq. rewrite lookup_delete_Some in Hq. destruct Hq as [Hne Hq].
  destruct (Hwf _ _ _ Hq) as (Hx & md & Hmd). split; [done|]. exists md.
  rewrite lookup_delete_ne; [done|]. intros ->. rewrite Hmd in Hp. simplify_eq.
  specialize (He md eq_refl). rewrite entries_nil in He. by rewrite He in Hq.
Qed.

Lemma wf_set_mode m p n mode :
  wf_fs m → m !! p = Some n → wf_fs (<[p := set_mode mode n]> m).
Proof. intros Hwf Hp. eapply wf_replace; [done..|]. intros md ->. eauto. Qed.

Lemma suffix_path_ok p q : q `suffix_of` p → path_ok p → path_ok q.
Proof. intros [l ->] H. by apply Forall_app in H as [_ ?]. Qed.

Lemma keeps_wf_MkdirAll p perm : path_ok p → stable (fs_rel keeps_wf) (os_MkdirAll p perm).
Proof.
  intros Hok. apply stable_MkdirAll; [apply _|]. intros m q Hq Hw Hn _ Hwf.
  apply wf_insert_new; eauto using suffix_path_ok.
Qed.

Lemma keeps_wf_RemoveAll p : stable (fs_rel keeps_wf) (os_RemoveAll p).
Proof.
  apply stable_RemoveAll; [apply _|]. intros m q n _ Hq He Hwf. by eapply wf_delete.
Qed.

Lemma keeps_wf_Remove p : stable (fs_rel keeps_wf) (os_Remove p).
Proof. apply stable_Remove; [apply _|]. intros m n Hq He Hwf. by eapply wf_delete. Qed.

Lemma keeps_wf_Write p d : stable (fs_rel keeps_wf) (file_Write p d).
Proof. apply stable_Write; [apply _|]. intros m md d0 d1 Hp Hwf. by eapply wf_replace. Qed.

Lemma keeps_wf_Chmod p mode : stable (fs_rel keeps_wf) (os_Chmod p mode).
Proof. apply stable_Chmod; [apply _|]. intros m n Hp Hwf. by apply wf_set_mode. Qed.

Lemma changes_RemoveAll p :
  stable (fs_rel (changes_only (λ q, p `suffix_of` q))) (os_RemoveAll p).
Proof. apply stable_RemoveAll; [apply _|]. intros. by apply changes_only_delete. Qed.

(** [RemoveAll] only takes nodes away. *)
Lemma shrinks_RemoveAll p : stable (fs_rel (flip (⊆))) (os_RemoveAll p).
Proof. apply stable_RemoveAll; [apply _|]. intros. apply delete_subseteq. Qed.

Lemma changes_Remove p : stable (fs_rel (changes_only (λ q, q = p))) (os_Remove p).
Proof. apply stable_Remove; [apply _|]. intros. by apply changes_only_delete. Qed.

Lemma changes_Write p d : stable (fs_rel (changes_only (λ q, q = p))) (file_Write p d).
Proof. apply stable_Write; [apply _|]. intros. by apply changes_only_insert. Qed.

Lemma changes_Chmod p mode : stable (fs_rel (changes_only (λ q, q = p))) (os_Chmod p mode).
Proof. apply stable_Chmod; [apply _|]. intros. by apply changes_only_insert. Qed.

(** [MkdirAll] never touches a node that is there. *)
Lemma extends_MkdirAll p perm : stable (fs_rel (⊆)) (os_MkdirAll p perm).
Proof.
  apply stable_MkdirAll; [apply _|]. intros m q _ _ Hn _. by apply insert_subseteq.
Qed.

Lemma changes_MkdirAll p perm :
  stable (fs_rel (changes_only (λ q, q `suffix_of` p))) (os_MkdirAll p perm).
Proof. apply stable_MkdirAll; [apply _|]. intros. by apply changes_only_insert. Qed.

(** ** When nothing fails *)

Lemma sys_calm {A : Type} op p (f : fsT → errno + A * fsT) w :
  no_faults w →
  sys op p f w =
    match f (os_fs w) with
    | inl en => (Err (ErrErrno op p en), w)
    | inr (a, m') => (Ok a, set_fs m' w)
    end.
Proof. unfold no_faults, sys, pop_fault. intros ->. done. Qed.

Lemma sys_Ok {A : Type} op p (f : fsT → errno + A * fsT) w a w' :
  sys op p f w = (Ok a, w') → f (os_fs w) = inr (a, os_fs w').
Proof.
  unfold sys, pop_fault. destruct (os_faults w) as [|[] l]; try done; simpl;
    destruct (f (os_fs w)) as [|[]]; try done; by intros [= -> <-].
Qed.

Lemma sys_Err {A : Type} op p (f : fsT → errno + A * fsT) w e w' :
  sys op p f w = (Err e, w') →
  os_fs w' = os_fs w ∧
  ∃ en, e = ErrErrno op p en ∧ (f (os_fs w) = inl en ∨ ∃ full, en = fault_errno full).
Proof.
  unfold sys, pop_fault. destruct (os_faults w) as [|[] l]; try done; simpl;
    try (destruct (f (os_fs w)) as [|[]] eqn:E; try done); intros [= <- <-]; eauto 10.
Qed.

Lemma sys_no_panic {A : Type} op p (f : fsT → errno + A * fsT) w msg :
  (sys op p f w).1 ≠ Panic msg.
Proof.
  unfold sys. destruct (pop_fault w) as [[] w1]; try done. by destruct (f (os_fs w1)) as [|[]].
Qed.

(** A call that does not succeed leaves the tree alone. *)
Lemma sys_fail {A : Type} op p (f : fsT → errno + A * fsT) w r w' :
  sys op p f w = (r, w') → (∀ a, r ≠ Ok a) → os_fs w' = os_fs w.
Proof.
  unfold sys, pop_fault. destruct (os_faults w) as [|[] l]; simpl;
    try (destruct (f (os_fs w)) as [|[a m']]); intros [= <- <-] Hr; try done; by destruct (Hr a).
Qed.

Lemma set_fs_id w : set_fs (os_fs w) w = w.
Proof. by destruct w. Qed.

Lemma set_fs_set_fs m m' w : set_fs m (set_fs m' w) = set_fs m w.
Proof. done. Qed.

Lemma calm_set_fs m w : no_faults w → no_faults (set_fs m w).
Proof. done. Qed.
#[export] Hint Resolve calm_set_fs : go.

Lemma Lstat_calm w p n :
  no_faults w → find_node (os_fs w) p = inr n → os_Lstat p w = (Ok n, w).
Proof. intros Hw Hn. unfold os_Lstat. rewrite sys_calm, Hn by done. by rewrite set_fs_id. Qed.

Lemma find_node_Some m p n : walk m p = None → m !! p = Some n → find_node m p = inr n.
Proof. unfold find_node. by intros -> ->. Qed.

(** *** [os.Remove] of a file *)

Lemma Remove_missing p w :
  no_faults w → walk (os_fs w) p = None → os_fs w !! p = None →
  os_Remove p w = (Err (ErrErrno "remove" p ENOENT), w).
Proof.
  intros Hw Hwalk E. unfold os_Remove. rewrite sys_calm by done.
  unfold remove_node, find_node. by rewrite Hwalk, E.
Qed.

Lemma Remove_file p md d w :
  no_faults w → walk (os_fs w) p = None → parent_writable (os_fs w) p = true →
  os_fs w !! p = Some (File md d) →
  os_Remove p w = (Ok tt, set_fs (delete p (os_fs w)) w).
Proof.
  intros Hw Hwalk Hpw E. unfold os_Remove. rewrite sys_calm by done. unfold remove_node.
  by rewrite (find_node_Some _ _ (File md d)), Hpw by done.
Qed.

(** *** [os.MkdirAll] *)

Lemma find_node_inr m p n : find_node m p = inr n → walk m p = None ∧ m !! p = Some n.
Proof.
  unfold find_node. destruct (walk m p); [done|]. destruct (m !! p); [|done]. by intros [= ->].
Qed.

Lemma Lstat_Ok p w n w' :
  os_Lstat p w = (Ok n, w') → walk (os_fs w) p = None ∧ os_fs w !! p = Some n ∧ os_fs w' = os_fs w.
Proof.
  intros H%sys_Ok. destruct (find_node (os_fs w) p) eqn:E; [done|].
  apply find_node_inr in E as [? ?]. by injection H as <- <-.
Qed.

Lemma Stat_Ok p w n w' :
  os_Stat p w = (Ok n, w') → walk (os_fs w) p = None ∧ os_fs w !! p = Some n ∧ os_fs w' = os_fs w.
Proof.
  intros H%sys_Ok. destruct (find_node (os_fs w) p) as [|n'] eqn:E; [done|].
  apply find_node_inr in E as [? ?]. destruct n'; try done; by injection H as <- <-.
Qed.

Lemma Mkdir_Ok p perm w w' :
  os_Mkdir p perm w = (Ok tt, w') → os_fs w' = <[p := Dir perm]> (os_fs w) ∧ os_fs w !! p = None.
Proof.
  intros H%sys_Ok. destruct (walk (os_fs w) p); [done|]. destruct (os_fs w !! p); [done|].
  destruct (parent_writable (os_fs w) p); [|done]. by injection H as <-.
Qed.

Lemma MkdirAll_unfold p perm :
  os_MkdirAll p perm =
  (st <- try (os_Stat p) ;;
   match st with
   | inl (Dir _) => ret tt
   | inl _ => throw (ErrErrno "mkdir" p ENOTDIR)
   | inr _ =>
       (match p with [] => ret tt | _ :: q => os_MkdirAll q perm end) ;;
       r <- try (os_Mkdir p perm) ;;
       match r with
       | inl _ => ret tt
       | inr e => l <- try (os_Lstat p) ;;
           match l with inl (Dir _) => ret tt | _ => throw e end
       end
   end).
Proof. by destruct p. Qed.

Lemma MkdirAll_Ok p perm w w' :
  os_MkdirAll p perm w = (Ok tt, w') → ∃ md, os_fs w' !! p = Some (Dir md).
Proof.
  rewrite MkdirAll_unfold. intros H.
  apply bind_Ok in H as ([n|e] & w1 & Hs & H).
  - apply try_Ok, Stat_Ok in Hs as (_ & Hs & Hfs). destruct n as [md| | |]; try done.
    injection H as <-. exists md. by rewrite Hfs.
  - apply bind_Ok in H as (_ & w2 & _ & H). apply bind_Ok in H as ([[]|e'] & w3 & Hm & H).
    + apply try_Ok, Mkdir_Ok in Hm as [Hm _]. injection H as <-. exists perm.
      rewrite Hm. apply lookup_insert_eq.
    + apply bind_Ok in H as ([n|] & w4 & Hl & H); [|done].
      apply try_Ok, Lstat_Ok in Hl as (_ & Hl & Hfs). destruct n as [md| | |]; try done.
      injection H as <-. exists md. by rewrite Hfs.
Qed.

(** The tree after [MkdirAll]. *)
Fixpoint mkdirs (p : path) (perm : Z) (m : fsT) : fsT :=
  match p with
  | [] => m
  | _ :: q =>
      let m1 := mkdirs q perm m in
      match m1 !! p with Some _ => m1 | None => <[p := Dir perm]> m1 end
  end.

Definition rwx (md : Z) : Prop := can_r md = true ∧ can_w md = true ∧ can_x md = true.

Lemma rwx_0700 : rwx m0700.
Proof. by vm_compute. Qed.
#[export] Hint Resolve rwx_0700 : go.

(** What is on the way to [p] is a directory that can be searched, and can be
    written to where the way ends. *)
Definition clear_way (m : fsT) (p : path) : Prop :=
  (∃ md, m !! [] = Some (Dir md)) ∧
  ∀ q n, q `suffix_of` p → m !! q = Some n →
    ∃ md, n = Dir md ∧ can_x md = true ∧
          ∀ x, (x :: q) `suffix_of` p → m !! (x :: q) = None → can_w md = true.

Lemma suffix_cases (x : string) (q p : path) :
  q `suffix_of` x :: p → q = x :: p ∨ q `suffix_of` p.
Proof. intros [[|y k] E]; [by left|]. right. simplify_eq/=. by exists k. Qed.

Lemma clear_way_up m x p : clear_way m (x :: p) → clear_way m p.
Proof.
  intros [H1 H2]. split; [done|]. intros q n Hq Hn.
  destruct (H2 q n) as (md & -> & Hx & Hw); [by apply suffix_cons_r|done|].
  exists md. split_and!; try done. intros y Hy. apply (Hw y). by apply suffix_cons_r.
Qed.

Lemma mkdirs_ne m p perm q : ¬ q `suffix_of` p → mkdirs p perm m !! q = m !! q.
Proof.
  induction p as [|x p IH]; intros Hq; [done|]. simpl.
  assert (¬ q `suffix_of` p) by (intros ?; by apply Hq, suffix_cons_r).
  destruct (mkdirs p perm m !! (x :: p)); [by apply IH|].
  rewrite lookup_insert_ne by (intros <-; by apply Hq). by apply IH.
Qed.

Lemma mkdirs_lookup m p perm q :
  q `suffix_of` p → (∃ md, m !! [] = Some (Dir md)) →
  mkdirs p perm m !! q = Some (default (Dir perm) (m !! q)).
Proof.
  intros Hq [md0 H0]. induction p as [|x p IH]; simpl.
  - apply suffix_nil_inv in Hq. subst. by rewrite H0.
  - apply suffix_cases in Hq as [->|Hq].
    + assert (Hn : mkdirs p perm m !! (x :: p) = m !! (x :: p)).
      { apply mkdirs_ne. intros H%suffix_length. simpl in H. lia. }
      destruct (mkdirs p perm m !! (x :: p)) eqn:E; simpl.
      * by rewrite <-Hn, E.
      * by rewrite lookup_insert_eq, <-Hn.
    + destruct (mkdirs p perm m !! (x :: p)); [by apply IH|].
      rewrite lookup_insert_ne; [by apply IH|].
      intros <-. apply suffix_length in Hq. simpl in Hq. lia.
Qed.

Lemma mkdirs_walk m p perm :
  clear_way m p → rwx perm → walk (mkdirs p perm m) p = None.
Proof.
  intros [H0 Hc] Hp. 
  assert (Hall : ∀ q, q `suffix_of` p → walk (mkdirs p perm m) q = None); [|by apply Hall].
  induction q as [|x q IH]; intros Hq; [done|]. apply walk_cons.
  assert (Hq' : q `suffix_of` p) by (etrans; [|exact Hq]; by apply suffix_cons_r).
  split; [by apply IH|]. rewrite mkdirs_lookup by done.
  destruct (m !! q) as [n|] eqn:E; simpl.
  - destruct (Hc _ _ Hq' E) as (md & -> & Hmd & _). by exists md.
  - exists perm. split; [done|apply Hp].
Qed.

Lemma mkdirs_exists m p perm : wf_fs m → is_Some (m !! p) → mkdirs p perm m = m.
Proof.
  intros Hwf. induction p as [|x p IH]; intros [n Hn]; [done|]. simpl.
  destruct (Hwf _ _ _ Hn) as (_ & md & Hmd). rewrite IH by eauto. by rewrite Hn.
Qed.

Lemma Stat_calm w p n :
  no_faults w → walk (os_fs w) p = None → os_fs w !! p = Some n → (∀ t, n ≠ Symlink t) →
  os_Stat p w = (Ok n, w).
Proof.
  intros Hw Hp Hn Ht. unfold os_Stat. rewrite sys_calm, (find_node_Some _ _ n) by done.
  destruct n; try by rewrite set_fs_id. by destruct (Ht target).
Qed.

(** The directory that [MkdirAll] adds last. *)
Lemma mkdirs_Mkdir w x p perm :
  no_faults w → clear_way (os_fs w) (x :: p) → rwx perm → os_fs w !! (x :: p) = None →
  os_Mkdir (x :: p) perm (set_fs (mkdirs p perm (os_fs w)) w) =
  (Ok tt, set_fs (mkdirs (x :: p) perm (os_fs w)) w).
Proof.
  intros Hw Hc Hp E.
  assert (Hn : mkdirs p perm (os_fs w) !! (x :: p) = None).
  { rewrite mkdirs_ne; [done|]. by apply suffix_cons_not. }
  unfold os_Mkdir. rewrite sys_calm by done.
  cbn [os_fs set_fs]. rewrite (walk_ext (mkdirs (x :: p) perm (os_fs w))).
  - rewrite mkdirs_walk by done. rewrite Hn. simpl. rewrite Hn.
    rewrite mkdirs_lookup by (try done; apply Hc).
    destruct (os_fs w !! p) as [n|] eqn:Ep; simpl.
    + destruct (proj2 Hc p n) as (md & -> & _ & Hmd); [by apply suffix_cons_r|done|].
      by rewrite (Hmd x).
    + by rewrite (proj1 (proj2 Hp)).
  - intros q y Hq. simpl. rewrite Hn. rewrite lookup_insert_ne; [done|].
    intros <-. by apply suffix_cons_not in Hq.
Qed.

Lemma MkdirAll_calm w p perm :
  no_faults w → wf_fs (os_fs w) → clear_way (os_fs w) p → rwx perm →
  os_MkdirAll p perm w = (Ok tt, set_fs (mkdirs p perm (os_fs w)) w).
Proof.
  intros Hw Hwf Hc Hp. induction p as [|x p IH]; rewrite MkdirAll_unfold.
  - destruct Hc as [[md H0] _].
    erewrite bind_step; [|apply try_step; instantiate (2 := inl (Dir md)); by apply Stat_calm].
    simpl. unfold ret. by rewrite set_fs_id.
  - destruct (os_fs w !! (x :: p)) as [n|] eqn:E.
    + rewrite mkdirs_exists by eauto.
      destruct (proj2 Hc _ _ (reflexivity _) E) as (md & -> & _).
      pose proof (mkdirs_walk _ _ perm Hc Hp) as Hwalk. rewrite mkdirs_exists in Hwalk by eauto.
      erewrite bind_step; [|apply try_step; instantiate (2 := inl (Dir md)); by apply Stat_calm].
      unfold ret. by rewrite set_fs_id.
    + assert (Hs : ∃ en, os_Stat (x :: p) w = (Err (ErrErrno "stat" (x :: p) en), w)).
      { unfold os_Stat. rewrite sys_calm by done. unfold find_node.
        destruct (walk (os_fs w) (x :: p)); [eauto|]. rewrite E. eauto. }
      destruct Hs as [en Hs].
      erewrite bind_step; [|apply try_step; instantiate (2 := inr _); exact Hs].
      cbv beta iota. erewrite bind_step; [|apply IH; by eapply clear_way_up].
      by erewrite bind_step; [|apply try_step; instantiate (2 := inl tt); by apply mkdirs_Mkdir].
Qed.

(** *** [os.RemoveAll] *)

Lemma remove_each_gone p qs first w w' r :
  remove_each p qs first w = (Ok r, w') →
  (∀ q, os_fs w !! q = None → os_fs w' !! q = None) ∧
  (first ≠ None → r ≠ None) ∧
  (r = None → ∀ q, q ∈ qs → os_fs w' !! q = None).
Proof.
  revert first w. induction qs as [|q qs IH]; intros first w H; simpl in H.
  - injection H as <- <-. split_and!; try done. intros _ q Hq. by apply not_elem_of_nil in Hq.
  - apply bind_Ok in H as (r1 & w1 & Hs & H). apply IH in H as (Hk & Hf & Hg). clear IH.
    apply try_Ok in Hs. destruct r1 as [[]|e].
    + apply sys_Ok in Hs. destruct (listable (os_fs w) p q); [|done].
      apply remove_node_inv in Hs as (n & Hn & _ & _ & Hdel & _).
      split_and!.
      * intros q' Hq'. apply Hk. rewrite Hdel. apply lookup_delete_None. by right.
      * intros Hne. apply Hf. by destruct first.
      * intros Hr q' Hq'. apply elem_of_cons in Hq' as [->|Hq']; [|by apply Hg].
        apply Hk. rewrite Hdel. apply lookup_delete_eq.
    + apply sys_Err in Hs as [Hfs _].
      assert (Hr : r ≠ None) by (apply Hf; by destruct first).
      split_and!; [|done|done]. intros q' Hq'. apply Hk. by rewrite Hfs.
Qed.

Lemma elem_of_postorder m p q : q ∈ postorder m p ↔ p `suffix_of` q ∧ is_Some (m !! q).
Proof.
  unfold postorder. rewrite merge_sort_Permutation, list_elem_of_In, filter_In, <-list_elem_of_In.
  rewrite bool_decide_eq_true, list_elem_of_fmap. split.
  - intros [([q' n] & -> & Hq) Hp]. apply elem_of_map_to_list in Hq. simpl in *. eauto.
  - intros [Hp [n Hn]]. split; [|done]. exists (q, n). by rewrite elem_of_map_to_list.
Qed.

(** When [RemoveAll] reports success nothing is left at [p], whatever failed on
    the way. *)
Lemma RemoveAll_Ok p w w' :
  wf_fs (os_fs w) → os_RemoveAll p w = (Ok tt, w') → os_fs w' !! p = None.
Proof.
  intros Hwf H. unfold os_RemoveAll in H. apply bind_Ok in H as ([n|e] & w1 & Hs & H).
  - apply try_Ok, Lstat_Ok in Hs as (_ & Hn & Hfs). rewrite <-Hfs in *. clear Hfs.
    apply bind_Ok in H as (m & w2 & Hg & H). injection Hg as <- <-.
    apply bind_Ok in H as (first & w3 & Hr & H). apply bind_Ok in H as (m' & w4 & Hg & H).
    injection Hg as <- <-. apply remove_each_gone in Hr as (_ & _ & Hg).
    destruct first as [e|].
    + destruct (os_fs w3 !! p) eqn:E; [done|]. by injection H as <-.
    + injection H as <-. apply Hg; [done|]. apply elem_of_postorder. split; [done|eauto].
  - apply try_Ok, sys_Err in Hs as (Hfs & en & -> & Hen). simpl in H.
    destruct en; try done. injection H as <-. rewrite Hfs.
    destruct Hen as [Hen|[[] ?]]; [|done..].
    destruct (os_fs w !! p) as [n|] eqn:E; [|done]. exfalso.
    unfold find_node in Hen. rewrite E in Hen.
    destruct (walk (os_fs w) p) as [e|] eqn:Ew; [|done]. injection Hen as ->.
    clear Hfs. revert n E Ew. induction p as [|x p IH]; [done|].
    intros n E Ew. destruct (Hwf _ _ _ E) as (_ & md & Hmd). simpl in Ew.
    destruct (walk (os_fs w) p) eqn:Ew'; [by eapply IH|]. rewrite Hmd in Ew.
    by destruct (can_x md).
Qed.

Definition prune (p : path) (m : fsT) : fsT := filter (λ kn, ¬ p `suffix_of` kn.1) m.

Lemma prune_in p m q : p `suffix_of` q → prune p m !! q = None.
Proof. intros H. apply map_lookup_filter_None. right. intros n _ Hn. by apply Hn. Qed.

Lemma prune_out p m q : ¬ p `suffix_of` q → prune p m !! q = m !! q.
Proof.
  intros H. unfold prune. destruct (m !! q) eqn:E.
  - by apply map_lookup_filter_Some.
  - apply map_lookup_filter_None. by left.
Qed.

Lemma prune_wf p m : wf_fs m → wf_fs (prune p m).
Proof.
  intros Hwf x q n [Hn Hq]%map_lookup_filter_Some. destruct (Hwf _ _ _ Hn) as [Hx [md Hmd]].
  split; [done|]. exists md. rewrite prune_out; [done|]. intros H. apply Hq. by apply suffix_cons_r.
Qed.

(** The process may empty the tree at [p]. *)
Definition erasable (m : fsT) (p : path) : Prop :=
  walk m p = None ∧ parent_writable m p = true ∧
  ∀ q md, p `suffix_of` q → m !! q = Some (Dir md) → rwx md.

Lemma erasable_delete m p q : erasable m p → p `suffix_of` q → erasable (delete q m) p.
Proof.
  intros (Hw & Hp & Hd) Hq.
  assert (Hne : ∀ r x, (x :: r) `suffix_of` p → delete q m !! r = m !! r).
  { intros r x Hr. rewrite lookup_delete_ne; [done|]. intros ->. by eapply suffix_strict. }
  split_and!.
  - by rewrite (walk_ext m).
  - destruct p as [|x p]; [done|]. simpl in *. by rewrite (Hne p x).
  - intros r md Hr. rewrite lookup_delete_Some. intros [_ H]. eauto.
Qed.

Lemma erasable_listable m p q :
  erasable m p → wf_fs m → is_Some (m !! q) → p `suffix_of` q → listable m p q = true.
Proof.
  intros (_ & _ & Hd) Hwf. induction q as [|x q IH]; intros [n Hn] Hq; [done|]. simpl.
  destruct (decide (p `suffix_of` q)); [|done].
  destruct (Hwf _ _ _ Hn) as (_ & md & Hmd). rewrite IH by eauto. rewrite Hmd. simpl.
  eapply Hd; eauto.
Qed.

Lemma erasable_remove m p q n :
  erasable m p → wf_fs m → m !! q = Some n → p `suffix_of` q → entries m q = [] →
  remove_node m q = inr (tt, delete q m).
Proof.
  intros (Hw & Hp & Hd) Hwf Hn Hq He. unfold remove_node.
  rewrite (find_node_Some m q n); [|eapply walk_below; eauto|done].
  - assert (parent_writable m q = true) as ->.
    { apply suffix_length in Hq as Hl. destruct (decide (q = p)) as [->|Hne]; [done|].
      destruct q as [|x q]; [by apply suffix_nil_inv in Hq; subst|].
      apply suffix_cases in Hq as [->|Hq]; [done|]. simpl.
      destruct (Hwf _ _ _ Hn) as (_ & md & Hmd). rewrite Hmd. eapply Hd; eauto. }
    rewrite He. by destruct n.
  - intros r md Hr Hmd. eapply Hd; eauto.
Qed.

Lemma remove_each_calm p qs w :
  no_faults w → wf_fs (os_fs w) → erasable (os_fs w) p →
  StronglySorted longer qs → NoDup qs →
  (∀ q, q ∈ qs ↔ p `suffix_of` q ∧ is_Some (os_fs w !! q)) →
  remove_each p qs None w = (Ok None, set_fs (prune p (os_fs w)) w).
Proof.
  revert w. induction qs as [|q qs IH]; intros w Hw Hwf Her Hs Hnd Hqs; simpl.
  - unfold ret. do 2 f_equal. rewrite <-(set_fs_id w) at 1. f_equal. apply map_eq. intros r.
    destruct (decide (p `suffix_of` r)) as [Hr|Hr]; [|by rewrite prune_out].
    rewrite prune_in by done. apply eq_None_not_Some. intros Hsome.
    by apply (not_elem_of_nil r), Hqs.
  - apply StronglySorted_inv in Hs as [Hs Hall]. apply NoDup_cons in Hnd as [Hnot Hnd].
    destruct (proj1 (Hqs q)) as [Hq [n Hn]]; [by left|].
    assert (He : entries (os_fs w) q = []).
    { apply entries_nil. intros x. apply eq_None_not_Some. intros Hx.
      assert (Hin : x :: q ∈ q :: qs) by (apply Hqs; split; [by apply suffix_cons_r|done]).
      apply elem_of_cons in Hin as [Heq|Hin].
      - apply (f_equal length) in Heq. simpl in Heq. lia.
      - rewrite Forall_forall in Hall. specialize (Hall _ Hin). unfold longer in Hall.
        simpl in Hall. lia. }
    erewrite bind_step; [|apply try_step; instantiate (2 := inl tt)].
    2:{ rewrite sys_calm, erasable_listable by eauto.
        erewrite erasable_remove by eauto. reflexivity. }
    simpl. rewrite IH; clear IH.
    + rewrite set_fs_set_fs. do 2 f_equal. cbn [os_fs set_fs]. apply map_eq. intros r.
      destruct (decide (p `suffix_of` r)) as [Hr|Hr]; [by rewrite !prune_in|].
      rewrite !prune_out by done. rewrite lookup_delete_ne; [done|]. by intros ->.
    + done.
    + cbn. eapply wf_delete; eauto.
    + by apply erasable_delete.
    + done.
    + done.
    + intros r. cbn. rewrite lookup_delete_is_Some. specialize (Hqs r).
      rewrite elem_of_cons in Hqs. destruct (decide (r = q)) as [->|]; naive_solver.
Qed.

Lemma postorder_sorted m p : StronglySorted longer (postorder m p).
Proof.
  apply StronglySorted_merge_sort; unfold longer; intros ?**; lia.
Qed.

Lemma postorder_NoDup m p : NoDup (postorder m p).
Proof.
  unfold postorder. rewrite merge_sort_Permutation. apply NoDup_ListNoDup, List.NoDup_filter.
  apply NoDup_ListNoDup, NoDup_fst_map_to_list.
Qed.

Lemma RemoveAll_calm p w :
  no_faults w → wf_fs (os_fs w) → erasable (os_fs w) p →
  os_RemoveAll p w = (Ok tt, set_fs (prune p (os_fs w)) w).
Proof.
  intros Hw Hwf Her. unfold os_RemoveAll.
  destruct (os_fs w !! p) as [n|] eqn:E.
  - erewrite bind_step; [|apply try_step; instantiate (2 := inl n); apply Lstat_calm; [done|]].
    2:{ apply find_node_Some; [apply Her|done]. }
    cbv beta iota. erewrite bind_step; [|reflexivity].
    erewrite bind_step; [|apply remove_each_calm; auto using postorder_sorted, postorder_NoDup].
    + done.
    + intros q. apply elem_of_postorder.
  - assert (Hl : os_Lstat p w = (Err (ErrErrno "lstat" p ENOENT), w)).
    { unfold os_Lstat. rewrite sys_calm by done. unfold find_node.
      by rewrite (proj1 Her), E. }
    erewrite bind_step; [|apply try_step; instantiate (2 := inr _); exact Hl]. simpl.
    unfold ret. do 2 f_equal. rewrite <-(set_fs_id w) at 1. f_equal. apply map_eq. intros r.
    destruct (decide (p `suffix_of` r)) as [Hr|Hr]; [|by rewrite prune_out].
    rewrite prune_in by done. by eapply wf_gone.
Qed.

(** *** Temporary files and renaming *)

Lemma slash_free_app a b : slash_free (a +:+ b) = slash_free a && slash_free b.
Proof. induction a as [|c a IH]; simpl; [done|]. rewrite <-andb_assoc. by f_equal. Qed.

Lemma slash_free_digits (x : N) s : slash_free s = true → slash_free (pretty_N_go x s) = true.
Proof.
  revert s. induction (N.lt_wf_0 x) as [x _ IH]; intros s Hs.
  destruct (decide (0 < x)%N) as [Hx|Hx].
  - rewrite pretty_N_go_step by done. apply IH; [by apply N.div_lt|]. simpl.
    rewrite Hs, andb_true_r. unfold pretty_N_char. by repeat case_match.
  - replace x with 0%N by lia. by rewrite pretty_N_go_0.
Qed.

Lemma slash_free_pretty (x : N) : slash_free (pretty x) = true.
Proof.
  unfold pretty, pretty_N. destruct (decide (x = 0)%N); [done|]. by apply slash_free_digits.
Qed.

Lemma elem_ok_app a b : elem_ok a → slash_free b = true → elem_ok (a +:+ b).
Proof.
  intros (H1 & H2 & H3 & H4) Hb. unfold elem_ok. rewrite slash_free_app, H4, Hb.
  destruct a as [|c [|c' a]]; [done| |].
  - split_and!; try done; intros [= -> Hb'].
    + by destruct b.
    + by destruct b.
  - split_and!; try done. intros [= -> -> Hab]. by destruct a.
Qed.

Lemma temp_path_ok dir prefix x :
  elem_ok prefix → path_ok dir → path_ok (temp_path dir prefix x).
Proof. intros Hp Hd. constructor; [|done]. apply elem_ok_app; [done|apply slash_free_pretty]. Qed.

Lemma open_excl_Ok p mode w w' :
  open_excl p mode w = (Ok tt, w') →
  walk (os_fs w) p = None ∧ os_fs w !! p = None ∧ os_fs w' = <[p := File mode ""]> (os_fs w).
Proof.
  intros H%sys_Ok. destruct (walk (os_fs w) p) eqn:Ew; [done|].
  destruct (os_fs w !! p) eqn:E; [done|].
  destruct (parent_writable (os_fs w) p); [|done]. by injection H as <-.
Qed.

Lemma create_temp_Ok dir prefix draws w p w' :
  create_temp dir prefix draws w = (Ok p, w') →
  (∃ x, p = temp_path dir prefix x) ∧ walk (os_fs w) p = None ∧
  os_fs w !! p = None ∧ os_fs w' = <[p := File m0600 ""]> (os_fs w).
Proof.
  revert w. induction draws as [|x draws IH]; intros w H; [done|]. simpl in H.
  apply bind_Ok in H as (u & w1 & Hm & H). injection Hm as _ <-.
  apply bind_Ok in H as ([[]|e] & w2 & Ho & H); apply try_Ok in Ho.
  - apply open_excl_Ok in Ho as (? & ? & ?). injection H as <- <-. split; [by exists x|done].
  - apply sys_Err in Ho as (Hfs & en & -> & _). simpl in Hfs. rewrite <-Hfs.
    destruct en; try done. by apply IH in H.
Qed.

Lemma CreateTemp_Ok dir prefix w p w' :
  os_CreateTemp dir prefix w = (Ok p, w') →
  (∃ x, p = temp_path dir prefix x) ∧ walk (os_fs w) p = None ∧
  os_fs w !! p = None ∧ os_fs w' = <[p := File m0600 ""]> (os_fs w).
Proof.
  intros H. apply bind_Ok in H as (draws & w1 & Hg & H). injection Hg as <- <-.
  by apply create_temp_Ok in H.
Qed.

Lemma Rename_Ok p q w w' :
  os_Rename p q w = (Ok tt, w') →
  ∃ n, os_fs w !! p = Some n ∧ (∀ md, n ≠ Dir md) ∧ walk (os_fs w) q = None ∧
       (∀ md, os_fs w !! q ≠ Some (Dir md)) ∧ os_fs w' = <[q := n]> (delete p (os_fs w)).
Proof.
  intros H%sys_Ok. destruct (find_node (os_fs w) p) as [|n] eqn:Ef; [done|].
  apply find_node_inr in Ef as [_ Hn]. destruct (walk (os_fs w) q) eqn:Ew; [done|].
  destruct (parent_writable _ p && parent_writable _ q); [|done].
  exists n. destruct n; try done; destruct (os_fs w !! q) as [[]|] eqn:Eq; try done;
    injection H as <-; split_and!; naive_solver.
Qed.

Lemma wf_rename m p q n :
  wf_fs m → path_ok q → m !! p = Some n → (∀ md, n ≠ Dir md) → walk m q = None →
  (∀ md, m !! q ≠ Some (Dir md)) → wf_fs (<[q := n]> (delete p m)).
Proof.
  intros Hwf Hq Hp Hn Hw Hd.
  assert (Hwf' : wf_fs (delete p m)) by (eapply wf_delete; [done..|]; by intros md ->; destruct (Hn md)).
  destruct (delete p m !! q) as [n0|] eqn:E.
  - eapply wf_replace; [done..|]. intros md ->. apply lookup_delete_Some in E as [_ E].
    by destruct (Hd md).
  - apply wf_insert_new; [done..| |done]. rewrite <-Hw.
    clear - Hw Hn Hp. induction q as [|x q IH]; [done|].
    apply walk_cons in Hw as (Hw & md & Hmd & Hx). simpl. rewrite IH, Hw by done.
    rewrite lookup_delete_ne; [by rewrite Hmd|]. intros ->. rewrite Hmd in Hp.
    simplify_eq. by destruct (Hn md).
Qed.

Lemma pretty_not_nil (x : N) : pretty x ≠ "".
Proof.
  unfold pretty, pretty_N. destruct (decide (x = 0)%N) as [|Hx]; [done|].
  rewrite pretty_N_go_step by lia.
  assert (∀ y s, s ≠ "" → pretty_N_go y s ≠ "") as H; [|by apply H].
  intros y. induction (N.lt_wf_0 y) as [y _ IH]; intros s Hs.
  destruct (decide (0 < y)%N) as [Hy|Hy].
  - rewrite pretty_N_go_step by done. apply IH; [by apply N.div_lt|done].
  - replace y with 0%N by lia. by rewrite pretty_N_go_0.
Qed.

Lemma app_not_same (a b : string) : b ≠ "" → a +:+ b ≠ a.
Proof.
  intros Hb H. apply Hb. rewrite <-(string_app_nil_r a) in H at 2. by apply (inj (String.app a)) in H.
Qed.

Lemma CreateTemp_calm dir prefix w x rest :
  no_faults w → os_rand w = x :: rest →
  walk (os_fs w) (temp_path dir prefix x) = None → os_fs w !! temp_path dir prefix x = None →
  parent_writable (os_fs w) (temp_path dir prefix x) = true →
  os_CreateTemp dir prefix w =
    (Ok (temp_path dir prefix x),
     set_rand rest (set_fs (<[temp_path dir prefix x := File m0600 ""]> (os_fs w)) w)).
Proof.
  intros Hw Hr Hwalk Hn Hp. unfold os_CreateTemp. erewrite bind_step; [|reflexivity].
  rewrite Hr. cbn [create_temp]. erewrite bind_step; [|reflexivity].
  erewrite bind_step; [|apply try_step; instantiate (2 := inl tt)].
  2:{ unfold open_excl. rewrite sys_calm by done. cbn [os_fs set_rand].
      rewrite Hwalk, Hn, Hp. reflexivity. }
  done.
Qed.

Lemma Rename_calm p q w n :
  no_faults w → walk (os_fs w) p = None → os_fs w !! p = Some n → (∀ md, n ≠ Dir md) →
  walk (os_fs w) q = None → (∀ md, os_fs w !! q ≠ Some (Dir md)) →
  parent_writable (os_fs w) p = true → parent_writable (os_fs w) q = true →
  os_Rename p q w = (Ok tt, set_fs (<[q := n]> (delete p (os_fs w))) w).
Proof.
  intros Hw Hwp Hn Hnd Hwq Hq Hpp Hpq. unfold os_Rename.
  rewrite sys_calm, (find_node_Some _ _ n), Hwq, Hpp, Hpq by done. simpl.
  destruct n as [md| | |]; [by destruct (Hnd md)|..];
    destruct (os_fs w !! q) as [[md| | |]|]; try done; by destruct (Hq md).
Qed.

(** *** Trees given by their nodes *)

Definition node_wf (m : fsT) (p : path) : bool :=
  match p with
  | [] => true
  | x :: q =>
      bool_decide (elem_ok x) && match m !! q with Some (Dir _) => true | _ => false end
  end.

Definition all_nodes (f : path → node → bool) (m : fsT) : bool :=
  forallb (λ pn, f pn.1 pn.2) (map_to_list m).

Lemma all_nodes_spec f m p n : all_nodes f m = true → m !! p = Some n → f p n = true.
Proof.
  intros H Hp. unfold all_nodes in H. rewrite forallb_forall in H.
  apply (H (p, n)), list_elem_of_In. by apply elem_of_map_to_list.
Qed.

Lemma wf_by_check m : all_nodes (λ p _, node_wf m p) m = true → wf_fs m.
Proof.
  intros H x p n Hn. pose proof (all_nodes_spec _ _ _ _ H Hn) as Hp. simpl in Hp.
  apply andb_true_iff in Hp as [Hx%bool_decide_eq_true Hp]. split; [done|].
  destruct (m !! p) as [[md| | |]|]; try done. eauto.
Qed.

Definition rwx_below (r p : path) (n : node) : bool :=
  match n with
  | Dir md => negb (bool_decide (r `suffix_of` p)) || (can_r md && can_w md && can_x md)
  | _ => true
  end.

Lemma rwx_by_check r m :
  all_nodes (rwx_below r) m = true →
  ∀ q md, r `suffix_of` q → m !! q = Some (Dir md) → rwx md.
Proof.
  intros H q md Hq Hn. pose proof (all_nodes_spec _ _ _ _ H Hn) as Hp. simpl in Hp.
  rewrite bool_decide_true in Hp by done. simpl in Hp.
  by apply andb_true_iff in Hp as [[? ?]%andb_true_iff ?].
Qed.

(** *** Calls that never panic *)

Definition no_panic {S A : Type} (m : GoM S A) : Prop := ∀ s msg, (m s).1 ≠ Panic msg.

Lemma no_panic_ret {S A : Type} (a : A) : no_panic (S := S) (ret a).
Proof. by intros s msg. Qed.

Lemma no_panic_throw {S A : Type} e : no_panic (@throw S A e).
Proof. by intros s msg. Qed.

Lemma no_panic_gets {S A : Type} (f : S → A) : no_panic (gets f).
Proof. by intros s msg. Qed.

Lemma no_panic_bind {S A B : Type} (m : GoM S A) (f : A → GoM S B) :
  no_panic m → (∀ a, no_panic (f a)) → no_panic (bind m f).
Proof.
  intros Hm Hf s msg. specialize (Hm s). unfold bind.
  destruct (m s) as [[a|e|msg'|] s']; simpl in *; [apply Hf|done|by destruct (Hm msg')|done].
Qed.

Lemma no_panic_try {S A : Type} (m : GoM S A) : no_panic m → no_panic (try m).
Proof.
  intros Hm s msg. specialize (Hm s). unfold try.
  destruct (m s) as [[a|e|msg'|] s']; simpl in *; by try destruct (Hm msg').
Qed.

Lemma no_panic_sys {A : Type} op p (f : fsT → errno + A * fsT) : no_panic (sys op p f).
Proof. intros w msg. apply sys_no_panic. Qed.

#[export] Hint Resolve no_panic_ret no_panic_throw no_panic_gets no_panic_bind no_panic_try
  no_panic_sys : go.

Lemma no_panic_remove_each p qs first : no_panic (remove_each p qs first).
Proof. revert first. induction qs as [|q qs IH]; intros first; simpl; auto with go. Qed.

Lemma no_panic_RemoveAll p : no_panic (os_RemoveAll p).
Proof.
  apply no_panic_bind; [apply no_panic_try, no_panic_sys|]. intros [n|e].
  - apply no_panic_bind; [auto with go|]. intros m.
    apply no_panic_bind; [apply no_panic_remove_each|]. intros first.
    apply no_panic_bind; [auto with go|]. intros m'. destruct first, (m' !! p); auto with go.
  - destruct (os_IsNotExist e); auto with go.
Qed.

(** *** Calls that go on: without faults to come they do not end the process, leave
    none to come, and draw no random numbers *)

Definition goes_on {A : Type} (m : GoM OS A) : Prop :=
  ∀ w, no_faults w → (no_faults (m w).2 ∧ os_rand (m w).2 = os_rand w) ∧ (m w).1 ≠ Crash.

Lemma goes_on_ret {A : Type} (a : A) : goes_on (ret a).
Proof. by intros w Hw. Qed.

Lemma goes_on_throw {A : Type} e : goes_on (@throw OS A e).
Proof. by intros w Hw. Qed.

Lemma goes_on_gets {A : Type} (f : OS → A) : goes_on (gets f).
Proof. by intros w Hw. Qed.

Lemma goes_on_bind {A B : Type} (m : GoM OS A) (f : A → GoM OS B) :
  goes_on m → (∀ a, goes_on (f a)) → goes_on (bind m f).
Proof.
  intros Hm Hf w Hw. destruct (Hm w Hw) as [[H1 Hr] H2]. unfold bind.
  destruct (m w) as [[a|e|msg|] w']; [|done..]. destruct (Hf a w' H1) as [[H3 Hr'] H4].
  split; [|done]. split; [done|]. etrans; [exact Hr'|exact Hr].
Qed.

Lemma goes_on_try {A : Type} (m : GoM OS A) : goes_on m → goes_on (try m).
Proof.
  intros Hm w Hw. destruct (Hm w Hw) as [H1 H2]. unfold try.
  by destruct (m w) as [[a|e|msg|] w'].
Qed.

Lemma goes_on_sys {A : Type} op p (f : fsT → errno + A * fsT) : goes_on (sys op p f).
Proof. intros w Hw. rewrite sys_calm by done. by destruct (f (os_fs w)) as [|[]]. Qed.

#[export] Hint Resolve goes_on_ret goes_on_throw goes_on_gets goes_on_bind goes_on_try goes_on_sys : go.

Lemma goes_on_remove_each p qs first : goes_on (remove_each p qs first).
Proof. revert first. induction qs as [|q qs IH]; intros first; simpl; auto with go. Qed.

Lemma goes_on_RemoveAll p : goes_on (os_RemoveAll p).
Proof.
  apply goes_on_bind; [apply goes_on_try, goes_on_sys|]. intros [n|e].
  - apply goes_on_bind; [auto with go|]. intros m.
    apply goes_on_bind; [apply goes_on_remove_each|]. intros first.
    apply goes_on_bind; [auto with go|]. intros m'. destruct first, (m' !! p); auto with go.
  - destruct (os_IsNotExist e); auto with go.
Qed.

(** *** The moments of a run

    A run without failures makes some number of system calls, and does the same
    when failures come only later. *)

Definition steady {A : Type} (m : GoM OS A) : Prop :=
  ∀ w, no_faults w → no_faults (m w).2 ∧
    ∃ k, ∀ l, m (set_faults (replicate k FNone ++ l) w) = ((m w).1, set_faults l (m w).2).

Lemma set_faults_id w : no_faults w → set_faults [] w = w.
Proof. destruct w. unfold no_faults. simpl. by intros ->. Qed.

Lemma steady_ret {A : Type} (a : A) : steady (ret a).
Proof. intros w Hw. split; [done|]. by exists 0. Qed.

Lemma steady_throw {A : Type} e : steady (@throw OS A e).
Proof. intros w Hw. split; [done|]. by exists 0. Qed.

Lemma steady_sys {A : Type} op p (f : fsT → errno + A * fsT) : steady (sys op p f).
Proof.
  intros w Hw. rewrite sys_calm by done. split; [by destruct (f (os_fs w)) as [|[]]|].
  exists 1. intros l. unfold sys, pop_fault. simpl. by destruct (f (os_fs w)) as [|[]].
Qed.

Lemma steady_bind {A B : Type} (m : GoM OS A) (f : A → GoM OS B) :
  steady m → (∀ a, steady (f a)) → steady (bind m f).
Proof.
  intros Hm Hf w Hw. destruct (Hm w Hw) as [H1 [k Hk]]. unfold bind.
  destruct (m w) as [[a|e|msg|] w1]; cbn [fst snd] in *;
    [|split; [done|]; exists k; intros l; by rewrite Hk..].
  destruct (Hf a w1 H1) as [H2 [k' Hk']]. split; [done|]. exists (k + k'). intros l.
  rewrite replicate_add, <-app_assoc, Hk. apply Hk'.
Qed.

Lemma steady_try {A : Type} (m : GoM OS A) : steady m → steady (try m).
Proof.
  intros Hm w Hw. destruct (Hm w Hw) as [H1 [k Hk]]. unfold try. split.
  { by destruct (m w) as [[]]. }
  exists k. intros l. rewrite Hk. by destruct (m w) as [[]].
Qed.

#[export] Hint Resolve steady_ret steady_throw steady_sys steady_bind steady_try : go.

Lemma steady_MkdirAll p perm : steady (os_MkdirAll p perm).
Proof.
  assert (Hrest : ∀ p (m : GoM OS unit), steady m → steady (
    st <- try (os_Stat p) ;;
    match st with
    | inl (Dir _) => ret tt
    | inl _ => throw (ErrErrno "mkdir" p ENOTDIR)
    | inr _ =>
        m ;; r <- try (os_Mkdir p perm) ;;
        match r with
        | inl _ => ret tt
        | inr e => l <- try (os_Lstat p) ;; match l with inl (Dir _) => ret tt | _ => throw e end
        end
    end)).
  { clear p. intros p m Hm. apply steady_bind; [apply steady_try, steady_sys|]. intros [[]|e]; auto with go.
    apply steady_bind; [done|]. intros _. apply steady_bind; [apply steady_try, steady_sys|].
    intros [[]|e']; auto with go. apply steady_bind; [apply steady_try, steady_sys|].
    intros [[]|]; auto with go. }
  induction p as [|x p IH]; apply Hrest; auto with go.
Qed.

Lemma steady_CreateTemp dir prefix : steady (os_CreateTemp dir prefix).
Proof.
  assert (H : ∀ draws, steady (create_temp dir prefix draws)).
  { induction draws as [|x draws IH]; simpl; auto with go. apply steady_bind.
    - intros w Hw. split; [done|]. by exists 0.
    - intros _. apply steady_bind; [apply steady_try, steady_sys|].
      intros [[]|[]]; auto with go. destruct en; auto with go. }
  intros w Hw. apply (H (os_rand w) w Hw).
Qed.

(** *** [os.WriteFile] *)

Lemma stable_WriteFile (R : fsT → fsT → Prop) `{!PreOrder R} p d perm :
  (∀ m md d0 d1, m !! p = Some (File md d0) → R m (<[p := File md d1]> m)) →
  (∀ m, walk m p = None → m !! p = None → parent_writable m p = true →
        R m (<[p := File perm ""]> m)) →
  stable (fs_rel R) (os_WriteFile p d perm).
Proof.
  intros H1 H2. unfold os_WriteFile. apply (stable_bind (fs_rel R)).
  - apply stable_sys; [apply _|]. intros m a m'. destruct (walk m p) eqn:Ew; [done|].
    destruct (m !! p) as [[md|md d0|t|]|] eqn:E; try done.
    + destruct (can_w md); [|done]. intros [= _ <-]. by eapply H1.
    + destruct (parent_writable m p) eqn:Ep; [|done]. intros [= _ <-]. by apply H2.
  - intros _. apply stable_Write; [apply _|]. intros m md d0 d1 Hp. by eapply H1.
Qed.
