(* ===== verification/OsWalk.v ===== *)
(** [filepath.WalkDir] with a callback that rewrites the node it visits, as the
    permission walks of the image cache do: when nothing fails the walk ends
    (the fuel is enough) and has rewritten exactly the nodes at and below its
    root. *)
From S2P Require Import Prelude GoPath OsFS OsLemmas.

(** Rewriting the nodes whose path satisfies [P]. *)
Definition mapped (P : path → bool) (g : node → node) (m : fsT) : fsT :=
  map_imap (λ q n, Some (if P q then g n else n)) m.

Definition under (p : path) (q : path) : bool := bool_decide (p `suffix_of` q).

Definition under_any (p : path) (xs : list string) (q : path) : bool :=
  existsb (λ x, under (x :: p) q) xs.

Lemma mapped_lookup P g m q :
  mapped P g m !! q = (λ n, if P q then g n else n) <$> m !! q.
Proof. unfold mapped. rewrite map_lookup_imap. by destruct (m !! q). Qed.

Lemma under_true p q : under p q = true ↔ p `suffix_of` q.
Proof. apply bool_decide_eq_true. Qed.

Lemma under_any_true p xs q :
  under_any p xs q = true ↔ ∃ x, x ∈ xs ∧ (x :: p) `suffix_of` q.
Proof.
  unfold under_any. rewrite existsb_exists. setoid_rewrite under_true.
  by setoid_rewrite list_elem_of_In.
Qed.

Section walk.
Context (g : node → node) (good : node → Prop) (fn : walk_fn).
Context (g_kind : ∀ n, node_kind (g n) = node_kind n).
Context (g_dir : ∀ md, ∃ md', g (Dir md) = Dir md' ∧ can_r md' = true ∧ can_x md' = true).
Context (fn_calm : ∀ w p n,
  no_faults w → walk (os_fs w) p = None → os_fs w !! p = Some n → good n →
  fn p (node_kind n) None w = (Ok tt, set_fs (<[p := g n]> (os_fs w)) w)).

Lemma mapped_kind P m q : node_kind <$> mapped P g m !! q = node_kind <$> m !! q.
Proof.
  rewrite mapped_lookup. destruct (m !! q); [|done]. simpl. f_equal.
  destruct (P q); [apply g_kind|done].
Qed.

Lemma kind_dir n : node_kind n = KDir → ∃ md, n = Dir md.
Proof. destruct n; try done. eauto. Qed.

Lemma mapped_wf P m : wf_fs m → wf_fs (mapped P g m).
Proof.
  intros Hwf x p n Hn. pose proof (mapped_kind P m (x :: p)) as Hk. rewrite Hn in Hk.
  destruct (m !! (x :: p)) as [n0|] eqn:E; [|done].
  destruct (Hwf _ _ _ E) as (Hx & md & Hmd). split; [done|].
  pose proof (mapped_kind P m p) as Hk'. rewrite Hmd in Hk'. simpl in Hk'.
  destruct (mapped P g m !! p) as [n1|]; [|done]. injection Hk' as Hk'.
  apply kind_dir in Hk' as [md' ->]. eauto.
Qed.

Lemma insert_wf m p n : wf_fs m → m !! p = Some n → wf_fs (<[p := g n]> m).
Proof.
  intros Hwf Hp. eapply wf_replace; [done..|]. intros md ->.
  destruct (g_dir md) as (md' & -> & _). eauto.
Qed.

Lemma mapped_changes P m : changes_only (λ q, P q = true) m (mapped P g m).
Proof.
  intros q Hq. rewrite mapped_lookup. destruct (P q); [done|]. by destruct (m !! q).
Qed.

(** What a walk of [p] with [fuel] needs. *)
Definition walkable (fuel : nat) (p : path) (w : OS) : Prop :=
  no_faults w ∧ wf_fs (os_fs w) ∧ walk (os_fs w) p = None ∧
  ∀ q n, p `suffix_of` q → os_fs w !! q = Some n → good n ∧ length q < length p + fuel.

Definition walks (fuel : nat) : Prop := ∀ p n w,
  walkable fuel p w → os_fs w !! p = Some n →
  walk_dir fuel fn p (node_kind n) w = (Ok tt, set_fs (mapped (under p) g (os_fs w)) w).

(** Walking the children of a directory one after the other. *)
Lemma walk_children fuel p (es : list (string * kind)) w md :
  walks fuel → NoDup es.*1 →
  os_fs w !! p = Some (Dir md) → can_x md = true →
  (∀ x k, (x, k) ∈ es → ∃ n, os_fs w !! (x :: p) = Some n ∧ k = node_kind n) →
  no_faults w → wf_fs (os_fs w) → walk (os_fs w) p = None →
  (∀ x q n, x ∈ es.*1 → (x :: p) `suffix_of` q → os_fs w !! q = Some n →
            good n ∧ length q < length p + S fuel) →
  forM es (λ e, walk_dir fuel fn (e.1 :: p) e.2) w
  = (Ok tt, set_fs (mapped (under_any p es.*1) g (os_fs w)) w).
Proof.
  intros Hwalks. revert w md. induction es as [|[x k] es IH];
    intros w md Hnd Hp Hx Hes Hw Hwf Hwalk Hgood.
  - simpl. unfold ret. do 2 f_equal. rewrite <-(set_fs_id w) at 1. f_equal.
    apply map_eq. intros q. rewrite mapped_lookup. simpl. by destruct (os_fs w !! q).
  - apply NoDup_cons in Hnd as [Hnot Hnd]. simpl in Hnot.
    destruct (Hes x k) as (n & Hn & ->); [left|]. simpl.
    assert (Hwx : walk (os_fs w) (x :: p) = None) by (apply walk_cons; eauto).
    erewrite bind_step.
    2:{ apply Hwalks; [|done]. split_and!; try done. intros q n' Hq Hn'.
        destruct (Hgood x q n') as [? Hl]; [left|done..|]. split; [done|]. simpl. lia. }
    rewrite (IH _ md); clear IH; cbn [os_fs set_fs].
    + rewrite set_fs_set_fs. do 2 f_equal. apply map_eq. intros q. rewrite !mapped_lookup.
      destruct (os_fs w !! q) as [n'|]; [|done]. simpl. f_equal. fold (under_any p es.*1 q).
      destruct (under (x :: p) q) eqn:Eu; simpl; [|done].
      destruct (under_any p es.*1 q) eqn:Ea; [|done]. exfalso.
      apply under_any_true in Ea as (y & Hy & Hyq). apply under_true in Eu.
      by rewrite (suffix_child_inj x y p q) in Hnot.
    + done.
    + rewrite mapped_lookup, Hp. simpl. replace (under (x :: p) p) with false; [done|].
      symmetry. apply bool_decide_eq_false, suffix_cons_not.
    + done.
    + intros y k' Hy. destruct (Hes y k') as (n' & Hn' & ->); [by right|].
      rewrite mapped_lookup, Hn'. simpl. eexists. split; [reflexivity|].
      destruct (under _ _); [by rewrite g_kind|done].
    + done.
    + by apply mapped_wf.
    + rewrite (walk_outside (os_fs w) _ _ (λ q, under (x :: p) q = true)).
      * done.
      * apply mapped_changes.
      * intros q Hq%under_true. etrans; [|exact Hq]. by apply suffix_cons_r.
    + intros y q n' Hy Hq Hn'. rewrite mapped_lookup in Hn'.
      destruct (os_fs w !! q) as [n0|] eqn:E; [|done].
      replace (under (x :: p) q) with false in Hn'.
      * injection Hn' as <-. eapply Hgood; [right|..]; eauto.
      * symmetry. apply bool_decide_eq_false. intros Hxq.
        by rewrite (suffix_child_inj x y p q) in Hnot.
Qed.

Lemma NoDup_entries m p : NoDup (entries m p).*1.
Proof.
  unfold entries. rewrite sorting.merge_sort_Permutation.
  pose proof (NoDup_fst_map_to_list m) as Hnd. induction (map_to_list m) as [|[q n] l IH].
  - constructor.
  - apply NoDup_cons in Hnd as [Hnot Hnd]. specialize (IH Hnd). simpl.
    unfold child_entry at 1. simpl. destruct q as [|x q]; [done|].
    case_decide; subst; [|done]. simpl. constructor; [|done].
    intros ([y k] & -> & Hy)%list_elem_of_fmap.
    apply list_elem_of_omap in Hy as ([q' n'] & Hin & He). unfold child_entry in He. simpl in He.
    destruct q' as [|y' q']; [done|]. case_decide; [|done]. simplify_eq. apply Hnot.
    apply list_elem_of_fmap. by exists (y :: p, n').
Qed.

Lemma child_ne (x : string) (p : path) : p ≠ x :: p.
Proof. intros Heq. apply (f_equal length) in Heq. simpl in Heq. lia. Qed.

(** The nodes at and below [p] are [p] and what is below its children. *)
Lemma mapped_split p n m xs :
  wf_fs m → m !! p = Some n → (∀ x, x ∈ xs ↔ is_Some (m !! (x :: p))) →
  mapped (under_any p xs) g (<[p := g n]> m) = mapped (under p) g m.
Proof.
  intros Hwf Hn Hxs. apply map_eq. intros q. rewrite !mapped_lookup.
  destruct (decide (q = p)) as [->|Hne].
  - rewrite lookup_insert_eq, Hn. simpl. rewrite (proj2 (under_true p p)) by done.
    destruct (under_any p xs p) eqn:E; [|done]. exfalso.
    apply under_any_true in E as (x & _ & Hx). by apply suffix_cons_not in Hx.
  - rewrite lookup_insert_ne by done. destruct (m !! q) as [n'|] eqn:E; [|done].
    simpl. f_equal. replace (under_any p xs q) with (under p q); [done|].
    apply Bool.eq_iff_eq_true. rewrite under_true, under_any_true. split.
    + intros [k ->]. destruct k as [|y k _] using rev_ind; [done|].
      rewrite <-app_assoc in *. simpl in *. exists y. split; [|by exists k].
      apply Hxs. eapply wf_ancestor; [exact Hwf| |eauto]. by exists k.
    + intros (x & _ & Hx). etrans; [|exact Hx]. by apply suffix_cons_r.
Qed.

Lemma mapped_leaf p n m :
  wf_fs m → m !! p = Some n → (∀ md, n ≠ Dir md) →
  <[p := g n]> m = mapped (under p) g m.
Proof.
  intros Hwf Hn Hnd. rewrite <-(mapped_split p n m []); [|done..|].
  - apply map_eq. intros q. rewrite mapped_lookup. simpl. by destruct (_ !! q).
  - intros x. split; [by intros ?%not_elem_of_nil|]. intros [n' Hn'].
    destruct (Hwf _ _ _ Hn') as (_ & md & Hmd). congruence.
Qed.

Lemma entries_children m p n x :
  m !! p = Some n → x ∈ (entries (<[p := g n]> m) p).*1 ↔ is_Some (m !! (x :: p)).
Proof.
  intros _. rewrite list_elem_of_fmap. split.
  - intros ([y k] & -> & Hy). apply elem_of_entries in Hy as (n' & Hn' & _).
    rewrite lookup_insert_ne in Hn' by apply child_ne. eauto.
  - intros [n' Hn']. exists (x, node_kind n'). split; [done|]. apply elem_of_entries.
    exists n'. split; [|done]. by rewrite lookup_insert_ne by apply child_ne.
Qed.

Lemma walk_dir_calm fuel : walks fuel.
Proof.
  induction fuel as [|fuel IH]; intros p n w (Hw & Hwf & Hwalk & Hgood) Hn.
  { destruct (Hgood p n) as [_ Hl]; [done..|]. lia. }
  destruct (Hgood p n) as [Hg _]; [done..|].
  cbn [walk_dir]. erewrite bind_step by (by apply fn_calm).
  destruct n as [md|md d|t|]; cbn [node_kind];
    [|unfold ret; by rewrite mapped_leaf by done..].
  set (m1 := <[p := g (Dir md)]> (os_fs w)).
  destruct (g_dir md) as (md' & Hgd & Hr & Hx).
  assert (Hp1 : m1 !! p = Some (Dir md')).
  { unfold m1. by rewrite lookup_insert_eq, Hgd. }
  assert (Hwalk1 : walk m1 p = None).
  { rewrite (walk_outside (os_fs w) m1 p (λ q, q = p)); [done| |by intros ? ->].
    by apply changes_only_insert. }
  erewrite bind_step; [|apply try_step; instantiate (2 := inl (entries m1 p))].
  2:{ unfold os_ReadDir. rewrite sys_calm by done. cbn [os_fs set_fs].
      rewrite (find_node_Some m1 p (Dir md')), Hr by done. by rewrite set_fs_set_fs. }
  cbv beta iota. rewrite (walk_children _ _ _ _ md'); cbn [os_fs set_fs]; try done.
  - rewrite set_fs_set_fs. unfold m1. rewrite mapped_split; [done..|].
    intros x. by apply entries_children.
  - apply NoDup_entries.
  - intros x k (n' & Hn' & <-)%elem_of_entries. eauto.
  - by apply insert_wf.
  - intros x q n' _ Hq Hn'. unfold m1 in Hn'.
    rewrite lookup_insert_ne in Hn' by (intros <-; by apply suffix_cons_not in Hq).
    eapply Hgood; [|exact Hn']. etrans; [|exact Hq]. by apply suffix_cons_r.
Qed.

Lemma fs_depth_le m q : is_Some (m !! q) → length q ≤ fs_depth m.
Proof.
  intros [n Hn]. unfold fs_depth. apply max_list_elem_of_le, list_elem_of_fmap.
  exists q. split; [done|]. apply list_elem_of_fmap. exists (q, n).
  by rewrite elem_of_map_to_list.
Qed.

(** The walk of an existing root ends and rewrites everything at and below it. *)
Lemma WalkDir_calm root n w :
  no_faults w → wf_fs (os_fs w) → walk (os_fs w) root = None → os_fs w !! root = Some n →
  (∀ q n', root `suffix_of` q → os_fs w !! q = Some n' → good n') →
  filepath_WalkDir root fn w = (Ok tt, set_fs (mapped (under root) g (os_fs w)) w).
Proof.
  intros Hw Hwf Hwalk Hn Hgood. unfold filepath_WalkDir.
  erewrite bind_step; [|apply try_step; instantiate (2 := inl n); apply Lstat_calm;
    [done|by apply find_node_Some]].
  cbv beta iota. erewrite bind_step; [|reflexivity]. apply walk_dir_calm; [|done].
  split_and!; try done. intros q n' Hq Hn'. split; [by eapply Hgood|].
  assert (length q ≤ fs_depth (os_fs w)) by (apply fs_depth_le; eauto). lia.
Qed.
End walk.

(** A walk does to the tree only what its callback does to the nodes below the
    root. *)
Lemma stable_WalkDir (R : fsT → fsT → Prop) `{!PreOrder R} root fn :
  (∀ p k e, root `suffix_of` p → stable (fs_rel R) (fn p k e)) →
  stable (fs_rel R) (filepath_WalkDir root fn).
Proof.
  intros Hfn. unfold filepath_WalkDir.
  assert (Hwd : ∀ fuel p k, root `suffix_of` p → stable (fs_rel R) (walk_dir fuel fn p k)).
  { induction fuel as [|fuel IH]; intros p k Hp; simpl.
    - apply (stable_bind (fs_rel R)); [by apply Hfn|]. intros _.
      destruct k; apply stable_panic || apply stable_ret; apply _.
    - apply (stable_bind (fs_rel R)); [by apply Hfn|]. intros _.
      destruct k; try apply stable_ret, _.
      apply (stable_bind (fs_rel R)); [apply (stable_try (fs_rel R)), stable_ReadDir, _|].
      intros [es|e]; [|by apply Hfn]. apply (stable_forM (fs_rel R)).
      intros e _. apply IH. by apply suffix_cons_r. }
  apply (stable_bind (fs_rel R)); [apply (stable_try (fs_rel R)), stable_Lstat, _|].
  intros [n|e]; [|by apply Hfn].
  apply (stable_bind (fs_rel R)); [apply stable_gets, _|]. intros m. by apply Hwd.
Qed.

(** ** Walks whose callback keeps the set of nodes end without running out of
    fuel, whatever fails *)

Definition same_nodes (m m' : fsT) : Prop := ∀ q, is_Some (m' !! q) ↔ is_Some (m !! q).

#[export] Instance same_nodes_preorder : PreOrder same_nodes.
Proof. split; [by intros m q|]. intros m1 m2 m3 H1 H2 q. etrans; [apply H2|apply H1]. Qed.

Lemma same_nodes_insert m p n n' : m !! p = Some n → same_nodes m (<[p := n']> m).
Proof.
  intros Hp q. destruct (decide (p = q)) as [->|].
  - rewrite lookup_insert_eq, Hp. split; eauto.
  - by rewrite lookup_insert_ne.
Qed.

Section total.
Context (fn : walk_fn).
Context (fn_nodes : ∀ p k e, stable (fs_rel same_nodes) (fn p k e)).
Context (fn_no_panic : ∀ p k e, no_panic (fn p k e)).

Lemma walk_dir_nodes fuel p k : stable (fs_rel same_nodes) (walk_dir fuel fn p k).
Proof.
  revert p k. induction fuel as [|fuel IH]; intros p k; simpl.
  - apply (stable_bind (fs_rel same_nodes)); [apply fn_nodes|]. intros _.
    destruct k; apply stable_panic || apply stable_ret; apply _.
  - apply (stable_bind (fs_rel same_nodes)); [apply fn_nodes|]. intros _.
    destruct k; try apply stable_ret, _.
    apply (stable_bind (fs_rel same_nodes)); [apply (stable_try (fs_rel same_nodes)), stable_ReadDir, _|].
    intros [es|e]; [|apply fn_nodes]. apply (stable_forM (fs_rel same_nodes)). auto.
Qed.

Definition enough (fuel : nat) (p : path) (m : fsT) : Prop :=
  is_Some (m !! p) ∧ ∀ q, is_Some (m !! q) → length q < length p + fuel.

Lemma enough_same fuel p m m' : same_nodes m m' → enough fuel p m → enough fuel p m'.
Proof. intros Hs [H1 H2]. split; [by apply Hs|]. intros q Hq. by apply H2, Hs. Qed.

Lemma walk_dir_total fuel p k w msg :
  enough fuel p (os_fs w) → (walk_dir fuel fn p k w).1 ≠ Panic msg.
Proof.
  revert p k w. induction fuel as [|fuel IH]; intros p k w He; simpl.
  { destruct He as [Hp Hl]. specialize (Hl p Hp). lia. }
  unfold bind at 1. pose proof (fn_nodes p k None w) as Hn. unfold fs_rel in Hn.
  pose proof (fn_no_panic p k None w) as Hp.
  destruct (fn p k None w) as [[u|e|msg'|] w1]; simpl in *; [|done|by destruct (Hp msg')|done].
  destruct k; try done. unfold bind at 1, try.
  destruct (os_ReadDir p w1) as [[es|e|msg'|] w2] eqn:Er; simpl; [|apply fn_no_panic| |done].
  2:{ exfalso. apply (no_panic_sys _ _ _ w1 msg' ltac:(unfold os_ReadDir in Er; by rewrite Er)). }
  pose proof (stable_ReadDir (=) p w1) as Hr. rewrite Er in Hr. unfold fs_rel in Hr. simpl in Hr.
  assert (Hes : ∀ e, e ∈ es → is_Some (os_fs w2 !! (e.1 :: p))).
  { unfold os_ReadDir in Er. apply sys_Ok in Er.
    destruct (find_node (os_fs w1) p) as [|[md| | |]]; try done. destruct (can_r md); [|done].
    injection Er as Hes _. subst es. intros [x kx] Hx%elem_of_entries. rewrite <-Hr.
    destruct Hx as (n & Hn' & _). eauto. }
  assert (He2 : ∀ q, is_Some (os_fs w2 !! q) → length q < length p + S fuel).
  { intros q. rewrite <-Hr. intros Hq. apply He. by apply Hn. }
  clear He Hn Hp Er Hr w w1.
  revert w2 Hes He2. induction es as [|e es IHes]; intros w2 Hes He2; [done|].
  simpl. unfold bind. pose proof (walk_dir_nodes fuel (e.1 :: p) e.2 w2) as Hn. unfold fs_rel in Hn.
  assert (Hen : enough fuel (e.1 :: p) (os_fs w2)).
  { split; [apply Hes; by left|]. intros q Hq. specialize (He2 q Hq). simpl. lia. }
  pose proof (IH _ e.2 w2 Hen) as Hp.
  destruct (walk_dir fuel fn (e.1 :: p) e.2 w2) as [[u'|e'|msg'|] w3]; simpl in *; try done.
  apply IHes.
  - intros e'' He''. apply Hn, Hes. by right.
  - intros q Hq. by apply He2, Hn.
Qed.

Lemma no_panic_WalkDir root : no_panic (filepath_WalkDir root fn).
Proof.
  intros w msg. unfold filepath_WalkDir, bind at 1, try.
  destruct (os_Lstat root w) as [[n|e|msg'|] w1] eqn:E; cbv beta iota; [|apply fn_no_panic| |done].
  - erewrite bind_step by reflexivity. apply walk_dir_total. apply Lstat_Ok in E as (_ & Hn & Hfs). rewrite <-Hfs in Hn.
    split; [eauto|]. intros q Hq. apply fs_depth_le in Hq. lia.
  - intros _. apply (no_panic_sys _ _ _ w msg' ltac:(unfold os_Lstat in E; by rewrite E)).
Qed.
End total.
