(* ===== verification/Api.v ===== *)
(** The ClusterCatalog API ([api/v1/clustercatalog_types.go]): the custom
    resource, its constants, and the condition list of its status with the
    contract of [meta.SetStatusCondition]. Slices are lists (the semantic
    comparison of the API machinery does not tell a nil slice from an empty
    one), pointers are options. *)
From S2P Require Import Prelude.

(** * Constants *)

Definition SourceTypeImage : string := "Image".
Definition TypeProgressing : string := "Progressing".
Definition TypeServing : string := "Serving".
Definition ReasonAvailable : string := "Available".
Definition ReasonUnavailable : string := "Unavailable".
Definition ReasonUserSpecifiedUnavailable : string := "UserSpecifiedUnavailable".
Definition ReasonSucceeded : string := "Succeeded".
Definition ReasonRetrying : string := "Retrying".
Definition ReasonBlocked : string := "Blocked".
Definition MetadataNameLabel : string := "olm.operatorframework.io/metadata.name".
Definition AvailabilityModeAvailable : string := "Available".
Definition AvailabilityModeUnavailable : string := "Unavailable".

(** [metav1.ConditionStatus] *)
Definition ConditionTrue : string := "True".
Definition ConditionFalse : string := "False".

(** * The resource *)

Record ImageSource := mkImageSource {
  Ref : string;
  PollIntervalMinutes : option Z
}.

Record CatalogSource := mkCatalogSource {
  SourceType : string;
  Image : option ImageSource
}.

Record ClusterCatalogSpec := mkSpec {
  Source : CatalogSource;
  Priority : Z;
  AvailabilityMode : string
}.

Record ResolvedImageSource := mkResolvedImage { ResolvedRef : string }.

Record ResolvedCatalogSource := mkResolvedSource {
  ResolvedType : string;
  ResolvedImage : option ResolvedImageSource
}.

Record ClusterCatalogURLs := mkURLs { Base : string }.

(** [metav1.Condition] *)
Record Condition := mkCondition {
  cType : string;
  cStatus : string;
  cObservedGeneration : Z;
  cLastTransitionTime : Z;
  cReason : string;
  cMessage : string
}.

Record ClusterCatalogStatus := mkStatus {
  Conditions : list Condition;
  ResolvedSource : option ResolvedCatalogSource;
  URLs : option ClusterCatalogURLs;
  LastUnpacked : option Z
}.

(** The fields of [metav1.ObjectMeta]; a nil label map is [None]. *)
Record ObjectMeta := mkMeta {
  Name : string;
  Namespace : string;
  UID : string;
  ResourceVersion : string;
  Generation : Z;
  CreationTimestamp : Z;
  DeletionTimestamp : option Z;
  Labels : option (gmap string string);
  Annotations : option (gmap string string);
  Finalizers : list string
}.

Record ClusterCatalog := mkCatalog {
  Kind : string;
  APIVersion : string;
  Meta : ObjectMeta;
  Spec : ClusterCatalogSpec;
  Status : ClusterCatalogStatus
}.

#[global] Instance ImageSource_eq_dec : EqDecision ImageSource.
Proof. solve_decision. Defined.
#[global] Instance CatalogSource_eq_dec : EqDecision CatalogSource.
Proof. solve_decision. Defined.
#[global] Instance Spec_eq_dec : EqDecision ClusterCatalogSpec.
Proof. solve_decision. Defined.
#[global] Instance ResolvedImageSource_eq_dec : EqDecision ResolvedImageSource.
Proof. solve_decision. Defined.
#[global] Instance ResolvedCatalogSource_eq_dec : EqDecision ResolvedCatalogSource.
Proof. solve_decision. Defined.
#[global] Instance URLs_eq_dec : EqDecision ClusterCatalogURLs.
Proof. solve_decision. Defined.
#[global] Instance Condition_eq_dec : EqDecision Condition.
Proof. solve_decision. Defined.
#[global] Instance Status_eq_dec : EqDecision ClusterCatalogStatus.
Proof. solve_decision. Defined.
#[global] Instance ObjectMeta_eq_dec : EqDecision ObjectMeta.
Proof. solve_decision. Defined.
#[global] Instance ClusterCatalog_eq_dec : EqDecision ClusterCatalog.
Proof. solve_decision. Defined.

Definition zeroStatus : ClusterCatalogStatus := mkStatus [] None None None.

Definition set_conditions (cs : list Condition) (st : ClusterCatalogStatus) : ClusterCatalogStatus :=
  mkStatus cs (ResolvedSource st) (URLs st) (LastUnpacked st).

Definition set_status (st : ClusterCatalogStatus) (c : ClusterCatalog) : ClusterCatalog :=
  mkCatalog (Kind c) (APIVersion c) (Meta c) (Spec c) st.

Definition set_meta_finalizers (fs : list string) (o : ObjectMeta) : ObjectMeta :=
  mkMeta (Name o) (Namespace o) (UID o) (ResourceVersion o) (Generation o)
    (CreationTimestamp o) (DeletionTimestamp o) (Labels o) (Annotations o) fs.

Definition set_finalizers (fs : list string) (c : ClusterCatalog) : ClusterCatalog :=
  mkCatalog (Kind c) (APIVersion c) (set_meta_finalizers fs (Meta c)) (Spec c) (Status c).

Definition set_labels (ls : option (gmap string string)) (c : ClusterCatalog) : ClusterCatalog :=
  let o := Meta c in
  mkCatalog (Kind c) (APIVersion c)
    (mkMeta (Name o) (Namespace o) (UID o) (ResourceVersion o) (Generation o)
       (CreationTimestamp o) (DeletionTimestamp o) ls (Annotations o) (Finalizers o))
    (Spec c) (Status c).

Definition set_version (rv : string) (c : ClusterCatalog) : ClusterCatalog :=
  let o := Meta c in
  mkCatalog (Kind c) (APIVersion c)
    (mkMeta (Name o) (Namespace o) (UID o) rv (Generation o)
       (CreationTimestamp o) (DeletionTimestamp o) (Labels o) (Annotations o) (Finalizers o))
    (Spec c) (Status c).

Definition cat_name (c : ClusterCatalog) : string := Name (Meta c).
Definition cat_generation (c : ClusterCatalog) : Z := Generation (Meta c).
Definition cat_finalizers (c : ClusterCatalog) : list string := Finalizers (Meta c).
Definition deleting (c : ClusterCatalog) : bool :=
  match DeletionTimestamp (Meta c) with Some _ => true | None => false end.

(** * Conditions *)

(** The first condition of a type, as [meta.FindStatusCondition] has it. *)
Fixpoint find_condition (t : string) (cs : list Condition) : option Condition :=
  match cs with
  | [] => None
  | c :: cs' => if decide (cType c = t) then Some c else find_condition t cs'
  end.

Definition has_type (t : string) (c : Condition) : Prop := cType c = t.

(** An existing condition after an update to [c] at time [now]: the transition
    time moves only when the status does. *)
Definition merge_condition (now : Z) (old c : Condition) : Condition :=
  mkCondition (cType old) (cStatus c) (cObservedGeneration c)
    (if decide (cStatus old = cStatus c) then cLastTransitionTime old
     else if decide (cLastTransitionTime c = 0%Z) then now else cLastTransitionTime c)
    (cReason c) (cMessage c).

Definition stamp_condition (now : Z) (c : Condition) : Condition :=
  mkCondition (cType c) (cStatus c) (cObservedGeneration c)
    (if decide (cLastTransitionTime c = 0%Z) then now else cLastTransitionTime c)
    (cReason c) (cMessage c).

(** The documented contract of [meta.SetStatusCondition]: the condition of the
    type is updated in place, or appended when there is none. *)
Class ConditionSetter := {
  SetStatusCondition : Z → list Condition → Condition → list Condition;
  ssc_update now pre old post c :
    cType old = cType c → Forall (λ d, cType d ≠ cType c) pre →
    SetStatusCondition now (pre ++ old :: post) c = pre ++ merge_condition now old c :: post;
  ssc_append now cs c :
    Forall (λ d, cType d ≠ cType c) cs →
    SetStatusCondition now cs c = cs ++ [stamp_condition now c]
}.

(** * Facts about condition lists *)

Section conditions.
Context {CS : ConditionSetter}.

Lemma condition_split t cs :
  Forall (λ d, cType d ≠ t) cs ∨
  ∃ pre old post, cs = pre ++ old :: post ∧ cType old = t ∧ Forall (λ d, cType d ≠ t) pre.
Proof.
  induction cs as [|c cs IH]; [by left|].
  destruct (decide (cType c = t)) as [Ht|Ht].
  - right. by exists [], c, cs.
  - destruct IH as [IH|(pre & old & post & -> & Ho & Hp)]; [left; by constructor|].
    right. exists (c :: pre), old, post. split_and!; try done. by constructor.
Qed.

Lemma find_condition_none t cs : Forall (λ d, cType d ≠ t) cs ↔ find_condition t cs = None.
Proof.
  induction cs as [|c cs IH]; simpl; [by split|]. rewrite Forall_cons.
  case_decide; naive_solver.
Qed.

Lemma find_condition_app t pre cs :
  Forall (λ d, cType d ≠ t) pre → find_condition t (pre ++ cs) = find_condition t cs.
Proof.
  induction 1 as [|d pre Hd Hpre IH]; [done|]. simpl. by rewrite decide_False.
Qed.

Lemma find_condition_app_ne t pre c c' post :
  cType c ≠ t → cType c' ≠ t →
  find_condition t (pre ++ c :: post) = find_condition t (pre ++ c' :: post).
Proof.
  intros Hc Hc'. induction pre as [|d pre IH]; simpl.
  - by rewrite !decide_False.
  - by rewrite IH.
Qed.

Lemma find_condition_snoc_ne t cs c :
  cType c ≠ t → find_condition t (cs ++ [c]) = find_condition t cs.
Proof.
  intros Hc. induction cs as [|d cs IH]; simpl; [by rewrite decide_False|]. by rewrite IH.
Qed.

(** The condition that was set is found with the content it was set to. *)
Lemma find_set_condition now cs c :
  ∃ lt, find_condition (cType c) (SetStatusCondition now cs c) =
    Some (mkCondition (cType c) (cStatus c) (cObservedGeneration c) lt (cReason c) (cMessage c)).
Proof.
  destruct (condition_split (cType c) cs) as [H|(pre & old & post & -> & Ho & Hp)].
  - rewrite ssc_append by done. rewrite find_condition_app by done. simpl.
    rewrite decide_True by done. by eexists.
  - rewrite ssc_update by done. rewrite find_condition_app by done. simpl.
    rewrite decide_True by done. unfold merge_condition. rewrite Ho. by eexists.
Qed.

Lemma find_set_condition_ne now cs c t :
  t ≠ cType c → find_condition t (SetStatusCondition now cs c) = find_condition t cs.
Proof.
  intros Ht. destruct (condition_split (cType c) cs) as [H|(pre & old & post & -> & Ho & Hp)].
  - rewrite ssc_append by done. by apply find_condition_snoc_ne.
  - rewrite ssc_update by done. apply find_condition_app_ne; simpl; congruence.
Qed.

(** Setting what is already there changes nothing. *)
Lemma set_condition_same now cs c d :
  find_condition (cType c) cs = Some d →
  cStatus d = cStatus c → cObservedGeneration d = cObservedGeneration c →
  cReason d = cReason c → cMessage d = cMessage c →
  SetStatusCondition now cs c = cs.
Proof.
  destruct (condition_split (cType c) cs) as [H|(pre & old & post & -> & Ho & Hp)].
  - rewrite find_condition_none in H. congruence.
  - rewrite find_condition_app by done. simpl. rewrite decide_True by done.
    intros [= ->] Hs Hg Hr Hm. rewrite ssc_update by done. do 2 f_equal.
    unfold merge_condition. rewrite decide_True by done. destruct d; simpl in *. by subst.
Qed.

(** The types present only grow, by the type that is set. *)
Lemma set_condition_types now cs c t :
  t ∈ map cType (SetStatusCondition now cs c) ↔ t ∈ map cType cs ∨ t = cType c.
Proof.
  destruct (condition_split (cType c) cs) as [H|(pre & old & post & -> & Ho & Hp)].
  - rewrite ssc_append, map_app by done. simpl. set_solver.
  - rewrite ssc_update, !map_app by done. simpl. rewrite Ho. set_solver.
Qed.

Lemma set_condition_nodup now cs c :
  NoDup (map cType cs) → NoDup (map cType (SetStatusCondition now cs c)).
Proof.
  destruct (condition_split (cType c) cs) as [H|(pre & old & post & -> & Ho & Hp)].
  - rewrite ssc_append, map_app by done. intros Hnd. apply NoDup_app. simpl.
    split_and!; [done| |apply NoDup_singleton].
    intros t Ht ->%list_elem_of_singleton. apply list_elem_of_fmap in Ht as (d & Heq & Hd).
    rewrite Forall_forall in H. by apply (H d).
  - rewrite ssc_update, !map_app by done. simpl. done.
Qed.
End conditions.

(** The implementation that the contract describes. *)
Fixpoint set_condition (now : Z) (cs : list Condition) (c : Condition) : list Condition :=
  match cs with
  | [] => [stamp_condition now c]
  | d :: cs' =>
      if decide (cType d = cType c) then merge_condition now d c :: cs'
      else d :: set_condition now cs' c
  end.

Program Definition reference_conditions : ConditionSetter := {|
  SetStatusCondition := set_condition
|}.
Next Obligation.
  intros now pre old post c Ho Hp. induction Hp as [|d pre Hd Hp IH]; simpl.
  - by rewrite decide_True.
  - rewrite decide_False by done. by f_equal.
Qed.
Next Obligation.
  intros now cs c H. induction H as [|d cs Hd H IH]; simpl; [done|].
  rewrite decide_False by done. by f_equal.
Qed.

(** * Semantic comparison

    [equality.Semantic.DeepEqual], documented as an equality of values that
    treats nil and empty slices and maps alike. *)

Definition nil_is_empty (o : option (gmap string string)) : gmap string string := default ∅ o.

Definition normalize_meta (o : ObjectMeta) : ObjectMeta :=
  mkMeta (Name o) (Namespace o) (UID o) (ResourceVersion o) (Generation o)
    (CreationTimestamp o) (DeletionTimestamp o)
    (Some (nil_is_empty (Labels o))) (Some (nil_is_empty (Annotations o))) (Finalizers o).

Definition normalize (c : ClusterCatalog) : ClusterCatalog :=
  mkCatalog (Kind c) (APIVersion c) (normalize_meta (Meta c)) (Spec c) (Status c).

Class SemanticEquality := {
  DeepEqual_status : ClusterCatalogStatus → ClusterCatalogStatus → bool;
  DeepEqual_strings : list string → list string → bool;
  DeepEqual_catalog : ClusterCatalog → ClusterCatalog → bool;
  DeepEqual_status_spec x y : DeepEqual_status x y = true ↔ x = y;
  DeepEqual_strings_spec x y : DeepEqual_strings x y = true ↔ x = y;
  DeepEqual_catalog_spec x y : DeepEqual_catalog x y = true ↔ normalize x = normalize y
}.

Program Definition reference_equality : SemanticEquality := {|
  DeepEqual_status x y := bool_decide (x = y);
  DeepEqual_strings x y := bool_decide (x = y);
  DeepEqual_catalog x y := bool_decide (normalize x = normalize y)
|}.
Next Obligation. intros x y. apply bool_decide_eq_true. Qed.
Next Obligation. intros x y. apply bool_decide_eq_true. Qed.
Next Obligation. intros x y. apply bool_decide_eq_true. Qed.
