(* ===== verification/GoHeap.v ===== *)
(** Memory with pointers: what [new], loads and stores do, and when a copy of a
    data structure is a deep one. Used for the generated deep copies of the API
    types, where sharing is the point. *)
From S2P Require Import Prelude.

Abbreviation loc := positive.
Abbreviation heap C := (gmap positive C).

(** Values of type [T] are kept in cells of type [C]. *)
Class Storable (C T : Type) := {
  to_cell : T → C;
  of_cell : C → option T;
  of_to_cell t : of_cell (to_cell t) = Some t
}.

Definition bad_pointer : string :=
  "runtime error: invalid memory address or nil pointer dereference".

Section Memory.
Context {C : Type}.

(** [new(T)], then [*p = v]; [*p]; [*p = v]. *)
Definition alloc {T : Type} `{!Storable C T} (v : T) : GoM (heap C) loc := λ h,
  let p := fresh (dom h) in (Ok p, <[p := to_cell v]> h).

Definition load {T : Type} `{!Storable C T} (p : loc) : GoM (heap C) T := λ h,
  match h !! p ≫= of_cell with
  | Some v => (Ok v, h)
  | None => (Panic bad_pointer, h)
  end.

Definition store {T : Type} `{!Storable C T} (p : loc) (v : T) : GoM (heap C) unit := λ h,
  match h !! p with
  | Some _ => (Ok tt, <[p := to_cell v]> h)
  | None => (Panic bad_pointer, h)
  end.

(** An element of the array behind a slice, with the range check. *)
Definition index_out_of_range : string := "runtime error: index out of range".

Definition load_at {T : Type} `{!Storable C (list T)} (p : loc) (i : nat) : GoM (heap C) T :=
  l <- load p ;;
  match l !! i with
  | Some x => ret x
  | None => panic index_out_of_range
  end.

Definition store_at {T : Type} `{!Storable C (list T)} (p : loc) (i : nat) (x : T)
    : GoM (heap C) unit :=
  l <- load p ;;
  match l !! i with
  | Some _ => store p (<[i := x]> l)
  | None => panic index_out_of_range
  end.

(** The two shapes of generated code. For a pointer field that is not nil, a new
    [T] is allocated and [DeepCopyInto] fills it from the old one; for a slice
    field that is not nil, a new array of the same length is made and
    [DeepCopyInto] fills its elements one by one. A function [DeepCopyInto] is
    given as the function from the struct it reads to the struct it writes. *)
Definition copy_ptr {T : Type} `{!Storable C T} (zero : T) (deepCopyInto : T → GoM (heap C) T)
    (in_ : option loc) : GoM (heap C) (option loc) :=
  match in_ with
  | None => ret None
  | Some p =>
      out <- alloc zero ;;
      x <- load p ;;
      x' <- deepCopyInto x ;;
      store out x' ;;
      ret (Some out)
  end.

Definition copy_elem {T : Type} `{!Storable C (list T)} (deepCopyInto : T → GoM (heap C) T)
    (p out : loc) (i : nat) : GoM (heap C) unit :=
  x <- load_at p i ;;
  x' <- deepCopyInto x ;;
  store_at out i x'.

Definition copy_slice {T : Type} `{!Storable C (list T)} (zero : T) (deepCopyInto : T → GoM (heap C) T)
    (in_ : option loc) : GoM (heap C) (option loc) :=
  match in_ with
  | None => ret None
  | Some p =>
      l <- load p ;;
      out <- alloc (replicate (length l) zero) ;;
      forM (seq 0 (length l)) (copy_elem deepCopyInto p out) ;;
      ret (Some out)
  end.

(** * Reading a structure *)

(** [R h p v]: in memory [h] the struct [p] stands for the value [v]. *)
Definition monotone {P V : Type} (R : heap C → P → V → Prop) : Prop :=
  ∀ h h' p v, h ⊆ h' → R h p v → R h' p v.

(** A deep copy stands for the same value in memory that is all its own: it
    does not share a cell with anything that was there before, which it leaves
    as it was. *)
Definition copies {P V : Type} (R : heap C → P → V → Prop) (f : P → GoM (heap C) P) : Prop :=
  ∀ h p v, R h p v → ∃ p' d, f p h = (Ok p', h ∪ d) ∧ h ##ₘ d ∧ R d p' v.

(** A struct without pointers. *)
Definition plain_value {V : Type} (h : heap C) (p v : V) : Prop := p = v.

Definition ptr_to {T V : Type} `{!Storable C T} (R : heap C → T → V → Prop)
    (h : heap C) (p : option loc) (v : option V) : Prop :=
  match p, v with
  | None, None => True
  | Some p, Some v => ∃ x, h !! p = Some (to_cell x) ∧ R h x v
  | _, _ => False
  end.

(** A slice covers its array; a nil slice is empty. *)
Definition slice_of {T V : Type} `{!Storable C (list T)} (R : heap C → T → V → Prop)
    (h : heap C) (p : option loc) (l : list V) : Prop :=
  match p with
  | None => l = []
  | Some p => ∃ xs, h !! p = Some (to_cell xs) ∧ Forall2 (R h) xs l
  end.

Lemma monotone_plain {V : Type} : monotone (plain_value (V := V)).
Proof. intros h h' p v _ H. exact H. Qed.

Lemma monotone_ptr {T V : Type} `{!Storable C T} (R : heap C → T → V → Prop) :
  monotone R → monotone (ptr_to R).
Proof.
  intros HR h h' [p|] [v|] Hs; simpl; try done. intros (x & Hx & H).
  exists x. split; [by eapply lookup_weaken|by eapply HR].
Qed.

Lemma monotone_slice {T V : Type} `{!Storable C (list T)} (R : heap C → T → V → Prop) :
  monotone R → monotone (slice_of R).
Proof.
  intros HR h h' [p|] l Hs; simpl; try done. intros (xs & Hx & H).
  exists xs. split; [by eapply lookup_weaken|]. eapply Forall2_impl; [exact H|]. intros. by eapply HR.
Qed.

(** * Copies of structs, field by field *)

Lemma copies_plain {V : Type} : copies (plain_value (V := V)) ret.
Proof.
  intros h p v H. exists p, ∅. rewrite (right_id_L ∅ (∪)). split_and!; [done|apply map_disjoint_empty_r|exact H].
Qed.

(** The run of a function that copies field by field: what was there is still
    there, and the result is in memory [d] of its own. *)
Definition copied {P V : Type} (R : heap C → P → V → Prop) (h : heap C) (v : V)
    (r : outcome P * heap C) : Prop :=
  ∃ p' d, r = (Ok p', h ∪ d) ∧ h ##ₘ d ∧ R d p' v.

Lemma copies_start {P V : Type} (R : heap C → P → V → Prop) (f : P → GoM (heap C) P) :
  (∀ h p v, R h p v → copied R h v (f p (h ∪ ∅))) → copies R f.
Proof. intros H h p v Hp. specialize (H h p v Hp). by rewrite (right_id_L ∅ (∪)) in H. Qed.

Lemma copied_ret {P V : Type} (R : heap C → P → V → Prop) h v p d :
  h ##ₘ d → R d p v → copied R h v (ret p (h ∪ d)).
Proof. intros Hd Hp. by exists p, d. Qed.

(** Continue with the next field, in the memory the first one left. *)
Lemma copied_next {P V Q U : Type} (R : heap C → P → V → Prop) (f : P → GoM (heap C) P)
    (k : P → GoM (heap C) Q) (R' : heap C → Q → U → Prop) h p v u d0 :
  monotone R → copies R f → R h p v → h ##ₘ d0 →
  (∀ p' d, h ##ₘ d → d0 ⊆ d → R d p' v → copied R' h u (k p' (h ∪ d))) →
  copied R' h u (bind (f p) k (h ∪ d0)).
Proof.
  intros HR Hf Hp Hd0 Hk.
  destruct (Hf (h ∪ d0) p v) as (p' & d & Hrun & Hd & Hp'); [by eapply HR; [apply map_union_subseteq_l|]|].
  unfold bind. rewrite Hrun. apply map_disjoint_union_l in Hd as [Hd1 Hd2].
  rewrite <-(assoc_L (∪)). apply Hk.
  - by apply map_disjoint_union_r_2.
  - apply map_union_subseteq_l.
  - eapply HR; [|exact Hp']. by apply map_union_subseteq_r.
Qed.

Lemma load_Ok {T : Type} `{!Storable C T} (h : heap C) p (x : T) :
  h !! p = Some (to_cell x) → load p h = (Ok x, h).
Proof. intros H. unfold load. rewrite H. simpl. by rewrite of_to_cell. Qed.

Lemma fresh_none (h : heap C) : h !! fresh (dom h) = None.
Proof. apply not_elem_of_dom, is_fresh. Qed.

(** Memory with one more cell. *)
Lemma disjoint_cell (h d : heap C) p c :
  h ##ₘ d → h !! p = None → h ##ₘ <[p := c]> d.
Proof. intros Hd Hp. by apply map_disjoint_insert_r_2. Qed.

Lemma union_cell (h d : heap C) p c : h !! p = None → <[p := c]> (h ∪ d) = h ∪ <[p := c]> d.
Proof. intros Hp. by apply insert_union_r. Qed.

Lemma copies_ptr {T V : Type} `{!Storable C T} (R : heap C → T → V → Prop) zero f :
  monotone R → copies R f → copies (ptr_to R) (copy_ptr zero f).
Proof.
  intros HR Hf h [p|] [v|]; simpl; try done; last first.
  { intros _. exists None, ∅. rewrite (right_id_L ∅ (∪)). split_and!; [done|apply map_disjoint_empty_r|done]. }
  intros (x & Hx & H). set (out := fresh (dom h)). assert (Ho : h !! out = None) by apply fresh_none.
  set (h1 := <[out := to_cell zero]> h).
  assert (Hs : h ⊆ h1) by by apply insert_subseteq.
  destruct (Hf h1 x v) as (x' & d & Hrun & Hd & Hx'); [by eapply HR|].
  apply map_disjoint_insert_l in Hd as [Ho' Hd].
  exists (Some out), (<[out := to_cell x']> d). split_and!.
  - unfold bind at 1. unfold alloc. fold out. fold h1.
    rewrite (bind_step _ _ _ x h1) by (apply load_Ok; by eapply lookup_weaken).
    rewrite (bind_step _ _ _ x' (h1 ∪ d)) by done.
    unfold bind, store, ret. unfold h1. rewrite <-insert_union_l, lookup_insert_eq.
    by rewrite insert_insert_eq, union_cell.
  - by apply disjoint_cell.
  - exists x'. split; [apply lookup_insert_eq|]. eapply HR; [|exact Hx']. by apply insert_subseteq.
Qed.

Section Slices.
Context {T V : Type} `{!Storable C (list T)} (R : heap C → T → V → Prop) (zero : T).
Context (f : T → GoM (heap C) T) (HR : monotone R) (Hf : copies R f).

Lemma load_at_Ok (h : heap C) p (xs : list T) i x :
  h !! p = Some (to_cell xs) → xs !! i = Some x → load_at p i h = (Ok x, h).
Proof.
  intros Hp Hi. unfold load_at. rewrite (bind_step _ _ _ xs h) by by apply load_Ok. by rewrite Hi.
Qed.

Lemma store_at_Ok (h : heap C) p (xs : list T) i x y :
  h !! p = Some (to_cell xs) → xs !! i = Some y →
  store_at p i x h = (Ok tt, <[p := to_cell (<[i := x]> xs)]> h).
Proof.
  intros Hp Hi. unfold store_at. rewrite (bind_step _ _ _ xs h) by by apply load_Ok.
  rewrite Hi. unfold store. by rewrite Hp.
Qed.

(** One turn of the loop: the element moves from the zero rest of the new array
    to its finished part. *)
Lemma copy_elem_run (h d : heap C) p out xs i x v ys :
  h !! p = Some (to_cell xs) → xs !! i = Some x → R h x v →
  h ##ₘ d → h !! out = None → d !! out = None → ys !! i = Some zero →
  ∃ x' d', copy_elem f p out i (h ∪ <[out := to_cell ys]> d)
             = (Ok tt, h ∪ <[out := to_cell (<[i := x']> ys)]> d')
           ∧ h ##ₘ d' ∧ d' !! out = None ∧ d ⊆ d' ∧ R d' x' v.
Proof.
  intros Hp Hx Hv Hd Ho Hod Hy. unfold copy_elem.
  rewrite (bind_step _ _ _ x (h ∪ <[out := to_cell ys]> d))
    by (eapply load_at_Ok; [by apply lookup_union_Some_l|done]).
  destruct (Hf (h ∪ <[out := to_cell ys]> d) x v) as (x' & e & Hrun & He & Hx').
  { eapply HR; [apply map_union_subseteq_l|done]. }
  rewrite (bind_step _ _ _ _ _ Hrun).
  apply map_disjoint_union_l in He as [He1 He2]. apply map_disjoint_insert_l in He2 as [Hoe He2].
  exists x', (d ∪ e). split_and!.
  - rewrite <-(assoc_L (∪)), <-insert_union_l.
    rewrite (store_at_Ok _ _ ys i x' zero); [|by rewrite lookup_union_r, lookup_insert_eq|done].
    by rewrite union_cell, insert_insert_eq.
  - by apply map_disjoint_union_r_2.
  - by apply lookup_union_None_2.
  - apply map_union_subseteq_l.
  - eapply HR; [|exact Hx']. by apply map_union_subseteq_r.
Qed.

Lemma copy_elems_run (h : heap C) p out xs : ∀ xs2 l2 xs1 ys1 l1 d,
  h !! p = Some (to_cell xs) → xs = xs1 ++ xs2 → Forall2 (R h) xs2 l2 →
  h ##ₘ d → h !! out = None → d !! out = None → length ys1 = length xs1 → Forall2 (R d) ys1 l1 →
  ∃ ys d', forM (seq (length xs1) (length xs2)) (copy_elem f p out)
             (h ∪ <[out := to_cell (ys1 ++ replicate (length xs2) zero)]> d)
           = (Ok tt, h ∪ <[out := to_cell ys]> d')
         ∧ h ##ₘ d' ∧ d' !! out = None ∧ Forall2 (R d') ys (l1 ++ l2).
Proof.
  induction xs2 as [|x xs2 IH]; intros l2 xs1 ys1 l1 d Hp -> H2 Hd Ho Hod Hlen H1.
  { apply Forall2_nil_inv_l in H2 as ->. exists ys1, d. simpl. by rewrite !app_nil_r. }
  apply Forall2_cons_inv_l in H2 as (v & l2' & Hv & H2 & ->). simpl.
  destruct (copy_elem_run h d p out (xs1 ++ x :: xs2) (length xs1) x v
              (ys1 ++ zero :: replicate (length xs2) zero))
    as (x' & d' & Hrun & Hd' & Hod' & Hs & Hx'); try done.
  { by apply list_lookup_middle. }
  { by rewrite <-Hlen, list_lookup_middle. }
  rewrite (bind_step _ _ _ _ _ Hrun). rewrite <-Hlen, insert_app_r_alt, Nat.sub_diag by done. simpl.
  destruct (IH l2' (xs1 ++ [x]) (ys1 ++ [x']) (l1 ++ [v]) d') as (ys & d'' & Hrun' & Hok); try done.
  - by rewrite <-(assoc_L (++)).
  - rewrite !length_app. by rewrite Hlen.
  - apply Forall2_app; [|by repeat constructor]. eapply Forall2_impl; [exact H1|]. intros. by eapply HR.
  - exists ys, d''. rewrite length_app, Nat.add_comm in Hrun'. simpl in Hrun'. rewrite <-!(assoc_L (++)) in *.
    simpl in *. by rewrite Hlen.
Qed.

Lemma copies_slice : copies (slice_of R) (copy_slice zero f).
Proof.
  intros h [p|] l; simpl; last first.
  { intros ->. exists None, ∅. rewrite (right_id_L ∅ (∪)). split_and!; [done|apply map_disjoint_empty_r|done]. }
  intros (xs & Hp & H). unfold copy_slice.
  rewrite (bind_step _ _ _ xs h) by by apply load_Ok.
  set (out := fresh (dom h)). assert (Ho : h !! out = None) by apply fresh_none.
  destruct (copy_elems_run h p out xs xs l [] [] [] ∅) as (ys & d & Hrun & Hd & Hod & Hys); try done.
  { apply map_disjoint_empty_r. }
  exists (Some out), (<[out := to_cell ys]> d). split_and!.
  - unfold bind at 1. unfold alloc. fold out.
    rewrite <-(right_id_L ∅ (∪) h) at 1. rewrite union_cell by done.
    by rewrite (bind_step _ _ _ _ _ Hrun).
  - by apply disjoint_cell.
  - exists ys. split; [apply lookup_insert_eq|]. eapply Forall2_impl; [exact Hys|].
    intros. eapply HR; [|done]. by apply insert_subseteq.
Qed.
End Slices.
End Memory.

Create HintDb copy.
#[export] Hint Resolve monotone_plain monotone_ptr monotone_slice : copy.
#[export] Hint Resolve copies_plain copies_ptr copies_slice : copy.

(** Proves [copies] of a function that copies its fields one after the other and
    returns a struct: the facts about the fields come from the hints. *)
Ltac copy_field :=
  eapply copied_next; cycle 2;
  [eassumption|first [eassumption|apply map_disjoint_empty_r]|
  |solve [eauto 6 with copy]|solve [eauto 6 with copy]];
  let p := fresh "p" in let d := fresh "d" in intros p d ? ? ?.
Ltac copy_done := apply copied_ret; [first [eassumption|apply map_disjoint_empty_r]|].
