(* ===== verification/DeepCopy.v ===== *)
(** The generated deep copies of the API types
    ([api/v1/zz_generated.deepcopy.go]): the structs as they are in memory, with
    pointers, one function per generated method, and the proof that a copy is
    equal to its original and shares nothing with it. This is what allows the
    other files to treat the object a reconciler was given and its copy as
    values. *)
From S2P Require Import Prelude GoHeap Api.

(** * The structs in memory *)

Record ImageSourceM := mkImageSourceM { m_Ref : string; m_PollIntervalMinutes : option loc }.
Record CatalogSourceM := mkCatalogSourceM { m_Type : string; m_Image : option loc }.
Record ClusterCatalogSpecM := mkSpecM {
  m_Source : CatalogSourceM; m_Priority : Z; m_AvailabilityMode : string
}.
Record ResolvedImageSourceM := mkResolvedImageM { m_ResolvedRef : string }.
Record ResolvedCatalogSourceM := mkResolvedSourceM { m_ResolvedType : string; m_ResolvedImage : option loc }.
Record ClusterCatalogURLsM := mkURLsM { m_Base : string }.
Record ClusterCatalogStatusM := mkStatusM {
  m_Conditions : option loc;
  m_ResolvedSource : option loc;
  m_URLs : option loc;
  m_LastUnpacked : option loc
}.

(** The types of the API machinery: the metadata of an object and of a list as
    they are in memory, the cells they use, and the value of list metadata. *)
Class MetaTypes := {
  ObjectMetaM : Type;
  ListMetaM : Type;
  ListMeta : Type;
  MetaCell : Type;
  zero_ObjectMeta : ObjectMetaM;
  zero_ListMeta : ListMetaM
}.

Section Types.
Context {MT : MetaTypes}.

Record ClusterCatalogM := mkCatalogM {
  m_Kind : string; m_APIVersion : string;
  m_ObjectMeta : ObjectMetaM; m_Spec : ClusterCatalogSpecM; m_Status : ClusterCatalogStatusM
}.

Record ClusterCatalogListM := mkListM {
  m_ListKind : string; m_ListAPIVersion : string; m_ListMeta : ListMetaM; m_Items : option loc
}.

(** The value of a list, as the other values of [Api]. *)
Record ClusterCatalogList := mkList {
  ListKind : string; ListAPIVersion : string; lMeta : ListMeta; Items : list ClusterCatalog
}.

Inductive cell :=
  | CInt (n : Z)
  | CTime (t : Z)
  | CImageSource (s : ImageSourceM)
  | CCatalogSource (s : CatalogSourceM)
  | CSpec (s : ClusterCatalogSpecM)
  | CStatus (s : ClusterCatalogStatusM)
  | CResolvedImage (s : ResolvedImageSourceM)
  | CResolvedSource (s : ResolvedCatalogSourceM)
  | CURLs (u : ClusterCatalogURLsM)
  | CConditions (l : list Condition)
  | CCatalog (c : ClusterCatalogM)
  | CCatalogs (l : list ClusterCatalogM)
  | CCatalogList (l : ClusterCatalogListM)
  | CMeta (c : MetaCell).
End Types.

Section Cells.
Context {MT : MetaTypes}.
#[export] Instance storable_image : Storable cell ImageSourceM :=
  Build_Storable _ _ CImageSource (λ c, match c with CImageSource x => Some x | _ => None end) (λ t, eq_refl).
#[export] Instance storable_source : Storable cell CatalogSourceM :=
  Build_Storable _ _ CCatalogSource (λ c, match c with CCatalogSource x => Some x | _ => None end) (λ t, eq_refl).
#[export] Instance storable_spec : Storable cell ClusterCatalogSpecM :=
  Build_Storable _ _ CSpec (λ c, match c with CSpec x => Some x | _ => None end) (λ t, eq_refl).
#[export] Instance storable_status : Storable cell ClusterCatalogStatusM :=
  Build_Storable _ _ CStatus (λ c, match c with CStatus x => Some x | _ => None end) (λ t, eq_refl).
#[export] Instance storable_resolved_image : Storable cell ResolvedImageSourceM :=
  Build_Storable _ _ CResolvedImage (λ c, match c with CResolvedImage x => Some x | _ => None end) (λ t, eq_refl).
#[export] Instance storable_resolved : Storable cell ResolvedCatalogSourceM :=
  Build_Storable _ _ CResolvedSource (λ c, match c with CResolvedSource x => Some x | _ => None end) (λ t, eq_refl).
#[export] Instance storable_urls : Storable cell ClusterCatalogURLsM :=
  Build_Storable _ _ CURLs (λ c, match c with CURLs x => Some x | _ => None end) (λ t, eq_refl).
#[export] Instance storable_conditions : Storable cell (list Condition) :=
  Build_Storable _ _ CConditions (λ c, match c with CConditions x => Some x | _ => None end) (λ t, eq_refl).
#[export] Instance storable_catalog : Storable cell ClusterCatalogM :=
  Build_Storable _ _ CCatalog (λ c, match c with CCatalog x => Some x | _ => None end) (λ t, eq_refl).
#[export] Instance storable_catalogs : Storable cell (list ClusterCatalogM) :=
  Build_Storable _ _ CCatalogs (λ c, match c with CCatalogs x => Some x | _ => None end) (λ t, eq_refl).
#[export] Instance storable_list : Storable cell ClusterCatalogListM :=
  Build_Storable _ _ CCatalogList (λ c, match c with CCatalogList x => Some x | _ => None end) (λ t, eq_refl).

(** [int] and [metav1.Time] cells. *)
Definition int_cell : Storable cell Z :=
  Build_Storable _ _ CInt (λ c, match c with CInt x => Some x | _ => None end) (λ t, eq_refl).
Definition time_cell : Storable cell Z :=
  Build_Storable _ _ CTime (λ c, match c with CTime x => Some x | _ => None end) (λ t, eq_refl).

(** What the values of [Api] are in memory. *)
Definition image_in (h : heap cell) (s : ImageSourceM) (v : ImageSource) : Prop :=
  m_Ref s = Ref v ∧
  ptr_to (Storable0 := int_cell) plain_value h (m_PollIntervalMinutes s) (PollIntervalMinutes v).

Definition source_in (h : heap cell) (s : CatalogSourceM) (v : CatalogSource) : Prop :=
  m_Type s = SourceType v ∧ ptr_to image_in h (m_Image s) (Image v).

Definition spec_in (h : heap cell) (s : ClusterCatalogSpecM) (v : ClusterCatalogSpec) : Prop :=
  source_in h (m_Source s) (Source v) ∧ m_Priority s = Priority v ∧
  m_AvailabilityMode s = AvailabilityMode v.

Definition resolved_image_in (h : heap cell) (s : ResolvedImageSourceM) (v : ResolvedImageSource) : Prop :=
  m_ResolvedRef s = ResolvedRef v.

Definition resolved_in (h : heap cell) (s : ResolvedCatalogSourceM) (v : ResolvedCatalogSource) : Prop :=
  m_ResolvedType s = ResolvedType v ∧ ptr_to resolved_image_in h (m_ResolvedImage s) (ResolvedImage v).

Definition urls_in (h : heap cell) (u : ClusterCatalogURLsM) (v : ClusterCatalogURLs) : Prop :=
  m_Base u = Base v.

Definition status_in (h : heap cell) (s : ClusterCatalogStatusM) (v : ClusterCatalogStatus) : Prop :=
  slice_of plain_value h (m_Conditions s) (Conditions v) ∧
  ptr_to resolved_in h (m_ResolvedSource s) (ResolvedSource v) ∧
  ptr_to urls_in h (m_URLs s) (URLs v) ∧
  ptr_to (Storable0 := time_cell) plain_value h (m_LastUnpacked s) (LastUnpacked v).

(** Memory may grow. *)
Lemma monotone_image : monotone image_in.
Proof. intros h h' p v Hs [? H]. split; [done|]. eapply monotone_ptr; eauto with copy. Qed.

Lemma monotone_source : monotone source_in.
Proof.
  intros h h' p v Hs [? H]. split; [done|]. eapply monotone_ptr; eauto using monotone_image.
Qed.

Lemma monotone_spec : monotone spec_in.
Proof. intros h h' p v Hs (H & ? & ?). split_and!; try done. by eapply monotone_source. Qed.

Lemma monotone_resolved_image : monotone resolved_image_in.
Proof. intros h h' p v _ H. exact H. Qed.

Lemma monotone_resolved : monotone resolved_in.
Proof.
  intros h h' p v Hs [? H]. split; [done|]. eapply monotone_ptr; eauto using monotone_resolved_image.
Qed.

Lemma monotone_urls : monotone urls_in.
Proof. intros h h' p v _ H. exact H. Qed.

Lemma monotone_status : monotone status_in.
Proof.
  intros h h' p v Hs (H1 & H2 & H3 & H4). split_and!.
  - eapply monotone_slice; eauto with copy.
  - eapply monotone_ptr; eauto using monotone_resolved.
  - eapply monotone_ptr; eauto using monotone_urls.
  - eapply monotone_ptr; eauto with copy.
Qed.
End Cells.
#[export] Hint Resolve monotone_image monotone_source monotone_spec monotone_resolved_image
  monotone_resolved monotone_urls monotone_status : copy.

(** The deep copies of the API machinery, which is deep as its documentation
    says. *)
Class MetaCopy {MT : MetaTypes} := {
  meta_in : heap cell → ObjectMetaM → ObjectMeta → Prop;
  listmeta_in : heap cell → ListMetaM → ListMeta → Prop;
  ObjectMeta_DeepCopyInto : ObjectMetaM → GoM (heap cell) ObjectMetaM;
  ListMeta_DeepCopyInto : ListMetaM → GoM (heap cell) ListMetaM;
  Condition_DeepCopyInto : Condition → GoM (heap cell) Condition;
  Time_DeepCopy : option loc → GoM (heap cell) (option loc);
  monotone_meta : monotone meta_in;
  monotone_listmeta : monotone listmeta_in;
  copies_meta : copies meta_in ObjectMeta_DeepCopyInto;
  copies_listmeta : copies listmeta_in ListMeta_DeepCopyInto;
  copies_condition : copies plain_value Condition_DeepCopyInto;
  copies_time : copies (ptr_to (Storable0 := time_cell) plain_value) Time_DeepCopy
}.

Section DeepCopy.
Context {MT : MetaTypes} {MC : MetaCopy}.
Abbreviation Mem := (GoM (heap cell)).

Definition catalog_in (h : heap cell) (c : ClusterCatalogM) (v : ClusterCatalog) : Prop :=
  m_Kind c = Kind v ∧ m_APIVersion c = APIVersion v ∧
  meta_in h (m_ObjectMeta c) (Meta v) ∧ spec_in h (m_Spec c) (Spec v) ∧ status_in h (m_Status c) (Status v).

Definition list_in (h : heap cell) (l : ClusterCatalogListM) (v : ClusterCatalogList) : Prop :=
  m_ListKind l = ListKind v ∧ m_ListAPIVersion l = ListAPIVersion v ∧
  listmeta_in h (m_ListMeta l) (lMeta v) ∧ slice_of catalog_in h (m_Items l) (Items v).

(** * The generated functions

    [DeepCopyInto] maps the struct it reads to the struct it writes; [DeepCopy]
    maps a pointer to a pointer. *)

Definition zero_image : ImageSourceM := mkImageSourceM "" None.
Definition zero_source : CatalogSourceM := mkCatalogSourceM "" None.
Definition zero_spec : ClusterCatalogSpecM := mkSpecM zero_source 0 "".
Definition zero_resolved_image : ResolvedImageSourceM := mkResolvedImageM "".
Definition zero_resolved : ResolvedCatalogSourceM := mkResolvedSourceM "" None.
Definition zero_urls : ClusterCatalogURLsM := mkURLsM "".
Definition zero_status : ClusterCatalogStatusM := mkStatusM None None None None.
Definition zero_condition : Condition := mkCondition "" "" 0 0 "" "".
Definition zero_catalog : ClusterCatalogM := mkCatalogM "" "" zero_ObjectMeta zero_spec zero_status.
Definition zero_list : ClusterCatalogListM := mkListM "" "" zero_ListMeta None.

Definition ImageSource_DeepCopyInto (in_ : ImageSourceM) : Mem ImageSourceM :=
  poll <- copy_ptr (Storable0 := int_cell) 0%Z ret (m_PollIntervalMinutes in_) ;;
  ret (mkImageSourceM (m_Ref in_) poll).

Definition ImageSource_DeepCopy : option loc → Mem (option loc) :=
  copy_ptr zero_image ImageSource_DeepCopyInto.

Definition CatalogSource_DeepCopyInto (in_ : CatalogSourceM) : Mem CatalogSourceM :=
  image <- copy_ptr zero_image ImageSource_DeepCopyInto (m_Image in_) ;;
  ret (mkCatalogSourceM (m_Type in_) image).

Definition CatalogSource_DeepCopy : option loc → Mem (option loc) :=
  copy_ptr zero_source CatalogSource_DeepCopyInto.

Definition ClusterCatalogSpec_DeepCopyInto (in_ : ClusterCatalogSpecM) : Mem ClusterCatalogSpecM :=
  source <- CatalogSource_DeepCopyInto (m_Source in_) ;;
  ret (mkSpecM source (m_Priority in_) (m_AvailabilityMode in_)).

Definition ClusterCatalogSpec_DeepCopy : option loc → Mem (option loc) :=
  copy_ptr zero_spec ClusterCatalogSpec_DeepCopyInto.

Definition ResolvedImageSource_DeepCopyInto (in_ : ResolvedImageSourceM) : Mem ResolvedImageSourceM :=
  ret in_.

Definition ResolvedImageSource_DeepCopy : option loc → Mem (option loc) :=
  copy_ptr zero_resolved_image ResolvedImageSource_DeepCopyInto.

Definition ResolvedCatalogSource_DeepCopyInto (in_ : ResolvedCatalogSourceM) : Mem ResolvedCatalogSourceM :=
  image <- copy_ptr zero_resolved_image ret (m_ResolvedImage in_) ;;
  ret (mkResolvedSourceM (m_ResolvedType in_) image).

Definition ResolvedCatalogSource_DeepCopy : option loc → Mem (option loc) :=
  copy_ptr zero_resolved ResolvedCatalogSource_DeepCopyInto.

Definition ClusterCatalogURLs_DeepCopyInto (in_ : ClusterCatalogURLsM) : Mem ClusterCatalogURLsM :=
  ret in_.

Definition ClusterCatalogURLs_DeepCopy : option loc → Mem (option loc) :=
  copy_ptr zero_urls ClusterCatalogURLs_DeepCopyInto.

Definition ClusterCatalogStatus_DeepCopyInto (in_ : ClusterCatalogStatusM) : Mem ClusterCatalogStatusM :=
  conditions <- copy_slice zero_condition Condition_DeepCopyInto (m_Conditions in_) ;;
  resolvedSource <- copy_ptr zero_resolved ResolvedCatalogSource_DeepCopyInto (m_ResolvedSource in_) ;;
  urls <- copy_ptr zero_urls ret (m_URLs in_) ;;
  lastUnpacked <- match m_LastUnpacked in_ with
                  | None => ret None
                  | Some t => Time_DeepCopy (Some t)
                  end ;;
  ret (mkStatusM conditions resolvedSource urls lastUnpacked).

Definition ClusterCatalogStatus_DeepCopy : option loc → Mem (option loc) :=
  copy_ptr zero_status ClusterCatalogStatus_DeepCopyInto.

Definition ClusterCatalog_DeepCopyInto (in_ : ClusterCatalogM) : Mem ClusterCatalogM :=
  objectMeta <- ObjectMeta_DeepCopyInto (m_ObjectMeta in_) ;;
  spec <- ClusterCatalogSpec_DeepCopyInto (m_Spec in_) ;;
  status <- ClusterCatalogStatus_DeepCopyInto (m_Status in_) ;;
  ret (mkCatalogM (m_Kind in_) (m_APIVersion in_) objectMeta spec status).

Definition ClusterCatalog_DeepCopy : option loc → Mem (option loc) :=
  copy_ptr zero_catalog ClusterCatalog_DeepCopyInto.

Definition ClusterCatalogList_DeepCopyInto (in_ : ClusterCatalogListM) : Mem ClusterCatalogListM :=
  listMeta <- ListMeta_DeepCopyInto (m_ListMeta in_) ;;
  items <- copy_slice zero_catalog ClusterCatalog_DeepCopyInto (m_Items in_) ;;
  ret (mkListM (m_ListKind in_) (m_ListAPIVersion in_) listMeta items).

Definition ClusterCatalogList_DeepCopy : option loc → Mem (option loc) :=
  copy_ptr zero_list ClusterCatalogList_DeepCopyInto.

(** [DeepCopyObject]: the pointer in an interface; a nil pointer gives a nil
    interface. *)
Inductive Object := ObjCatalog (p : loc) | ObjCatalogList (p : loc).

Definition ClusterCatalog_DeepCopyObject (in_ : option loc) : Mem (option Object) :=
  c <- ClusterCatalog_DeepCopy in_ ;;
  ret (ObjCatalog <$> c).

Definition ClusterCatalogList_DeepCopyObject (in_ : option loc) : Mem (option Object) :=
  c <- ClusterCatalogList_DeepCopy in_ ;;
  ret (ObjCatalogList <$> c).

(** * The copies are deep *)

Lemma monotone_catalog : monotone catalog_in.
Proof.
  intros h h' p v Hs (? & ? & H1 & H2 & H3). split_and!; try done.
  - by eapply monotone_meta.
  - by eapply monotone_spec.
  - by eapply monotone_status.
Qed.

Lemma monotone_list : monotone list_in.
Proof.
  intros h h' p v Hs (? & ? & H1 & H2). split_and!; try done.
  - by eapply monotone_listmeta.
  - eapply monotone_slice; eauto using monotone_catalog.
Qed.
#[local] Hint Resolve monotone_catalog monotone_list monotone_meta monotone_listmeta copies_meta
  copies_listmeta copies_condition copies_time : copy.

Lemma copies_ImageSource : copies image_in ImageSource_DeepCopyInto.
Proof.
  apply copies_start. intros h p v [Hr Hp]. copy_field. copy_done. by split.
Qed.
#[local] Hint Resolve copies_ImageSource : copy.

Lemma copies_CatalogSource : copies source_in CatalogSource_DeepCopyInto.
Proof.
  apply copies_start. intros h p v [Ht Hi]. copy_field. copy_done. by split.
Qed.
#[local] Hint Resolve copies_CatalogSource : copy.

Lemma copies_Spec : copies spec_in ClusterCatalogSpec_DeepCopyInto.
Proof.
  apply copies_start. intros h p v (Hs & Hp & Ha). copy_field. copy_done. by split_and!.
Qed.
#[local] Hint Resolve copies_Spec : copy.

Lemma copies_ResolvedImage : copies resolved_image_in ret.
Proof. apply copies_start. intros h p v H. by copy_done. Qed.
#[local] Hint Resolve copies_ResolvedImage : copy.

Lemma copies_Resolved : copies resolved_in ResolvedCatalogSource_DeepCopyInto.
Proof.
  apply copies_start. intros h p v [Ht Hi]. copy_field. copy_done. by split.
Qed.
#[local] Hint Resolve copies_Resolved : copy.

Lemma copies_URLs : copies urls_in ret.
Proof. apply copies_start. intros h p v H. by copy_done. Qed.
#[local] Hint Resolve copies_URLs : copy.

Lemma copies_LastUnpacked :
  copies (ptr_to (Storable0 := time_cell) plain_value)
    (λ t, match t with None => ret None | Some t => Time_DeepCopy (Some t) end).
Proof.
  intros h [t|] v H; [by apply copies_time|]. destruct v; [done|].
  exists None, ∅. rewrite (right_id_L ∅ (∪)). split_and!; [done|apply map_disjoint_empty_r|done].
Qed.

Lemma copies_Status : copies status_in ClusterCatalogStatus_DeepCopyInto.
Proof.
  apply copies_start. intros h p v (Hc & Hr & Hu & Hl). do 3 copy_field.
  eapply (copied_next _ _ _ _ _ _ _ _ _ (monotone_ptr _ monotone_plain) copies_LastUnpacked);
    [eassumption|eassumption|]. intros l d' Hd' Hs' Hl'. copy_done. split_and!; [..|done].
  - eapply (monotone_slice _ monotone_plain); [|eassumption]. by do 3 (etrans; [eassumption|]).
  - eapply (monotone_ptr _ monotone_resolved); [|eassumption]. by do 2 (etrans; [eassumption|]).
  - by eapply (monotone_ptr _ monotone_urls).
Qed.
#[local] Hint Resolve copies_Status : copy.

Lemma copies_Catalog : copies catalog_in ClusterCatalog_DeepCopyInto.
Proof.
  apply copies_start. intros h p v (? & ? & Hm & Hs & Ht). do 3 copy_field. copy_done.
  split_and!; try done.
  - eapply monotone_meta; [|eassumption]. by etrans.
  - by eapply monotone_spec.
Qed.
#[local] Hint Resolve copies_Catalog : copy.

Lemma copies_List : copies list_in ClusterCatalogList_DeepCopyInto.
Proof.
  apply copies_start. intros h p v (? & ? & Hm & Hi). do 2 copy_field. copy_done.
  split_and!; try done. by eapply monotone_listmeta.
Qed.
End DeepCopy.
