(* ===== verification/DeepCopyCorrect.v ===== *)
(** The properties of the deep copies, and the copies at work on a catalog with
    labels. *)
From S2P Require Import Prelude GoHeap Api DeepCopy.

Section Correct.
Context {MT : MetaTypes} {MC : MetaCopy}.

(** C13: The deep copy of a catalog is equal to it and shares no memory with it.
    Whatever is later written to the memory of the copy, or to new memory, the
    original keeps its value; whatever is written elsewhere, the copy keeps its
    value. A nil pointer is copied to a nil pointer. *)
Theorem deep_copy_isolated h p v :
  ptr_to catalog_in h p v →
  ∃ p' d, ClusterCatalog_DeepCopy p h = (Ok p', h ∪ d) ∧ h ##ₘ d ∧ ptr_to catalog_in d p' v ∧
    (∀ h', (∀ l, is_Some (h !! l) → h' !! l = h !! l) → ptr_to catalog_in h' p v) ∧
    (∀ h', (∀ l, is_Some (d !! l) → h' !! l = d !! l) → ptr_to catalog_in h' p' v).
Proof.
  intros Hp.
  destruct (copies_ptr catalog_in zero_catalog _ monotone_catalog copies_Catalog h p v Hp)
    as (p' & d & Hrun & Hd & Hp').
  assert (Hsub : ∀ h1 h2 : heap cell, (∀ l, is_Some (h1 !! l) → h2 !! l = h1 !! l) → h1 ⊆ h2).
  { intros h1 h2 H. apply map_subseteq_spec. intros l c Hl. rewrite H; eauto. }
  exists p', d. split_and!; [done..| |]; intros h' H%Hsub;
    (eapply monotone_ptr; [apply monotone_catalog|exact H|done]).
Qed.

(** The same holds for every element of a list of catalogs: the copy of the
    list has equal elements, in order, in memory of its own, whatever the length
    of the list; [DeepCopyObject] returns that copy, or nil for nil. *)
Theorem deep_copy_list_isolated h p v :
  ptr_to list_in h p v →
  ∃ p' d, ClusterCatalogList_DeepCopyObject p h = (Ok (ObjCatalogList <$> p'), h ∪ d) ∧
    h ##ₘ d ∧ ptr_to list_in d p' v ∧ ptr_to list_in (h ∪ d) p v.
Proof.
  intros Hp.
  destruct (copies_ptr list_in zero_list _ monotone_list copies_List h p v Hp)
    as (p' & d & Hrun & Hd & Hp').
  exists p', d. split_and!; try done.
  - unfold ClusterCatalogList_DeepCopyObject. by rewrite (bind_step _ _ _ _ _ Hrun).
  - eapply monotone_ptr; [apply monotone_list|apply map_union_subseteq_l|done].
Qed.
End Correct.

(** * Metadata with labels in memory *)

Record DemoMeta := mkDemoMeta { dm_rest : ObjectMeta; dm_labels : option loc }.

#[local] Instance demo_types : MetaTypes := {|
  ObjectMetaM := DemoMeta;
  ListMetaM := string;
  ListMeta := string;
  MetaCell := gmap string string;
  zero_ObjectMeta := mkDemoMeta (mkMeta "" "" "" "" 0 0 None None None []) None;
  zero_ListMeta := ""
|}.

#[local] Instance storable_labels : Storable cell (gmap string string) :=
  Build_Storable _ _ CMeta (λ c, match c with CMeta x => Some x | _ => None end) (λ t, eq_refl).

Definition with_labels (ls : option (gmap string string)) (o : ObjectMeta) : ObjectMeta :=
  mkMeta (Name o) (Namespace o) (UID o) (ResourceVersion o) (Generation o)
    (CreationTimestamp o) (DeletionTimestamp o) ls (Annotations o) (Finalizers o).

Definition demo_meta_in (h : heap cell) (m : DemoMeta) (v : ObjectMeta) : Prop :=
  with_labels None (dm_rest m) = with_labels None v ∧
  ptr_to plain_value h (dm_labels m) (Labels v).

Definition demo_meta_copy (m : DemoMeta) : GoM (heap cell) DemoMeta :=
  ls <- copy_ptr ∅ ret (dm_labels m) ;;
  ret (mkDemoMeta (dm_rest m) ls).

#[local] Program Instance demo_copy : MetaCopy := {|
  meta_in := demo_meta_in;
  listmeta_in := plain_value;
  ObjectMeta_DeepCopyInto := demo_meta_copy;
  ListMeta_DeepCopyInto := ret;
  Condition_DeepCopyInto := ret;
  Time_DeepCopy := copy_ptr (Storable0 := time_cell) 0%Z ret
|}.
Next Obligation. intros h h' p v Hs [? H]. split; [done|]. eapply monotone_ptr; eauto with copy. Qed.
Next Obligation. apply monotone_plain. Qed.
Next Obligation. apply copies_start. intros h p v [Hr Hl]. copy_field. copy_done. by split. Qed.
Next Obligation. apply copies_plain. Qed.
Next Obligation. apply copies_plain. Qed.
Next Obligation. apply copies_ptr; auto with copy. Qed.

(** A catalog at 1 with its labels at 2, its image source at 3, its poll interval
    at 4 and its URLs at 5, in a list at 6 with its array at 7. *)
Definition demo_spec : ClusterCatalogSpecM := mkSpecM (mkCatalogSourceM "Image" (Some 3%positive)) 0 "Available".
Definition demo_catalog : ClusterCatalogM :=
  mkCatalogM "ClusterCatalog" "v1"
    (mkDemoMeta (mkMeta "op" "" "u" "1" 1 0 None None None []) (Some 2%positive))
    demo_spec (mkStatusM None None (Some 5%positive) None).
Definition demo_memory : heap cell :=
  list_to_map
    [(1%positive, CCatalog demo_catalog);
     (2%positive, CMeta {[ "team" := "a" ]});
     (3%positive, CImageSource (mkImageSourceM "quay.io/op:v1" (Some 4%positive)));
     (4%positive, CInt 10);
     (5%positive, CURLs (mkURLsM "http://x/catalogs/op"));
     (6%positive, CCatalogList (mkListM "ClusterCatalogList" "v1" "7" (Some 7%positive)));
     (7%positive, CCatalogs [demo_catalog; demo_catalog])].
Definition demo_value : ClusterCatalog :=
  mkCatalog "ClusterCatalog" "v1"
    (mkMeta "op" "" "u" "1" 1 0 None (Some {[ "team" := "a" ]}) None [])
    (mkSpec (mkCatalogSource "Image" (Some (mkImageSource "quay.io/op:v1" (Some 10%Z)))) 0 "Available")
    (mkStatus [] None (Some (mkURLs "http://x/catalogs/op")) None).

Definition demo_list : ClusterCatalogList :=
  mkList (MT := demo_types) "ClusterCatalogList" "v1" "7" [demo_value; demo_value].

Lemma demo_cells :
  demo_memory !! 2%positive = Some (to_cell ({[ "team" := "a" ]} : gmap string string)) ∧
  demo_memory !! 3%positive = Some (to_cell (mkImageSourceM "quay.io/op:v1" (Some 4%positive))) ∧
  demo_memory !! 4%positive = Some (CInt 10) ∧
  demo_memory !! 5%positive = Some (to_cell (mkURLsM "http://x/catalogs/op")).
Proof. split_and!; reflexivity. Qed.

Lemma demo_catalog_in : catalog_in demo_memory demo_catalog demo_value.
Proof.
  destruct demo_cells as (H2 & H3 & H4 & H5).
  split; [reflexivity|]. split; [reflexivity|]. split; [|split].
  - split; [reflexivity|]. eexists. split; [exact H2|reflexivity].
  - split; [|split; reflexivity]. split; [reflexivity|]. eexists. split; [exact H3|].
    split; [reflexivity|]. eexists. split; [exact H4|reflexivity].
  - split; [reflexivity|]. split; [exact I|]. split; [|exact I].
    eexists. split; [exact H5|reflexivity].
Qed.

(** Setting the URL through the copy, as [updateStatusServing] does, leaves the
    catalog as it was. *)
Lemma deep_copy_isolated_witness :
  ∃ p' d, ClusterCatalog_DeepCopy (Some 1%positive) demo_memory = (Ok p', demo_memory ∪ d) ∧
    ∀ l u, d !! l = Some (CURLs u) →
      ptr_to catalog_in (<[l := CURLs (mkURLsM "changed")]> (demo_memory ∪ d))
        (Some 1%positive) (Some demo_value).
Proof.
  destruct (deep_copy_isolated demo_memory (Some 1%positive) (Some demo_value))
    as (p' & d & Hrun & Hd & _ & Ho & _).
  { exists demo_catalog. split; [reflexivity|apply demo_catalog_in]. }
  exists p', d. split; [exact Hrun|]. intros l u Hl. apply Ho. intros l' [c Hc].
  rewrite lookup_insert_ne.
  - rewrite Hc. by apply lookup_union_Some_l.
  - intros ->. by apply (map_disjoint_spec _ _ ) with (1 := Hd) (i := l') (x := c) (y := CURLs u) in Hc.
Defined.

Lemma deep_copy_list_isolated_witness :
  ∃ p' d, ClusterCatalogList_DeepCopyObject (Some 6%positive) demo_memory
            = (Ok (ObjCatalogList <$> p'), demo_memory ∪ d) ∧
    ptr_to list_in d p' (Some demo_list).
Proof.
  destruct (deep_copy_list_isolated demo_memory (Some 6%positive)
              (Some demo_list))
    as (p' & d & Hrun & _ & Hp' & _).
  { eexists. split; [reflexivity|]. split; [reflexivity|]. split; [reflexivity|].
    split; [reflexivity|]. eexists. split; [reflexivity|].
    repeat constructor; apply demo_catalog_in. }
  exists p', d. split; [exact Hrun|exact Hp'].
Defined.
