(* ===== verification/Storage.v ===== *)
(** The storage component ([internal/storage]): the [Instance] interface with
    the contract its clients rely on, and [LocalDirV1], which keeps the
    file-based catalog of [name] in the file [RootDir/name/api/v1/all]. *)
From stdpp Require Import pretty.
From S2P Require Import Prelude GoPath Url OsFS OsLemmas.

(** * The interface ([storage.go]) *)

Class StorageInstance (W FSys : Type) := {
  st_Store : string → FSys → GoM W unit;
  st_Delete : string → GoM W unit;
  st_BaseURL : string → string;
  st_ContentExists : string → GoM W bool
}.

(** What a storage promises. [st_view w name] is the content clients get for
    the catalog, and [st_content w fsys d] says that [d] is the catalog that
    [fsys] holds in state [w]. Storing is all or nothing, whatever fails; only
    a killed process leaves it open which of the two it was. *)
Class StorageContract (W FSys : Type) {I : StorageInstance W FSys} := {
  st_inv : W → Prop;
  st_view : W → string → option string;
  st_content : W → FSys → string → Prop;
  st_Store_spec w name fsys r w' :
    st_inv w → elem_ok name → st_Store name fsys w = (r, w') →
    st_inv w' ∧ (∀ n, elem_ok n → n ≠ name → st_view w' n = st_view w n) ∧
    match r with
    | Ok _ => ∃ d, st_content w fsys d ∧ st_view w' name = Some d
    | Crash => st_view w' name = st_view w name
               ∨ ∃ d, st_content w fsys d ∧ st_view w' name = Some d
    | _ => st_view w' name = st_view w name
    end;
  st_Delete_spec w name r w' :
    st_inv w → elem_ok name → st_Delete name w = (r, w') →
    st_inv w' ∧ (∀ n, elem_ok n → n ≠ name → st_view w' n = st_view w n) ∧
    match r with
    | Ok _ => st_view w' name = None
    | Panic _ => False
    | _ => st_view w' name = None ∨ st_view w' name = st_view w name
    end;
  st_ContentExists_spec w name r w' :
    st_inv w → elem_ok name → st_ContentExists name w = (r, w') →
    st_inv w' ∧ (∀ n, st_view w' n = st_view w n) ∧
    match r with
    | Ok true => is_Some (st_view w name)
    | Ok false | Crash => True
    | _ => False
    end
}.

(** * File-based catalogs

    [declcfg.WalkMetasFS] of the operator registry: calls the function for the
    metas found in [fsys], one after the other in some order, and stops at the
    first error. [walk_events] is what it finds: a blob, or an error. *)
Class DeclCfg (FSys : Type) := {
  WalkMetasFS : FSys → (string → string + error → GoM OS unit) → GoM OS unit;
  walk_events : FSys → OS → list (string * (string + error));
  WalkMetasFS_spec fsys walkFn w :
    WalkMetasFS fsys walkFn w = forM (walk_events fsys w) (λ ev, walkFn ev.1 ev.2) w
}.

Fixpoint blobs (evs : list (string * (string + error))) : option string :=
  match evs with
  | [] => Some ""
  | (_, inl b) :: evs' => d ← blobs evs'; Some (b +:+ d)
  | (_, inr _) :: _ => None
  end.

(** * [LocalDirV1] ([localdir.go]) *)

Definition v1ApiPath : string := "api/v1".
Definition v1ApiData : string := "all".

Module LocalDirV1.
Section LocalDirV1.
Context {FSys : Type} {DC : DeclCfg FSys}.

Record t := mk { RootDir : string; RootURL : URL }.

Definition write_meta (tempFile : path) (_ : string) (meta : string + error) : GoM OS unit :=
  match meta with
  | inr e => throw e
  | inl blob => file_Write tempFile blob
  end.

Definition Store (s : t) (catalog : string) (fsys : FSys) : GoM OS unit :=
  let fbcDir := path_Join [RootDir s; catalog; v1ApiPath] in
  os_MkdirAll (fpath fbcDir) m0700 ;;
  tempFile <- os_CreateTemp (fpath (RootDir s)) catalog ;;
  defer
    (wrap_err "error walking FBC root: " (WalkMetasFS fsys (write_meta tempFile)) ;;
     let fbcFile := path_Join [fbcDir; v1ApiData] in
     os_Rename tempFile (fpath fbcFile))
    (os_Remove tempFile).

Definition Delete (s : t) (catalog : string) : GoM OS unit :=
  os_RemoveAll (fpath (path_Join [RootDir s; catalog])).

Definition BaseURL (s : t) (catalog : string) : string :=
  URL_String (JoinPath (RootURL s) catalog).

Definition ContentExists (s : t) (catalog : string) : GoM OS bool :=
  file <- try (os_Stat (fpath (path_Join [RootDir s; catalog; v1ApiPath; v1ApiData]))) ;;
  match file with
  | inr _ => ret false
  | inl (File _ _) => ret true
  | inl _ => ret false
  end.

(** ** The directory of a storage *)

Definition root (s : t) : path := fpath (RootDir s).
Definition cat_dir (s : t) (name : string) : path := name :: root s.
Definition fbc_dir (s : t) (name : string) : path := ["v1"; "api"; name] ++ root s.
Definition fbc_file (s : t) (name : string) : path := v1ApiData :: fbc_dir s name.

(** What is served for a catalog. *)
Definition view (s : t) (m : fsT) (name : string) : option string :=
  match m !! fbc_file s name with Some (File _ d) => Some d | _ => None end.

(** A tree in which the storage can work: [RootDir] can be reached, and the
    process may use every directory and read every file in it. *)
Definition usable (n : node) : Prop :=
  match n with Dir md => rwx md | File md _ => can_r md = true | _ => True end.

Definition sound (s : t) (m : fsT) : Prop :=
  wf_fs m ∧ walk m (root s) = None ∧ (∃ md, m !! root s = Some (Dir md)) ∧
  ∀ q n, root s `suffix_of` q → m !! q = Some n → usable n.

Lemma sound_dir s m q md :
  sound s m → root s `suffix_of` q → m !! q = Some (Dir md) → rwx md.
Proof. intros (_ & _ & _ & H) Hq Hn. by apply (H q (Dir md)). Qed.

Lemma sound_file s m q md d :
  sound s m → root s `suffix_of` q → m !! q = Some (File md d) → can_r md = true.
Proof. intros (_ & _ & _ & H) Hq Hn. by apply (H q (File md d)). Qed.

Definition inv (s : t) (w : OS) : Prop := is_rooted (RootDir s) = true ∧ sound s (os_fs w).

(** The catalog [fsys] holds, read in a state that may differ from [w] only
    inside [RootDir]. *)
Definition content (s : t) (w : OS) (fsys : FSys) (d : string) : Prop :=
  ∃ w1, changes_only (λ q, root s `suffix_of` q) (os_fs w) (os_fs w1) ∧
        blobs (walk_events fsys w1) = Some d.

Lemma fpath_fbc_dir s name :
  is_rooted (RootDir s) = true → elem_ok name →
  fpath (path_Join [RootDir s; name; v1ApiPath]) = fbc_dir s name.
Proof.
  intros Hr Hn. pose proof Hn as (Hne & _ & _ & Hf). rewrite fpath_Join_split.
  - simpl. rewrite split_slash_free by done. simpl. by rewrite (clean_step_ok _ _ name) by done.
  - done.
  - repeat constructor; done.
Qed.

Lemma fpath_fbc_file s name :
  is_rooted (RootDir s) = true → elem_ok name →
  fpath (path_Join [path_Join [RootDir s; name; v1ApiPath]; v1ApiData]) = fbc_file s name.
Proof.
  intros Hr Hn. rewrite fpath_Join.
  - by rewrite fpath_fbc_dir.
  - by apply is_rooted_Join.
  - repeat constructor; by vm_compute.
Qed.

Lemma fpath_fbc_file' s name :
  is_rooted (RootDir s) = true → elem_ok name →
  fpath (path_Join [RootDir s; name; v1ApiPath; v1ApiData]) = fbc_file s name.
Proof.
  intros Hr Hn. pose proof Hn as (Hne & _ & _ & Hf). rewrite fpath_Join_split.
  - simpl. rewrite split_slash_free by done. simpl. by rewrite (clean_step_ok _ _ name) by done.
  - done.
  - repeat constructor; done.
Qed.

Lemma fpath_cat_dir s name :
  is_rooted (RootDir s) = true → elem_ok name →
  fpath (path_Join [RootDir s; name]) = cat_dir s name.
Proof. intros Hr Hn. rewrite fpath_Join; [done|done|by constructor]. Qed.

(** ** Preservation, whatever fails *)

Definition keeps_sound (s : t) (m m' : fsT) : Prop := sound s m → sound s m'.
Definition same_view (s : t) (m m' : fsT) : Prop := ∀ n, view s m' n = view s m n.

#[local] Instance keeps_sound_preorder s : PreOrder (keeps_sound s).
Proof. split; [by intros m H|]. intros m1 m2 m3 H1 H2 H. by apply H2, H1. Qed.

#[local] Instance same_view_preorder s : PreOrder (same_view s).
Proof. split; [by intros m n|]. intros m1 m2 m3 H1 H2 n. by rewrite H2, H1. Qed.

Definition below (p q : path) : Prop := p `suffix_of` q ∧ q ≠ p.

Lemma below_cons x p q : (x :: p) `suffix_of` q → below p q.
Proof.
  intros Hq. split.
  - etrans; [|exact Hq]. by apply suffix_cons_r.
  - intros ->. by apply suffix_cons_not in Hq.
Qed.

Lemma sound_update s m m' :
  sound s m → wf_fs m' → changes_only (below (root s)) m m' →
  (∀ q n, below (root s) q → m' !! q = Some n → usable n) → sound s m'.
Proof.
  intros (Hwf & Hwalk & Hroot & Hd) Hwf' Hc Hd'.
  assert (Hr : m' !! root s = m !! root s) by (apply Hc; by intros [_ ?]).
  split_and!.
  - done.
  - by rewrite (walk_outside m m' _ _ Hc) by (by intros q [? _]).
  - by rewrite Hr.
  - intros q n Hq Hmd. destruct (decide (q = root s)) as [->|Hne].
    + rewrite Hr in Hmd. eauto.
    + apply (Hd' q); [by split|done].
Qed.

Lemma sound_insert s m q n :
  sound s m → below (root s) q → wf_fs (<[q := n]> m) →
  usable n → sound s (<[q := n]> m).
Proof.
  intros Hs Hq Hwf Hn. eapply sound_update; [done..| |].
  - by apply changes_only_insert.
  - intros q' md Hq'. destruct (decide (q = q')) as [->|].
    + rewrite lookup_insert_eq. intros [= ->]. by apply Hn.
    + rewrite lookup_insert_ne by done. intros Hmd. eapply Hs; [apply Hq'|done].
Qed.

Lemma sound_delete s m q :
  sound s m → below (root s) q → wf_fs (delete q m) → sound s (delete q m).
Proof.
  intros Hs Hq Hwf. eapply sound_update; [done..| |].
  - by apply changes_only_delete.
  - intros q' md Hq' [_ Hmd]%lookup_delete_Some. eapply Hs; [apply Hq'|done].
Qed.

Lemma fbc_dir_ok s name : elem_ok name → path_ok (fbc_dir s name).
Proof.
  intros Hn. unfold path_ok. repeat constructor; try (by vm_compute); [apply Hn..|].
  apply fpath_ok.
Qed.

Lemma missing_below s m name q :
  sound s m → q `suffix_of` fbc_dir s name → m !! q = None → below (root s) q.
Proof.
  intros (Hwf & _ & [md Hroot] & _) Hq Hn.
  assert (root s `suffix_of` fbc_dir s name) as Hr by (by eexists).
  destruct (suffix_weak_total _ _ _ Hq Hr) as [Hqr|Hrq].
  - destruct (wf_ancestor m q (root s)) as [n Hn']; [done..|eauto|]. congruence.
  - split; [done|]. intros ->. congruence.
Qed.

Lemma MkdirAll_sound s name :
  elem_ok name → stable (fs_rel (keeps_sound s)) (os_MkdirAll (fbc_dir s name) m0700).
Proof.
  intros Hn. apply stable_MkdirAll; [apply _|]. intros m q Hq Hw Hq' _ Hs.
  apply sound_insert; [done|by eapply missing_below| |by apply rwx_0700].
  apply wf_insert_new; try done; [apply Hs|]. eapply suffix_path_ok; [done|by apply fbc_dir_ok].
Qed.

Lemma MkdirAll_view s name :
  stable (fs_rel (same_view s)) (os_MkdirAll (fbc_dir s name) m0700).
Proof.
  eapply stable_fs_mono; [|apply changes_MkdirAll]. intros m m' Hc n. unfold view.
  rewrite Hc; [done|]. intros Hs%suffix_length. simpl in Hs. lia.
Qed.

(** Nodes that lie directly in [RootDir] are not served. *)
Lemma top_not_served s x n : x :: root s ≠ fbc_file s n.
Proof. intros H%(f_equal length). simpl in H. lia. Qed.

Lemma top_view s x m m' :
  changes_only (λ q, q = x :: root s) m m' → same_view s m m'.
Proof. intros Hc n. unfold view. rewrite Hc; [done|]. intros Heq. by eapply top_not_served. Qed.

Lemma Write_sound s x d : stable (fs_rel (keeps_sound s)) (file_Write (x :: root s) d).
Proof.
  apply stable_Write; [apply _|]. intros m md d0 d1 Hp Hs.
  assert (Hb : below (root s) (x :: root s)) by by apply (below_cons x).
  apply sound_insert; [done|done| |].
  - eapply wf_replace; [apply Hs|done|done].
  - by apply (sound_file s m (x :: root s) md d0 Hs (proj1 Hb)).
Qed.

Lemma Remove_sound s x : stable (fs_rel (keeps_sound s)) (os_Remove (x :: root s)).
Proof.
  apply stable_Remove; [apply _|]. intros m n Hp He Hs.
  apply sound_delete; [done|by apply (below_cons x)|]. by eapply wf_delete; [apply Hs|..].
Qed.

Lemma RemoveAll_sound s x : stable (fs_rel (keeps_sound s)) (os_RemoveAll (x :: root s)).
Proof.
  apply stable_RemoveAll; [apply _|]. intros m q n Hq Hp He Hs.
  apply sound_delete; [done|by apply (below_cons x)|]. by eapply wf_delete; [apply Hs|..].
Qed.

(** ** Storing *)

Lemma CreateTemp_sound s name w p w' :
  elem_ok name → os_CreateTemp (root s) name w = (Ok p, w') →
  ∃ x : N, p = (name +:+ pretty x) :: root s ∧
       (sound s (os_fs w) → sound s (os_fs w')) ∧
       same_view s (os_fs w) (os_fs w') ∧ os_fs w' !! p = Some (File m0600 "").
Proof.
  intros Hn ([x ->] & Hw & Hp & ->)%CreateTemp_Ok. exists x. split_and!.
  - done.
  - intros Hs. apply sound_insert; [done|by apply below_cons with (x := name +:+ pretty x)| |done].
    apply wf_insert_new; try done; [apply Hs|]. apply temp_path_ok; [done|apply fpath_ok].
  - apply (top_view s (name +:+ pretty x)). by apply changes_only_insert.
  - apply lookup_insert_eq.
Qed.

Lemma CreateTemp_fail_sound s name :
  elem_ok name → stable (fs_rel (keeps_sound s)) (os_CreateTemp (root s) name).
Proof.
  intros Hn. apply stable_CreateTemp; [apply _|]. intros m x Hw Hp Hs.
  apply sound_insert; [done|by apply below_cons with (x := name +:+ pretty x)| |done].
  apply wf_insert_new; try done; [apply Hs|]. apply temp_path_ok; [done|apply fpath_ok].
Qed.

Lemma CreateTemp_view s name :
  stable (fs_rel (same_view s)) (os_CreateTemp (root s) name).
Proof.
  apply stable_CreateTemp; [apply _|]. intros m x _ _.
  apply (top_view s (name +:+ pretty x)). by apply changes_only_insert.
Qed.

Lemma stable_WalkMetas (R : fsT → fsT → Prop) `{!PreOrder R} fsys cb :
  (∀ p meta, stable (fs_rel R) (cb p meta)) → stable (fs_rel R) (WalkMetasFS fsys cb).
Proof.
  intros H w. rewrite WalkMetasFS_spec. apply (stable_forM (fs_rel R)). intros ev _. apply H.
Qed.

Lemma write_meta_sound s x p meta :
  stable (fs_rel (keeps_sound s)) (write_meta (x :: root s) p meta).
Proof. destruct meta; [apply Write_sound|apply stable_throw, _]. Qed.

Lemma write_meta_view s x p meta :
  stable (fs_rel (same_view s)) (write_meta (x :: root s) p meta).
Proof.
  destruct meta; [|apply stable_throw, _].
  eapply stable_fs_mono; [|apply changes_Write]. intros m m'. apply top_view.
Qed.

(** The temporary file holds the blobs in the order they were handed over. *)
Lemma walk_content p evs w md d w' :
  os_fs w !! p = Some (File md d) →
  forM evs (λ ev, write_meta p ev.1 ev.2) w = (Ok tt, w') →
  ∃ d', blobs evs = Some d' ∧ os_fs w' !! p = Some (File md (d +:+ d')).
Proof.
  revert w d. induction evs as [|[f [b|e]] evs IH]; intros w d Hp H; simpl in H.
  - injection H as <-. exists "". by rewrite string_app_nil_r.
  - apply bind_Ok in H as ([] & w1 & Hw & H). simpl in Hw.
    assert (Hp1 : os_fs w1 !! p = Some (File md (d +:+ b))).
    { unfold file_Write, pop_fault in Hw.
      destruct (os_faults w) as [|[| |] l]; try done; injection Hw as <-; simpl;
        unfold append_data; rewrite Hp; apply lookup_insert_eq. }
    destruct (IH _ _ Hp1 H) as (d' & Hb & Hp'). exists (b +:+ d'). simpl. rewrite Hb. simpl.
    split; [done|]. by rewrite Hp', string_app_assoc.
  - done.
Qed.

(** The last step of [Store]: the temporary file takes the place of what was
    served. *)
Lemma Rename_served s x name w w' md d :
  sound s (os_fs w) → elem_ok name → os_fs w !! (x :: root s) = Some (File md d) →
  os_Rename (x :: root s) (fbc_file s name) w = (Ok tt, w') →
  sound s (os_fs w') ∧ view s (os_fs w') name = Some d ∧
  ∀ n, n ≠ name → view s (os_fs w') n = view s (os_fs w) n.
Proof.
  intros Hs Hn Hp H. apply Rename_Ok in H as (n0 & Hp' & Hnd & Hw & Hd & ->).
  rewrite Hp in Hp'. injection Hp' as <-.
  assert (Hb : below (root s) (fbc_file s name)).
  { split; [by exists ["all"; "v1"; "api"; name]|]. intros Heq%(f_equal length). simpl in Heq. lia. }
  assert (Hok : path_ok (fbc_file s name)) by (constructor; [by vm_compute|by apply fbc_dir_ok]).
  pose proof (wf_rename _ _ _ _ (proj1 Hs) Hok Hp Hnd Hw Hd) as Hwf.
  split_and!.
  - apply sound_insert; [|done|done|].
    + apply sound_delete; [done|by apply (below_cons x)|].
      eapply wf_delete; [apply Hs|done|done].
    + by apply (sound_file s (os_fs w) (x :: root s) md d Hs); [apply suffix_cons_r|].
  - unfold view. by rewrite lookup_insert_eq.
  - intros n Hne. unfold view. rewrite lookup_insert_ne by (intros [=]; congruence).
    rewrite lookup_delete_ne; [done|]. apply top_not_served.
Qed.

Lemma MkdirAll_outside s name w :
  sound s (os_fs w) →
  changes_only (λ q, root s `suffix_of` q) (os_fs w)
    (os_fs (os_MkdirAll (fbc_dir s name) m0700 w).2).
Proof.
  intros Hs q Hq. pose proof (changes_MkdirAll (fbc_dir s name) m0700 w) as Hc.
  pose proof (extends_MkdirAll (fbc_dir s name) m0700 w) as He. unfold fs_rel in *.
  destruct (decide (q `suffix_of` fbc_dir s name)) as [Hqf|Hqf]; [|by apply Hc].
  destruct (os_fs w !! q) as [n|] eqn:E; [by eapply lookup_weaken|].
  destruct (missing_below s _ name q Hs Hqf E). done.
Qed.

(** What [Store] does once it has its temporary file. *)
Lemma Store_body s x name fsys w r w' :
  sound s (os_fs w) → elem_ok name → os_fs w !! (x :: root s) = Some (File m0600 "") →
  (wrap_err "error walking FBC root: " (WalkMetasFS fsys (write_meta (x :: root s))) ;;
   os_Rename (x :: root s) (fbc_file s name)) w = (r, w') →
  sound s (os_fs w') ∧ (∀ n, n ≠ name → view s (os_fs w') n = view s (os_fs w) n) ∧
  match r with
  | Ok _ => ∃ d, blobs (walk_events fsys w) = Some d ∧ view s (os_fs w') name = Some d
  | _ => view s (os_fs w') name = view s (os_fs w) name
  end.
Proof.
  intros Hs Hn Hp H.
  pose proof (stable_WalkMetas (keeps_sound s) fsys _ (write_meta_sound s x) w) as Hws.
  pose proof (stable_WalkMetas (same_view s) fsys _ (write_meta_view s x) w) as Hwv.
  unfold fs_rel in *. unfold bind, wrap_err in H.
  destruct (WalkMetasFS fsys (write_meta (x :: root s)) w) as [r1 w1] eqn:E1. simpl in *.
  specialize (Hws Hs). destruct r1 as [[]|e|msg|]; try (simplify_eq; split_and!; naive_solver).
  rewrite WalkMetasFS_spec in E1.
  destruct (walk_content _ _ _ _ _ _ Hp E1) as (d & Hd & Hp1).
  destruct r as [[]|e|msg|].
  - destruct (Rename_served s x name w1 w' _ _ Hws Hn Hp1 H) as (Hs' & Hv & Ho).
    split_and!; [done| |eauto]. intros n Hne. by rewrite Ho.
  - apply sys_fail in H as ->; [|done]. by split_and!.
  - apply sys_fail in H as ->; [|done]. by split_and!.
  - apply sys_fail in H as ->; [|done]. by split_and!.
Qed.

(** Up to the temporary file nothing that is served changes. *)
Lemma Store_temp s name w r w' :
  sound s (os_fs w) → elem_ok name →
  (os_MkdirAll (fbc_dir s name) m0700 ;; os_CreateTemp (root s) name) w = (r, w') →
  sound s (os_fs w') ∧ same_view s (os_fs w) (os_fs w') ∧
  ∀ p, r = Ok p → ∃ x, p = x :: root s ∧ os_fs w' !! p = Some (File m0600 "") ∧
    changes_only (λ q, root s `suffix_of` q) (os_fs w) (os_fs w').
Proof.
  intros Hs Hn H.
  pose proof (MkdirAll_sound s name Hn w Hs) as Hs1. pose proof (MkdirAll_view s name w) as Hv1.
  pose proof (MkdirAll_outside s name w Hs) as Ho1. unfold fs_rel, bind in *.
  destruct (os_MkdirAll (fbc_dir s name) m0700 w) as [[[]|e|msg|] w1]; simpl in *;
    try (injection H as <- <-; by split_and!).
  pose proof (CreateTemp_fail_sound s name Hn w1 Hs1) as Hs2.
  pose proof (CreateTemp_view s name w1) as Hv2. unfold fs_rel in *. rewrite H in *.
  split_and!; [done|by etrans|]. intros p ->.
  apply CreateTemp_Ok in H as ([x ->] & _ & _ & Hfs). exists (name +:+ pretty x).
  split_and!; [done|by rewrite Hfs, lookup_insert_eq|].
  etrans; [exact Ho1|]. rewrite Hfs. apply changes_only_insert. by apply suffix_cons_r.
Qed.

(** Removing the temporary file at the end changes nothing that is served. *)
Lemma Store_cleanup s x {A : Type} (body : GoM OS A) w r w' :
  defer body (os_Remove (x :: root s)) w = (r, w') →
  ∃ r1 w1, body w = (r1, w1) ∧ (r = r1 ∨ r = Crash) ∧
    (sound s (os_fs w1) → sound s (os_fs w')) ∧ same_view s (os_fs w1) (os_fs w').
Proof.
  intros H. unfold defer in H. destruct (body w) as [r1 w1]. exists r1, w1. split; [done|].
  pose proof (Remove_sound s x w1) as Hs.
  assert (Hv : stable (fs_rel (same_view s)) (os_Remove (x :: root s))).
  { eapply stable_fs_mono; [|apply changes_Remove]. intros m m'. apply top_view. }
  specialize (Hv w1). unfold fs_rel in *.
  assert (Hnp : ∀ msg, (os_Remove (x :: root s) w1).1 ≠ Panic msg).
  { intros msg. apply sys_no_panic. }
  destruct r1, (os_Remove (x :: root s) w1) as [[u|e'|msg'|] w2] eqn:E; simpl in *;
    injection H as <- <-; split_and!; auto; try reflexivity; exfalso; by eapply Hnp.
Qed.

(** Storing is all or nothing for the clients of the catalog, whichever of its
    system calls fail, and does not touch the other catalogs. *)
Lemma Store_spec s name fsys w r w' :
  inv s w → elem_ok name → Store s name fsys w = (r, w') →
  inv s w' ∧ (∀ n, n ≠ name → view s (os_fs w') n = view s (os_fs w) n) ∧
  match r with
  | Ok _ => ∃ d, content s w fsys d ∧ view s (os_fs w') name = Some d
  | Crash => view s (os_fs w') name = view s (os_fs w) name
             ∨ ∃ d, content s w fsys d ∧ view s (os_fs w') name = Some d
  | _ => view s (os_fs w') name = view s (os_fs w) name
  end.
Proof.
  intros [Hr Hs] Hn H. unfold Store in H.
  rewrite fpath_fbc_file, fpath_fbc_dir, bind_assoc in H by done. fold (root s) in H.
  unfold bind at 1 in H.
  destruct ((os_MkdirAll (fbc_dir s name) m0700 ;; os_CreateTemp (root s) name) w)
    as [r2 w2] eqn:E.
  destruct (Store_temp s name w r2 w2 Hs Hn E) as (Hs2 & Hv2 & Hp2). clear E.
  destruct r2 as [p|e|msg|]; try (injection H as <- <-; split_and!; by auto using conj).
  destruct (Hp2 p eq_refl) as (x & -> & Hp & Ho).
  apply Store_cleanup in H as (r3 & w3 & Hb & Hr3 & Hs3 & Hv3).
  apply Store_body in Hb as (Hs3' & Ho3 & Hm); [|done..].
  split_and!.
  - split; [done|by apply Hs3].
  - intros n Hne. by rewrite Hv3, Ho3, Hv2.
  - assert (Hnew : ∀ d, blobs (walk_events fsys w2) = Some d → content s w fsys d).
    { intros d Hd. by exists w2. }
    rewrite Hv3, <-Hv2.
    destruct Hr3 as [->| ->]; destruct r3 as [u|e|msg|]; auto;
      destruct Hm as (d & Hd & Hv); eauto 10.
Qed.

(** ** Deleting and looking *)

Lemma Delete_spec s name w r w' :
  inv s w → elem_ok name → Delete s name w = (r, w') →
  inv s w' ∧ (∀ n, elem_ok n → n ≠ name → view s (os_fs w') n = view s (os_fs w) n) ∧
  match r with
  | Ok _ => view s (os_fs w') name = None
  | Panic _ => False
  | _ => view s (os_fs w') name = None ∨ view s (os_fs w') name = view s (os_fs w) name
  end.
Proof.
  intros [Hr Hs] Hn H. unfold Delete in H. rewrite fpath_cat_dir in H by done.
  pose proof (RemoveAll_sound s name w Hs) as Hs'.
  pose proof (changes_RemoveAll (cat_dir s name) w) as Hc. unfold fs_rel in *.
  fold (cat_dir s name) in Hs'. rewrite H in *. simpl in *.
  assert (Hin : cat_dir s name `suffix_of` fbc_file s name) by (by exists ["all"; "v1"; "api"]).
  split_and!.
  - done.
  - intros n _ Hne. unfold view. rewrite Hc; [done|].
    intros [k Hk]. unfold fbc_file, fbc_dir, cat_dir in Hk. simpl in Hk.
    change (v1ApiData :: "v1" :: "api" :: n :: root s)
      with (["all"; "v1"; "api"] ++ n :: root s) in Hk.
    apply app_inj_2 in Hk as [_ Hk]; [congruence|done].
  - assert (Hgone : view s (os_fs w') name = None ∨ view s (os_fs w') name = view s (os_fs w) name).
    { pose proof (shrinks_RemoveAll (cat_dir s name) w) as Hsub. unfold fs_rel, flip in Hsub.
      rewrite H in Hsub. unfold view. destruct (os_fs w' !! fbc_file s name) eqn:E; [|by left].
      right. by rewrite (lookup_weaken _ _ _ _ E Hsub). }
    destruct r as [[]|e|msg|]; [|done| |done].
    2:{ apply (no_panic_RemoveAll (cat_dir s name) w msg). by rewrite H. }
    unfold view. erewrite wf_gone; [done|apply Hs'|by eapply RemoveAll_Ok; [apply Hs|]|done].
Qed.

Lemma ContentExists_spec s name w r w' :
  inv s w → elem_ok name → ContentExists s name w = (r, w') →
  inv s w' ∧ os_fs w' = os_fs w ∧
  match r with
  | Ok true => is_Some (view s (os_fs w) name)
  | Ok false | Crash => True
  | _ => False
  end.
Proof.
  intros [Hr Hs] Hn H. unfold ContentExists in H. rewrite fpath_fbc_file' in H by done.
  pose proof (stable_Stat (=) (fbc_file s name) w) as Hfs. unfold fs_rel in Hfs.
  unfold bind, try in H. destruct (os_Stat (fbc_file s name) w) as [[n|e|msg|] w1] eqn:E;
    simpl in *; rewrite Hfs in Hs |- *.
  - apply Stat_Ok in E as (_ & Hn' & _). rewrite Hfs in Hn'.
    destruct n as [| md d | |]; injection H as <- <-; split_and!; try done.
    unfold view. rewrite Hn'. eauto.
  - by injection H as <- <-.
  - exfalso. eapply sys_no_panic. unfold os_Stat in E. by rewrite E.
  - by injection H as <- <-.
Qed.

(** When nothing fails, [ContentExists] answers whether there is content. *)
Lemma ContentExists_calm s name w :
  inv s w → elem_ok name → no_faults w →
  ContentExists s name w = (Ok (bool_decide (is_Some (view s (os_fs w) name))), w).
Proof.
  intros [Hr Hs] Hn Hw. unfold ContentExists. rewrite fpath_fbc_file' by done.
  unfold bind, try, os_Stat, view. rewrite sys_calm by done.
  destruct (os_fs w !! fbc_file s name) as [n|] eqn:E.
  - rewrite (find_node_Some _ _ n); [|eapply (walk_below _ (root s)); eauto|done].
    + destruct n; by rewrite ?set_fs_id.
    + apply Hs.
    + apply Hs.
    + by exists ["all"; "v1"; "api"; name].
    + intros q md Hq Hmd. by eapply sound_dir.
  - unfold find_node. rewrite E. by destruct (walk (os_fs w) (fbc_file s name)).
Qed.

(** ** Storing when nothing fails *)

Lemma walk_content_calm p evs w md d d' :
  no_faults w → os_fs w !! p = Some (File md d) → blobs evs = Some d' →
  forM evs (λ ev, write_meta p ev.1 ev.2) w
  = (Ok tt, set_fs (<[p := File md (d +:+ d')]> (os_fs w)) w).
Proof.
  revert w d d'. induction evs as [|[f [b|e]] evs IH]; intros w d d' Hw Hp Hb; simpl in *.
  - injection Hb as <-. unfold ret. rewrite string_app_nil_r, insert_id by done.
    by rewrite set_fs_id.
  - destruct (blobs evs) as [d1|] eqn:E; [|done]. simpl in Hb. injection Hb as <-.
    erewrite bind_step.
    2:{ unfold write_meta, file_Write, pop_fault. rewrite Hw. unfold append_data. rewrite Hp.
        reflexivity. }
    rewrite (IH _ (d +:+ b) d1); [|done|by apply lookup_insert_eq|done].
    cbn [os_fs set_fs]. rewrite set_fs_set_fs, insert_insert_eq, string_app_assoc. done.
  - done.
Qed.

(** Nothing that is not a directory is in the way of the catalog. *)
Definition free_way (s : t) (m : fsT) (name : string) : Prop :=
  (∀ q n, below (root s) q → q `suffix_of` fbc_dir s name → m !! q = Some n → ∃ md, n = Dir md) ∧
  ∀ md, m !! fbc_file s name ≠ Some (Dir md).

Lemma clear_fbc_dir s m name :
  sound s m → free_way s m name → clear_way m (fbc_dir s name).
Proof.
  intros (Hwf & Hwalk & [mdr Hroot] & Hd) [Hfree _].
  assert (Hr : root s `suffix_of` fbc_dir s name) by (by eexists).
  assert (Hup : ∀ q, q `suffix_of` root s → q ≠ root s →
            ∃ x md, (x :: q) `suffix_of` root s ∧ m !! q = Some (Dir md) ∧ can_x md = true).
  { intros q Hq Hne. destruct (suffix_child q (root s)) as [x Hx]; [done..|].
    destruct (walk_dirs m (root s) q x) as (md & ? & ?); [done..|]. by exists x, md. }
  split.
  - destruct (decide ([] = root s)) as [Heq|Hne]; [rewrite Heq; eauto|].
    destruct (Hup []) as (_ & md & _ & ? & _); [apply suffix_nil|done|eauto].
  - intros q n Hq Hn.
    destruct (decide (root s `suffix_of` q)) as [Hrq|Hrq].
    + assert (∃ md, n = Dir md) as [md ->].
      { destruct (decide (q = root s)) as [->|]; [rewrite Hroot in Hn; naive_solver|].
        by apply (Hfree q). }
      exists md. destruct (Hd q (Dir md)) as (_ & Hw & Hx); [done..|]. by split_and!.
    + destruct (suffix_weak_total _ _ _ Hq Hr) as [Hqr|]; [|done].
      destruct (Hup q) as (x & md & Hx & Hmd & Hxx); [done|by intros ->|].
      rewrite Hn in Hmd. injection Hmd as ->. exists md. split_and!; try done.
      intros z Hz Hnone. exfalso. rewrite (suffix_child_inj z x q (fbc_dir s name)) in Hnone;
        [|done|by etrans].
      destruct (wf_ancestor m (x :: q) (root s)) as [? ?]; [done..|eauto|]. congruence.
Qed.

(** The tree after a successful [Store]. *)
Definition stored_fs (s : t) (name d : string) (m : fsT) : fsT :=
  <[fbc_file s name := File m0600 d]> (mkdirs (fbc_dir s name) m0700 m).

(** The state in which [Store] walks the catalog. *)
Definition walk_state (s : t) (name : string) (x : N) (rest : list N) (w : OS) : OS :=
  set_rand rest
    (set_fs (<[temp_path (root s) name x := File m0600 ""]>
               (mkdirs (fbc_dir s name) m0700 (os_fs w))) w).

Lemma temp_not_fbc_dir s name x : ¬ temp_path (root s) name x `suffix_of` fbc_dir s name.
Proof.
  intros [k Hk]. unfold fbc_dir, temp_path in Hk. simpl in Hk.
  change ("v1" :: "api" :: name :: root s) with (["v1"; "api"] ++ name :: root s) in Hk.
  apply app_inj_2 in Hk as [_ Hk]; [|done]. injection Hk as Hk.
  symmetry in Hk. by apply app_not_same in Hk; [|apply pretty_not_nil].
Qed.

(** A name directly in [RootDir] can be created and removed. *)
Lemma top_reachable s m x :
  sound s m → walk m (x :: root s) = None ∧ parent_writable m (x :: root s) = true.
Proof.
  intros (_ & Hwalk & [md Hroot] & Hd). destruct (Hd (root s) (Dir md)) as (_ & Hw & Hx); [done..|].
  split; [apply walk_cons; eauto|]. simpl. by rewrite Hroot.
Qed.

(** So can the file of a catalog whose directory is there. *)
Lemma fbc_reachable s m name md :
  sound s m → m !! fbc_dir s name = Some (Dir md) →
  walk m (fbc_file s name) = None ∧ parent_writable m (fbc_file s name) = true.
Proof.
  intros (Hwf & Hwalk & Hroot & Hd) Hdir.
  assert (Hr : root s `suffix_of` fbc_dir s name) by (by eexists).
  destruct (Hd _ (Dir md) Hr Hdir) as (_ & Hw & Hx).
  split; [|simpl; by rewrite Hdir]. apply walk_cons. split; [|by eauto].
  eapply (walk_below _ (root s)); eauto. intros q md' Hq Hmd. by apply (Hd q (Dir md')).
Qed.

(** [os.Remove] of a name that is not there fails and changes nothing. *)
Lemma Remove_fails p w :
  no_faults w → os_fs w !! p = None → ∃ e, os_Remove p w = (Err e, w).
Proof.
  intros Hw Hp. unfold os_Remove. rewrite sys_calm by done. unfold remove_node, find_node.
  rewrite Hp. destruct (walk (os_fs w) p); eauto.
Qed.

Lemma rename_temp (m : fsT) tmp q n n' :
  m !! tmp = None → q ≠ tmp → <[q := n]> (delete tmp (<[tmp := n']> m)) = <[q := n]> m.
Proof. intros Hm Hne. by rewrite delete_insert_id. Qed.

Lemma Store_body_calm s name fsys w x d md :
  let tmp := temp_path (root s) name x in
  sound s (os_fs w) → no_faults w → os_fs w !! tmp = Some (File m0600 "") →
  os_fs w !! fbc_dir s name = Some (Dir md) → (∀ md', os_fs w !! fbc_file s name ≠ Some (Dir md')) →
  blobs (walk_events fsys w) = Some d →
  (wrap_err "error walking FBC root: " (WalkMetasFS fsys (write_meta tmp)) ;;
   os_Rename tmp (fbc_file s name)) w
  = (Ok tt, set_fs (<[fbc_file s name := File m0600 d]> (delete tmp (os_fs w))) w).
Proof.
  intros tmp Hs Hw Htmp Hdir Hfile Hb.
  assert (Hne : fbc_file s name ≠ tmp) by (intros Heq; by eapply top_not_served).
  assert (Hnd : fbc_dir s name ≠ tmp) by (intros Heq%(f_equal length); simpl in Heq; lia).
  set (m2 := <[tmp := File m0600 d]> (os_fs w)).
  assert (Hs2 : sound s m2).
  { apply sound_insert; [done|by apply (below_cons (name +:+ pretty x))| |done].
    eapply wf_replace; [apply Hs|done|done]. }
  erewrite bind_step.
  2:{ unfold wrap_err. rewrite WalkMetasFS_spec.
      by erewrite walk_content_calm by done. }
  destruct (top_reachable s m2 (name +:+ pretty x) Hs2) as [Ht1 Ht2].
  destruct (fbc_reachable s m2 name md) as [Hf1 Hf2]; [done|by unfold m2; rewrite lookup_insert_ne|].
  erewrite Rename_calm; [|done|exact Ht1|apply lookup_insert_eq|done|exact Hf1| |exact Ht2|exact Hf2].
  - rewrite set_fs_set_fs. cbn [os_fs set_fs]. by rewrite delete_insert_eq.
  - intros md'. cbn [os_fs set_fs]. by rewrite lookup_insert_ne.
Qed.

(** When no call fails, [Store] comes to the walk with its temporary file. *)
Lemma start_calm s name w x rest :
  inv s w → elem_ok name → no_faults w → os_rand w = x :: rest →
  os_fs w !! temp_path (root s) name x = None → free_way s (os_fs w) name →
  let w1 := walk_state s name x rest w in
  os_MkdirAll (fbc_dir s name) m0700 w = (Ok tt, set_fs (mkdirs (fbc_dir s name) m0700 (os_fs w)) w) ∧
  os_CreateTemp (root s) name (set_fs (mkdirs (fbc_dir s name) m0700 (os_fs w)) w)
  = (Ok (temp_path (root s) name x), w1) ∧
  sound s (os_fs w1) ∧ (∃ md, os_fs w1 !! fbc_dir s name = Some (Dir md)) ∧
  os_fs w1 !! fbc_file s name = os_fs w !! fbc_file s name ∧
  mkdirs (fbc_dir s name) m0700 (os_fs w) !! temp_path (root s) name x = None.
Proof.
  intros [Hr Hs] Hn Hw Hrand Hfree Hway w1. set (tmp := temp_path (root s) name x) in *.
  pose proof (clear_fbc_dir s _ name Hs Hway) as Hclear.
  set (m1 := mkdirs (fbc_dir s name) m0700 (os_fs w)) in *.
  assert (E1 : os_MkdirAll (fbc_dir s name) m0700 w = (Ok tt, set_fs m1 w)).
  { apply MkdirAll_calm; [done|apply Hs|done|apply rwx_0700]. }
  assert (Hs1 : sound s m1).
  { pose proof (MkdirAll_sound s name Hn w Hs) as H. by rewrite E1 in H. }
  assert (Htmp : m1 !! tmp = None).
  { unfold m1. rewrite mkdirs_ne; [done|apply temp_not_fbc_dir]. }
  destruct (top_reachable s m1 (name +:+ pretty x) Hs1) as [Ht1 Ht2].
  split_and!; [done| | | | |done].
  - rewrite (CreateTemp_calm _ _ _ x rest) by done. cbn [os_fs set_fs]. by rewrite set_fs_set_fs.
  - apply sound_insert; [done|by apply (below_cons (name +:+ pretty x))| |done].
    apply wf_insert_new; [apply Hs1|apply temp_path_ok; [done|apply fpath_ok]|done|done].
  - change (os_fs w1) with (<[tmp := File m0600 ""]> m1). rewrite lookup_insert_ne.
    2:{ intros Heq%(f_equal length). simpl in Heq. lia. }
    unfold m1. rewrite mkdirs_lookup by (done || apply Hclear).
    destruct (os_fs w !! fbc_dir s name) as [n|] eqn:E; [|by eexists].
    destruct (proj2 Hclear _ _ (reflexivity _) E) as (md & -> & _). by exists md.
  - change (os_fs w1) with (<[tmp := File m0600 ""]> m1).
    rewrite lookup_insert_ne by (intros Heq; by eapply top_not_served). apply mkdirs_ne. intros Hl%suffix_length. simpl in Hl. lia.
Qed.

(** When no call fails, [Store] replaces the content of the catalog and leaves
    no temporary file behind. *)
Lemma Store_calm s name fsys w x rest d :
  inv s w → elem_ok name → no_faults w → os_rand w = x :: rest →
  os_fs w !! temp_path (root s) name x = None → free_way s (os_fs w) name →
  blobs (walk_events fsys (walk_state s name x rest w)) = Some d →
  Store s name fsys w = (Ok tt, set_rand rest (set_fs (stored_fs s name d (os_fs w)) w)).
Proof.
  intros Hi Hn Hw Hrand Hfree Hway Hb. set (tmp := temp_path (root s) name x).
  destruct (start_calm s name w x rest) as (E1 & E2 & Hs2 & [md Hdir] & Hfile & Htmp); try done.
  pose proof (Store_body_calm s name fsys _ x d md Hs2 Hw (lookup_insert_eq _ _ _) Hdir) as Hbody.
  unfold Store. rewrite fpath_fbc_file, fpath_fbc_dir by (done || apply Hi). fold (root s).
  erewrite bind_step by exact E1. erewrite bind_step by exact E2. unfold defer.
  rewrite Hbody; [|intros md'; rewrite Hfile; apply Hway|done]. clear Hbody.
  cbn [os_fs set_fs set_rand walk_state]. fold tmp. rewrite delete_insert_id by done.
  edestruct (Remove_fails tmp) as [e ->]; [| |done]; [done|].
  cbn [os_fs set_fs]. rewrite lookup_insert_ne; [done|]. intros Heq. by eapply top_not_served.
Qed.

(** [Store] killed after some of the writes: the temporary file has the metas
    written so far. *)
Lemma walk_killed p q evs evs' w md d0 d d' :
  no_faults w → os_fs w !! p = Some (File md d0) → blobs evs = Some d → blobs evs' = Some d' →
  (wrap_err "error walking FBC root: " (forM (evs ++ evs') (λ ev, write_meta p ev.1 ev.2)) ;; os_Rename p q)
    (set_faults (replicate (length evs) FNone ++ [FKill]) w)
  = (Crash, set_fs (<[p := File md (d0 +:+ d)]> (os_fs w)) w).
Proof.
  intros Hw. revert w d0 d Hw. induction evs as [|[f [b|e]] evs IH]; intros w d0 d Hw Hp Hd Hd'; simpl in *.
  - injection Hd as <-. rewrite string_app_nil_r, insert_id, set_fs_id by done.
    rewrite <-(set_faults_id w Hw) at 2. destruct evs' as [|[f [b|e]] evs']; done.
  - destruct (blobs evs) as [d1|] eqn:E; [|done]. simpl in Hd. injection Hd as <-.
    specialize (IH (set_fs (<[p := File md (d0 +:+ b)]> (os_fs w)) w) (d0 +:+ b) d1).
    cbn [os_fs set_fs] in IH. rewrite insert_insert_eq, set_fs_set_fs, string_app_assoc in IH.
    etransitivity; [|apply IH; [done|apply lookup_insert_eq|done|done]].
    change ((FNone :: replicate (length evs) FNone) ++ [FKill])
      with (FNone :: replicate (length evs) FNone ++ [FKill]).
    unfold bind at 1, wrap_err. unfold bind at 1. unfold write_meta at 1, file_Write at 1, pop_fault at 1.
    cbn [os_faults set_faults os_fs fst snd]. unfold append_data. cbn [os_fs set_faults]. rewrite Hp. reflexivity.
  - done.
Qed.

Lemma Store_killed s name fsys w x rest evs evs' d d' :
  inv s w → elem_ok name → no_faults w → os_rand w = x :: rest →
  os_fs w !! temp_path (root s) name x = None → free_way s (os_fs w) name →
  (∀ l, walk_events fsys (set_faults l (walk_state s name x rest w)) = evs ++ evs') →
  blobs evs = Some d → blobs evs' = Some d' →
  ∃ k, Store s name fsys (set_faults (replicate k FNone ++ [FKill]) w)
       = (Crash, set_fs (<[temp_path (root s) name x := File m0600 d]> (os_fs (walk_state s name x rest w)))
                   (walk_state s name x rest w)).
Proof.
  intros Hi Hn Hw Hrand Hfree Hway Hev Hd Hd'.
  destruct (start_calm s name w x rest) as (E1 & E2 & Hs2 & [md Hdir] & Hfile & Htmp); try done.
  destruct (steady_MkdirAll (fbc_dir s name) m0700 w Hw) as [Hw1 [k1 H1]]. rewrite E1 in H1, Hw1.
  destruct (steady_CreateTemp (root s) name _ Hw1) as [_ [k2 H2]]. cbn [fst snd] in H1, H2.
  rewrite E2 in H2. cbn [fst snd] in H2.
  exists (k1 + (k2 + length evs)). rewrite !replicate_add, <-!app_assoc.
  unfold Store. rewrite fpath_fbc_file, fpath_fbc_dir by (done || apply Hi). fold (root s).
  erewrite bind_step by apply H1. erewrite bind_step by apply H2. unfold defer.
  unfold bind at 1, wrap_err. rewrite WalkMetasFS_spec, Hev.
  pose proof (walk_killed (temp_path (root s) name x) (fbc_file s name) evs evs'
                (walk_state s name x rest w) m0600 "" d d') as Hk.
  unfold bind at 1, wrap_err in Hk. rewrite Hk; try done. by apply lookup_insert_eq.
Qed.

(** [Delete] when nothing fails: the tree of the catalog goes. *)
Lemma Delete_calm s name w :
  inv s w → elem_ok name → no_faults w →
  Delete s name w = (Ok tt, set_fs (prune (cat_dir s name) (os_fs w)) w).
Proof.
  intros [Hr Hs] Hn Hw. destruct (top_reachable s (os_fs w) name Hs) as [Hwalk Hpw].
  unfold Delete. rewrite fpath_cat_dir by done.
  apply RemoveAll_calm; [done|apply Hs|]. split_and!; [done..|].
  intros q md Hq Hmd. eapply sound_dir; [done| |done].
  etrans; [|exact Hq]. by apply suffix_cons_r.
Qed.

(** ** A concrete tree is sound *)

Definition sound_check (s : t) (m : fsT) : bool :=
  all_nodes (λ p _, node_wf m p) m && bool_decide (walk m (root s) = None)
  && match m !! root s with Some (Dir _) => true | _ => false end
  && all_nodes (rwx_below (root s)) m
  && all_nodes (λ p n, match n with
                       | File md _ => negb (bool_decide (root s `suffix_of` p)) || can_r md
                       | _ => true
                       end) m.

Lemma sound_by_check s m : sound_check s m = true → sound s m.
Proof.
  unfold sound_check.
  intros [[[[Hwf Hw]%andb_true_iff Hr]%andb_true_iff Hx]%andb_true_iff Hf]%andb_true_iff.
  split_and!.
  - by apply wf_by_check.
  - by apply bool_decide_eq_true in Hw.
  - destruct (m !! root s) as [[md| | |]|]; try done. eauto.
  - intros q n Hq Hn. destruct n as [md|md d| |]; try done.
    + by eapply rwx_by_check.
    + pose proof (all_nodes_spec _ _ _ _ Hf Hn) as Hmd. simpl in Hmd.
      by rewrite bool_decide_true in Hmd by done.
Qed.

Definition free_check (s : t) (m : fsT) (name : string) : bool :=
  all_nodes (λ p n, match n with
                    | Dir _ => negb (bool_decide (p = fbc_file s name))
                    | _ => negb (bool_decide (p `suffix_of` fbc_dir s name))
                    end) m.

Lemma free_by_check s m name : free_check s m name = true → free_way s m name.
Proof.
  intros H. split.
  - intros q n _ Hs Hn. pose proof (all_nodes_spec _ _ _ _ H Hn) as Hq. cbv beta in Hq.
    rewrite (bool_decide_true _ Hs) in Hq. destruct n; [by eexists|done..].
  - intros md Hn. pose proof (all_nodes_spec _ _ _ _ H Hn) as Hq. cbv beta in Hq.
    by rewrite bool_decide_true in Hq.
Qed.

(** ** The interface, implemented *)

#[export] Instance instance (s : t) : StorageInstance OS FSys := {
  st_Store := Store s;
  st_Delete := Delete s;
  st_BaseURL := BaseURL s;
  st_ContentExists := ContentExists s
}.

#[export] Program Instance contract (s : t) : StorageContract OS FSys (I := instance s) := {
  st_inv := inv s;
  st_view w := view s (os_fs w);
  st_content := content s
}.
Next Obligation.
  intros s w name fsys r w' Hi Hn H.
  destruct (Store_spec s name fsys w r w' Hi Hn H) as (? & ? & ?). auto.
Qed.
Next Obligation. intros s w name r w' Hi Hn H. by apply (Delete_spec s name w r w'). Qed.
Next Obligation.
  intros s w name r w' Hi Hn H.
  destruct (ContentExists_spec s name w r w' Hi Hn H) as (? & Hfs & ?).
  split_and!; [done|intros n; by rewrite Hfs|done].
Qed.
End LocalDirV1.
End LocalDirV1.
