(* ===== verification/StorageDemo.v ===== *)
(** A concrete storage and a directory tree for it, on which the properties of
    the storage and of its clients are exercised. *)
From S2P Require Import Prelude GoPath Url OsFS OsLemmas Storage.

(** A walk of file-based catalogs that hands over every regular file below a
    directory as one meta. *)

Definition file_event (d : path) (pn : path * node) : option (string * (string + error)) :=
  match pn.2 with
  | File _ data => if decide (d `suffix_of` pn.1) then Some (join_slash (reverse pn.1), inl data) else None
  | _ => None
  end.

Definition dir_events (d : path) (w : OS) : list (string * (string + error)) :=
  match os_fs w !! d with
  | Some (Dir _) => omap (file_event d) (map_to_list (os_fs w))
  | _ => [(".", inr (ErrErrno "open" d ENOENT))]
  end.

Program Definition dir_cfg : DeclCfg path := {|
  WalkMetasFS d walkFn := λ w, forM (dir_events d w) (λ ev, walkFn ev.1 ev.2) w;
  walk_events := dir_events
|}.
Next Obligation. done. Qed.

(** How errors of the system and of the libraries print. *)
Definition demo_text : ErrorText := {|
  terminal_text s := "terminal error: " +:+ s;
  errno_text op p en := op +:+ " " +:+ join_slash (reverse p);
  notfound_text n := n +:+ " not found"
|}.

Definition demo_url : URL := mkURL "https" "catalogd.svc" "/catalogs/" "".
Definition demo_storage : LocalDirV1.t := LocalDirV1.mk "/var/catalogs" demo_url.

Definition demo_fs : fsT :=
  list_to_map [
    ([], Dir m0700); (["var"], Dir m0700); (["catalogs"; "var"], Dir m0700);
    (["unpack"; "var"], Dir m0700); (["op.yaml"; "unpack"; "var"], File m0400 "schema: olm.package")].

Definition demo_os (faults : list fault) : OS := mkOS demo_fs faults [7%N] 1000 [].

Lemma demo_inv faults : LocalDirV1.inv demo_storage (demo_os faults).
Proof. split; [done|]. apply LocalDirV1.sound_by_check. by vm_compute. Defined.

Definition demo_dir : path := ["unpack"; "var"].

(** Decides [elem_ok] of a concrete name. *)
Ltac elem := apply (bool_decide_unpack _); by vm_compute.
