(* ===== verification/StorageCorrect.v ===== *)
(** The properties of the storage component. *)
From stdpp Require Import pretty.
From S2P Require Import Prelude GoPath Url OsFS OsLemmas Storage StorageDemo.

(** * Storing *)

Section Storing.
Context {FSys : Type} {DC : DeclCfg FSys}.
Implicit Types (s : LocalDirV1.t) (w : OS) (fsys : FSys).

(** C1: Storing a catalog is atomic for its clients. Whichever of its system
    calls fail, the directory stays usable, the other catalogs are served as
    before, and the catalog itself is served either as before (every error) or
    with exactly the concatenated metas of the new content (success); only a
    process killed in between leaves open which of the two it is. *)
Theorem store_atomic s name fsys w r w' :
  LocalDirV1.inv s w → elem_ok name → LocalDirV1.Store s name fsys w = (r, w') →
  LocalDirV1.inv s w' ∧
  (∀ n, n ≠ name → LocalDirV1.view s (os_fs w') n = LocalDirV1.view s (os_fs w) n) ∧
  match r with
  | Ok _ => ∃ d, LocalDirV1.content s w fsys d ∧ LocalDirV1.view s (os_fs w') name = Some d
  | Crash => LocalDirV1.view s (os_fs w') name = LocalDirV1.view s (os_fs w) name
             ∨ ∃ d, LocalDirV1.content s w fsys d ∧ LocalDirV1.view s (os_fs w') name = Some d
  | _ => LocalDirV1.view s (os_fs w') name = LocalDirV1.view s (os_fs w) name
  end.
Proof. apply LocalDirV1.Store_spec. Qed.

(** When no system call fails, nothing but directories is in the way and
    the catalog can be read, [Store] succeeds: the catalog is served with the
    metas in the order they were found, no temporary file is left, nothing
    outside the directories above the stored file changes, and [ContentExists]
    then says so. *)
Theorem store_complete s name fsys w x rest d :
  LocalDirV1.inv s w → elem_ok name → no_faults w → os_rand w = x :: rest →
  os_fs w !! temp_path (LocalDirV1.root s) name x = None →
  LocalDirV1.free_way s (os_fs w) name →
  blobs (walk_events fsys (LocalDirV1.walk_state s name x rest w)) = Some d →
  ∃ w', LocalDirV1.Store s name fsys w = (Ok tt, w') ∧
    LocalDirV1.view s (os_fs w') name = Some d ∧
    changes_only (λ q, q `suffix_of` LocalDirV1.fbc_file s name) (os_fs w) (os_fs w') ∧
    LocalDirV1.ContentExists s name w' = (Ok true, w').
Proof.
  intros Hi Hn Hw Hr Ht Hf Hb.
  pose proof (LocalDirV1.Store_calm s name fsys w x rest d Hi Hn Hw Hr Ht Hf Hb) as Hst.
  destruct (LocalDirV1.Store_spec s name fsys w _ _ Hi Hn Hst) as (Hi' & _ & _).
  eexists. split; [exact Hst|].
  assert (Hv : LocalDirV1.view s (LocalDirV1.stored_fs s name d (os_fs w)) name = Some d).
  { unfold LocalDirV1.view, LocalDirV1.stored_fs. by rewrite lookup_insert_eq. }
  split_and!; [done| |].
  - intros q Hq. cbn. unfold LocalDirV1.stored_fs.
    rewrite lookup_insert_ne by (intros <-; by apply Hq). apply mkdirs_ne.
    intros Hs. apply Hq. etrans; [exact Hs|]. by apply suffix_cons_r.
  - rewrite LocalDirV1.ContentExists_calm by done. cbn [os_fs set_rand set_fs].
    by rewrite Hv, bool_decide_true by eauto.
Qed.

(** * Deleting *)

(** Deleting a catalog never touches what is served for another one, and a
    reported success means that nothing is left to serve, whichever system
    calls failed on the way; an error leaves the catalog as it was or gone. *)
Theorem delete_exact s name w r w' :
  LocalDirV1.inv s w → elem_ok name → LocalDirV1.Delete s name w = (r, w') →
  LocalDirV1.inv s w' ∧
  (∀ n, elem_ok n → n ≠ name →
     LocalDirV1.view s (os_fs w') n = LocalDirV1.view s (os_fs w) n) ∧
  match r with
  | Ok _ => LocalDirV1.view s (os_fs w') name = None
  | Panic _ => False
  | _ => LocalDirV1.view s (os_fs w') name = None
         ∨ LocalDirV1.view s (os_fs w') name = LocalDirV1.view s (os_fs w) name
  end.
Proof. apply LocalDirV1.Delete_spec. Qed.

(** When no system call fails, [Delete] succeeds, removes exactly the tree
    of the catalog, and [ContentExists] is false afterwards. *)
Theorem delete_complete s name w :
  LocalDirV1.inv s w → elem_ok name → no_faults w →
  ∃ w', LocalDirV1.Delete s name w = (Ok tt, w') ∧
    (∀ q, os_fs w' !! q = if decide (LocalDirV1.cat_dir s name `suffix_of` q)
                          then None else os_fs w !! q) ∧
    LocalDirV1.ContentExists s name w' = (Ok false, w').
Proof.
  intros Hi0 Hn Hw. pose proof (LocalDirV1.Delete_calm s name w Hi0 Hn Hw) as Hd.
  destruct (LocalDirV1.Delete_spec s name w _ _ Hi0 Hn Hd) as (Hi & _ & Hv).
  eexists. split; [exact Hd|]. split.
  - intros q. cbn. case_decide; [by apply prune_in|by apply prune_out].
  - rewrite LocalDirV1.ContentExists_calm by done. rewrite Hv. done.
Qed.
End Storing.

(** Under an absolute base URL with nothing to encode, the address of a
    catalog is the base path with the catalog's name as last element, so two
    catalogs never share an address. *)
Theorem base_url_injective (s : LocalDirV1.t) (a b : string) :
  plain_base (LocalDirV1.RootURL s) → elem_ok a → elem_ok b → plain a = true → plain b = true →
  LocalDirV1.BaseURL s a =
    uScheme (LocalDirV1.RootURL s) +:+ "://" +:+ url_escape shouldEscapeHost (uHost (LocalDirV1.RootURL s))
    +:+ render true (path_comps (uPath (LocalDirV1.RootURL s)) ++ [a]) ∧
  (LocalDirV1.BaseURL s a = LocalDirV1.BaseURL s b → a = b).
Proof.
  intros Hu Ha Hb Hpa Hpb. unfold LocalDirV1.BaseURL.
  rewrite !JoinPath_String by done. split; [done|]. intros H.
  apply (inj (String.app _)) in H. apply (inj (String.app "://")) in H.
  apply (inj (String.app _)), render_last_inj in H; try done.
  unfold path_comps. eapply normal_slash_free, clean_stack_split_normal.
Qed.

(** * Witnesses *)

#[local] Existing Instance dir_cfg.

Definition demo_store (faults : list fault) : outcome unit * OS :=
  LocalDirV1.Store demo_storage "op" demo_dir (demo_os faults).

Definition half_written : list fault := replicate 8 FNone ++ [FErr true 3].

(** The write of the temporary file fails half-way: an error, and still nothing
    is served. *)
Lemma store_atomic_witness :
  (∃ e, (demo_store half_written).1 = Err e) ∧
  LocalDirV1.view demo_storage (os_fs (demo_store half_written).2) "op" = None.
Proof.
  assert (He : ∃ e, (demo_store half_written).1 = Err e) by (vm_compute; eauto).
  split; [exact He|]. destruct He as [e He].
  destruct (store_atomic demo_storage "op" demo_dir (demo_os half_written)
              (Err e) (demo_store half_written).2) as (_ & _ & H).
  - apply demo_inv.
  - elem.
  - rewrite <-He. unfold demo_store. by destruct (LocalDirV1.Store _ _ _ _).
  - rewrite H. by vm_compute.
Defined.

Lemma demo_free : LocalDirV1.free_way demo_storage demo_fs "op".
Proof. apply LocalDirV1.free_by_check. vm_compute. reflexivity. Defined.

Lemma store_complete_witness :
  ∃ w', demo_store [] = (Ok tt, w') ∧
    LocalDirV1.view demo_storage (os_fs w') "op" = Some "schema: olm.package".
Proof.
  destruct (store_complete demo_storage "op" demo_dir (demo_os []) 7 [] "schema: olm.package"
              (demo_inv []) ltac:(elem) eq_refl eq_refl)
    as (w' & Hs & Hv & _).
  - by vm_compute.
  - apply demo_free.
  - by vm_compute.
  - exists w'. by split.
Defined.

(** The tree after storing the catalog [op]. *)
Definition stored_os : OS := (demo_store []).2.

Lemma stored_inv : LocalDirV1.inv demo_storage stored_os.
Proof. split; [done|]. apply LocalDirV1.sound_by_check. by vm_compute. Defined.

Lemma delete_exact_witness :
  LocalDirV1.view demo_storage (os_fs stored_os) "op" = Some "schema: olm.package" ∧
  LocalDirV1.view demo_storage (os_fs (LocalDirV1.Delete demo_storage "op" stored_os).2) "op"
  = None.
Proof.
  split; [by vm_compute|].
  apply (delete_exact demo_storage "op" stored_os (Ok tt)
           (LocalDirV1.Delete demo_storage "op" stored_os).2 stored_inv ltac:(elem)).
  by vm_compute.
Defined.

Lemma delete_complete_witness :
  ∃ w', LocalDirV1.Delete demo_storage "op" stored_os = (Ok tt, w') ∧
    LocalDirV1.ContentExists demo_storage "op" w' = (Ok false, w').
Proof.
  destruct (delete_complete demo_storage "op" stored_os stored_inv ltac:(elem))
    as (w' & Hd & _ & Hc); [by vm_compute|]. exists w'. by split.
Defined.

Lemma base_url_injective_witness :
  LocalDirV1.BaseURL demo_storage "a" = "https://catalogd.svc/catalogs/a" ∧
  (LocalDirV1.BaseURL demo_storage "a" = LocalDirV1.BaseURL demo_storage "b" → "a" = "b").
Proof.
  split; [by vm_compute|].
  apply (base_url_injective demo_storage "a" "b"); [|elem|elem|done|done].
  repeat split; done.
Defined.
