(* ===== verification/Http.v ===== *)
(** HTTP serving: the parts of Go's [net/http], [io/fs] and [os] (Go 1.22) that
    turn a request into a file: the request multiplexer, [StripPrefix],
    [FileServer], [http.FS] and [os.DirFS]. *)
From Stdlib Require Import Ascii.
From S2P Require Import Prelude GoPath Url OsFS.

(** ** Strings *)

(** [strings.TrimPrefix] *)
Fixpoint TrimPrefix (s p : string) : option string :=
  match p, s with
  | EmptyString, _ => Some s
  | String _ _, EmptyString => None
  | String c p', String d s' => if Ascii.eqb c d then TrimPrefix s' p' else None
  end.

Definition HasSuffix (s p : string) : bool :=
  bool_decide (reverse (String.list_ascii_of_string p)
                 `prefix_of` reverse (String.list_ascii_of_string s)).

(** [path.Base] of a rooted path. *)
Definition path_Base (s : string) : string :=
  match List.filter not_empty (reverse (split_slash s)) with
  | [] => "/"
  | w :: _ => w
  end.

(** [utf8.ValidString]: [pending] are the bytes the current rune still needs,
    as ranges. *)
Definition utf8_start (b : nat) : option (list (nat * nat)) :=
  let cont := (128, 191) in
  if Nat.leb b 127 then Some []
  else if Nat.leb b 193 then None
  else if Nat.leb b 223 then Some [cont]
  else if Nat.eqb b 224 then Some [(160, 191); cont]
  else if Nat.eqb b 237 then Some [(128, 159); cont]
  else if Nat.leb b 239 then Some [cont; cont]
  else if Nat.eqb b 240 then Some [(144, 191); cont; cont]
  else if Nat.leb b 243 then Some [cont; cont; cont]
  else if Nat.eqb b 244 then Some [(128, 143); cont; cont]
  else None.

Fixpoint utf8_from (pending : list (nat * nat)) (s : string) : bool :=
  match s, pending with
  | EmptyString, [] => true
  | EmptyString, _ => false
  | String c s', [] =>
      match utf8_start (nat_of_ascii c) with
      | Some pending' => utf8_from pending' s'
      | None => false
      end
  | String c s', (lo, hi) :: pending' => between lo hi c && utf8_from pending' s'
  end.

Definition utf8_ValidString (s : string) : bool := utf8_from [] s.

(** ** Requests, responses, handlers *)

Abbreviation Header := (gmap string string).

Record Request := mkRequest {
  Method : string;
  rURL : URL;            (** of a request: no scheme and no host *)
  RawQuery : string;
  rHeader : Header
}.

Record Response := mkResponse {
  Code : Z;
  sHeader : Header;
  Body : string
}.

(** A handler is given the headers set so far on the writer. *)
Definition Handler : Type := Header → Request → GoM OS Response.

Definition set_url (u : URL) (r : Request) : Request :=
  mkRequest (Method r) u (RawQuery r) (rHeader r).

Definition text_plain : string := "text/plain; charset=utf-8".

Definition http_Error (msg : string) (code : Z) (h : Header) : Response :=
  mkResponse code
    (<["Content-Type" := text_plain]> (<["X-Content-Type-Options" := "nosniff"]> h))
    (msg +:+ String "010"%char EmptyString).

Definition NotFound (h : Header) : Response := http_Error "404 page not found" 404 h.

Definition with_query (url : string) (r : Request) : string :=
  if not_empty (RawQuery r) then url +:+ "?" +:+ RawQuery r else url.

(** A permanent redirect; the text that comes with one is left out. *)
Definition redirect (url : string) (h : Header) (r : Request) : Response :=
  mkResponse 301 (<["Location" := with_query url r]> h) "".

(** ** [ServeMux] with one pattern *)

Definition cleanPath (p : string) : string :=
  if negb (not_empty p) then "/"
  else
    let p := if is_rooted p then p else String "/" p in
    let np := path_Clean p in
    if ends_in_slash p && negb (bool_decide (np = "/")) then np +:+ "/" else np.

(** The elements of a rooted path; one after a final slash is empty. *)
Definition segments (p : string) : list string := tail (split_slash p).

Definition pathUnescape (s : string) : string := default s (url_unescape s).

(** A pattern that ends in a slash matches everything below it. *)
Definition mux_match (pattern p : string) : bool :=
  let pat := segments pattern in
  let segs := map pathUnescape (segments p) in
  if ends_in_slash pattern
  then bool_decide (removelast pat `prefix_of` segs) && Nat.ltb (length (removelast pat)) (length segs)
  else bool_decide (pat = segs).

(** The redirect from [/tree] to [/tree/]. *)
Definition mux_slash (pattern p : string) : bool :=
  negb (mux_match pattern p) && negb (ends_in_slash p)
  && mux_match pattern (p +:+ "/")
  && Nat.eqb (length (segments pattern)) (length (segments (p +:+ "/"))).

Definition bad_request : Response := mkResponse 400 {[ "Connection" := "close" ]} "".

Definition mux_Handle (pattern : string) (handler : Handler) : Handler := λ h r,
  let escapedPath := EscapedPath (rURL r) in
  let connect := bool_decide (Method r = "CONNECT") in
  let p := if connect then escapedPath else cleanPath escapedPath in
  if decide (uPath (rURL r) = "*") then ret bad_request
  else if mux_slash pattern p
  then ret (redirect (URL_String (mkURL "" "" (cleanPath (uPath (rURL r)) +:+ "/") "")) h r)
  else if negb connect && negb (bool_decide (p = escapedPath))
  then ret (redirect (URL_String (mkURL "" "" p "")) h r)
  else if mux_match pattern p then handler h r
  else ret (NotFound h).

(** ** [StripPrefix] *)

Definition StripPrefix (prefix : string) (handler : Handler) : Handler := λ h r,
  if negb (not_empty prefix) then handler h r
  else
    let u := rURL r in
    let raw := if not_empty (uRawPath u) then TrimPrefix (uRawPath u) prefix else Some "" in
    match TrimPrefix (uPath u) prefix, raw with
    | Some p, Some rp => handler h (set_url (mkURL (uScheme u) (uHost u) p rp) r)
    | _, _ => ret (NotFound h)
    end.

(** ** File systems *)

(** [fs.FS]: opening a name gives what an open file refers to, and the path it
    was opened at. *)
Definition FS : Type := string → GoM OS (path * node).

(** [fs.ValidPath] *)
Definition ValidPath (name : string) : bool :=
  utf8_ValidString name
  && (bool_decide (name = ".")
      || forallb (λ e, not_empty e && negb (bool_decide (e = ".")) && negb (bool_decide (e = "..")))
           (split_slash name)).

Definition has_nul (s : string) : bool :=
  existsb (λ c, Ascii.eqb c (ascii_of_nat 0)) (String.list_ascii_of_string s).

(** [os.DirFS(dir).Open] *)
Definition DirFS (dir : string) : FS := λ name,
  let p := fpath (dir +:+ String "/" name) in
  if ValidPath name && not_empty dir && negb (has_nul name)
  then n <- os_Open p ;; ret (p, n)
  else throw (ErrErrno "open" [name] EINVAL).

(** [os.ErrNotExist] *)
Definition ErrNotExist : error := ErrErrno "open" [] ENOENT.

(** [errors.Is(err, fs.ErrNotExist)] and [errors.Is(err, fs.ErrPermission)] for
    the errors of opening a file, which are not wrapped. *)
Definition is_not_exist (e : error) : bool :=
  match e with ErrErrno _ _ ENOENT => true | _ => false end.
Definition is_permission (e : error) : bool :=
  match e with ErrErrno _ _ EACCES => true | _ => false end.

(** The loop of [mapOpenError]: [fs.Stat] on ever longer prefixes of the name. *)
Fixpoint map_prefixes (fsys : FS) (orig : error) (prefix parts : list string) : GoM OS error :=
  match parts with
  | [] => ret orig
  | part :: parts' =>
      let prefix' := prefix ++ [part] in
      if negb (not_empty part) then map_prefixes fsys orig prefix' parts'
      else
        st <- try (f <- fsys (join_slash prefix') ;; file_Stat f.1 f.2) ;;
        match st with
        | inr _ => ret orig
        | inl (Dir _) => map_prefixes fsys orig prefix' parts'
        | inl _ => ret ErrNotExist
        end
  end.

Definition mapOpenError (fsys : FS) (orig : error) (name : string) : GoM OS error :=
  if is_not_exist orig || is_permission orig then ret orig
  else map_prefixes fsys orig [] (split_slash name).

(** [http.FS(fsys).Open] *)
Definition http_FS (fsys : FS) : FS := λ name,
  let name := if decide (name = "/") then "." else TrimPrefix_slash name in
  f <- try (fsys name) ;;
  match f with
  | inl f => ret f
  | inr e => e' <- mapOpenError fsys e name ;; throw e'
  end.

(** ** [FileServer] *)

Definition toHTTPError (e : error) : string * Z :=
  if is_not_exist e then ("404 page not found", 404%Z)
  else if is_permission e then ("403 Forbidden", 403%Z)
  else ("500 Internal Server Error", 500%Z).

Definition conditional_headers : list string :=
  ["Range"; "If-Match"; "If-None-Match"; "If-Modified-Since"; "If-Unmodified-Since"; "If-Range"].

(** A request for a part of a file or for a changed file only. *)
Definition conditional (r : Request) : bool :=
  existsb (λ k, bool_decide (is_Some (rHeader r !! k))) conditional_headers.

(** How [http.ServeContent] answers conditional requests, and what is answered
    for a directory, which the file system of this program never opens. *)
Class ContentServer := {
  serve_conditional : Header → Request → string → Response;
  serve_directory : Header → Request → path → GoM OS Response
}.

Section Serving.
Context {CC : ContentServer}.

Definition serveContent (h : Header) (r : Request) (data : string) : Response :=
  if conditional r then serve_conditional h r data
  else mkResponse 200 (<["Accept-Ranges" := "bytes"]> h)
         (if decide (Method r = "HEAD") then "" else data).

Definition serveFile (h : Header) (r : Request) (fsys : FS) (name : string) : GoM OS Response :=
  if HasSuffix (uPath (rURL r)) "/index.html" then ret (redirect "./" h r)
  else
    opened <- try (f <- fsys name ;; d <- file_Stat f.1 f.2 ;; ret (f.1, d)) ;;
    let url := uPath (rURL r) in
    match opened with
    | inr e => let '(msg, code) := toHTTPError e in ret (http_Error msg code h)
    | inl (p, Dir _) =>
        if negb (ends_in_slash url) then ret (redirect (path_Base url +:+ "/") h r)
        else serve_directory h r p
    | inl (_, n) =>
        if ends_in_slash url then
          let base := path_Base url in
          if decide (base = "/" ∨ base = ".")
          then ret (http_Error "http: attempting to traverse a non-directory" 500 h)
          else ret (redirect ("../" +:+ base) h r)
        else ret (serveContent h r (match n with File _ data => data | _ => "" end))
    end.

Definition FileServer (fsys : FS) : Handler := λ h r,
  let u := rURL r in
  let upath := if is_rooted (uPath u) then uPath u else String "/" (uPath u) in
  serveFile h (set_url (mkURL (uScheme u) (uHost u) upath (uRawPath u)) r)
    (http_FS fsys) (path_Clean upath).
End Serving.
