(* ===== verification/StorageServer.v ===== *)
(** The HTTP side of the storage ([internal/storage/localdir.go]): the handler
    that serves the files below [RootDir] under the path of [RootURL]. *)
From Stdlib Require Import Ascii.
From S2P Require Import Prelude GoPath Url OsFS OsLemmas Storage Http.

(** [gzhttp.GzipHandler] (klauspost/compress): compresses the response of a
    handler when the client accepts it; [decoded] is the body after undoing the
    content encoding. *)
Class GzipLib := {
  gzip : Request → Response → Response;
  decoded : Response → string;
  gzip_Code r rs : Code (gzip r rs) = Code rs;
  gzip_Type r rs : sHeader (gzip r rs) !! "Content-Type" = sHeader rs !! "Content-Type";
  gzip_decoded r rs : sHeader rs !! "Content-Encoding" = None → decoded (gzip r rs) = Body rs
}.

Definition GzipHandler {GZ : GzipLib} (handler : Handler) : Handler := λ h r,
  rs <- handler h r ;; ret (gzip r rs).

(** [filesOnlyFilesystem.Open]: only regular files can be opened. Closing a file
    has no effect here. *)
Definition filesOnlyFilesystem_Open (fsys : FS) : FS := λ name,
  file <- fsys name ;;
  stat <- file_Stat file.1 file.2 ;;
  match stat with
  | File _ _ => ret file
  | _ => throw ErrNotExist
  end.

Section Handler.
Context {CC : ContentServer} {GZ : GzipLib}.

Definition StorageServerHandler (s : LocalDirV1.t) : Handler :=
  let fsHandler := FileServer (filesOnlyFilesystem_Open (DirFS (LocalDirV1.RootDir s))) in
  let spHandler := StripPrefix (uPath (LocalDirV1.RootURL s)) fsHandler in
  let gzHandler := GzipHandler spHandler in
  let typeHandler h r := gzHandler (<["Content-Type" := "application/jsonl"]> h) r in
  mux_Handle (uPath (LocalDirV1.RootURL s)) typeHandler.
End Handler.

(** * Reading the tree *)

(** A computation that only reads the tree [m], never panics, and whose result
    satisfies [Φ]. *)
Definition reader {A : Type} (m : fsT) (Φ : A → Prop) (c : GoM OS A) : Prop :=
  ∀ w, os_fs w = m →
    os_fs (c w).2 = m ∧ match (c w).1 with Ok a => Φ a | Panic _ => False | _ => True end.

Lemma reader_ret {A : Type} m (Φ : A → Prop) a : Φ a → reader m Φ (ret a).
Proof. by intros H w. Qed.

Lemma reader_throw {A : Type} m (Φ : A → Prop) e : reader m Φ (throw e).
Proof. by intros w. Qed.

Lemma reader_bind {A B : Type} m (Φ : A → Prop) (Ψ : B → Prop) (c : GoM OS A) (k : A → GoM OS B) :
  reader m Φ c → (∀ a, Φ a → reader m Ψ (k a)) → reader m Ψ (bind c k).
Proof.
  intros Hc Hk w Hw. destruct (Hc w Hw) as [Hm Ha]. unfold bind.
  destruct (c w) as [[a|e|msg|] w1]; simpl in *; try done. by apply Hk.
Qed.

Lemma reader_try {A : Type} m (Φ : A → Prop) (c : GoM OS A) :
  reader m Φ c → reader m (λ r, match r with inl a => Φ a | inr _ => True end) (try c).
Proof.
  intros Hc w Hw. destruct (Hc w Hw) as [Hm Ha]. unfold try.
  by destruct (c w) as [[a|e|msg|] w1].
Qed.

Lemma reader_sys {A : Type} op p (f : fsT → errno + A * fsT) m (Φ : A → Prop) :
  (∀ a m', f m = inr (a, m') → m' = m ∧ Φ a) → reader m Φ (sys op p f).
Proof.
  intros Hf w <-. unfold sys, pop_fault. destruct (os_faults w) as [|[| |] l]; simpl; try done;
    destruct (f (os_fs w)) as [en|[a m']] eqn:E; simpl; try done; by apply Hf.
Qed.

Lemma reader_weaken {A : Type} m (Φ Ψ : A → Prop) (c : GoM OS A) :
  (∀ a, Φ a → Ψ a) → reader m Φ c → reader m Ψ c.
Proof.
  intros H Hc w Hw. destruct (Hc w Hw) as [Hm Ha]. split; [done|].
  destruct (c w).1; auto.
Qed.

(** * Answers come from regular files below the root *)

(** An open file of [m] that was found by a path below [dir]. *)
Definition node_below (dir : path) (m : fsT) (f : path * node) : Prop :=
  dir `suffix_of` f.1 ∧ path_ok f.1 ∧ leads m f.1 = inr f.2.

Definition file_below (dir : path) (m : fsT) (f : path * node) : Prop :=
  node_below dir m f ∧ ∃ md d, f.2 = File md d.

Lemma fpath_below dir name : is_rooted dir = true → ValidPath name = true →
  fpath dir `suffix_of` fpath (dir +:+ String "/" name).
Proof.
  intros Hd [_ Hv]%andb_true_iff. unfold fpath, clean_stack.
  rewrite split_slash_app, foldl_app. apply orb_true_iff in Hv as [Hv%bool_decide_eq_true|Hv].
  { subst. done. }
  rewrite (clean_foldl_ok _ _ (split_slash name)); [by eexists|]. rewrite forallb_forall in Hv.
  pose proof (split_slash_all_free name) as Hf. rewrite Forall_forall in *.
  intros e He. specialize (Hf e He). apply list_elem_of_In in He. specialize (Hv e He).
  apply andb_true_iff in Hv as [[Hne Hd1]%andb_true_iff Hd2].
  apply negb_true_iff in Hd1, Hd2. apply bool_decide_eq_false in Hd1, Hd2.
  split_and!; try done. by destruct e.
Qed.

Lemma reader_DirFS dir m name :
  is_rooted dir = true → reader m (node_below (fpath dir) m) (DirFS dir name).
Proof.
  intros Hd. unfold DirFS. destruct (ValidPath name) eqn:Hv; [|apply reader_throw].
  destruct (not_empty dir && negb (has_nul name)) eqn:E; simpl; rewrite E; [|apply reader_throw].
  eapply (reader_bind _ (λ n, leads m (fpath (dir +:+ String "/" name)) = inr n)).
  - apply reader_sys. intros n m' H. destruct (leads m _) as [en|n'] eqn:F; [done|].
    destruct n' as [md|md d| |]; try destruct (can_r md); by simplify_eq.
  - intros n Hn. apply reader_ret. split; [by apply fpath_below|]. split; [apply fpath_ok|done].
Qed.

Lemma reader_filesOnly fsys dir m name :
  reader m (node_below dir m) (fsys name) →
  reader m (file_below dir m) (filesOnlyFilesystem_Open fsys name).
Proof.
  intros H. eapply reader_bind; [exact H|]. intros [p n] Hn.
  eapply (reader_bind _ (λ n', n' = n)).
  - apply reader_sys. by intros ? ? [= <- <-].
  - intros ? ->. simpl. destruct n as [|md d| |]; try apply reader_throw. apply reader_ret. split; eauto.
Qed.

Lemma reader_map_prefixes fsys dir m orig prefix parts :
  (∀ name, reader m (file_below dir m) (fsys name)) →
  reader m (λ _, True) (map_prefixes fsys orig prefix parts).
Proof.
  intros H. revert prefix. induction parts as [|part parts IH]; intros prefix; simpl; [by apply reader_ret|].
  destruct (not_empty part); simpl; [|apply IH].
  eapply (reader_bind _ (λ _, True)).
  - eapply reader_weaken; [|apply reader_try; eapply reader_bind; [apply H|]]; [done|].
    intros f _. apply (reader_sys _ _ _ _ (λ _, True)). by intros ? ? [= <- <-].
  - intros [[]|] _; by first [apply IH|apply reader_ret].
Qed.

Lemma reader_http_FS fsys dir m name :
  (∀ name, reader m (file_below dir m) (fsys name)) →
  reader m (file_below dir m) (http_FS fsys name).
Proof.
  intros H. unfold http_FS. set (name' := if decide _ then _ else _).
  eapply reader_bind; [apply reader_try, H|]. intros [f|e] Hf; [by apply reader_ret|].
  eapply (reader_bind _ (λ _, True)); [|intros; apply reader_throw].
  unfold mapOpenError. destruct (is_not_exist e || is_permission e); [by apply reader_ret|].
  by eapply reader_map_prefixes.
Qed.

Section Answers.
Context {CC : ContentServer} {GZ : GzipLib}.

(** Redirects and errors. *)
Definition refusals : list Z := [301; 400; 403; 404; 500]%Z.

(** An answer is a refusal, or what [http.ServeContent] makes of a regular file
    below [dir]. *)
Definition file_answer (dir : path) (m : fsT) (h : Header) (r : Request) (rs : Response) : Prop :=
  Code rs ∈ refusals ∨
  ∃ q md d u, dir `suffix_of` q ∧ path_ok q ∧ leads m q = inr (File md d) ∧
    rs = serveContent h (set_url u r) d.

Lemma refusal dir m h r rs : Code rs ∈ refusals → file_answer dir m h r rs.
Proof. by left. Qed.

Lemma error_refusal e h : let '(msg, code) := toHTTPError e in Code (http_Error msg code h) ∈ refusals.
Proof.
  unfold toHTTPError, refusals. destruct (is_not_exist e); [|destruct (is_permission e)]; simpl; set_solver.
Qed.

Lemma reader_serveFile fsys dir m h r u name :
  reader m (file_below dir m) (fsys name) →
  reader m (file_answer dir m h r) (serveFile h (set_url u r) fsys name).
Proof.
  intros H. unfold serveFile. cbn [rURL set_url].
  destruct (HasSuffix (uPath u) "/index.html").
  { apply reader_ret, refusal. unfold refusals. simpl. set_solver. }
  eapply reader_bind.
  { eapply reader_try, (reader_bind _ _ (file_below dir m)); [exact H|]. intros [p n] Hn.
    eapply (reader_bind _ (λ n', n' = n)); [apply reader_sys; by intros ? ? [= <- <-]|].
    intros ? ->. by apply reader_ret. }
  intros [[p n]|e]; simpl.
  - intros [(Hp & Hok & Hm) (md & d & Hn)]. simpl in *. subst n.
    destruct (ends_in_slash (uPath u)); [case_decide|]; apply reader_ret;
      try (apply refusal; unfold refusals; simpl; set_solver).
    right. exists p, md, d, u. done.
  - intros _. pose proof (error_refusal e h) as He. destruct (toHTTPError e) as [msg code].
    by apply reader_ret, refusal.
Qed.

Lemma reader_FileServer fsys dir m h r u :
  (∀ name, reader m (file_below dir m) (fsys name)) →
  reader m (file_answer dir m h r) (FileServer fsys h (set_url u r)).
Proof. intros H. unfold FileServer. apply (reader_serveFile _ dir m h r). by apply reader_http_FS. Qed.

Lemma reader_StripPrefix prefix handler dir m h r :
  (∀ u, reader m (file_answer dir m h r) (handler h (set_url u r))) →
  reader m (file_answer dir m h r) (StripPrefix prefix handler h r).
Proof.
  intros H. unfold StripPrefix. destruct (not_empty prefix); simpl.
  - destruct (TrimPrefix (uPath (rURL r)) prefix) as [p|];
      [destruct (if not_empty _ then _ else _) as [rp|]|]; [apply H|..];
      apply reader_ret, refusal; unfold refusals; simpl; set_solver.
  - destruct r as [me u q he]. apply (H u).
Qed.

(** The answer of the whole handler: the files are compressed. *)
Definition server_answer (s : LocalDirV1.t) (m : fsT) (h : Header) (r : Request) (rs : Response) : Prop :=
  Code rs ∈ refusals ∨
  ∃ q md d u, LocalDirV1.root s `suffix_of` q ∧ path_ok q ∧ leads m q = inr (File md d) ∧
    rs = gzip r (serveContent (<["Content-Type" := "application/jsonl"]> h) (set_url u r) d).

Lemma reader_handler s m h r :
  is_rooted (LocalDirV1.RootDir s) = true →
  reader m (server_answer s m h r) (StorageServerHandler s h r).
Proof.
  intros Hd. unfold StorageServerHandler, mux_Handle.
  case_decide; [apply reader_ret; left; unfold refusals; simpl; set_solver|].
  repeat match goal with |- reader _ _ (if ?b then _ else _) => destruct b end;
    try (apply reader_ret; left; unfold refusals; simpl; set_solver).
  unfold GzipHandler. eapply reader_bind.
  - apply reader_StripPrefix. intros u. apply reader_FileServer. intros name.
    by apply reader_filesOnly, reader_DirFS.
  - intros rs [Hrs|(q & md & d & u & Hq & Hok & Hm & ->)]; apply reader_ret; [left; by rewrite gzip_Code|].
    right. by exists q, md, d, u.
Qed.
End Answers.
