(* ===== verification/StorageRequests.v ===== *)
(** Requests to the storage server: a request for a plain path reaches the file
    with that path below [RootDir]. *)
From Stdlib Require Import Ascii.
From S2P Require Import Prelude GoPath Url OsFS OsLemmas Storage Http StorageServer.

(** * A request for a plain path *)

(** The handler is mounted at the path with elements [ps], which need no
    encoding, as [cmd/manager] sets it up. *)
Definition mounted_at (s : LocalDirV1.t) (ps : list string) : Prop :=
  ps ≠ [] ∧ Forall elem_ok ps ∧ Forall (λ w, plain w = true) ps ∧
  uPath (LocalDirV1.RootURL s) = render true ps +:+ "/".

(** A request for the file with elements [cs] below the mount point, for all of
    it and not only for a part. *)
Definition asks_for (ps cs : list string) (r : Request) : Prop :=
  uPath (rURL r) = render true (ps ++ cs) ∧ uRawPath (rURL r) = "" ∧ conditional r = false.

Definition plain_names (cs : list string) : Prop :=
  cs ≠ [] ∧ Forall elem_ok cs ∧ Forall (λ w, plain w = true) cs ∧ last cs ≠ Some "index.html".

Lemma elem_ok_free cs : Forall elem_ok cs → Forall (λ w, slash_free w = true) cs.
Proof. intros H. eapply Forall_impl; [exact H|]. by intros ? (_ & _ & _ & ?). Qed.

Lemma split_render cs : cs ≠ [] → Forall elem_ok cs → split_slash (render true cs) = "" :: cs.
Proof. intros Hn Hc. simpl. by rewrite split_join_free by (done || by apply elem_ok_free). Qed.

Lemma ends_in_slash_app a b : b ≠ "" → ends_in_slash (a +:+ b) = ends_in_slash b.
Proof.
  intros Hb. unfold ends_in_slash.
  assert (String.list_ascii_of_string (a +:+ b)
          = String.list_ascii_of_string a ++ String.list_ascii_of_string b) as ->.
  { induction a as [|c a IH]; [done|].
    change (String c a +:+ b) with (String c (a +:+ b)). simpl. by rewrite IH. }
  rewrite reverse_app. destruct (reverse (String.list_ascii_of_string b)) eqn:E; [|done].
  exfalso. apply (f_equal reverse) in E. rewrite reverse_involutive in E. by destruct b.
Qed.

Lemma ends_in_slash_join cs : Forall elem_ok cs → ends_in_slash (join_slash cs) = false.
Proof.
  induction 1 as [|c cs Hc Hcs IH]; [done|]. destruct Hc as (Hne & _ & _ & Hf).
  destruct cs as [|c' cs]; [by apply ends_in_slash_free|].
  rewrite join_slash_app by done. rewrite ends_in_slash_app by done.
  change (String "/" (join_slash (c' :: cs))) with ("/" +:+ join_slash (c' :: cs)).
  rewrite ends_in_slash_app; [done|]. inversion_clear Hcs as [|?? Hc' _]. destruct Hc' as (Hne' & _).
  destruct cs; [done|]. by destruct c'.
Qed.

Lemma ends_in_slash_render cs : cs ≠ [] → Forall elem_ok cs → ends_in_slash (render true cs) = false.
Proof.
  intros Hn Hc. simpl. change (String "/" (join_slash cs)) with ("/" +:+ join_slash cs).
  rewrite ends_in_slash_app; [by apply ends_in_slash_join|].
  destruct Hc as [|c cs Hc Hcs]; [done|]. destruct Hc as (Hne & _). destruct cs; [done|]. by destruct c.
Qed.

Lemma path_Clean_render cs : Forall elem_ok cs → path_Clean (render true cs) = render true cs.
Proof.
  intros Hc. unfold path_Clean, path_comps. simpl is_rooted. f_equal.
  assert (normal true (reverse cs)) as Hn.
  { exists (reverse cs), 0. rewrite app_nil_r. split_and!; try done. by apply Forall_reverse. }
  apply clean_render in Hn. rewrite reverse_involutive in Hn. cbn [is_rooted is_slash render] in *.
  simpl in Hn |- *. by rewrite Hn, reverse_involutive.
Qed.

Lemma plain_render cs : Forall (λ w, plain w = true) cs → plain (render true cs) = true.
Proof. intros H. unfold render. rewrite plain_cons. simpl. by apply plain_join. Qed.

Lemma mux_match_mount s ps cs :
  mounted_at s ps → cs ≠ [] → Forall elem_ok cs → Forall (λ w, plain w = true) cs →
  mux_match (uPath (LocalDirV1.RootURL s)) (render true (ps ++ cs)) = true.
Proof.
  intros (Hn & Hp & Hpl & ->) Hc Hco Hcp. unfold mux_match, segments.
  rewrite ends_in_slash_app by done. change (ends_in_slash "/") with true. cbn iota.
  rewrite split_slash_app. rewrite !split_render by (try (by destruct ps); by rewrite ?Forall_app).
  simpl tail. rewrite removelast_last. apply andb_true_iff.
  assert (map pathUnescape (ps ++ cs) = ps ++ cs) as ->.
  { rewrite <-(map_id (ps ++ cs)) at 2. apply map_ext_in. intros e He.
    unfold pathUnescape. rewrite unescape_plain; [done|].
    assert (Hall : Forall (λ w, plain w = true) (ps ++ cs)) by by rewrite Forall_app.
    rewrite Forall_forall in Hall. by apply Hall, list_elem_of_In. }
  split.
  - apply bool_decide_eq_true. by exists cs.
  - apply Nat.ltb_lt. rewrite length_app. destruct cs; [done|]. simpl. lia.
Qed.

Lemma TrimPrefix_app p s : TrimPrefix (p +:+ s) p = Some s.
Proof.
  induction p as [|c p IH]; [by destruct s|]. change (String c p +:+ s) with (String c (p +:+ s)).
  cbn [TrimPrefix]. rewrite Ascii.eqb_refl. exact IH.
Qed.

Lemma render_app ps cs : ps ≠ [] → cs ≠ [] →
  render true (ps ++ cs) = (render true ps +:+ "/") +:+ join_slash cs.
Proof.
  intros Hp Hc. simpl. change (String "/" (join_slash (ps ++ cs))) with ("/" +:+ join_slash (ps ++ cs)).
  change (String "/" (join_slash ps)) with ("/" +:+ join_slash ps). rewrite !string_app_assoc. f_equal.
  clear - Hp Hc. induction ps as [|p ps IH]; [done|]. destruct ps as [|p' ps]; simpl app.
  - by rewrite join_slash_app.
  - rewrite (join_slash_app p (p' :: ps ++ cs)), (join_slash_app p (p' :: ps)) by done.
    rewrite string_app_assoc. f_equal.
    change (String "/" (join_slash (p' :: ps ++ cs))) with ("/" +:+ join_slash (p' :: ps ++ cs)).
    change (String "/" (join_slash (p' :: ps))) with ("/" +:+ join_slash (p' :: ps)).
    rewrite string_app_assoc. f_equal. by apply IH.
Qed.

(** Plain text is ASCII without control characters. *)
Lemma plain_char c : shouldEscapePath c = false → utf8_start (nat_of_ascii c) = Some [] ∧ Ascii.eqb c (ascii_of_nat 0) = false.
Proof. destruct c as [[] [] [] [] [] [] [] []]; vm_compute; done. Qed.

Lemma plain_utf8 s : plain s = true → utf8_ValidString s = true ∧ has_nul s = false.
Proof.
  unfold utf8_ValidString, has_nul. induction s as [|c s IH]; [done|].
  rewrite plain_cons. intros [Hc%negb_true_iff Hs]%andb_true_iff.
  destruct (plain_char c Hc) as [Hu Hz]. destruct (IH Hs) as [IHu IHz]. simpl.
  by rewrite Hu, Hz.
Qed.

Lemma ValidPath_join cs : cs ≠ [] → Forall elem_ok cs → Forall (λ w, plain w = true) cs →
  ValidPath (join_slash cs) = true ∧ has_nul (join_slash cs) = false.
Proof.
  intros Hn Hc Hp. destruct (plain_utf8 (join_slash cs)) as [Hu Hz]; [by apply plain_join|].
  split; [|done]. unfold ValidPath. rewrite Hu. simpl. apply orb_true_iff. right.
  rewrite split_join_free by (done || by apply elem_ok_free). apply forallb_forall.
  intros e He%list_elem_of_In. rewrite Forall_forall in Hc. destruct (Hc e He) as (He1 & He2 & He3 & _).
  rewrite !bool_decide_false by done. by destruct e.
Qed.

Lemma fpath_join_names dir cs : cs ≠ [] → Forall elem_ok cs →
  fpath (dir +:+ String "/" (join_slash cs)) = reverse cs ++ fpath dir.
Proof.
  intros Hn Hc. unfold fpath, clean_stack. rewrite split_slash_app, foldl_app.
  rewrite (split_join_free cs) by (done || by apply elem_ok_free). by rewrite clean_foldl_ok.
Qed.

Lemma string_list_app a b : String.list_ascii_of_string (a +:+ b)
  = String.list_ascii_of_string a ++ String.list_ascii_of_string b.
Proof.
  induction a as [|c a IH]; [done|]. change (String c a +:+ b) with (String c (a +:+ b)). simpl. by rewrite IH.
Qed.

Lemma HasSuffix_inv s p : HasSuffix s p = true → ∃ x, s = x +:+ p.
Proof.
  intros [k Hk]%bool_decide_eq_true. exists (String.string_of_list_ascii (reverse k)).
  rewrite <-(String.string_of_list_ascii_of_string s). 
  rewrite <-(String.string_of_list_ascii_of_string (String.string_of_list_ascii (reverse k) +:+ p)).
  f_equal. rewrite string_list_app, String.list_ascii_of_string_of_list_ascii.
  apply (f_equal reverse) in Hk. rewrite reverse_app, !reverse_involutive in Hk. done.
Qed.

Lemma no_index cs : plain_names cs → HasSuffix (render true cs) "/index.html" = false.
Proof.
  intros (Hn & Hc & _ & Hl). apply not_true_iff_false. intros [x Hx]%HasSuffix_inv.
  apply (f_equal split_slash) in Hx. rewrite split_render in Hx by done.
  change (x +:+ "/index.html") with (x +:+ String "/" "index.html") in Hx.
  rewrite split_slash_app in Hx. change (split_slash "index.html") with ["index.html"] in Hx.
  apply (f_equal last) in Hx. rewrite last_snoc in Hx. by destruct cs.
Qed.

Section Requests.
Context {CC : ContentServer} {GZ : GzipLib}.
Implicit Types (s : LocalDirV1.t).

Definition storage_fs s : FS := filesOnlyFilesystem_Open (DirFS (LocalDirV1.RootDir s)).
Definition jsonl (h : Header) : Header := <["Content-Type" := "application/jsonl"]> h.

(** The request reaches the file server with the path of the file. *)
Lemma handler_asks s ps cs h r w :
  mounted_at s ps → plain_names cs → asks_for ps cs r →
  StorageServerHandler s h r w =
  bind (serveFile (jsonl h)
          (set_url (mkURL (uScheme (rURL r)) (uHost (rURL r)) (render true cs) "") r)
          (http_FS (storage_fs s)) (render true cs)) (λ rs, ret (gzip r rs)) w.
Proof.
  intros Hm (Hcn & Hc & Hcp & Hidx) (Hp & Hraw & _).
  pose proof Hm as (Hn & Hps & Hpp & Hroot).
  assert (Hall : Forall elem_ok (ps ++ cs)) by by rewrite Forall_app.
  assert (Hallp : Forall (λ x, plain x = true) (ps ++ cs)) by by rewrite Forall_app.
  assert (Hne : ps ++ cs ≠ []) by by destruct ps.
  assert (He : EscapedPath (rURL r) = render true (ps ++ cs)).
  { rewrite EscapedPath_plain; rewrite ?Hp; [done..|by apply plain_render]. }
  assert (Hcl : cleanPath (render true (ps ++ cs)) = render true (ps ++ cs)).
  { unfold cleanPath. change (not_empty (render true (ps ++ cs))) with true.
    change (is_rooted (render true (ps ++ cs))) with true. cbn [negb]. cbv zeta.
    by rewrite path_Clean_render, ends_in_slash_render. }
  unfold StorageServerHandler, mux_Handle. rewrite He, Hcl.
  rewrite decide_False by (rewrite Hp; discriminate).
  assert ((if bool_decide (Method r = "CONNECT") then render true (ps ++ cs) else render true (ps ++ cs))
          = render true (ps ++ cs)) as -> by by case_bool_decide.
  unfold mux_slash. rewrite (mux_match_mount s ps cs) by done. cbn [negb andb].
  rewrite (bool_decide_true (render true (ps ++ cs) = _)) by done. rewrite andb_false_r.
  unfold GzipHandler. f_equal. unfold StripPrefix. rewrite Hroot.
  cbn [not_empty render negb]. fold (render true ps).
  rewrite Hp, Hraw. cbn [not_empty]. rewrite render_app, TrimPrefix_app by done.
  unfold FileServer. cbn [rURL set_url uPath uScheme uHost uRawPath].
  assert (is_rooted (join_slash cs) = false) as ->.
  { destruct Hc as [|c cs' (Hc1 & _ & _ & Hc2) _]; [done|].
    destruct cs'; [by apply slash_free_not_rooted|]. simpl.
    rewrite is_rooted_app by done. by apply slash_free_not_rooted. }
  change (String "/" (join_slash cs)) with (render true cs).
  by rewrite path_Clean_render.
Qed.

(** Where no link is in the way, the search finds the node with that path. *)
Lemma leads_names s cs m res :
  plain_names cs → find_node m (reverse cs ++ LocalDirV1.root s) = res →
  match res with inl ELOOP | inr (Symlink _) => False | _ => True end →
  leads m (reverse cs ++ LocalDirV1.root s) = res.
Proof.
  intros (_ & Hc & _) Hf Hres. pose proof (leads_find m (reverse cs ++ LocalDirV1.root s)) as H.
  rewrite Hf in H. destruct res as [[]|[]]; try done; apply H, Forall_app;
    (split; [by apply Forall_reverse|apply fpath_ok]).
Qed.

(** Opening a plain name when nothing fails. *)
Lemma storage_fs_calm s cs w :
  is_rooted (LocalDirV1.RootDir s) = true → no_faults w → plain_names cs →
  let q := reverse cs ++ LocalDirV1.root s in
  storage_fs s (join_slash cs) w =
  (match leads (os_fs w) q with
   | inl en => Err (ErrErrno "open" q en)
   | inr (File md d) => if can_r md then Ok (q, File md d) else Err (ErrErrno "open" q EACCES)
   | inr (Dir md) => if can_r md then Err ErrNotExist else Err (ErrErrno "open" q EACCES)
   | inr (Symlink _) => Err (ErrErrno "open" q ELOOP)
   | inr Special => Err ErrNotExist
   end, w).
Proof.
  intros Hr Hw (Hn & Hc & Hp & _) q. unfold storage_fs, filesOnlyFilesystem_Open, DirFS.
  destruct (ValidPath_join cs Hn Hc Hp) as [-> ->].
  assert (not_empty (LocalDirV1.RootDir s) = true) as -> by by destruct (LocalDirV1.RootDir s).
  rewrite fpath_join_names by done. cbn [andb negb]. unfold LocalDirV1.root in q. fold q.
  unfold bind, os_Open. rewrite !sys_calm by done.
  destruct (leads (os_fs w) q) as [en|[md|md d| |]]; try destruct (can_r md); try done;
    rewrite set_fs_id; cbn; unfold file_Stat; rewrite sys_calm by done; by rewrite set_fs_id.
Qed.

Lemma http_FS_calm s cs w :
  is_rooted (LocalDirV1.RootDir s) = true → no_faults w → plain_names cs →
  http_FS (storage_fs s) (render true cs) w =
  match storage_fs s (join_slash cs) w with
  | (Err e, w') => bind (mapOpenError (storage_fs s) e (join_slash cs)) throw w'
  | r => r
  end.
Proof.
  intros Hr Hw (Hn & Hc & _). unfold http_FS.
  assert (render true cs ≠ "/") as Hne.
  { intros H. apply (f_equal split_slash) in H. rewrite split_render in H by done.
    destruct Hc as [|c cs (Hc & _) _]; [done|]. injection H as ->. done. }
  rewrite decide_False by done. unfold bind at 1, try. cbn [render TrimPrefix_slash].
  change (is_slash "/") with true. cbn iota.
  by destruct (storage_fs s (join_slash cs) w) as [[a|e|msg|] w'].
Qed.

(** * Regular files are served, others are not found *)

Lemma serve_regular s ps cs h r w md d :
  is_rooted (LocalDirV1.RootDir s) = true → mounted_at s ps → plain_names cs → asks_for ps cs r →
  no_faults w → find_node (os_fs w) (reverse cs ++ LocalDirV1.root s) = inr (File md d) →
  can_r md = true →
  StorageServerHandler s h r w =
  (Ok (gzip r (mkResponse 200 (<["Accept-Ranges" := "bytes"]> (jsonl h))
                 (if decide (Method r = "HEAD") then "" else d))), w).
Proof.
  intros Hr Hm Hcs Ha Hw Hf Hmd. rewrite (handler_asks s ps cs) by done.
  unfold serveFile. cbn [rURL set_url uPath]. rewrite no_index by done.
  unfold bind at 1 2. unfold try. unfold bind at 1.
  rewrite http_FS_calm, storage_fs_calm, (leads_names s cs _ _ Hcs Hf), Hmd by done. cbn [fst snd].
  unfold bind, file_Stat. rewrite sys_calm by done. rewrite set_fs_id. cbn [ret].
  destruct Hcs as (Hn & Hc & _). rewrite ends_in_slash_render by done. unfold serveContent.
  destruct Ha as (_ & _ & Hcond). unfold conditional in *. cbn [rHeader set_url]. by rewrite Hcond.
Qed.

Lemma serve_missing s ps cs h r w :
  is_rooted (LocalDirV1.RootDir s) = true → mounted_at s ps → plain_names cs → asks_for ps cs r →
  no_faults w →
  match find_node (os_fs w) (reverse cs ++ LocalDirV1.root s) with
  | inl ENOENT | inr Special => True
  | inr (Dir md) => can_r md = true
  | _ => False
  end →
  StorageServerHandler s h r w = (Ok (gzip r (NotFound (jsonl h))), w).
Proof.
  intros Hr Hm Hcs Ha Hw Hf. rewrite (handler_asks s ps cs) by done.
  unfold serveFile. cbn [rURL set_url uPath]. rewrite no_index by done.
  unfold bind at 1 2. unfold try. unfold bind at 1.
  rewrite http_FS_calm, storage_fs_calm by done.
  rewrite (leads_names s cs _ _ Hcs eq_refl) by by destruct (find_node _ _) as [[]|[]].
  destruct (find_node _ _) as [en|[md|md d| |]]; try done; [destruct en; done|..]; by rewrite ?Hf.
Qed.

(** A path that leads through a regular file is an internal error, unless that
    file lies directly in [RootDir]. *)
Lemma serve_below_file s ps c cs h r w n :
  is_rooted (LocalDirV1.RootDir s) = true → mounted_at s ps → plain_names (c :: cs) →
  plain_names [c] → asks_for ps (c :: cs) r → no_faults w →
  find_node (os_fs w) (reverse (c :: cs) ++ LocalDirV1.root s) = inl ENOTDIR →
  find_node (os_fs w) (c :: LocalDirV1.root s) = inr n → (∀ md d, n ≠ File md d) → is_link n = false →
  StorageServerHandler s h r w = (Ok (gzip r (http_Error "500 Internal Server Error" 500 (jsonl h))), w).
Proof.
  intros Hr Hm Hcs Hc1 Ha Hw Hf Hn Hnf Hnl. rewrite (handler_asks s ps (c :: cs)) by done.
  unfold serveFile. cbn [rURL set_url uPath]. rewrite no_index by done.
  unfold bind at 1 2. unfold try. unfold bind at 1.
  rewrite http_FS_calm, storage_fs_calm, (leads_names s (c :: cs) _ _ Hcs Hf) by done.
  unfold bind at 1. unfold mapOpenError. cbn [is_not_exist is_permission orb].
  pose proof Hcs as (_ & Hco & _). rewrite split_join_free by (done || by apply elem_ok_free).
  cbn [map_prefixes]. assert (not_empty c = true) as ->.
  { destruct Hc1 as (_ & Hc1 & _). apply Forall_cons in Hc1 as [(Hne & _) _]. by destruct c. }
  cbn [negb app join_slash]. unfold bind at 1. unfold try. unfold bind at 1.
  pose proof (storage_fs_calm s [c] w Hr Hw Hc1) as Ho. simpl in Ho.
  pose proof (leads_names s [c] _ _ Hc1 Hn) as Hl. simpl in Hl. rewrite Ho, Hl by by destruct n.
  destruct n as [md|md d| |]; try destruct (can_r md); try done. by destruct (Hnf md d).
Qed.

(** The request for the content of a catalog, at the address in its status. *)
Definition asks_for_catalog s (name : string) (r : Request) : Prop :=
  uPath (rURL r) = uPath (JoinPath (LocalDirV1.RootURL s) name) +:+ "/api/v1/all" ∧
  uRawPath (rURL r) = "" ∧ conditional r = false.

Definition catalog_path (name : string) : list string := [name; "api"; "v1"; "all"].

Lemma catalog_names name : elem_ok name → plain name = true → plain_names (catalog_path name).
Proof.
  intros Hn Hp. split; [done|]. split; [|split; [|done]].
  - repeat (apply Forall_cons_2; [done || by apply (bool_decide_unpack _)|]). apply Forall_nil_2.
  - repeat (apply Forall_cons_2; [done|]). apply Forall_nil_2.
Qed.

Lemma mounted_comps s ps : mounted_at s ps → path_comps (uPath (LocalDirV1.RootURL s)) = ps.
Proof.
  intros (Hn & Hp & _ & ->). unfold path_comps. rewrite is_rooted_app by done.
  change (is_rooted (render true ps)) with true.
  change (render true ps +:+ "/") with (render true ps +:+ String "/" ""). rewrite split_slash_app.
  rewrite split_render by done. unfold clean_stack. rewrite foldl_app. simpl.
  rewrite clean_foldl_ok by done. change (clean_step true [] "") with (@nil string).
  rewrite app_nil_r. change (clean_step true (reverse ps) "") with (reverse ps).
  apply reverse_involutive.
Qed.

Lemma asks_catalog s ps name r :
  plain_base (LocalDirV1.RootURL s) → mounted_at s ps → elem_ok name → plain name = true →
  asks_for_catalog s name r → asks_for ps (catalog_path name) r.
Proof.
  intros Hb Hm Hn Hp (Hr & Hraw & Hc). split_and!; try done. rewrite Hr.
  destruct (JoinPath_plain _ _ Hb Hn Hp) as [-> _]. cbn [uPath].
  rewrite (mounted_comps s ps) by done. pose proof Hm as (Hne & _).
  change (catalog_path name) with ([name] ++ ["api"; "v1"; "all"]). rewrite (assoc_L (++)).
  rewrite (render_app (ps ++ [name])) by (done || by destruct ps).
  by rewrite string_app_assoc.
Qed.

Lemma serve_catalog s ps name h r w d :
  LocalDirV1.inv s w → no_faults w → mounted_at s ps → elem_ok name → plain name = true →
  asks_for ps (catalog_path name) r → LocalDirV1.view s (os_fs w) name = Some d →
  StorageServerHandler s h r w =
  (Ok (gzip r (mkResponse 200 (<["Accept-Ranges" := "bytes"]> (jsonl h))
                 (if decide (Method r = "HEAD") then "" else d))), w).
Proof.
  intros [Hr Hs] Hw Hm Hn Hp Ha Hv. unfold LocalDirV1.view in Hv.
  destruct (os_fs w !! LocalDirV1.fbc_file s name) as [[|md d'| |]|] eqn:E; try done. simplify_eq.
  assert (Hsuf : LocalDirV1.root s `suffix_of` LocalDirV1.fbc_file s name).
  { by exists ["all"; "v1"; "api"; name]. }
  eapply (serve_regular s ps (catalog_path name)); try done.
  - by apply catalog_names.
  - apply find_node_Some; [|exact E]. eapply (walk_below _ (LocalDirV1.root s)); eauto; [apply Hs|apply Hs|].
    intros q md' Hq Hmd. by eapply LocalDirV1.sound_dir.
  - by eapply LocalDirV1.sound_file.
Qed.

(** A [GET] of the address of a catalog that is served. *)
Lemma get_catalog s ps name r w d :
  plain_base (LocalDirV1.RootURL s) → mounted_at s ps → LocalDirV1.inv s w → no_faults w →
  elem_ok name → plain name = true → asks_for_catalog s name r → Method r = "GET" →
  LocalDirV1.view s (os_fs w) name = Some d →
  ∃ rs, StorageServerHandler s ∅ r w = (Ok rs, w) ∧
    Code rs = 200%Z ∧ sHeader rs !! "Content-Type" = Some "application/jsonl" ∧ decoded rs = d.
Proof.
  intros Hb Hm Hi Hw Hn Hp Ha Hget Hv. eexists. split.
  { by apply (serve_catalog s ps name _ _ _ d); try done; apply (asks_catalog s). }
  rewrite gzip_Code, gzip_Type, gzip_decoded by done. cbn [Code sHeader Body].
  by rewrite decide_False by (by rewrite Hget).
Qed.
End Requests.
