(* ===== verification/ServerCorrect.v ===== *)
(** The properties of the storage server: what clients get over HTTP. *)
From stdpp Require Import pretty.
From S2P Require Import Prelude GoPath Url OsFS OsLemmas Storage StorageDemo StorageCorrect.
From S2P Require Import Http StorageServer StorageRequests.

Section Correct.
Context {CC : ContentServer} {GZ : GzipLib}.
Implicit Types (s : LocalDirV1.t) (r : Request) (w : OS).

(** C11: Whatever is asked for and whichever system calls fail, the server
    changes nothing, never panics, and its answer is a redirect, an error, or
    made from a regular file that a path below [RootDir] leads to: no request,
    however its path is written or encoded, lists a directory or names a file
    elsewhere. Symbolic links are followed, so that a link in [RootDir] would
    give clients the file it points to; where there is no link in
    [RootDir] or on the way to it, the file lies below [RootDir]. *)
Theorem http_answers_from_files s h r w :
  is_rooted (LocalDirV1.RootDir s) = true →
  let '(o, w') := StorageServerHandler s h r w in
  os_fs w' = os_fs w ∧
  match o with
  | Ok rs =>
      Code rs ∈ [301; 400; 403; 404; 500]%Z ∨
      ∃ q md d u, LocalDirV1.root s `suffix_of` q ∧ leads (os_fs w) q = inr (File md d) ∧
        (link_free (os_fs w) (LocalDirV1.root s) → os_fs w !! q = Some (File md d)) ∧
        rs = gzip r (serveContent (<["Content-Type" := "application/jsonl"]> h) (set_url u r) d)
  | Panic _ => False
  | _ => True
  end.
Proof.
  intros Hr. pose proof (reader_handler s (os_fs w) h r Hr w eq_refl) as H.
  destruct (StorageServerHandler s h r w) as [[rs|e|msg|] w']; try done.
  destruct H as [Hfs [H|(q & md & d & u & Hq & Hok & Hl & ->)]]; [auto|].
  split; [done|right]. exists q, md, d, u. split_and!; try done. intros Hlf. by eapply leads_link_free.
Qed.

(** C8: What is stored is what clients get: after a [Store] without failures, a
    request for the address of the catalog is answered with status 200, the
    JSON lines content type and, once decoded, exactly the concatenated metas
    that were stored. *)
Theorem store_get_roundtrip {FSys : Type} {DC : DeclCfg FSys} s ps name (fsys : FSys) w x rest d r :
  plain_base (LocalDirV1.RootURL s) → mounted_at s ps → plain name = true →
  LocalDirV1.inv s w → elem_ok name → no_faults w → os_rand w = x :: rest →
  os_fs w !! temp_path (LocalDirV1.root s) name x = None →
  LocalDirV1.free_way s (os_fs w) name →
  blobs (walk_events fsys (LocalDirV1.walk_state s name x rest w)) = Some d →
  asks_for_catalog s name r → Method r = "GET" →
  ∃ w' rs, LocalDirV1.Store s name fsys w = (Ok tt, w') ∧
    StorageServerHandler s ∅ r w' = (Ok rs, w') ∧
    Code rs = 200%Z ∧ sHeader rs !! "Content-Type" = Some "application/jsonl" ∧ decoded rs = d.
Proof.
  intros Hb Hm Hp Hi Hn Hw Hr Ht Hf Hd Ha Hget.
  pose proof (LocalDirV1.Store_calm s name fsys w x rest d Hi Hn Hw Hr Ht Hf Hd) as Hst.
  destruct (LocalDirV1.Store_spec s name fsys w _ _ Hi Hn Hst) as (Hi' & _ & _).
  set (w' := set_rand _ _) in *. destruct (get_catalog s ps name r w' d) as (rs & Hrs); try done.
  - unfold LocalDirV1.view. cbn. unfold LocalDirV1.stored_fs. by rewrite lookup_insert_eq.
  - by exists w', rs.
Qed.

(** After a [Delete] without failures, the address of the catalog is not
    found. *)
Theorem deleted_catalog_not_found s ps name w r :
  plain_base (LocalDirV1.RootURL s) → mounted_at s ps → plain name = true →
  LocalDirV1.inv s w → elem_ok name → no_faults w → asks_for_catalog s name r →
  ∃ w' rs, LocalDirV1.Delete s name w = (Ok tt, w') ∧
    StorageServerHandler s ∅ r w' = (Ok rs, w') ∧ Code rs = 404%Z.
Proof.
  intros Hb Hm Hp Hi Hn Hw Ha. pose proof Hi as [Hr Hs].
  pose proof (LocalDirV1.Delete_calm s name w Hi Hn Hw) as Hd.
  destruct (LocalDirV1.Delete_spec s name w _ _ Hi Hn Hd) as (Hi' & _ & _).
  eexists _, _. split; [exact Hd|]. split.
  { apply (serve_missing s ps (catalog_path name)); try done; [by apply catalog_names|by apply (asks_catalog s)|].
    cbn [os_fs set_fs]. set (m' := prune _ _).
    assert (walk m' (LocalDirV1.cat_dir s name) = None) as Hwalk.
    { apply (LocalDirV1.top_reachable s m' name), Hi'. }
    pose proof (find_missing m' _ ["all"; "v1"; "api"] Hwalk) as Hfind.
    unfold LocalDirV1.cat_dir in Hfind. simpl in Hfind |- *. rewrite Hfind; [done|].
    by apply prune_in. }
  by rewrite gzip_Code.
Qed.

(** A regular file that lies directly in [RootDir] is served like any other. *)
Lemma top_file_served s ps x w md d r :
  LocalDirV1.inv s w → no_faults w → mounted_at s ps → elem_ok x → plain x = true →
  x ≠ "index.html" → os_fs w !! (x :: LocalDirV1.root s) = Some (File md d) →
  asks_for ps [x] r → Method r = "GET" →
  ∃ rs, StorageServerHandler s ∅ r w = (Ok rs, w) ∧ Code rs = 200%Z ∧ decoded rs = d.
Proof.
  intros [Hr Hs] Hw Hm Hx Hp Hne Hf Ha Hget. eexists. split.
  { eapply (serve_regular s ps [x]); try done.
    - split; [done|]. split_and!; [by constructor..|]. by intros [= ->].
    - simpl. apply find_node_Some; [|exact Hf]. by apply (LocalDirV1.top_reachable s (os_fs w) x).
    - eapply LocalDirV1.sound_file; [done| |exact Hf]. by apply suffix_cons_r. }
  rewrite gzip_Code, gzip_decoded by done. cbn [Code Body]. by rewrite decide_False by by rewrite Hget.
Qed.

(** C40: Unfinished content is served. [Store] writes to a file directly in
    [RootDir], named after the catalog with a number appended. So there is, for
    every beginning of the list of metas it finds, a moment of its run, at
    which the process may also be killed, when a [GET] of
    [<RootURL>/<catalog><number>] is answered with status 200 and the metas
    written so far, while the catalog itself is still served as before. *)
Theorem unfinished_file_is_served {FSys : Type} {DC : DeclCfg FSys} s ps name (fsys : FSys) w x rest
    evs evs' d d' r :
  let tmp := name +:+ pretty x in
  mounted_at s ps → elem_ok name → elem_ok tmp → plain tmp = true → tmp ≠ "index.html" →
  LocalDirV1.inv s w → no_faults w → os_rand w = x :: rest →
  os_fs w !! temp_path (LocalDirV1.root s) name x = None → LocalDirV1.free_way s (os_fs w) name →
  (∀ l, walk_events fsys (set_faults l (LocalDirV1.walk_state s name x rest w)) = evs ++ evs') →
  blobs evs = Some d → blobs evs' = Some d' →
  asks_for ps [tmp] r → Method r = "GET" →
  ∃ k w' rs, LocalDirV1.Store s name fsys (set_faults (replicate k FNone ++ [FKill]) w) = (Crash, w') ∧
    StorageServerHandler s ∅ r w' = (Ok rs, w') ∧ Code rs = 200%Z ∧ decoded rs = d ∧
    LocalDirV1.view s (os_fs w') name = LocalDirV1.view s (os_fs w) name.
Proof.
  intros tmp Hm Hn Ht Hp Hne Hi Hw Hrand Hfree Hway Hev Hd Hd' Ha Hget.
  destruct (LocalDirV1.Store_killed s name fsys w x rest evs evs' d d') as [k Hk]; try done.
  assert (Hi0 : LocalDirV1.inv s (set_faults (replicate k FNone ++ [FKill]) w)) by exact Hi.
  destruct (LocalDirV1.Store_spec s name fsys _ _ _ Hi0 Hn Hk) as (Hi' & _ & _).
  destruct (LocalDirV1.start_calm s name w x rest) as (_ & _ & _ & _ & Hfile & _); try done.
  match type of Hk with _ = (_, ?w1) => set (w' := w1) in * end.
  destruct (top_file_served s ps tmp w' m0600 d r) as (rs & H & Hc & Hdec); try done.
  { cbn. by rewrite lookup_insert_eq. }
  exists k, w', rs. split_and!; try done. unfold LocalDirV1.view.
  change (os_fs w') with (<[temp_path (LocalDirV1.root s) name x := File m0600 d]>
                            (os_fs (LocalDirV1.walk_state s name x rest w))).
  rewrite lookup_insert_ne; [by rewrite Hfile|]. intros Heq. by eapply LocalDirV1.top_not_served.
Qed.

(** A path below the file of a catalog is answered with status 500 instead
    of 404: [http.FS] would report a path that leads through a regular file as
    not found, but for that it must find the directories above the file, which
    [filesOnlyFilesystem] refuses to open. *)
Theorem path_below_catalog_is_internal_error s ps name x w d r :
  LocalDirV1.inv s w → no_faults w → mounted_at s ps → elem_ok name → plain name = true →
  name ≠ "index.html" → LocalDirV1.view s (os_fs w) name = Some d →
  elem_ok x → plain x = true → x ≠ "index.html" → asks_for ps (catalog_path name ++ [x]) r →
  ∃ rs, StorageServerHandler s ∅ r w = (Ok rs, w) ∧ Code rs = 500%Z.
Proof.
  intros [Hr Hs] Hw Hm Hn Hp Hni Hv Hx Hxp Hxi Ha. unfold LocalDirV1.view in Hv.
  destruct (os_fs w !! LocalDirV1.fbc_file s name) as [[|md d'| |]|] eqn:E; try done. clear Hv.
  assert (Hwalk : walk (os_fs w) (LocalDirV1.fbc_file s name) = None).
  { eapply (walk_below _ (LocalDirV1.root s)); eauto; [apply Hs|apply Hs| |].
    - by exists ["all"; "v1"; "api"; name].
    - intros q md' Hq Hmd. by eapply LocalDirV1.sound_dir. }
  destruct (walk_dirs (os_fs w) _ (LocalDirV1.cat_dir s name) "api" Hwalk) as (mdn & Hdir & _).
  { by exists ["all"; "v1"]. }
  destruct (catalog_names name Hn Hp) as (_ & Hc1 & Hc2 & _).
  eexists. split.
  { eapply (serve_below_file s ps name (["api"; "v1"; "all"] ++ [x])); try done.
    - split; [done|]. split_and!.
      + by apply (Forall_app_2 _ (catalog_path name)); [|constructor].
      + by apply (Forall_app_2 _ (catalog_path name)); [|constructor].
      + by intros [= ->].
    - split; [done|]. split_and!; [by constructor..|]. by intros [= ->].
    - unfold find_node. change (reverse _ ++ LocalDirV1.root s) with (x :: LocalDirV1.fbc_file s name).
      cbn [walk]. rewrite Hwalk, E. done.
    - apply find_node_Some; [|exact Hdir]. by apply (LocalDirV1.top_reachable s (os_fs w) name).
    - done.
    - done. }
  by rewrite gzip_Code.
Qed.
End Correct.

(** * The server at work *)

#[local] Instance demo_content : ContentServer := {|
  serve_conditional h r d := mkResponse 206 h "";
  serve_directory h r p := ret (mkResponse 200 h "listing")
|}.

Definition accepts_gzip (r : Request) : bool := bool_decide (rHeader r !! "Accept-Encoding" = Some "gzip").

Definition demo_gzip_response (r : Request) (rs : Response) : Response :=
  if accepts_gzip r
  then mkResponse (Code rs) (<["Content-Encoding" := "gzip"]> (sHeader rs)) ("gz" +:+ Body rs)
  else rs.

Definition demo_decoded (rs : Response) : string :=
  if decide (sHeader rs !! "Content-Encoding" = Some "gzip")
  then String.substring 2 (String.length (Body rs)) (Body rs) else Body rs.

#[local] Program Instance demo_gzip : GzipLib := {| gzip := demo_gzip_response; decoded := demo_decoded |}.
Next Obligation. intros r rs. unfold demo_gzip_response. by destruct (accepts_gzip r). Qed.
Next Obligation.
  intros r rs. unfold demo_gzip_response. destruct (accepts_gzip r); [|done]. cbn [sHeader].
  by rewrite lookup_insert_ne.
Qed.
Next Obligation.
  intros r rs H. unfold demo_gzip_response, demo_decoded. destruct (accepts_gzip r); cbn [sHeader Body].
  - rewrite lookup_insert_eq, decide_True by done.
    enough (∀ b k, String.substring 0 (k + String.length b) b = b) as Hs.
    { apply (Hs (Body rs) 2). }
    intros b. induction b as [|c b IH]; intros k; [by destruct k|]. rewrite Nat.add_comm. simpl.
    f_equal. rewrite Nat.add_comm. apply IH.
  - by rewrite decide_False by by rewrite H.
Qed.

Definition get (p : string) : Request :=
  mkRequest "GET" (mkURL "" "" p "") "" {[ "Accept-Encoding" := "gzip" ]}.

Lemma demo_mounted : mounted_at demo_storage ["catalogs"].
Proof.
  split; [done|]. split; [|split; [|done]]; (apply Forall_cons_2; [|apply Forall_nil_2]); [elem|done].
Qed.

(** A request that tries to leave the directory, with the dots encoded. *)
Definition traversal : Request :=
  mkRequest "GET" (mkURL "" "" "/catalogs/../unpack/op.yaml" "/catalogs/%2e%2e/unpack/op.yaml") "" ∅.

Lemma http_answers_from_files_witness :
  ∃ rs w', StorageServerHandler demo_storage ∅ traversal stored_os = (Ok rs, w') ∧
    Code rs = 404%Z ∧ os_fs w' = os_fs stored_os.
Proof.
  pose proof (http_answers_from_files demo_storage ∅ traversal stored_os eq_refl) as H.
  assert (Hc : match (StorageServerHandler demo_storage ∅ traversal stored_os).1 with
               | Ok rs => Code rs = 404%Z | _ => False end) by (vm_compute; reflexivity).
  destruct (StorageServerHandler demo_storage ∅ traversal stored_os) as [[rs|e|msg|] w']; try done.
  exists rs, w'. split; [done|]. split; [exact Hc|apply H].
Defined.

#[local] Existing Instance dir_cfg.

Lemma store_get_roundtrip_witness :
  ∃ w' rs, LocalDirV1.Store demo_storage "op" demo_dir (demo_os []) = (Ok tt, w') ∧
    StorageServerHandler demo_storage ∅ (get "/catalogs/op/api/v1/all") w' = (Ok rs, w') ∧
    Code rs = 200%Z ∧ sHeader rs !! "Content-Type" = Some "application/jsonl" ∧
    decoded rs = "schema: olm.package".
Proof.
  apply (store_get_roundtrip demo_storage ["catalogs"] "op" demo_dir (demo_os []) 7 []).
  - split_and!; done.
  - apply demo_mounted.
  - done.
  - apply demo_inv.
  - elem.
  - done.
  - done.
  - by vm_compute.
  - apply demo_free.
  - by vm_compute.
  - split_and!; by vm_compute.
  - done.
Defined.

Lemma deleted_catalog_not_found_witness :
  ∃ w' rs, LocalDirV1.Delete demo_storage "op" stored_os = (Ok tt, w') ∧
    StorageServerHandler demo_storage ∅ (get "/catalogs/op/api/v1/all") w' = (Ok rs, w') ∧
    Code rs = 404%Z.
Proof.
  apply (deleted_catalog_not_found demo_storage ["catalogs"] "op" stored_os).
  - split_and!; done.
  - apply demo_mounted.
  - done.
  - apply stored_inv.
  - elem.
  - by vm_compute.
  - split_and!; by vm_compute.
Defined.

(** A catalog of two metas. *)
Definition two_metas : OS :=
  set_fs (<[["z.yaml"; "unpack"; "var"] := File m0400 "Z"]> demo_fs) (demo_os []).

Lemma unfinished_file_is_served_witness :
  ∃ k w' rs, LocalDirV1.Store demo_storage "op" demo_dir (set_faults (replicate k FNone ++ [FKill]) two_metas)
             = (Crash, w') ∧
    StorageServerHandler demo_storage ∅ (get "/catalogs/op7") w' = (Ok rs, w') ∧ Code rs = 200%Z ∧
    decoded rs = "Z".
Proof.
  destruct (unfinished_file_is_served demo_storage ["catalogs"] "op" demo_dir two_metas 7 []
              [("var/unpack/z.yaml", inl "Z")] [("var/unpack/op.yaml", inl "schema: olm.package")]
              "Z" "schema: olm.package"
              (get "/catalogs/op7")) as (k & w' & rs & H1 & H2 & H3 & H4 & _).
  - apply demo_mounted.
  - elem.
  - elem.
  - done.
  - done.
  - split; [done|]. apply LocalDirV1.sound_by_check. by vm_compute.
  - done.
  - done.
  - by vm_compute.
  - apply LocalDirV1.free_by_check. vm_compute. reflexivity.
  - intros l. by vm_compute.
  - done.
  - done.
  - split_and!; by vm_compute.
  - done.
  - by exists k, w', rs.
Defined.

Lemma path_below_catalog_is_internal_error_witness :
  ∃ rs, StorageServerHandler demo_storage ∅ (get "/catalogs/op/api/v1/all/x") stored_os = (Ok rs, stored_os) ∧
    Code rs = 500%Z.
Proof.
  apply (path_below_catalog_is_internal_error demo_storage ["catalogs"] "op" "x" stored_os "schema: olm.package").
  - apply stored_inv.
  - by vm_compute.
  - apply demo_mounted.
  - elem.
  - done.
  - done.
  - by vm_compute.
  - elem.
  - done.
  - done.
  - split_and!; by vm_compute.
Defined.
