(* ===== verification/Source.v ===== *)
(** The unpacker interface ([internal/source/unpacker.go]) and what the
    controller relies on when it calls it. *)
From S2P Require Import Prelude GoPath Api Storage.

(** [source.Result]; times are nanoseconds since the zero time. *)
Record Result (FSys : Type) := mkResult {
  FS : FSys;
  rResolvedSource : option ResolvedCatalogSource;
  LastSuccessfulPollAttempt : Z;
  State : string;
  Message : string;
  UnpackTime : Z
}.
Arguments mkResult {FSys}.
Arguments FS {FSys}.
Arguments rResolvedSource {FSys}.
Arguments LastSuccessfulPollAttempt {FSys}.
Arguments State {FSys}.
Arguments Message {FSys}.
Arguments UnpackTime {FSys}.

Definition StateUnpacked : string := "Unpacked".
Definition UnpackCacheDir : string := "unpack".

(** The [Unpacker] interface. Unpackers read the catalog they are given. *)
Class Unpacker (W FSys : Type) := {
  Unpack : ClusterCatalog → GoM W (Result FSys);
  Cleanup : ClusterCatalog → GoM W unit
}.

(** [time.Now], for the components that share a world. *)
Class Clock (W : Type) := { Now : GoM W Z }.

(** A time that survives a round trip through the API server, which keeps
    seconds only. *)
Definition whole_seconds (t : Z) : Prop := (t `mod` Second = 0)%Z.

(** Steps of other components are invisible to the clients of a storage. *)
Definition quiet {W FSys : Type} {I : StorageInstance W FSys} {C : StorageContract W FSys}
    (w w' : W) : Prop :=
  (st_inv w → st_inv w') ∧ ∀ n, elem_ok n → st_view w' n = st_view w n.

#[global] Instance quiet_preorder {W FSys : Type} {I : StorageInstance W FSys}
  {C : StorageContract W FSys} : PreOrder (quiet (W := W)).
Proof.
  split; [by intros w|]. intros w1 w2 w3 [H1 H1'] [H2 H2']. split; [by auto|].
  intros n Hn. by rewrite H2', H1'.
Qed.

(** What the controller relies on: unpacking and cleaning up leave the stored
    catalogs alone, cleaning up never panics, a result is always complete and its time is whole. *)
Class UnpackerContract (W FSys : Type) {I : StorageInstance W FSys} {C : StorageContract W FSys}
    {U : Unpacker W FSys} {K : Clock W} := {
  up_quiet c w : elem_ok (cat_name c) → st_inv w → quiet w (Unpack c w).2;
  up_cleanup_quiet c w : elem_ok (cat_name c) → st_inv w → quiet w (Cleanup c w).2;
  up_cleanup_no_panic c w msg : (Cleanup c w).1 ≠ Panic msg;
  up_state c w r w' : Unpack c w = (Ok r, w') → State r = StateUnpacked;
  up_time c w r w' : Unpack c w = (Ok r, w') → whole_seconds (UnpackTime r);
  up_now w : ∃ t w', Now w = (Ok t, w') ∧ quiet w w'
}.
