(* ===== verification/Controller.v ===== *)
(** The ClusterCatalog controller
    ([internal/controllers/core/clustercatalog_controller.go]): the in-memory
    record of stored catalogs, the status updates, the decision to unpack, and
    the two reconcile functions. The object under reconciliation is mutated in
    place by the code, also on the way to an error, so it is a part of the
    state here. *)
From S2P Require Import Prelude GoPath Api Storage Source.

Definition fbcDeletionFinalizer : string := "olm.operatorframework.io/delete-server-cache".

(** * Status updates *)

Section Status.
Context {CS : ConditionSetter} {ET : ErrorText}.

Definition msgUnpacked : string := "Successfully unpacked and stored content from resolved source".
Definition msgServing : string := "Serving desired content from resolved source".
Definition msgUnavailable : string := "Catalog availability mode is set to Unavailable".

Definition progressingCond (generation : Z) (err : option error) : Condition :=
  let c := mkCondition TypeProgressing ConditionTrue generation 0 ReasonSucceeded msgUnpacked in
  match err with
  | None => c
  | Some e =>
      if is_terminal e
      then mkCondition TypeProgressing ConditionFalse generation 0 ReasonBlocked (error_text e)
      else mkCondition TypeProgressing ConditionTrue generation 0 ReasonRetrying (error_text e)
  end.

Definition servingCond (generation : Z) : Condition :=
  mkCondition TypeServing ConditionTrue generation 0 ReasonAvailable msgServing.

Definition set_condition_of (now : Z) (c : Condition) (status : ClusterCatalogStatus)
    : ClusterCatalogStatus :=
  set_conditions (SetStatusCondition now (Conditions status) c) status.

(** [now] is what the clock reads in [meta.SetStatusCondition]. *)
Definition updateStatusProgressing (now : Z) (generation : Z) (err : option error)
    (status : ClusterCatalogStatus) : ClusterCatalogStatus :=
  set_condition_of now (progressingCond generation err) status.

Definition updateStatusServing {FSys : Type} (now : Z) (result : Result FSys) (baseURL : string)
    (generation : Z) (status : ClusterCatalogStatus) : ClusterCatalogStatus :=
  set_condition_of now (servingCond generation)
    (mkStatus (Conditions status) (rResolvedSource result) (Some (mkURLs baseURL))
       (Some (UnpackTime result))).

Definition updateStatusProgressingUserSpecifiedUnavailable (now now' : Z) (generation : Z)
    (status : ClusterCatalogStatus) : ClusterCatalogStatus :=
  set_condition_of now'
    (mkCondition TypeServing ConditionFalse generation 0 ReasonUserSpecifiedUnavailable msgUnavailable)
    (set_condition_of now
       (mkCondition TypeProgressing ConditionTrue generation 0 ReasonSucceeded msgUnavailable)
       status).

Definition updateStatusNotServing (now : Z) (generation : Z) (status : ClusterCatalogStatus)
    : ClusterCatalogStatus :=
  set_condition_of now
    (mkCondition TypeServing ConditionFalse generation 0 ReasonUnavailable "")
    (mkStatus (Conditions status) None None None).

Definition known_type (t : string) : bool :=
  bool_decide (t = TypeServing) || bool_decide (t = TypeProgressing).

Definition clearUnknownConditions (status : ClusterCatalogStatus) : ClusterCatalogStatus :=
  set_conditions (List.filter (λ c, known_type (cType c)) (Conditions status)) status.
End Status.

(** * Libraries the controller calls *)

(** [wait.Jitter(d, f)] with a positive factor [f], a fraction here: between [d]
    and [d + f * d]. *)
Class Jitterer (W : Type) := {
  Jitter : W → Z → Z * Z → Z;
  Jitter_spec w d num den :
    (0 ≤ d → 0 < num → 0 < den → den * d ≤ den * Jitter w d (num, den) ≤ (den + num) * d)%Z
}.

(** 0.01 *)
Definition requeueJitterMaxFactor : Z * Z := (1, 100)%Z.

(** [controllerutil]: adding and removing a finalizer. *)
Class FinalizerUtil := {
  AddFinalizer : list string → string → list string;
  RemoveFinalizer : list string → string → list string;
  AddFinalizer_spec fs f g : g ∈ AddFinalizer fs f ↔ g ∈ fs ∨ g = f;
  RemoveFinalizer_spec fs f g : g ∈ RemoveFinalizer fs f ↔ g ∈ fs ∧ g ≠ f;
  RemoveFinalizer_absent fs f : f ∉ fs → RemoveFinalizer fs f = fs
}.

Record FinalizeResult := mkFinalize { Updated : bool; StatusUpdated : bool }.

(** The record of one reconciled catalog. *)
Record storedCatalogData (FSys : Type) := mkStored {
  observedGeneration : Z;
  unpackResult : Result FSys
}.
Arguments mkStored {FSys}.
Arguments observedGeneration {FSys}.
Arguments unpackResult {FSys}.

(** The state of [reconcile]: the object it was handed, the map of the
    reconciler, and the world. *)
Record RS (W FSys : Type) := mkRS {
  rs_catalog : ClusterCatalog;
  rs_stored : gmap string (storedCatalogData FSys);
  rs_world : W
}.
Arguments mkRS {W FSys}.
Arguments rs_catalog {W FSys}.
Arguments rs_stored {W FSys}.
Arguments rs_world {W FSys}.

(** [crfinalizer.Finalizers] with one registered finalizer: on an object that
    is not being deleted the finalizer is added when it is missing; on one that
    is, the function runs when the finalizer is there, which is removed when it
    succeeds. *)
Class FinalizerLib (W FSys : Type) {FU : FinalizerUtil} := {
  Finalize : string → GoM (RS W FSys) FinalizeResult → GoM (RS W FSys) FinalizeResult;
  finalize_error : string → error → error;
  Finalize_spec key fn s :
    let c := rs_catalog s in
    let has := bool_decide (key ∈ cat_finalizers c) in
    Finalize key fn s =
      if deleting c then
        if has then
          match fn s with
          | (Ok r, s') =>
              (Ok (mkFinalize true (StatusUpdated r)),
               mkRS (set_finalizers (RemoveFinalizer (cat_finalizers (rs_catalog s')) key) (rs_catalog s'))
                 (rs_stored s') (rs_world s'))
          | (Err e, s') => (Err (finalize_error key e), s')
          | (Panic msg, s') => (Panic msg, s')
          | (Crash, s') => (Crash, s')
          end
        else (Ok (mkFinalize false false), s)
      else
        if has then (Ok (mkFinalize false false), s)
        else
          (Ok (mkFinalize true false),
           mkRS (set_finalizers (AddFinalizer (cat_finalizers c) key) c) (rs_stored s) (rs_world s))
}.

(** * The reconciler *)

Section Reconciler.
Context {W FSys : Type}.
Context {ST : StorageInstance W FSys} {UP : Unpacker W FSys} {CK : Clock W}.
Context {CS : ConditionSetter} {SE : SemanticEquality} {ET : ErrorText}.
Context {FU : FinalizerUtil} {FL : FinalizerLib W FSys} {JT : Jitterer W}.

Abbreviation M := (GoM (RS W FSys)).

Definition lift {A : Type} (m : GoM W A) : M A := λ s,
  let '(r, w) := m (rs_world s) in (r, mkRS (rs_catalog s) (rs_stored s) w).

Definition update_catalog (f : ClusterCatalog → ClusterCatalog) : M unit :=
  modify (λ s, mkRS (f (rs_catalog s)) (rs_stored s) (rs_world s)).

(** [f(&catalog.Status, ...)] where [f] sets a condition: the clock is read. *)
Definition update_status (f : Z → ClusterCatalogStatus → ClusterCatalogStatus) : M unit :=
  now <- lift Now ;;
  update_catalog (λ catalog, set_status (f now (Status catalog)) catalog).

Definition deleteStoredCatalog (catalogName : string) : M unit :=
  modify (λ s, mkRS (rs_catalog s) (delete catalogName (rs_stored s)) (rs_world s)).

(** [return err] after [updateStatusProgressing(&catalog.Status, generation, err)]. *)
Definition fail_progressing {A : Type} (generation : Z) (err : error) : M A :=
  update_status (λ now, updateStatusProgressing now generation (Some err)) ;;
  throw err.

Definition deleteCatalogCache : M unit :=
  catalog <- gets rs_catalog ;;
  let generation := cat_generation catalog in
  d <- try (lift (st_Delete (cat_name catalog))) ;;
  match d with
  | inr err => fail_progressing generation err
  | inl _ =>
      update_status (λ now, updateStatusNotServing now generation) ;;
      catalog <- gets rs_catalog ;;
      u <- try (lift (Cleanup catalog)) ;;
      match u with
      | inr err => fail_progressing generation err
      | inl _ => deleteStoredCatalog (cat_name catalog)
      end
  end.

(** The function registered in [setupFinalizers]. *)
Definition fbcFinalizer : M FinalizeResult :=
  deleteCatalogCache ;; ret (mkFinalize false true).

Definition poll_minutes (catalog : ClusterCatalog) : option Z :=
  img ← Image (Source (Spec catalog)); PollIntervalMinutes img.

(** [ctrl.Result.RequeueAfter] of [nextPollResult]. *)
Definition nextPollResult (lastSuccessfulPoll : Z) (catalog : ClusterCatalog) : M Z :=
  if decide (SourceType (Source (Spec catalog)) = SourceTypeImage) then
    match poll_minutes catalog with
    | Some minutes =>
        let pollDuration := duration_mul minutes Minute in
        w <- gets rs_world ;;
        let jitteredDuration := Jitter w pollDuration requeueJitterMaxFactor in
        now <- lift Now ;;
        ret (time_Sub (time_Add lastSuccessfulPoll jitteredDuration) now)
    | None => ret 0%Z
    end
  else ret 0%Z.

Definition nil_dereference : string :=
  "runtime error: invalid memory address or nil pointer dereference".

Definition needsPoll (lastSuccessfulPoll : Z) (catalog : ClusterCatalog) : M bool :=
  match Image (Source (Spec catalog)) with
  | None => panic nil_dereference
  | Some img =>
      match PollIntervalMinutes img with
      | None => ret false
      | Some minutes =>
          let nextPoll := time_Add lastSuccessfulPoll (duration_mul minutes Minute) in
          now <- lift Now ;;
          ret (time_Before nextPoll now)
      end
  end.

Definition getCurrentState (catalog : ClusterCatalog)
    : M (ClusterCatalogStatus * option (storedCatalogData FSys)) :=
  storedCatalogs <- gets rs_stored ;;
  let expectedStatus := clearUnknownConditions (Status catalog) in
  match storedCatalogs !! cat_name catalog with
  | None => ret (expectedStatus, None)
  | Some storedCatalog =>
      exists_ <- lift (st_ContentExists (cat_name catalog)) ;;
      if exists_ : bool then
        now <- lift Now ;;
        now' <- lift Now ;;
        let s1 := updateStatusServing now (unpackResult storedCatalog)
                    (st_BaseURL (cat_name catalog)) (observedGeneration storedCatalog) expectedStatus in
        ret (updateStatusProgressing now' (observedGeneration storedCatalog) None s1,
             Some storedCatalog)
      else ret (expectedStatus, Some storedCatalog)
  end.

(** The switch of [reconcile] that decides whether to unpack. *)
Definition needsUnpack (catalog : ClusterCatalog) (expectedStatus : ClusterCatalogStatus)
    (storedCatalog : option (storedCatalogData FSys)) : M bool :=
  match storedCatalog with
  | None => ret true
  | Some storedCatalog =>
      exists_ <- lift (st_ContentExists (cat_name catalog)) ;;
      if negb exists_ then ret true
      else if negb (DeepEqual_status (Status catalog) expectedStatus) then ret true
      else if negb (Z.eqb (cat_generation catalog) (observedGeneration storedCatalog)) then ret true
      else needsPoll (LastSuccessfulPollAttempt (unpackResult storedCatalog)) catalog
  end.

(** From the call of the unpacker to the end of [reconcile]. *)
Definition unpackAndStore : M Z :=
  catalog <- gets rs_catalog ;;
  let generation := cat_generation catalog in
  u <- try (lift (Unpack catalog)) ;;
  match u with
  | inr err => fail_progressing generation (ErrWrap "source catalog content: " err)
  | inl unpackResult =>
      if decide (State unpackResult = StateUnpacked) then
        st <- try (lift (st_Store (cat_name catalog) (FS unpackResult))) ;;
        match st with
        | inr err => fail_progressing generation (ErrString ("error storing fbc: " +:+ error_text err))
        | inl _ =>
            let baseURL := st_BaseURL (cat_name catalog) in
            update_status (λ now, updateStatusProgressing now generation None) ;;
            update_status (λ now, updateStatusServing now unpackResult baseURL generation) ;;
            modify (λ s, mkRS (rs_catalog s)
                           (<[cat_name catalog := mkStored generation unpackResult]> (rs_stored s))
                           (rs_world s)) ;;
            catalog' <- gets rs_catalog ;;
            nextPollResult (LastSuccessfulPollAttempt unpackResult) catalog'
        end
      else panic ("unknown unpack state " +:+ quoted (State unpackResult))
  end.

(** [AvailabilityMode: Unavailable]. *)
Definition makeUnavailable : M Z :=
  deleteCatalogCache ;;
  now <- lift Now ;;
  now' <- lift Now ;;
  update_catalog (λ catalog,
    set_status (updateStatusProgressingUserSpecifiedUnavailable now now'
                  (cat_generation catalog) (Status catalog)) catalog) ;;
  update_catalog (λ catalog,
    set_finalizers (RemoveFinalizer (cat_finalizers catalog) fbcDeletionFinalizer) catalog) ;;
  ret 0%Z.

Definition reconcile : M Z :=
  catalog <- gets rs_catalog ;;
  if decide (AvailabilityMode (Spec catalog) = AvailabilityModeUnavailable) then makeUnavailable
  else
    finalizeResult <- Finalize fbcDeletionFinalizer fbcFinalizer ;;
    if Updated finalizeResult || StatusUpdated finalizeResult then ret 0%Z
    else
      catalog <- gets rs_catalog ;;
      cur <- getCurrentState catalog ;;
      needed <- needsUnpack catalog cur.1 cur.2 ;;
      match needed : bool, cur.2 with
      | false, Some storedCatalog =>
          nextPollResult (LastSuccessfulPollAttempt (unpackResult storedCatalog)) catalog
      | _, _ => unpackAndStore
      end.
End Reconciler.

(** A status after a round trip through JSON, which may shorten its times. *)
Definition wire_condition (f : Z → Z) (c : Condition) : Condition :=
  mkCondition (cType c) (cStatus c) (cObservedGeneration c) (f (cLastTransitionTime c))
    (cReason c) (cMessage c).

Definition wire_status (f : Z → Z) (st : ClusterCatalogStatus) : ClusterCatalogStatus :=
  mkStatus (map (wire_condition f) (Conditions st)) (ResolvedSource st) (URLs st)
    (f <$> LastUnpacked st).

(** * The API server as the client shows it

    [ac_object a name] is the object the server holds. With the status
    subresource enabled, an update of the status leaves the rest of the object
    alone and an update of the object leaves its status alone; both are refused
    unless the resource version is the current one, and fill the object they
    were given with what the server now holds. Times are kept in seconds. *)
Class Client (A : Type) := {
  ac_object : A → string → option ClusterCatalog;
  ac_time : Z → Z;
  ac_time_whole t : whole_seconds t → ac_time t = t;
  ac_Get : string → GoM A ClusterCatalog;
  ac_StatusUpdate : ClusterCatalog → GoM A ClusterCatalog;
  ac_Update : ClusterCatalog → GoM A ClusterCatalog;
  IgnoreNotFound : error → option error;
  IgnoreNotFound_notfound n : IgnoreNotFound (ErrNotFound n) = None;
  IgnoreNotFound_cases e : IgnoreNotFound e = None ∨ IgnoreNotFound e = Some e;
  ac_Get_reads name a : ∀ n, ac_object (ac_Get name a).2 n = ac_object a n;
  ac_Get_name name a c a' : ac_Get name a = (Ok c, a') → cat_name c = name ∧ elem_ok name;
  ac_StatusUpdate_Ok c a c' a' :
    ac_StatusUpdate c a = (Ok c', a') →
    ∃ old rv, ac_object a (cat_name c) = Some old ∧
      ResourceVersion (Meta old) = ResourceVersion (Meta c) ∧
      c' = set_version rv (set_status (wire_status ac_time (Status c)) old) ∧
      ∀ n, ac_object a' n = if decide (n = cat_name c) then Some c' else ac_object a n;
  ac_Update_Ok c a c' a' :
    ac_Update c a = (Ok c', a') →
    ∃ old, ac_object a (cat_name c) = Some old ∧
      ResourceVersion (Meta old) = ResourceVersion (Meta c) ∧
      cat_name c' = cat_name c ∧ Spec c' = Spec c ∧
      cat_finalizers c' = cat_finalizers c ∧ Status c' = Status old ∧
      ∀ n, ac_object a' n =
        if decide (n = cat_name c)
        then if deleting c && bool_decide (cat_finalizers c = []) then None else Some c'
        else ac_object a n
}.

(** The reconciler between two calls. *)
Record Ctl (W FSys A : Type) := mkCtl {
  ctl_stored : gmap string (storedCatalogData FSys);
  ctl_world : W;
  ctl_api : A
}.
Arguments mkCtl {W FSys A}.
Arguments ctl_stored {W FSys A}.
Arguments ctl_world {W FSys A}.
Arguments ctl_api {W FSys A}.

Section ReconcileTop.
Context {W FSys A : Type}.
Context {ST : StorageInstance W FSys} {UP : Unpacker W FSys} {CK : Clock W}.
Context {CS : ConditionSetter} {SE : SemanticEquality} {ET : ErrorText}.
Context {FU : FinalizerUtil} {FL : FinalizerLib W FSys} {JT : Jitterer W} {CL : Client A}.

Abbreviation T := (GoM (Ctl W FSys A)).

Definition lift_api {B : Type} (m : GoM A B) : T B := λ s,
  let '(r, a) := m (ctl_api s) in (r, mkCtl (ctl_stored s) (ctl_world s) a).

(** Runs a function of the reconciler on an object; the caller keeps the object
    as the function leaves it, and its error. *)
Definition on_object {B : Type} (c : ClusterCatalog) (m : GoM (RS W FSys) B)
    : T (ClusterCatalog * (B + error)) := λ s,
  let '(r, rs) := m (mkRS c (ctl_stored s) (ctl_world s)) in
  let s' := mkCtl (rs_stored rs) (rs_world rs) (ctl_api s) in
  match r with
  | Ok b => (Ok (rs_catalog rs, inl b), s')
  | Err e => (Ok (rs_catalog rs, inr e), s')
  | Panic msg => (Panic msg, s')
  | Crash => (Crash, s')
  end.

(** The comparison ignores the status and the finalizers. *)
Definition bare (c : ClusterCatalog) : ClusterCatalog := set_finalizers [] (set_status zeroStatus c).

Definition checkForUnexpectedFieldChange (a b : ClusterCatalog) : bool :=
  negb (DeepEqual_catalog (bare a) (bare b)).

(** One guarded update of the object at the end of [Reconcile]: the object and
    the error after it. *)
Definition guarded_update (needed : bool) (upd : ClusterCatalog → GoM A ClusterCatalog)
    (prefix : string) (c : ClusterCatalog) (err : option error) : T (ClusterCatalog * option error) :=
  if needed then
    u <- try (lift_api (upd c)) ;;
    match u with
    | inl c' => ret (c', err)
    | inr e => ret (c, errors_Join [err; Some (ErrString (prefix +:+ error_text e))])
    end
  else ret (c, err).

Definition dropStored (name : string) : T unit :=
  modify (λ s, mkCtl (delete name (ctl_stored s)) (ctl_world s) (ctl_api s)).

Definition field_change : string := "spec or metadata changed by reconciler".

(** [Reconcile]: the requeue delay and the error it returns. *)
Definition Reconcile (name : string) : T (Z * option error) :=
  got <- try (lift_api (ac_Get name)) ;;
  match got with
  | inr err => ret (0%Z, IgnoreNotFound err)
  | inl existingCatsrc =>
      run <- on_object existingCatsrc reconcile ;;
      let reconciledCatsrc := run.1 in
      let res := match run.2 with inl res => res | inr _ => 0%Z end in
      let reconcileErr := match run.2 with inl _ => None | inr err => Some err end in
      match reconcileErr with
      | Some _ => dropStored (cat_name reconciledCatsrc)
      | None => ret tt
      end ;;
      let updateStatus := negb (DeepEqual_status (Status existingCatsrc) (Status reconciledCatsrc)) in
      let updateFinalizers :=
        negb (DeepEqual_strings (cat_finalizers existingCatsrc) (cat_finalizers reconciledCatsrc)) in
      if checkForUnexpectedFieldChange existingCatsrc reconciledCatsrc then panic field_change
      else
        let finalizers := cat_finalizers reconciledCatsrc in
        st <- guarded_update updateStatus ac_StatusUpdate "error updating status: "
                reconciledCatsrc reconcileErr ;;
        fin <- guarded_update updateFinalizers ac_Update "error updating finalizers: "
                 (set_finalizers finalizers st.1) st.2 ;;
        ret (res, fin.2)
  end.

(** [SetupWithManager] starts with an empty map. *)
Definition SetupWithManager (s : Ctl W FSys A) : Ctl W FSys A :=
  mkCtl ∅ (ctl_world s) (ctl_api s).
End ReconcileTop.
