(* ===== verification/ControllerLemmas.v ===== *)
(** Lemmas about the reconciler: what every step leaves alone, how each
    function changes the object, the map and the stored catalogs. *)
From S2P Require Import Prelude GoPath Api Storage Source Controller.

(** * The fields the reconciler may write *)

Lemma bare_set_status st c : bare (set_status st c) = bare c.
Proof. by destruct c as [? ? [] ? ?]. Qed.

Lemma bare_set_finalizers fs c : bare (set_finalizers fs c) = bare c.
Proof. by destruct c as [? ? [] ? ?]. Qed.

Lemma bare_name c c' : bare c = bare c' → cat_name c = cat_name c'.
Proof. destruct c as [? ? [] ? ?], c' as [? ? [] ? ?]. by intros [=]. Qed.

Lemma bare_generation c c' : bare c = bare c' → cat_generation c = cat_generation c'.
Proof. destruct c as [? ? [] ? ?], c' as [? ? [] ? ?]. by intros [=]. Qed.

Lemma bare_Spec c c' : bare c = bare c' → Spec c = Spec c'.
Proof. destruct c as [? ? [] ? ?], c' as [? ? [] ? ?]. by intros [=]. Qed.

Lemma bare_deleting c c' : bare c = bare c' → deleting c = deleting c'.
Proof. destruct c as [? ? [] ? ?], c' as [? ? [] ? ?]. unfold deleting. simpl. by intros [=]; subst. Qed.

(** * Status updates *)

Section Status.
Context {CS : ConditionSetter} {ET : ErrorText}.

(** A condition of the status, up to its transition time. *)
Definition shows (st : ClusterCatalogStatus) (t status reason msg : string) (gen : Z) : Prop :=
  ∃ lt, find_condition t (Conditions st) = Some (mkCondition t status gen lt reason msg).

(** What the status shows when the catalog [d] is served. *)
Definition agrees {FSys : Type} (baseURL : string) (gen : Z) (r : Result FSys)
    (st : ClusterCatalogStatus) : Prop :=
  shows st TypeServing ConditionTrue ReasonAvailable msgServing gen ∧
  shows st TypeProgressing ConditionTrue ReasonSucceeded msgUnpacked gen ∧
  ResolvedSource st = rResolvedSource r ∧ URLs st = Some (mkURLs baseURL) ∧
  LastUnpacked st = Some (UnpackTime r).

Lemma shows_set now c st :
  shows (set_condition_of now c st) (cType c) (cStatus c) (cReason c) (cMessage c)
    (cObservedGeneration c).
Proof. apply find_set_condition. Qed.

Lemma shows_set_ne now c st t status reason msg gen :
  t ≠ cType c →
  shows (set_condition_of now c st) t status reason msg gen ↔ shows st t status reason msg gen.
Proof. intros Ht. unfold shows. simpl. by rewrite find_set_condition_ne. Qed.

Lemma set_condition_of_same now c st :
  shows st (cType c) (cStatus c) (cReason c) (cMessage c) (cObservedGeneration c) →
  set_condition_of now c st = st.
Proof.
  intros [lt H]. unfold set_condition_of. erewrite set_condition_same by done.
  by destruct st.
Qed.

Lemma agrees_update {FSys : Type} now now' url gen (r : Result FSys) st :
  agrees url gen r (updateStatusServing now' r url gen (updateStatusProgressing now gen None st)).
Proof.
  split_and!; try done; [apply shows_set|].
  apply shows_set_ne; [done|]. apply (shows_set _ (progressingCond gen None)).
Qed.

Lemma agrees_expected {FSys : Type} now now' url gen (r : Result FSys) st :
  agrees url gen r (updateStatusProgressing now' gen None (updateStatusServing now r url gen st)).
Proof.
  split_and!; try done; [|apply (shows_set _ (progressingCond gen None))].
  apply shows_set_ne; [done|]. apply (shows_set _ (servingCond gen)).
Qed.

Definition known_only (st : ClusterCatalogStatus) : Prop :=
  Forall (λ c, known_type (cType c) = true) (Conditions st).

Lemma clear_known st : known_only st → clearUnknownConditions st = st.
Proof.
  intros H. destruct st as [cs ? ? ?]. unfold clearUnknownConditions, set_conditions. simpl. f_equal.
  unfold known_only in H. simpl in H. induction H as [|c cs Hc Hcs IH]; [done|].
  simpl. by rewrite Hc, IH.
Qed.

Lemma clear_is_known st : known_only (clearUnknownConditions st).
Proof.
  unfold known_only, clearUnknownConditions. simpl. apply Forall_forall. intros c Hc.
  apply list_elem_of_In, List.filter_In in Hc. apply Hc.
Qed.

(** The status the controller expects of a settled catalog is the one it has. *)
Lemma agrees_settled {FSys : Type} now now' url gen (r : Result FSys) st :
  known_only st → agrees url gen r st →
  updateStatusProgressing now' gen None
    (updateStatusServing now r url gen (clearUnknownConditions st)) = st.
Proof.
  intros Hk (Hs & Hp & Hr & Hu & Hl). rewrite clear_known by done.
  assert (Heq : mkStatus (Conditions st) (rResolvedSource r) (Some (mkURLs url))
                  (Some (UnpackTime r)) = st).
  { destruct st; simpl in *. by subst. }
  unfold updateStatusServing. rewrite Heq, set_condition_of_same by done.
  unfold updateStatusProgressing. by rewrite set_condition_of_same.
Qed.

Lemma known_set now c st :
  known_type (cType c) = true → known_only st → known_only (set_condition_of now c st).
Proof.
  intros Hc Hst. apply Forall_forall. intros d Hd. simpl in Hd.
  assert (Ht : cType d ∈ map cType (SetStatusCondition now (Conditions st) c))
    by (by apply list_elem_of_fmap_2).
  apply set_condition_types in Ht as [Ht| ->]; [|done].
  apply list_elem_of_fmap in Ht as (e & -> & He). unfold known_only in Hst.
  rewrite Forall_forall in Hst. by apply Hst.
Qed.

Lemma shows_wire f st t status reason msg gen :
  shows st t status reason msg gen → shows (wire_status f st) t status reason msg gen.
Proof.
  intros [lt H]. exists (f lt). simpl. revert H.
  induction (Conditions st) as [|c cs IH]; simpl; [done|].
  case_decide; [intros [= ->]; done|apply IH].
Qed.

Lemma known_wire f st : known_only st → known_only (wire_status f st).
Proof. intros H. by apply Forall_map. Qed.

Lemma agrees_wire {FSys : Type} f url gen (r : Result FSys) st :
  f (UnpackTime r) = UnpackTime r → agrees url gen r st → agrees url gen r (wire_status f st).
Proof.
  intros Hf (Hs & Hp & Hr & Hu & Hl).
  split_and!; [by apply shows_wire..|done|done|]. simpl. rewrite Hl. simpl. by rewrite Hf.
Qed.
End Status.

(** * The functions of the reconciler *)

Section Reconciler.
Context {W FSys : Type}.
Context {ST : StorageInstance W FSys} {SC : StorageContract W FSys}.
Context {UP : Unpacker W FSys} {CK : Clock W} {UC : UnpackerContract W FSys}.
Context {CS : ConditionSetter} {SE : SemanticEquality} {ET : ErrorText}.
Context {FU : FinalizerUtil} {FL : FinalizerLib W FSys} {JT : Jitterer W}.
Implicit Types (s : RS W FSys) (name : string).

(** ** What stays the same *)

(** A step on the catalog [name] leaves alone everything but the status and the
    finalizers of the object, the other entries of the map, and the other
    stored catalogs. *)
Definition frame name s s' : Prop :=
  cat_name (rs_catalog s) = name → elem_ok name → st_inv (rs_world s) →
  bare (rs_catalog s') = bare (rs_catalog s) ∧
  (∀ n, n ≠ name → rs_stored s' !! n = rs_stored s !! n) ∧
  st_inv (rs_world s') ∧
  ∀ n, elem_ok n → n ≠ name → st_view (rs_world s') n = st_view (rs_world s) n.

#[local] Instance frame_preorder name : PreOrder (frame name).
Proof.
  split; [by intros s|]. intros s1 s2 s3 H12 H23 Hn Hok Hi.
  destruct (H12 Hn Hok Hi) as (Hb & Hs & Hi2 & Hv).
  destruct (H23 (eq_trans (bare_name _ _ Hb) Hn) Hok Hi2) as (Hb' & Hs' & Hi3 & Hv').
  split_and!; [by rewrite Hb'| |done|].
  - intros n Hne. by rewrite Hs', Hs.
  - intros n Hn' Hne. by rewrite Hv', Hv.
Qed.

Lemma frame_catalog name {A : Type} (f : ClusterCatalog → GoM (RS W FSys) A) :
  (∀ c, cat_name c = name → stable (frame name) (f c)) →
  stable (frame name) (bind (gets rs_catalog) f).
Proof. intros H s Hn. exact (H (rs_catalog s) Hn s Hn). Qed.

Lemma frame_quiet name {A : Type} (m : GoM W A) :
  (∀ w, st_inv w → quiet w (m w).2) → stable (frame name) (lift (FSys := FSys) m).
Proof.
  intros H s Hn Hok Hi. specialize (H (rs_world s) Hi). unfold lift.
  destruct (m (rs_world s)) as [r w] eqn:E. destruct H as [H1 H2].
  split_and!; [done|done|by apply H1|]. intros n Hn' _. by apply H2.
Qed.

Lemma frame_Unpack name c :
  cat_name c = name → stable (frame name) (lift (FSys := FSys) (Unpack (W := W) c)).
Proof.
  intros Hc s Hn Hok. apply frame_quiet; [|done|done]. intros w. apply up_quiet. by rewrite Hc.
Qed.

Lemma frame_Cleanup name c :
  cat_name c = name → stable (frame name) (lift (FSys := FSys) (Cleanup (W := W) c)).
Proof.
  intros Hc s Hn Hok. apply frame_quiet; [|done|done]. intros w. apply up_cleanup_quiet. by rewrite Hc.
Qed.

Lemma stable_Now : stable quiet (Now (W := W)).
Proof. intros w. destruct (up_now w) as (t & w' & H & Hq). by rewrite H. Qed.

Lemma stable_ContentExists name : elem_ok name → stable (λ w w', st_inv w → quiet w w') (st_ContentExists (W := W) name).
Proof.
  intros Hn w Hi. destruct (st_ContentExists name w) as [r w'] eqn:E.
  destruct (st_ContentExists_spec _ _ _ _ Hi Hn E) as (Hi' & Hv & _). by split.
Qed.

Lemma frame_exists name : stable (frame name) (lift (FSys := FSys) (st_ContentExists (W := W) name)).
Proof.
  intros s Hn Hok Hi. pose proof (stable_ContentExists name Hok (rs_world s) Hi) as [H1 H2].
  unfold lift. destruct (st_ContentExists name (rs_world s)) as [r w] eqn:E.
  split_and!; [done|done|by apply H1|]. intros n Hn' _. by apply H2.
Qed.

Lemma frame_Store name fsys : stable (frame name) (lift (FSys := FSys) (st_Store (W := W) name fsys)).
Proof.
  intros s Hn Hok Hi. unfold lift. destruct (st_Store name fsys (rs_world s)) as [r w] eqn:E.
  destruct (st_Store_spec _ _ _ _ _ Hi Hok E) as (Hi' & Hv & _). by split_and!.
Qed.

Lemma frame_Delete name : stable (frame name) (lift (FSys := FSys) (st_Delete (W := W) name)).
Proof.
  intros s Hn Hok Hi. unfold lift. destruct (st_Delete name (rs_world s)) as [r w] eqn:E.
  destruct (st_Delete_spec _ _ _ _ Hi Hok E) as (Hi' & Hv & _). by split_and!.
Qed.

Lemma frame_stored name f :
  (∀ m n, n ≠ name → f m !! n = m !! n) →
  stable (frame name) (modify (λ s, mkRS (rs_catalog s) (f (rs_stored s)) (rs_world s))).
Proof. intros H s Hn Hok Hi. split_and!; [done| |done|done]. intros n. apply H. Qed.

Lemma frame_update name f :
  (∀ c, bare (f c) = bare c) → stable (frame name) (update_catalog (W := W) (FSys := FSys) f).
Proof. intros H s Hn Hok Hi. split_and!; [apply H|done..]. Qed.

Lemma frame_now name : stable (frame name) (lift (FSys := FSys) (Now (W := W))).
Proof. apply frame_quiet. intros w _. apply stable_Now. Qed.

Lemma frame_status name f : stable (frame name) (update_status f).
Proof.
  apply stable_bind; [apply _|apply frame_now|]. intros now. apply frame_update.
  intros c. apply bare_set_status.
Qed.

Lemma frame_fail name {A : Type} gen e : stable (frame name) (fail_progressing (A := A) gen e).
Proof.
  apply stable_bind; [apply _|apply frame_status|]. intros _. apply stable_throw, _.
Qed.

Ltac frame_step :=
  match goal with
  | |- stable _ (bind (gets rs_catalog) _) => apply frame_catalog; intros ? ?
  | |- stable _ (bind _ _) => apply stable_bind; [apply _| |intros ?]
  | |- stable _ (try _) => apply stable_try
  | |- stable _ (ret _) => apply stable_ret, _
  | |- stable _ (throw _) => apply stable_throw, _
  | |- stable _ (panic _) => apply stable_panic, _
  | |- stable _ (gets _) => apply stable_gets, _
  | |- stable _ (fail_progressing _ _) => apply frame_fail
  | |- stable _ (update_status _) => apply frame_status
  | |- stable _ (lift Now) => apply frame_now
  | |- stable _ (lift (Unpack _)) => by apply frame_Unpack
  | |- stable _ (lift (Cleanup _)) => by apply frame_Cleanup
  | H : cat_name _ = _ |- stable _ (lift (st_ContentExists _)) => rewrite H; apply frame_exists
  | H : cat_name _ = _ |- stable _ (lift (st_Store _ _)) => rewrite H; apply frame_Store
  | H : cat_name _ = _ |- stable _ (lift (st_Delete _)) => rewrite H; apply frame_Delete
  | |- stable _ (match ?x with _ => _ end) => destruct x
  end.

Lemma frame_deleteCatalogCache name : stable (frame name) deleteCatalogCache.
Proof.
  unfold deleteCatalogCache. repeat frame_step. apply frame_stored.
  intros m n Hn. rewrite lookup_delete_ne; [done|congruence].
Qed.

Lemma frame_nextPoll name t c : stable (frame name) (nextPollResult t c).
Proof. unfold nextPollResult. repeat frame_step. Qed.

Lemma frame_getCurrentState name c :
  cat_name c = name → stable (frame name) (getCurrentState c).
Proof. intros Hc. unfold getCurrentState. repeat frame_step. Qed.

Lemma frame_needsUnpack name c e o :
  cat_name c = name → stable (frame name) (needsUnpack c e o).
Proof. intros Hc. unfold needsUnpack, needsPoll. repeat frame_step. Qed.

Lemma frame_unpackAndStore name : stable (frame name) unpackAndStore.
Proof.
  unfold unpackAndStore. repeat (frame_step || apply frame_nextPoll).
  apply frame_stored. intros m n Hn. rewrite lookup_insert_ne; [done|congruence].
Qed.

Lemma frame_Finalize name key fn :
  stable (frame name) fn → stable (frame name) (Finalize key fn).
Proof.
  intros Hfn s. specialize (Hfn s). rewrite Finalize_spec. cbv zeta.
  destruct (deleting _), (bool_decide _); try reflexivity.
  - by destruct (fn s) as [[r|e|msg|] s'].
  - intros Hn Hok Hi. split_and!; [apply bare_set_finalizers|done..].
Qed.

Lemma frame_fbcFinalizer name : stable (frame name) fbcFinalizer.
Proof. unfold fbcFinalizer. repeat (frame_step || apply frame_deleteCatalogCache). Qed.

Lemma frame_reconcile name : stable (frame name) reconcile.
Proof.
  unfold reconcile, makeUnavailable.
  repeat (frame_step || apply frame_deleteCatalogCache || apply frame_update || apply frame_nextPoll
          || apply frame_unpackAndStore || apply frame_Finalize || apply frame_fbcFinalizer
          || (apply frame_getCurrentState; done) || (apply frame_needsUnpack; done)).
  - intros c'. apply bare_set_status.
  - intros c'. apply bare_set_finalizers.
Qed.

(** ** What each function does *)

Definition with_status (f : ClusterCatalogStatus → ClusterCatalogStatus) (w : W) s : RS W FSys :=
  mkRS (set_status (f (Status (rs_catalog s))) (rs_catalog s)) (rs_stored s) w.

Lemma update_status_run f s :
  ∃ now w', quiet (rs_world s) w' ∧ update_status f s = (Ok tt, with_status (f now) w' s).
Proof.
  destruct (up_now (rs_world s)) as (now & w' & Hn & Hq). exists now, w'. split; [done|].
  unfold update_status, lift, bind. by rewrite Hn.
Qed.

Lemma fail_progressing_run {A : Type} gen e s :
  ∃ now w', quiet (rs_world s) w' ∧
    fail_progressing (A := A) gen e s
    = (Err e, with_status (updateStatusProgressing now gen (Some e)) w' s).
Proof.
  destruct (update_status_run (λ now, updateStatusProgressing now gen (Some e)) s)
    as (now & w' & Hq & H). exists now, w'. split; [done|].
  unfold fail_progressing. erewrite bind_step by exact H. done.
Qed.

Lemma lift_run {A : Type} (m : GoM W A) s r w' :
  m (rs_world s) = (r, w') → lift m s = (r, mkRS (rs_catalog s) (rs_stored s) w').
Proof. unfold lift. by intros ->. Qed.

(** An error leaves its trace in the Progressing condition. *)
Definition reports (gen : Z) (e : error) (st : ClusterCatalogStatus) : Prop :=
  if is_terminal e then shows st TypeProgressing ConditionFalse ReasonBlocked (error_text e) gen
  else shows st TypeProgressing ConditionTrue ReasonRetrying (error_text e) gen.

Lemma reports_update now gen e st : reports gen e (updateStatusProgressing now gen (Some e) st).
Proof.
  unfold reports, updateStatusProgressing, progressingCond.
  destruct (is_terminal e); apply (shows_set now (mkCondition TypeProgressing _ gen 0 _ _)).
Qed.

Definition unserved (st : ClusterCatalogStatus) : Prop :=
  ResolvedSource st = None ∧ URLs st = None ∧ LastUnpacked st = None.

Lemma deleteCatalogCache_spec s r s' :
  let name := cat_name (rs_catalog s) in
  let gen := cat_generation (rs_catalog s) in
  st_inv (rs_world s) → elem_ok name → deleteCatalogCache s = (r, s') →
  cat_finalizers (rs_catalog s') = cat_finalizers (rs_catalog s) ∧
  match r with
  | Ok _ =>
      st_view (rs_world s') name = None ∧ rs_stored s' = delete name (rs_stored s) ∧
      (∃ now, Status (rs_catalog s') = updateStatusNotServing now gen (Status (rs_catalog s))) ∧
      ∃ c1 w1, cat_name c1 = name ∧ Cleanup c1 w1 = (Ok tt, rs_world s')
  | Err e => rs_stored s' = rs_stored s ∧ reports gen e (Status (rs_catalog s'))
  | Panic _ => False
  | Crash => True
  end.
Proof.
  intros name gen Hi Hn H. unfold deleteCatalogCache in H.
  erewrite bind_step in H by reflexivity. unfold bind at 1, try at 1, lift at 1 in H.
  destruct (st_Delete (cat_name (rs_catalog s)) (rs_world s)) as [d w1] eqn:Ed.
  destruct (st_Delete_spec _ _ _ _ Hi Hn Ed) as (Hi1 & _ & Hd).
  destruct d as [u|e|msg|]; [|..|done|by injection H as <- <-].
  2:{ destruct (fail_progressing_run (A := unit) gen e (mkRS (rs_catalog s) (rs_stored s) w1))
        as (now & w2 & _ & Hf). fold gen in H. rewrite Hf in H. injection H as <- <-.
      split_and!; [done..|]. apply reports_update. }
  destruct (update_status_run (λ now, updateStatusNotServing now gen)
              (mkRS (rs_catalog s) (rs_stored s) w1)) as (now & w2 & [Hi2 Hv2] & Hu).
  erewrite bind_step in H by exact Hu. erewrite bind_step in H by reflexivity.
  specialize (Hi2 Hi1). simpl in Hi2, Hv2.
  set (s2 := with_status _ _ _) in H.
  pose proof (up_cleanup_quiet (rs_catalog s2) w2 Hn Hi2) as [Hi3 Hv3].
  pose proof (up_cleanup_no_panic (rs_catalog s2) w2) as Hnp.
  unfold bind at 1, try at 1, lift at 1 in H. change (rs_world s2) with w2 in H.
  assert (Hw2 : st_view w2 name = None) by (by rewrite Hv2).
  destruct (Cleanup (rs_catalog s2) w2) as [u2 w3] eqn:Ec. simpl in Hv3.
  destruct u2 as [u2|e|msg|].
  - injection H as <- <-. destruct u2. split_and!; [done| |done|by exists now|].
    + simpl. by rewrite Hv3.
    + by exists (rs_catalog s2), w2.
  - destruct (fail_progressing_run (A := unit) gen e (mkRS (rs_catalog s2) (rs_stored s2) w3))
      as (now' & w4 & _ & Hf). fold gen in H. rewrite Hf in H. injection H as <- <-.
    split_and!; [done..|]. apply reports_update.
  - by destruct (Hnp msg).
  - injection H as <- <-. done.
Qed.

Lemma nextPollResult_run t c s :
  ∃ d w', quiet (rs_world s) w' ∧
    nextPollResult t c s = (Ok d, mkRS (rs_catalog s) (rs_stored s) w').
Proof.
  destruct (up_now (rs_world s)) as (now & w' & Hn & Hq). unfold nextPollResult.
  destruct (decide _); [|by exists 0%Z, (rs_world s); destruct s].
  destruct (poll_minutes c); [|by exists 0%Z, (rs_world s); destruct s].
  eexists _, w'. split; [done|]. erewrite bind_step by reflexivity.
  erewrite bind_step by (by apply lift_run). done.
Qed.

(** The part of the status that describes the served content. *)
Definition same_serving (st st' : ClusterCatalogStatus) : Prop :=
  ResolvedSource st' = ResolvedSource st ∧ URLs st' = URLs st ∧ LastUnpacked st' = LastUnpacked st ∧
  ∀ status reason msg gen,
    shows st' TypeServing status reason msg gen ↔ shows st TypeServing status reason msg gen.

Lemma same_serving_progressing now gen e st :
  same_serving st (updateStatusProgressing now gen (Some e) st).
Proof.
  split_and!; try done. intros. apply shows_set_ne. unfold progressingCond.
  by destruct (is_terminal e).
Qed.

(** The end of a successful [unpackAndStore], from the storage's answer on. *)
Lemma store_success_run gen url (result : Result FSys) name s :
  ∃ now now' d w', quiet (rs_world s) w' ∧
  (update_status (λ now, updateStatusProgressing now gen None) ;;
   update_status (λ now, updateStatusServing now result url gen) ;;
   modify (λ s, mkRS (rs_catalog s) (<[name := mkStored gen result]> (rs_stored s)) (rs_world s)) ;;
   catalog' <- gets rs_catalog ;;
   nextPollResult (LastSuccessfulPollAttempt result) catalog') s
  = (Ok d, mkRS (set_status (updateStatusServing now' result url gen
                               (updateStatusProgressing now gen None (Status (rs_catalog s))))
                   (rs_catalog s))
             (<[name := mkStored gen result]> (rs_stored s)) w').
Proof.
  destruct (update_status_run (λ now, updateStatusProgressing now gen None) s)
    as (now & w1 & Hq1 & H1). set (s1 := with_status _ _ _) in H1.
  destruct (update_status_run (λ now, updateStatusServing now result url gen) s1)
    as (now' & w2 & Hq2 & H2). set (s2 := with_status _ _ _) in H2.
  set (s3 := mkRS (rs_catalog s2) (<[name := mkStored gen result]> (rs_stored s2)) (rs_world s2)).
  destruct (nextPollResult_run (LastSuccessfulPollAttempt result) (rs_catalog s3) s3)
    as (d & w3 & Hq3 & H3).
  exists now, now', d, w3. split; [by etrans; [|etrans]|].
  erewrite bind_step by exact H1. erewrite bind_step by exact H2.
  erewrite bind_step by reflexivity. erewrite bind_step by reflexivity. exact H3.
Qed.

Lemma unpackAndStore_spec s r s' :
  let c := rs_catalog s in let name := cat_name c in let gen := cat_generation c in
  st_inv (rs_world s) → elem_ok name → unpackAndStore s = (r, s') →
  cat_finalizers (rs_catalog s') = cat_finalizers c ∧
  match r with
  | Ok _ =>
      ∃ result w0 d, Unpack c (rs_world s) = (Ok result, w0) ∧
        rs_stored s' = <[name := mkStored gen result]> (rs_stored s) ∧
        agrees (st_BaseURL name) gen result (Status (rs_catalog s')) ∧
        st_content w0 (FS result) d ∧ st_view (rs_world s') name = Some d
  | Err e =>
      rs_stored s' = rs_stored s ∧ reports gen e (Status (rs_catalog s')) ∧
      same_serving (Status c) (Status (rs_catalog s')) ∧
      st_view (rs_world s') name = st_view (rs_world s) name
  | Panic _ =>
      rs_stored s' = rs_stored s ∧ st_view (rs_world s') name = st_view (rs_world s) name
  | Crash => True
  end.
Proof.
  intros c name gen Hi Hn H. unfold unpackAndStore in H.
  erewrite bind_step in H by reflexivity. fold c in H. fold name gen in H.
  pose proof (up_quiet c (rs_world s) Hn Hi) as [Hi0 Hv0].
  unfold bind at 1, try at 1, lift at 1 in H.
  destruct (Unpack c (rs_world s)) as [[result|e|msg|] w0] eqn:Eu; simpl in Hi0, Hv0;
    [|..|by injection H as <- <-; rewrite Hv0|by injection H as <- <-].
  2:{ edestruct (fail_progressing_run (A := Z) gen) as (now & w2 & [_ Hv2] & Hf).
      rewrite Hf in H. injection H as <- <-. split_and!; try done; [apply reports_update|apply same_serving_progressing|].
      simpl. by rewrite Hv2, <-Hv0. }
  rewrite decide_True in H by (by eapply up_state).
  unfold bind at 1, try at 1, lift at 1 in H. cbn [rs_world rs_catalog rs_stored] in H.
  destruct (st_Store name (FS result) w0) as [st w1] eqn:Es.
  destruct (st_Store_spec _ _ _ _ _ (Hi0 Hi) Hn Es) as (Hi1 & _ & Hst).
  destruct st as [u|e|msg|]; [|..|by injection H as <- <-; simpl; rewrite Hst, <-Hv0|by injection H as <- <-].
  - edestruct (store_success_run gen (st_BaseURL name) result name)
      as (now & now' & d0 & w2 & [_ Hv2] & Hrun).
    rewrite Hrun in H. injection H as <- <-. split; [done|]. destruct Hst as (d & Hc & Hv).
    exists result, w0, d. split_and!; try done; [apply agrees_update|].
    simpl. by rewrite Hv2.
  - edestruct (fail_progressing_run (A := Z) gen) as (now & w2 & [_ Hv2] & Hf).
    rewrite Hf in H. injection H as <- <-. split_and!; try done; [apply reports_update|apply same_serving_progressing|].
    simpl. by rewrite Hv2, <-Hv0.
Qed.

(** ** The decision to unpack *)

(** Looking at the clock and at the storage. *)
Inductive reads (name : string) : W → W → Prop :=
  | reads_refl w : reads name w w
  | reads_now w t w1 w2 : Now w = (Ok t, w1) → reads name w1 w2 → reads name w w2
  | reads_exists w b w1 w2 :
      st_ContentExists name w = (Ok b, w1) → reads name w1 w2 → reads name w w2.

Lemma reads_trans name w1 w2 w3 : reads name w1 w2 → reads name w2 w3 → reads name w1 w3.
Proof.
  intros H. induction H as [w|w t w1 w2 Ht _ IH|w b w1 w2 Hb _ IH]; intros H3; [done| |].
  - eapply reads_now; eauto.
  - eapply reads_exists; eauto.
Qed.

Lemma reads_quiet name w w' : elem_ok name → st_inv w → reads name w w' → quiet w w'.
Proof.
  intros Hn Hi H. induction H as [w|w t w1 w2 Ht _ IH|w b w1 w2 Hb _ IH]; [reflexivity| |].
  - pose proof (stable_Now w) as Hq. rewrite Ht in Hq. etrans; [exact Hq|]. by apply IH, Hq.
  - pose proof (stable_ContentExists name Hn w Hi) as Hq. rewrite Hb in Hq.
    etrans; [exact Hq|]. by apply IH, Hq.
Qed.

(** While the world is only looked at, the storage answers the truth. *)
Definition answers name (w : W) : Prop :=
  ∀ w1 b w2, reads name w w1 → st_ContentExists name w1 = (Ok b, w2) →
    b = true ↔ is_Some (st_view w1 name).

(** A catalog that is neither disabled nor being deleted, with its finalizer. *)
Definition live (c : ClusterCatalog) : Prop :=
  AvailabilityMode (Spec c) ≠ AvailabilityModeUnavailable ∧ deleting c = false ∧
  fbcDeletionFinalizer ∈ cat_finalizers c.

Definition decide_and_run (catalog : ClusterCatalog) : GoM (RS W FSys) Z :=
  cur <- getCurrentState catalog ;;
  needed <- needsUnpack catalog cur.1 cur.2 ;;
  match needed : bool, cur.2 with
  | false, Some storedCatalog =>
      nextPollResult (LastSuccessfulPollAttempt (unpackResult storedCatalog)) catalog
  | _, _ => unpackAndStore
  end.

Lemma reconcile_live s : live (rs_catalog s) → reconcile s = decide_and_run (rs_catalog s) s.
Proof.
  intros (Ha & Hd & Hf). unfold reconcile. erewrite bind_step by reflexivity.
  rewrite decide_False by done. erewrite bind_step.
  2:{ rewrite Finalize_spec, Hd. cbv zeta. rewrite bool_decide_true by done. reflexivity. }
  done.
Qed.

Lemma lift_inv {B : Type} (m : GoM W B) s r s' :
  lift m s = (r, s') →
  m (rs_world s) = (r, rs_world s') ∧ rs_catalog s' = rs_catalog s ∧ rs_stored s' = rs_stored s.
Proof. unfold lift. destruct (m (rs_world s)). by intros [= <- <-]. Qed.

Definition only_reads name s s' : Prop :=
  rs_catalog s' = rs_catalog s ∧ rs_stored s' = rs_stored s ∧
  reads name (rs_world s) (rs_world s').

(** What [getCurrentState] returns. *)
Lemma getCurrentState_Ok c s cur s' :
  getCurrentState c s = (Ok cur, s') →
  only_reads (cat_name c) s s' ∧ cur.2 = rs_stored s !! cat_name c ∧
  (cur.1 = clearUnknownConditions (Status c) ∨
   ∃ d now now', cur.2 = Some d ∧
     cur.1 = updateStatusProgressing now' (observedGeneration d) None
       (updateStatusServing now (unpackResult d) (st_BaseURL (cat_name c)) (observedGeneration d)
          (clearUnknownConditions (Status c)))) ∧
  ∀ d, cur.2 = Some d → ∃ b w1, st_ContentExists (cat_name c) (rs_world s) = (Ok b, w1) ∧
    reads (cat_name c) w1 (rs_world s') ∧
    (b = true → ∃ now now',
     cur.1 = updateStatusProgressing now' (observedGeneration d) None
       (updateStatusServing now (unpackResult d) (st_BaseURL (cat_name c)) (observedGeneration d)
          (clearUnknownConditions (Status c)))).
Proof.
  unfold getCurrentState, only_reads. intros H. erewrite bind_step in H by reflexivity.
  destruct (rs_stored s !! cat_name c) as [d|] eqn:Es.
  2:{ injection H as <- <-. split_and!; try done; [constructor|by left]. }
  apply bind_Ok in H as (b & s1 & He & H). apply lift_inv in He as (He & Hc1 & Hs1).
  destruct b.
  - apply bind_Ok in H as (now & s2 & Hn & H). apply lift_inv in Hn as (Hn & Hc2 & Hs2).
    apply bind_Ok in H as (now' & s3 & Hn' & H). apply lift_inv in Hn' as (Hn' & Hc3 & Hs3).
    injection H as <- <-.
    assert (Hr : reads (cat_name c) (rs_world s1) (rs_world s3)).
    { econstructor; [exact Hn|]. econstructor; [exact Hn'|]. constructor. }
    split_and!; try done; try congruence.
    + by econstructor 3.
    + right. by exists d, now, now'.
    + intros d' [= <-]. exists true, (rs_world s1). split_and!; [done..|]. intros _. by exists now, now'.
  - injection H as <- <-. split_and!; try done; try congruence.
    + econstructor 3; [exact He|constructor].
    + by left.
    + intros d' [= <-]. exists false, (rs_world s1). split_and!; [done|constructor|done].
Qed.

Lemma needsPoll_reads t c s b s' :
  needsPoll t c s = (Ok b, s') → only_reads (cat_name c) s s'.
Proof.
  unfold needsPoll, only_reads. destruct (Image (Source (Spec c))) as [img|]; [|done].
  destruct (PollIntervalMinutes img) as [m|].
  - intros H. apply bind_Ok in H as (now & s1 & Hn & H). apply lift_inv in Hn as (Hn & ? & ?).
    injection H as _ <-. split_and!; [done..|]. econstructor; [exact Hn|constructor].
  - intros [= _ <-]. split_and!; [done..|constructor].
Qed.

Lemma needsUnpack_Ok c e o s b s' :
  needsUnpack c e o s = (Ok b, s') →
  only_reads (cat_name c) s s' ∧
  (b = false → ∃ d w1, o = Some d ∧ st_ContentExists (cat_name c) (rs_world s) = (Ok true, w1) ∧
     Status c = e ∧ cat_generation c = observedGeneration d).
Proof.
  unfold needsUnpack, only_reads. destruct o as [d|].
  2:{ intros [= <- <-]. split; [split_and!; [done..|constructor]|done]. }
  intros H. apply bind_Ok in H as (x & s1 & He & H). apply lift_inv in He as (He & Hc1 & Hs1).
  assert (Hr1 : reads (cat_name c) (rs_world s) (rs_world s1)) by (econstructor 3; [exact He|constructor]).
  destruct x; simpl in H; [|injection H as <- <-; by split_and!].
  destruct (DeepEqual_status (Status c) e) eqn:Ed; simpl in H; [|injection H as <- <-; by split_and!].
  destruct (Z.eqb_spec (cat_generation c) (observedGeneration d)) as [Hg|Hg]; simpl in H;
    [|injection H as <- <-; by split_and!].
  apply DeepEqual_status_spec in Ed. split.
  - apply needsPoll_reads in H as (? & ? & Hr). split_and!; [congruence..|].
    by eapply reads_trans.
  - intros ->. by exists d, (rs_world s1).
Qed.

Lemma no_entry_unpacks s :
  rs_stored s !! cat_name (rs_catalog s) = None →
  decide_and_run (rs_catalog s) s = unpackAndStore s.
Proof.
  intros Hs. unfold decide_and_run, getCurrentState.
  erewrite bind_step by (erewrite bind_step by reflexivity; rewrite Hs; reflexivity). done.
Qed.

Lemma unpackAndStore_total s result w0 w1 :
  Unpack (rs_catalog s) (rs_world s) = (Ok result, w0) →
  st_Store (cat_name (rs_catalog s)) (FS result) w0 = (Ok tt, w1) →
  ∃ res s', unpackAndStore s = (Ok res, s').
Proof.
  intros Hu Hst. unfold unpackAndStore. erewrite bind_step by reflexivity.
  erewrite bind_step; [|apply try_step; instantiate (2 := inl result); by apply lift_run].
  cbv beta iota. rewrite decide_True by (by eapply up_state).
  erewrite bind_step; [|apply try_step; instantiate (2 := inl tt); by apply lift_run].
  cbv beta iota zeta.
  edestruct (store_success_run (cat_generation (rs_catalog s))
    (st_BaseURL (cat_name (rs_catalog s))) result (cat_name (rs_catalog s)))
    as (now & now' & x & w2 & _ & Hrun). rewrite Hrun. eauto.
Qed.

(** A live catalog, after a reconciliation that succeeded: the status tells
    what is stored and served. *)
Lemma decide_and_run_Ok s res s' :
  let c := rs_catalog s in let name := cat_name c in let gen := cat_generation c in
  st_inv (rs_world s) → elem_ok name → answers name (rs_world s) →
  decide_and_run c s = (Ok res, s') →
  cat_finalizers (rs_catalog s') = cat_finalizers c ∧
  ∃ d, rs_stored s' !! name = Some d ∧ observedGeneration d = gen ∧
    agrees (st_BaseURL name) gen (unpackResult d) (Status (rs_catalog s')) ∧
    is_Some (st_view (rs_world s') name).
Proof.
  intros c name gen Hi Hn Ha H. unfold decide_and_run in H.
  apply bind_Ok in H as (cur & s1 & Hcur & H). apply bind_Ok in H as (b & s2 & Hb & H).
  apply getCurrentState_Ok in Hcur as ((Hc1 & Hs1 & Hr1) & Hst & _ & Hexp).
  apply needsUnpack_Ok in Hb as ((Hc2 & Hs2 & Hr2) & Hfalse).
  assert (Hr : reads name (rs_world s) (rs_world s2)) by (by eapply reads_trans).
  pose proof (reads_quiet _ _ _ Hn Hi Hr) as [Hi2 Hv2]. specialize (Hi2 Hi).
  assert (Hgo : unpackAndStore s2 = (Ok res, s') → cat_finalizers (rs_catalog s') = cat_finalizers c ∧
    ∃ d, rs_stored s' !! name = Some d ∧ observedGeneration d = gen ∧
    agrees (st_BaseURL name) gen (unpackResult d) (Status (rs_catalog s')) ∧
    is_Some (st_view (rs_world s') name)).
  { intros Hu. assert (Hcs : rs_catalog s2 = c) by (by rewrite Hc2, Hc1).
    apply unpackAndStore_spec in Hu; rewrite ?Hcs; [|done..].
    rewrite Hcs in Hu. destruct Hu as (Hf & result & w0 & d & _ & Hstored & Hag & _ & Hview).
    split; [done|]. rewrite Hstored, lookup_insert_eq. by eauto 10. }
  destruct b; [by apply Hgo|]. destruct (Hfalse eq_refl) as (d & w1 & Hd & Hex & Hstatus & Hgen).
  rewrite Hd in H. destruct (nextPollResult_run (LastSuccessfulPollAttempt (unpackResult d)) c s2)
    as (res' & w3 & [_ Hv3] & Hrun). rewrite Hrun in H. injection H as <- <-. cbn.
  assert (Hcs : rs_catalog s2 = c) by (by rewrite Hc2, Hc1). rewrite Hcs. split; [done|]. exists d.
  assert (Hview : is_Some (st_view (rs_world s1) name)) by (by eapply Ha).
  pose proof (reads_quiet _ _ _ Hn Hi Hr1) as [_ Hv1].
  split_and!.
  - rewrite Hs2, Hs1. by rewrite <-Hd.
  - by symmetry.
  - destruct (Hexp d Hd) as (b0 & wx & Hex0 & _ & Hcur).
    destruct Hcur as (now & now' & Heq); [eapply Ha; [constructor|exact Hex0|]; by rewrite <-Hv1|].
    unfold gen. rewrite Hstatus, Heq, Hgen. apply agrees_expected.
  - by rewrite Hv3, Hv2, <-Hv1.
Qed.

Lemma unpackAndStore_known s res s' :
  unpackAndStore s = (Ok res, s') → known_only (Status (rs_catalog s)) →
  known_only (Status (rs_catalog s')).
Proof.
  unfold unpackAndStore. intros H Hk. erewrite bind_step in H by reflexivity.
  apply bind_Ok in H as ([result|e] & s1 & Hu & H).
  2:{ edestruct (fail_progressing_run (A := Z)) as (now & w & _ & Hf). by rewrite Hf in H. }
  apply try_Ok, lift_inv in Hu as (_ & Hc1 & _). destruct (decide _); [|done].
  apply bind_Ok in H as ([[]|e'] & s2 & Hs & H).
  2:{ edestruct (fail_progressing_run (A := Z)) as (now & w & _ & Hf). by rewrite Hf in H. }
  apply try_Ok, lift_inv in Hs as (_ & Hc2 & _).
  edestruct (store_success_run (cat_generation (rs_catalog s)) (st_BaseURL (cat_name (rs_catalog s)))
               result (cat_name (rs_catalog s)) s2) as (now & now' & d & w & _ & Hrun).
  rewrite Hrun in H. injection H as _ <-. cbn [rs_catalog Status set_status].
  apply (known_set now' (servingCond _)); [done|].
  apply (known_set now (progressingCond _ None)); [done|]. by rewrite Hc2, Hc1.
Qed.

(** Unpack times stay whole, and no unknown condition appears. *)
Lemma decide_and_run_whole s res s' :
  let c := rs_catalog s in let name := cat_name c in
  st_inv (rs_world s) → elem_ok name →
  (∀ d, rs_stored s !! name = Some d → whole_seconds (UnpackTime (unpackResult d))) →
  known_only (Status c) → decide_and_run c s = (Ok res, s') →
  known_only (Status (rs_catalog s')) ∧
  ∀ d, rs_stored s' !! name = Some d → whole_seconds (UnpackTime (unpackResult d)).
Proof.
  intros c name Hi Hn Hw Hk H. unfold decide_and_run in H.
  apply bind_Ok in H as (cur & s1 & Hcur & H). apply bind_Ok in H as (b & s2 & Hb & H).
  apply getCurrentState_Ok in Hcur as ((Hc1 & Hs1 & R1) & _).
  apply needsUnpack_Ok in Hb as ((Hc2 & Hs2 & R2) & _).
  assert (Hc : rs_catalog s2 = c) by (by rewrite Hc2, Hc1).
  assert (Hgo : unpackAndStore s2 = (Ok res, s') → known_only (Status (rs_catalog s')) ∧
    ∀ d, rs_stored s' !! name = Some d → whole_seconds (UnpackTime (unpackResult d))).
  { intros Hu. split; [eapply unpackAndStore_known; [exact Hu|by rewrite Hc]|].
    apply unpackAndStore_spec in Hu; rewrite ?Hc; [|by apply (reads_quiet _ _ _ Hn Hi (reads_trans _ _ _ _ R1 R2))|done].
    rewrite Hc in Hu. destruct Hu as (_ & result & w0 & d & Hup & Hst & _).
    intros d'. rewrite Hst. unfold name. rewrite lookup_insert_eq. intros [= <-]. by eapply up_time. }
  destruct b; [by apply Hgo|]. destruct cur.2 as [d|]; [|by apply Hgo].
  edestruct (nextPollResult_run (LastSuccessfulPollAttempt (unpackResult d)) c s2)
    as (x & w3 & _ & E). rewrite E in H. injection H as _ <-. cbn.
  rewrite Hc, Hs2, Hs1. by split.
Qed.

(** ** A settled catalog *)

(** It is not time to poll, whenever the clock is read from [w] on. *)
Definition not_due name (w : W) (c : ClusterCatalog) (last : Z) : Prop :=
  ∃ img, Image (Source (Spec c)) = Some img ∧
  ∀ minutes, PollIntervalMinutes img = Some minutes →
  ∀ w1 t w2, reads name w w1 → Now w1 = (Ok t, w2) →
    (t ≤ time_Add last (duration_mul minutes Minute))%Z.

Lemma needsPoll_not_due name w c last s :
  not_due name w c last → reads name w (rs_world s) →
  ∃ s', needsPoll last c s = (Ok false, s') ∧ only_reads name s s'.
Proof.
  intros (img & Himg & Hdue) Hr. unfold needsPoll. rewrite Himg.
  destruct (PollIntervalMinutes img) as [m|].
  2:{ eexists. split; [done|]. split_and!; [done..|constructor]. }
  destruct (up_now (rs_world s)) as (t & w' & Ht & _).
  exists (mkRS (rs_catalog s) (rs_stored s) w'). split.
  - erewrite bind_step by (by apply lift_run). unfold ret, time_Before. do 2 f_equal.
    apply Z.ltb_ge. by eapply (Hdue m eq_refl (rs_world s) t w').
  - split_and!; [done..|]. econstructor; [exact Ht|constructor].
Qed.

Lemma nextPollResult_reads name t c s :
  ∃ d w', reads name (rs_world s) w' ∧
    nextPollResult t c s = (Ok d, mkRS (rs_catalog s) (rs_stored s) w').
Proof.
  destruct (up_now (rs_world s)) as (now & w' & Hn & Hq). unfold nextPollResult.
  destruct (decide _); [|by exists 0%Z, (rs_world s); destruct s; split; [constructor|]].
  destruct (poll_minutes c); [|by exists 0%Z, (rs_world s); destruct s; split; [constructor|]].
  eexists _, w'. split; [econstructor; [exact Hn|constructor]|].
  erewrite bind_step by reflexivity. erewrite bind_step by (by apply lift_run). done.
Qed.

(** The storage finds the content, whenever it is asked from [w] on. *)
Definition present name (w : W) : Prop :=
  ∀ w1, reads name w w1 → ∃ w2, st_ContentExists name w1 = (Ok true, w2).

Lemma settled_run s d :
  let c := rs_catalog s in let name := cat_name c in let gen := cat_generation c in
  rs_stored s !! name = Some d → observedGeneration d = gen →
  known_only (Status c) → agrees (st_BaseURL name) gen (unpackResult d) (Status c) →
  present name (rs_world s) →
  not_due name (rs_world s) c (LastSuccessfulPollAttempt (unpackResult d)) →
  ∃ res w', reads name (rs_world s) w' ∧
    decide_and_run c s = (Ok res, mkRS c (rs_stored s) w').
Proof.
  intros c name gen Hd Hg Hk Hag Hp Hdue.
  destruct (Hp (rs_world s)) as [w1 E1]; [constructor|].
  destruct (up_now w1) as (t2 & w2 & E2 & _). destruct (up_now w2) as (t3 & w3 & E3 & _).
  assert (R3 : reads name (rs_world s) w3).
  { econstructor 3; [exact E1|]. econstructor 2; [exact E2|]. econstructor 2; [exact E3|constructor]. }
  destruct (Hp w3 R3) as [w4 E4].
  assert (R4 : reads name (rs_world s) w4).
  { eapply reads_trans; [exact R3|]. econstructor 3; [exact E4|constructor]. }
  destruct (needsPoll_not_due name _ c _ (mkRS c (rs_stored s) w4) Hdue R4)
    as (s5 & E5 & Hc5 & Hs5 & R5).
  destruct (nextPollResult_reads name (LastSuccessfulPollAttempt (unpackResult d)) c s5)
    as (res & w6 & R6 & E6).
  exists res, w6. split; [by eapply reads_trans; [|eapply reads_trans]|].
  unfold decide_and_run. erewrite bind_step.
  2:{ unfold getCurrentState. erewrite bind_step by reflexivity. fold name. rewrite Hd.
      erewrite bind_step by (apply lift_run; exact E1). cbv beta iota.
      erewrite bind_step by (apply lift_run; exact E2).
      erewrite bind_step by (apply lift_run; exact E3). reflexivity. }
  cbn [fst snd]. rewrite Hg, agrees_settled by done. erewrite bind_step.
  2:{ unfold needsUnpack. erewrite bind_step by (apply lift_run; exact E4). cbn [negb].
      rewrite (proj2 (DeepEqual_status_spec _ _) eq_refl). cbn [negb].
      rewrite Hg, Z.eqb_refl. exact E5. }
  cbv iota. rewrite E6. cbn in Hc5, Hs5. by rewrite Hc5, Hs5.
Qed.

(** ** A condition of a foreign type *)

Lemma st_ContentExists_total name w :
  st_inv w → elem_ok name →
  (∃ b w', st_ContentExists name w = (Ok b, w')) ∨ (st_ContentExists name w).1 = Crash.
Proof.
  intros Hi Hn. destruct (st_ContentExists name w) as [r w'] eqn:E.
  destruct (st_ContentExists_spec _ _ _ _ Hi Hn E) as (_ & _ & Hr).
  destruct r; try done; [left; eauto|by right].
Qed.

Lemma getCurrentState_total c s :
  st_inv (rs_world s) → elem_ok (cat_name c) →
  (∃ cur s', getCurrentState c s = (Ok cur, s')) ∨ (getCurrentState c s).1 = Crash.
Proof.
  intros Hi Hn. unfold getCurrentState. erewrite bind_step by reflexivity.
  destruct (rs_stored s !! cat_name c) as [d|]; [|left; eauto].
  destruct (st_ContentExists_total _ _ Hi Hn) as [(b & w' & E)|E].
  - left. erewrite bind_step by (apply lift_run; exact E). destruct b; [|eauto].
    destruct (up_now w') as (t2 & w2 & E2 & _). destruct (up_now w2) as (t3 & w3 & E3 & _).
    erewrite bind_step by (apply lift_run; exact E2).
    erewrite bind_step by (apply lift_run; exact E3). eauto.
  - right. unfold bind, lift. destruct (st_ContentExists (cat_name c) (rs_world s)) as [r w'].
    simpl in E. by subst.
Qed.

Lemma expected_known c s cur s' : getCurrentState c s = (Ok cur, s') → known_only cur.1.
Proof.
  intros H. apply getCurrentState_Ok in H as (_ & _ & [-> |(d & now & now' & _ & ->)] & _).
  - apply clear_is_known.
  - apply known_set; [done|]. apply (known_set now (servingCond _)); [done|]. apply clear_is_known.
Qed.

Lemma needsUnpack_unknown c e o s :
  st_inv (rs_world s) → elem_ok (cat_name c) → known_only e → ¬ known_only (Status c) →
  (∃ s', needsUnpack c e o s = (Ok true, s') ∧ only_reads (cat_name c) s s')
  ∨ (needsUnpack c e o s).1 = Crash.
Proof.
  intros Hi Hn He Hc. unfold needsUnpack. destruct o as [d|].
  2:{ left. eexists. split; [done|]. split_and!; [done..|constructor]. }
  destruct (st_ContentExists_total _ _ Hi Hn) as [(b & w' & E)|E].
  - left. exists (mkRS (rs_catalog s) (rs_stored s) w').
    split; [|split_and!; [done..|econstructor 3; [exact E|constructor]]].
    erewrite bind_step by (apply lift_run; exact E). destruct b; [|done]. cbn [negb].
    destruct (DeepEqual_status (Status c) e) eqn:Ed; [|done].
    apply DeepEqual_status_spec in Ed. congruence.
  - right. unfold bind, lift. destruct (st_ContentExists (cat_name c) (rs_world s)) as [r w'].
    simpl in E. by subst.
Qed.

Lemma unknown_unpacks s :
  let c := rs_catalog s in
  st_inv (rs_world s) → elem_ok (cat_name c) → ¬ known_only (Status c) →
  (∃ s1, only_reads (cat_name c) s s1 ∧ decide_and_run c s = unpackAndStore s1)
  ∨ (decide_and_run c s).1 = Crash.
Proof.
  intros c Hi Hn Hk. unfold decide_and_run.
  destruct (getCurrentState_total c s Hi Hn) as [(cur & s1 & E)|E].
  2:{ right. unfold bind. destruct (getCurrentState c s) as [r s1]. simpl in E. by subst. }
  pose proof (expected_known _ _ _ _ E) as He.
  pose proof (getCurrentState_Ok _ _ _ _ E) as ((Hc1 & Hs1 & R1) & _).
  erewrite bind_step by exact E.
  destruct (needsUnpack_unknown c cur.1 cur.2 s1) as [(s2 & E2 & Hc2 & Hs2 & R2)|E2]; try done.
  - by apply (reads_quiet _ _ _ Hn Hi R1).
  - left. exists s2. split; [split_and!; [congruence..|by eapply reads_trans]|].
    by erewrite bind_step by exact E2.
  - right. unfold bind. destruct (needsUnpack c cur.1 cur.2 s1) as [r s2]. simpl in E2. by subst.
Qed.

Lemma needsUnpack_fail c e o s r s' :
  st_inv (rs_world s) → elem_ok (cat_name c) → needsUnpack c e o s = (r, s') →
  match r with
  | Ok _ | Panic _ => only_reads (cat_name c) s s'
  | Err _ => False
  | Crash => True
  end.
Proof.
  intros Hi Hn H. destruct r as [b|x|msg|]; [by eapply needsUnpack_Ok| | |done];
    unfold needsUnpack in H; (destruct o as [d|]; [|done]);
    unfold bind at 1, lift at 1 in H;
    (destruct (st_ContentExists_total _ _ Hi Hn) as [(b & w' & E)|E];
       [rewrite E in H|by destruct (st_ContentExists _ _) as [[]]; simpl in E]);
    (destruct b; simpl in H; [|done]); (destruct (DeepEqual_status _ _); simpl in H; [|done]);
    (destruct (Z.eqb _ _); simpl in H; [|done]);
    unfold needsPoll in H; (destruct (Image _) as [img|]; [|try done]);
    try (destruct (PollIntervalMinutes img); [|done]; destruct (up_now w') as (t & w2 & Et & _);
         by erewrite bind_step in H by (apply lift_run; exact Et)).
  injection H as _ <-. split_and!; [done..|econstructor 3; [exact E|constructor]].
Qed.

(** The last part of [reconcile] fails only in [unpackAndStore], and panics
    there or before anything was changed. *)
Lemma decide_and_run_fail s r s' :
  let c := rs_catalog s in
  st_inv (rs_world s) → elem_ok (cat_name c) → decide_and_run c s = (r, s') →
  match r with
  | Ok _ | Crash => True
  | Err _ => ∃ s1, only_reads (cat_name c) s s1 ∧ unpackAndStore s1 = (r, s')
  | Panic _ => only_reads (cat_name c) s s' ∨
               ∃ s1, only_reads (cat_name c) s s1 ∧ unpackAndStore s1 = (r, s')
  end.
Proof.
  intros c Hi Hn H. unfold decide_and_run in H. unfold bind at 1 in H.
  destruct (getCurrentState_total c s Hi Hn) as [(cur & s1 & E)|E].
  2:{ destruct (getCurrentState c s) as [r1 s1]. simpl in E. subst. by injection H as <- <-. }
  rewrite E in H. apply getCurrentState_Ok in E as ((Hc1 & Hs1 & R1) & _).
  assert (Hi1 : st_inv (rs_world s1)) by (by apply (reads_quiet _ _ _ Hn Hi R1)).
  unfold bind at 1 in H. destruct (needsUnpack c cur.1 cur.2 s1) as [r2 s2] eqn:E2.
  pose proof (needsUnpack_fail _ _ _ _ _ _ Hi1 Hn E2) as H2.
  assert (Hr : only_reads (cat_name c) s1 s2 → only_reads (cat_name c) s s2).
  { intros (Hc2 & Hs2 & R2). split_and!; [congruence..|by eapply reads_trans]. }
  destruct r2 as [b|x|msg|]; [|done|injection H as <- <-; auto|by injection H as <- <-].
  assert (Hu : unpackAndStore s2 = (r, s') → match r with
    | Ok _ | Crash => True
    | Err _ => ∃ s1, only_reads (cat_name c) s s1 ∧ unpackAndStore s1 = (r, s')
    | Panic _ => only_reads (cat_name c) s s' ∨
               ∃ s1, only_reads (cat_name c) s s1 ∧ unpackAndStore s1 = (r, s') end).
  { intros Hu. destruct r; eauto 10. }
  destruct b; [by apply Hu|]. destruct cur.2 as [d|]; [|by apply Hu].
  destruct (nextPollResult_run (LastSuccessfulPollAttempt (unpackResult d)) c s2)
    as (x & w3 & _ & E3). rewrite E3 in H. by injection H as <- <-.
Qed.

Lemma decide_and_run_Err s e s' :
  let c := rs_catalog s in
  st_inv (rs_world s) → elem_ok (cat_name c) → decide_and_run c s = (Err e, s') →
  cat_finalizers (rs_catalog s') = cat_finalizers c ∧
  ∃ e0, (e = e0 ∨ e = finalize_error fbcDeletionFinalizer e0) ∧
    reports (cat_generation c) e0 (Status (rs_catalog s')).
Proof.
  intros c Hi Hn H. destruct (decide_and_run_fail _ _ _ Hi Hn H) as (s1 & (Hc & Hs & R) & Hu).
  apply unpackAndStore_spec in Hu; rewrite ?Hc; [|by apply (reads_quiet _ _ _ Hn Hi R)|done].
  rewrite Hc in Hu. destruct Hu as (? & ? & ? & ?). eauto.
Qed.

(** ** The ways through [reconcile] *)

Abbreviation fin := fbcDeletionFinalizer.
Definition has_fin (c : ClusterCatalog) : bool := bool_decide (fin ∈ cat_finalizers c).
Definition unavailable (c : ClusterCatalog) : Prop :=
  AvailabilityMode (Spec c) = AvailabilityModeUnavailable.

Definition with_finalizers (fs : list string) s : RS W FSys :=
  mkRS (set_finalizers fs (rs_catalog s)) (rs_stored s) (rs_world s).

Lemma reconcile_unavailable s : unavailable (rs_catalog s) → reconcile s = makeUnavailable s.
Proof. intros H. unfold reconcile. erewrite bind_step by reflexivity. by rewrite decide_True. Qed.

Lemma reconcile_available s :
  ¬ unavailable (rs_catalog s) →
  let c := rs_catalog s in
  reconcile s =
    match deleting c, has_fin c with
    | true, true =>
        match deleteCatalogCache s with
        | (Ok _, s') => (Ok 0%Z, with_finalizers (RemoveFinalizer (cat_finalizers (rs_catalog s')) fin) s')
        | (Err e, s') => (Err (finalize_error fin e), s')
        | (Panic msg, s') => (Panic msg, s')
        | (Crash, s') => (Crash, s')
        end
    | false, false => (Ok 0%Z, with_finalizers (AddFinalizer (cat_finalizers c) fin) s)
    | _, _ => decide_and_run c s
    end.
Proof.
  intros H c. unfold reconcile. erewrite bind_step by reflexivity. rewrite decide_False by done.
  unfold bind at 1. rewrite Finalize_spec. cbv zeta. fold c. fold (has_fin c).
  destruct (deleting c), (has_fin c); try done.
  unfold fbcFinalizer, bind at 1. by destruct (deleteCatalogCache s) as [[u|e|msg|] s'].
Qed.

(** The object after the catalog was made unavailable. *)
Lemma makeUnavailable_spec s r s' :
  let c := rs_catalog s in let name := cat_name c in let gen := cat_generation c in
  st_inv (rs_world s) → elem_ok name → makeUnavailable s = (r, s') →
  match r with
  | Ok res =>
      res = 0%Z ∧ st_view (rs_world s') name = None ∧ rs_stored s' = delete name (rs_stored s) ∧
      cat_finalizers (rs_catalog s') = RemoveFinalizer (cat_finalizers c) fin ∧
      unserved (Status (rs_catalog s')) ∧
      shows (Status (rs_catalog s')) TypeServing ConditionFalse ReasonUserSpecifiedUnavailable msgUnavailable gen ∧
      shows (Status (rs_catalog s')) TypeProgressing ConditionTrue ReasonSucceeded msgUnavailable gen
  | Err e =>
      cat_finalizers (rs_catalog s') = cat_finalizers c ∧ reports gen e (Status (rs_catalog s'))
  | Panic _ => False
  | Crash => True
  end.
Proof.
  intros c name gen Hi Hn H. unfold makeUnavailable in H. unfold bind at 1 in H.
  pose proof (frame_deleteCatalogCache name s eq_refl Hn Hi) as (Hb & _).
  destruct (deleteCatalogCache s) as [d s1] eqn:Ed. simpl in Hb.
  destruct (deleteCatalogCache_spec _ _ _ Hi Hn Ed) as (Hf & Hd).
  destruct d as [u|e|msg|]; [|by injection H as <- <-; destruct Hd|done|by injection H as <- <-].
  destruct Hd as (Hv & Hs & (now0 & Hst) & _).
  destruct (up_now (rs_world s1)) as (t1 & w1 & E1 & Q1). destruct (up_now w1) as (t2 & w2 & E2 & Q2).
  erewrite bind_step in H by (apply lift_run; exact E1).
  erewrite bind_step in H by (apply lift_run; exact E2).
  erewrite bind_step in H by reflexivity. erewrite bind_step in H by reflexivity.
  injection H as <- <-. cbn.
  assert (Hq : st_view w2 name = None) by (destruct Q1 as [_ V1], Q2 as [_ V2]; by rewrite V2, V1).
  split_and!; try done.
  - exact (f_equal (λ l, RemoveFinalizer l fin) Hf).
  - unfold unserved. cbn. by rewrite Hst.
  - rewrite (bare_generation _ _ Hb). apply shows_set.
  - apply shows_set_ne; [done|]. rewrite (bare_generation _ _ Hb). apply shows_set.
Qed.

Lemma reconcile_Err s e s' :
  let c := rs_catalog s in
  st_inv (rs_world s) → elem_ok (cat_name c) → reconcile s = (Err e, s') →
  cat_finalizers (rs_catalog s') = cat_finalizers c ∧
  ∃ e0, (e = e0 ∨ e = finalize_error fin e0) ∧ reports (cat_generation c) e0 (Status (rs_catalog s')).
Proof.
  intros c Hi Hn H.
  destruct (decide (unavailable c)) as [Hu|Hu].
  { rewrite reconcile_unavailable in H by done.
    destruct (makeUnavailable_spec _ _ _ Hi Hn H) as [? ?]. eauto. }
  rewrite reconcile_available in H by done. cbv zeta in H. fold c in H.
  destruct (deleting c), (has_fin c); try done.
  - destruct (deleteCatalogCache s) as [d s1] eqn:Ed.
    destruct (deleteCatalogCache_spec _ _ _ Hi Hn Ed) as (Hf & Hd).
    destruct d; try done. injection H as <- <-. split; [done|]. destruct Hd. eauto.
  - by eapply decide_and_run_Err.
  - by eapply decide_and_run_Err.
Qed.

(** ** What the map says is served *)

Definition serves_at name (m : gmap string (storedCatalogData FSys)) (w : W) : Prop :=
  is_Some (m !! name) → is_Some (st_view w name).

Lemma serves_reads name s s' :
  elem_ok name → st_inv (rs_world s) → only_reads name s s' →
  serves_at name (rs_stored s) (rs_world s) → serves_at name (rs_stored s') (rs_world s').
Proof.
  intros Hn Hi (_ & Hs & R) H. pose proof (reads_quiet _ _ _ Hn Hi R) as [_ Hv].
  unfold serves_at. by rewrite Hs, Hv.
Qed.

Lemma unpackAndStore_serves s r s' :
  let name := cat_name (rs_catalog s) in
  st_inv (rs_world s) → elem_ok name → unpackAndStore s = (r, s') →
  serves_at name (rs_stored s) (rs_world s) → r ≠ Crash →
  serves_at name (rs_stored s') (rs_world s').
Proof.
  intros name Hi Hn Hu H Hr. apply unpackAndStore_spec in Hu as [_ Hu]; [|done..].
  unfold serves_at in *. destruct r; [| | |done].
  - destruct Hu as (result & w0 & d & _ & _ & _ & _ & Hv). intros _. exists d. exact Hv.
  - destruct Hu as (Hs & _ & _ & Hv). fold name in Hv. by rewrite Hs, Hv.
  - destruct Hu as (Hs & Hv). fold name in Hv. by rewrite Hs, Hv.
Qed.

Lemma decide_and_run_serves s r s' :
  let name := cat_name (rs_catalog s) in
  st_inv (rs_world s) → elem_ok name → decide_and_run (rs_catalog s) s = (r, s') →
  serves_at name (rs_stored s) (rs_world s) → r ≠ Crash →
  serves_at name (rs_stored s') (rs_world s').
Proof.
  intros name Hi Hn H Hsv Hr.
  assert (Hu : ∀ s1, only_reads name s s1 → unpackAndStore s1 = (r, s') →
                 serves_at name (rs_stored s') (rs_world s')).
  { intros s1 Ho Hu. pose proof Ho as (Hc & Hs & R).
    replace name with (cat_name (rs_catalog s1)) by (by rewrite Hc).
    eapply unpackAndStore_serves; rewrite ?Hc; try done.
    - by apply (reads_quiet _ _ _ Hn Hi R).
    - by eapply serves_reads. }
  pose proof (decide_and_run_fail _ _ _ Hi Hn H) as Hf. destruct r as [x|e|msg|]; [| | |done].
  - unfold decide_and_run in H. apply bind_Ok in H as (cur & s1 & Hcur & H).
    apply bind_Ok in H as (b & s2 & Hb & H).
    apply getCurrentState_Ok in Hcur as ((Hc1 & Hs1 & R1) & _).
    apply needsUnpack_Ok in Hb as ((Hc2 & Hs2 & R2) & _).
    assert (Ho : only_reads name s s2) by (split_and!; [congruence..|by eapply reads_trans]).
    destruct b; [by eapply Hu|]. destruct cur.2 as [d|]; [|by eapply Hu].
    edestruct (nextPollResult_reads name) as (y & w3 & R3 & E3). rewrite E3 in H.
    injection H as _ <-. destruct Ho as (? & ? & R). eapply serves_reads; [done|exact Hi| |done].
    split_and!; [done..|]. by eapply reads_trans.
  - destruct Hf as (s1 & ? & ?). by eapply Hu.
  - destruct Hf as [Ho|(s1 & ? & ?)]; [by eapply serves_reads|by eapply Hu].
Qed.

(** After [reconcile], unless it ended in an error, a catalog in the map is
    served. *)
Lemma reconcile_serves s r s' :
  let name := cat_name (rs_catalog s) in
  st_inv (rs_world s) → elem_ok name → reconcile s = (r, s') →
  serves_at name (rs_stored s) (rs_world s) →
  match r with Ok _ | Panic _ => serves_at name (rs_stored s') (rs_world s') | _ => True end.
Proof.
  intros name Hi Hn H Hsv.
  assert (Hdel : ∀ w, serves_at name (delete name (rs_stored s)) w).
  { intros w [d Hd]. by rewrite lookup_delete_eq in Hd. }
  destruct (decide (unavailable (rs_catalog s))) as [Hu|Hu].
  { rewrite reconcile_unavailable in H by done.
    pose proof (makeUnavailable_spec _ _ _ Hi Hn H) as Hm. destruct r; try done.
    destruct Hm as (_ & _ & -> & _). apply Hdel. }
  rewrite reconcile_available in H by done. cbv zeta in H.
  destruct (deleting (rs_catalog s)), (has_fin (rs_catalog s)).
  - destruct (deleteCatalogCache s) as [d s1] eqn:Ed.
    destruct (deleteCatalogCache_spec _ _ _ Hi Hn Ed) as (Hf & Hd).
    destruct d; injection H as <- <-; try done. destruct Hd as (_ & Hs & _). cbn. rewrite Hs. apply Hdel.
  - destruct r; try done; by eapply decide_and_run_serves.
  - destruct r; try done; by eapply decide_and_run_serves.
  - by injection H as <- <-.
Qed.
End Reconciler.

(** * [Reconcile] *)

Section ReconcileTop.
Context {W FSys A : Type}.
Context {ST : StorageInstance W FSys} {SC : StorageContract W FSys}.
Context {UP : Unpacker W FSys} {CK : Clock W} {UC : UnpackerContract W FSys}.
Context {CS : ConditionSetter} {SE : SemanticEquality} {ET : ErrorText}.
Context {FU : FinalizerUtil} {FL : FinalizerLib W FSys} {JT : Jitterer W} {CL : Client A}.
Implicit Types (s : Ctl W FSys A) (name : string).

Lemma unchanged_fields c c' : bare c' = bare c → checkForUnexpectedFieldChange c c' = false.
Proof.
  intros H. unfold checkForUnexpectedFieldChange. rewrite H.
  by rewrite (proj2 (DeepEqual_catalog_spec _ _) eq_refl).
Qed.

(** The updates at the end of [Reconcile]. *)
Definition finish (c0 c1 : ClusterCatalog) (res : Z) (err : option error)
    : GoM (Ctl W FSys A) (Z * option error) :=
  st <- guarded_update (negb (DeepEqual_status (Status c0) (Status c1))) ac_StatusUpdate
          "error updating status: " c1 err ;;
  fin <- guarded_update (negb (DeepEqual_strings (cat_finalizers c0) (cat_finalizers c1))) ac_Update
           "error updating finalizers: " (set_finalizers (cat_finalizers c1) st.1) st.2 ;;
  ret (res, fin.2).

Lemma Reconcile_run name s c a1 :
  st_inv (ctl_world s) → ac_Get name (ctl_api s) = (Ok c, a1) →
  Reconcile name s =
    match reconcile (mkRS c (ctl_stored s) (ctl_world s)) with
    | (Ok res, rs) =>
        finish c (rs_catalog rs) res None (mkCtl (rs_stored rs) (rs_world rs) a1)
    | (Err e, rs) =>
        finish c (rs_catalog rs) 0 (Some e) (mkCtl (delete name (rs_stored rs)) (rs_world rs) a1)
    | (Panic msg, rs) => (Panic msg, mkCtl (rs_stored rs) (rs_world rs) a1)
    | (Crash, rs) => (Crash, mkCtl (rs_stored rs) (rs_world rs) a1)
    end.
Proof.
  intros Hi Hg. destruct (ac_Get_name _ _ _ _ Hg) as [Hname Hok].
  unfold Reconcile. unfold bind at 1, try, lift_api. rewrite Hg.
  unfold bind at 1, on_object. cbn [ctl_stored ctl_world ctl_api].
  pose proof (frame_reconcile name (mkRS c (ctl_stored s) (ctl_world s)) Hname Hok Hi) as (Hb & _).
  destruct (reconcile (mkRS c (ctl_stored s) (ctl_world s))) as [[res|e|msg|] rs]; try done;
    cbn [fst snd rs_catalog] in *; apply unchanged_fields in Hb as Hf.
  - erewrite bind_step by reflexivity. by rewrite Hf.
  - erewrite bind_step by reflexivity. rewrite Hf.
    apply bare_name in Hb. simpl in Hb. by rewrite Hb, Hname.
Qed.

Lemma guarded_update_Ok needed upd prefix c err s x s' :
  guarded_update needed upd prefix c err s = (Ok x, s') →
  ctl_stored s' = ctl_stored s ∧ ctl_world s' = ctl_world s ∧
  (x.2 = None → err = None ∧
     if needed then upd c (ctl_api s) = (Ok x.1, ctl_api s') else x.1 = c ∧ s' = s) ∧
  (err ≠ None → x.2 ≠ None).
Proof.
  unfold guarded_update. destruct needed; [|by intros [= <- <-]].
  intros H. apply bind_Ok in H as (u & s1 & Hu & H). unfold try, lift_api in Hu.
  destruct (upd c (ctl_api s)) as [[c'|e|msg|] a'] eqn:E; try done; injection Hu as <- <-;
    injection H as <- <-; simpl.
  - by split_and!.
  - split_and!; try done; destruct err; done.
Qed.

Lemma guarded_update_state needed upd prefix c err s :
  let s' := (guarded_update needed upd prefix c err s).2 in
  ctl_stored s' = ctl_stored s ∧ ctl_world s' = ctl_world s.
Proof.
  unfold guarded_update. destruct needed; [|done]. unfold bind, try, lift_api.
  by destruct (upd c (ctl_api s)) as [[c'|e|msg|] a'].
Qed.

Lemma finish_state c0 c1 res err s :
  let s' := (finish c0 c1 res err s).2 in
  ctl_stored s' = ctl_stored s ∧ ctl_world s' = ctl_world s.
Proof.
  unfold finish, bind.
  match goal with |- context [guarded_update ?n ?u ?p ?c ?e s] =>
    pose proof (guarded_update_state n u p c e s) as [H1 H2];
    destruct (guarded_update n u p c e s) as [[x|?|?|] s1] end; try done. cbv beta iota.
  match goal with |- context [guarded_update ?n ?u ?p ?c ?e s1] =>
    pose proof (guarded_update_state n u p c e s1) as [H3 H4];
    destruct (guarded_update n u p c e s1) as [[y|?|?|] s2] end;
  simpl in *; split; congruence.
Qed.

(** The state of the reconciler after [Reconcile], except for the API server. *)
Lemma Reconcile_state name s c a1 :
  st_inv (ctl_world s) → ac_Get name (ctl_api s) = (Ok c, a1) →
  let '(r, rs) := reconcile (mkRS c (ctl_stored s) (ctl_world s)) in
  ctl_world (Reconcile name s).2 = rs_world rs ∧
  ctl_stored (Reconcile name s).2 =
    match r with Err _ => delete name (rs_stored rs) | _ => rs_stored rs end ∧
  ((Reconcile name s).1 = Crash ∨ r ≠ Crash).
Proof.
  intros Hi Hg. rewrite (Reconcile_run _ _ _ _ Hi Hg).
  destruct (reconcile _) as [[res|e|msg|] rs]; try (by split_and!; auto).
  - destruct (finish_state c (rs_catalog rs) res None (mkCtl (rs_stored rs) (rs_world rs) a1)).
    split_and!; auto.
  - destruct (finish_state c (rs_catalog rs) 0 (Some e) (mkCtl (delete name (rs_stored rs)) (rs_world rs) a1)).
    split_and!; auto.
Qed.
End ReconcileTop.
