(* ===== verification/ControllerCorrect.v ===== *)
(** The properties of the ClusterCatalog controller, proved against the
    contracts of its storage and its unpacker. *)
From S2P Require Import Prelude GoPath Api Storage Source Controller ControllerLemmas.

Section Correct.
Context {W FSys A : Type}.
Context {ST : StorageInstance W FSys} {SC : StorageContract W FSys}.
Context {UP : Unpacker W FSys} {CK : Clock W} {UC : UnpackerContract W FSys}.
Context {CS : ConditionSetter} {SE : SemanticEquality} {ET : ErrorText}.
Context {FU : FinalizerUtil} {FL : FinalizerLib W FSys} {JT : Jitterer W} {CL : Client A}.
Implicit Types (s : RS W FSys) (t : Ctl W FSys A) (name : string).

(** * One reconciliation *)

(** C21: Whatever happens in [reconcile] (an error, a panic, a killed process), it
    writes no field of the object but the status and the finalizers, so that
    the check of [Reconcile] never fires; and it leaves the map entries and the
    stored content of every other catalog alone. *)
Theorem reconcile_confined s :
  let c := rs_catalog s in let s' := (reconcile s).2 in
  st_inv (rs_world s) → elem_ok (cat_name c) →
  checkForUnexpectedFieldChange c (rs_catalog s') = false ∧
  st_inv (rs_world s') ∧
  ∀ n, elem_ok n → n ≠ cat_name c →
    rs_stored s' !! n = rs_stored s !! n ∧ st_view (rs_world s') n = st_view (rs_world s) n.
Proof.
  intros c s' Hi Hn. destruct (frame_reconcile (cat_name c) s eq_refl Hn Hi) as (Hb & Hs & Hi' & Hv).
  split_and!; [by apply unchanged_fields|done|]. intros n Hok Hne. split; [by apply Hs|by apply Hv].
Qed.


(** A live catalog whose unpacking and storing succeed is reconciled: the
    call returns, the content of the unpacked file system is served, and the
    map and the status record the result. *)
Theorem reconcile_unpacks s result w0 w1 :
  let c := rs_catalog s in let name := cat_name c in let gen := cat_generation c in
  st_inv (rs_world s) → elem_ok name → live c → rs_stored s !! name = None →
  Unpack c (rs_world s) = (Ok result, w0) → st_Store name (FS result) w0 = (Ok tt, w1) →
  ∃ res s' d, reconcile s = (Ok res, s') ∧
    rs_stored s' = <[name := mkStored gen result]> (rs_stored s) ∧
    agrees (st_BaseURL name) gen result (Status (rs_catalog s')) ∧
    st_content w0 (FS result) d ∧ st_view (rs_world s') name = Some d.
Proof.
  intros c name gen Hi Hn Hl Hs Hu Hst. rewrite reconcile_live by done.
  rewrite no_entry_unpacks by done.
  destruct (unpackAndStore_total s result w0 w1 Hu Hst) as (res & s' & Hrun).
  rewrite Hrun. exists res, s'.
  destruct (unpackAndStore_spec _ _ _ Hi Hn Hrun) as (_ & r0 & w0' & d & Hu' & Hm & Ha & Hc & Hv).
  exists d. unfold c in *. rewrite Hu in Hu'. injection Hu' as <- <-. by split_and!.
Qed.

(** A settled catalog is left alone: when the map has the current
    generation, the status is the one that was written for it, the content is
    there and no poll is due, [reconcile] changes neither the object nor the
    map, and only looks at the clock and the storage; nothing is unpacked. *)
Theorem reconcile_settled s d :
  let c := rs_catalog s in let name := cat_name c in let gen := cat_generation c in
  live c → rs_stored s !! name = Some d → observedGeneration d = gen →
  known_only (Status c) → agrees (st_BaseURL name) gen (unpackResult d) (Status c) →
  present name (rs_world s) →
  not_due name (rs_world s) c (LastSuccessfulPollAttempt (unpackResult d)) →
  ∃ res w', reads name (rs_world s) w' ∧ reconcile s = (Ok res, mkRS c (rs_stored s) w').
Proof.
  intros c name gen Hl Hd Hg Hk Ha Hp Hdue. rewrite reconcile_live by done.
  by apply (settled_run s d).
Qed.

(** C17: One unpack is enough. After a successful reconciliation of a live catalog,
    whose status the API server stores with its times cut to seconds, the next
    call of [reconcile] succeeds and leaves that object and the map as they are,
    and only looks at the clock and the storage: nothing is unpacked or stored
    again. This is for objects whose conditions are those of this controller, as
    long as the storage answers that the content is there and no poll is due. *)
Theorem success_settles s res s' (cut : Z → Z) w2 :
  let c := rs_catalog s in let name := cat_name c in
  (∀ x, whole_seconds x → cut x = x) →
  (∀ d, rs_stored s !! name = Some d → whole_seconds (UnpackTime (unpackResult d))) →
  known_only (Status c) →
  st_inv (rs_world s) → elem_ok name → live c → answers name (rs_world s) →
  reconcile s = (Ok res, s') →
  let c' := set_status (wire_status cut (Status (rs_catalog s'))) (rs_catalog s') in
  present name w2 →
  (∀ d, rs_stored s' !! name = Some d →
     not_due name w2 c' (LastSuccessfulPollAttempt (unpackResult d))) →
  ∃ res2 w3, reads name w2 w3 ∧
    reconcile (mkRS c' (rs_stored s') w2) = (Ok res2, mkRS c' (rs_stored s') w3).
Proof.
  intros c name Hcut Hwhole Hk Hi Hn Hl Ha H c' Hp Hdue.
  pose proof (frame_reconcile name s eq_refl Hn Hi) as (Hb & _). rewrite H in Hb. cbn [snd] in Hb.
  rewrite reconcile_live in H by done.
  destruct (decide_and_run_whole s res s' Hi Hn Hwhole Hk H) as (Hk' & Hw').
  destruct (decide_and_run_Ok s res s' Hi Hn Ha H) as (Hf & d & Hd & Hg & Hag & _).
  pose proof (bare_name _ _ Hb) as Hname. pose proof (bare_generation _ _ Hb) as Hgen.
  assert (Hl' : live c').
  { destruct Hl as (H1 & H2 & H3). split_and!; cbn.
    - by rewrite (bare_Spec _ _ Hb).
    - change (deleting (rs_catalog s') = false). by rewrite (bare_deleting _ _ Hb).
    - change (fbcDeletionFinalizer ∈ cat_finalizers (rs_catalog s')). by rewrite Hf. }
  rewrite reconcile_live by done.
  pose proof (settled_run (mkRS c' (rs_stored s') w2) d) as Hrun. cbn [rs_catalog rs_stored rs_world] in Hrun.
  change (cat_name c') with (cat_name (rs_catalog s')) in Hrun.
  change (cat_generation c') with (cat_generation (rs_catalog s')) in Hrun.
  rewrite Hname, Hgen in Hrun. apply Hrun; try done; [by apply known_wire| |by apply Hdue].
  apply agrees_wire; [by apply Hcut, Hw'|done].
Qed.

(** * Availability, creation and deletion *)

(** C19: When [reconcile] succeeds on a catalog whose availability mode is
    Unavailable, nothing is served for it any more, its map entry is gone, the
    finalizer (and no other) is removed, no requeue is asked for, and the status
    shows Serving false with reason UserSpecifiedUnavailable, no URL, no resolved
    source and no unpack time. *)
Theorem reconcile_unavailable_mode s res s' :
  let c := rs_catalog s in let name := cat_name c in let st := Status (rs_catalog s') in
  st_inv (rs_world s) → elem_ok name → unavailable c → reconcile s = (Ok res, s') →
  res = 0%Z ∧ st_view (rs_world s') name = None ∧ rs_stored s' !! name = None ∧
  (∀ f, f ∈ cat_finalizers (rs_catalog s') ↔
        f ∈ cat_finalizers c ∧ f ≠ fbcDeletionFinalizer) ∧
  unserved st ∧
  shows st TypeServing ConditionFalse ReasonUserSpecifiedUnavailable msgUnavailable (cat_generation c) ∧
  shows st TypeProgressing ConditionTrue ReasonSucceeded msgUnavailable (cat_generation c).
Proof.
  intros c name st Hi Hn Hu H. rewrite reconcile_unavailable in H by done.
  destruct (makeUnavailable_spec _ _ _ Hi Hn H) as (-> & Hv & Hs & Hf & Hun & Hsv & Hpr).
  split_and!; try done.
  - rewrite Hs. apply lookup_delete_eq.
  - intros f. rewrite Hf. apply RemoveFinalizer_spec.
Qed.

(** The finalizer comes first: a new catalog gets the finalizer and nothing
    else happens in that call; nothing is unpacked, stored or recorded before
    the finalizer is in place. *)
Theorem finalizer_first s :
  let c := rs_catalog s in
  ¬ unavailable c → deleting c = false → fbcDeletionFinalizer ∉ cat_finalizers c →
  ∃ c', reconcile s = (Ok 0%Z, mkRS c' (rs_stored s) (rs_world s)) ∧
    Status c' = Status c ∧ bare c' = bare c ∧
    ∀ f, f ∈ cat_finalizers c' ↔ f ∈ cat_finalizers c ∨ f = fbcDeletionFinalizer.
Proof.
  intros c Hu Hd Hf. rewrite reconcile_available by done. cbv zeta. fold c.
  unfold has_fin. rewrite Hd, bool_decide_false by done. eexists. split; [done|].
  split_and!; [done|apply bare_set_finalizers|]. intros f. apply AddFinalizer_spec.
Qed.

(** C10: The finalizer of a catalog that is being deleted is removed only when
    its content is gone from the storage, the unpack cache was cleaned and its
    map entry is gone; on an error the finalizer stays and the Progressing
    condition reports the error. *)
Theorem deletion_cleans_up s r s' :
  let c := rs_catalog s in let name := cat_name c in
  st_inv (rs_world s) → elem_ok name → ¬ unavailable c → deleting c = true →
  fbcDeletionFinalizer ∈ cat_finalizers c → reconcile s = (r, s') →
  match r with
  | Ok res =>
      res = 0%Z ∧ st_view (rs_world s') name = None ∧ rs_stored s' !! name = None ∧
      unserved (Status (rs_catalog s')) ∧
      (∃ c1 w1, cat_name c1 = name ∧ Cleanup c1 w1 = (Ok tt, rs_world s')) ∧
      ∀ f, f ∈ cat_finalizers (rs_catalog s') ↔ f ∈ cat_finalizers c ∧ f ≠ fbcDeletionFinalizer
  | Err e =>
      cat_finalizers (rs_catalog s') = cat_finalizers c ∧
      ∃ e0, e = finalize_error fbcDeletionFinalizer e0 ∧
        reports (cat_generation c) e0 (Status (rs_catalog s'))
  | Panic _ => False
  | Crash => True
  end.
Proof.
  intros c name Hi Hn Hu Hd Hf H. rewrite reconcile_available in H by done. cbv zeta in H. fold c in H.
  unfold has_fin in H. rewrite Hd, bool_decide_true in H by done.
  destruct (deleteCatalogCache s) as [x s1] eqn:Ed.
  destruct (deleteCatalogCache_spec _ _ _ Hi Hn Ed) as (Hfin & Hx).
  destruct x as [u|e|msg|]; injection H as <- <-; try done.
  - destruct Hx as (Hv & Hs & (now & Hst) & Hclean). split_and!; try done.
    + cbn. rewrite Hs. apply lookup_delete_eq.
    + unfold unserved. cbn. by rewrite Hst.
    + intros f. cbn. rewrite RemoveFinalizer_spec. change (Finalizers (Meta (rs_catalog s1)))
        with (cat_finalizers (rs_catalog s1)). by rewrite Hfin.
  - destruct Hx as [_ Hx]. split; [done|]. by exists e.
Qed.

(** C33: An object that is being deleted and no longer carries this controller's
    finalizer, because another finalizer still holds it, is treated as a live
    one: its content is unpacked and stored again although no finalizer is left
    that would remove it. *)
Theorem deleted_object_is_stored_again s result w0 w1 :
  let c := rs_catalog s in let name := cat_name c in let gen := cat_generation c in
  st_inv (rs_world s) → elem_ok name → ¬ unavailable c → deleting c = true →
  fbcDeletionFinalizer ∉ cat_finalizers c → rs_stored s !! name = None →
  Unpack c (rs_world s) = (Ok result, w0) → st_Store name (FS result) w0 = (Ok tt, w1) →
  ∃ res s', reconcile s = (Ok res, s') ∧ is_Some (st_view (rs_world s') name) ∧
    cat_finalizers (rs_catalog s') = cat_finalizers c.
Proof.
  intros c name gen Hi Hn Ha Hd Hf Hs Hu Hst. rewrite reconcile_available by done. cbv zeta. fold c.
  unfold has_fin. rewrite Hd, bool_decide_false by done. rewrite (no_entry_unpacks s) by done.
  destruct (unpackAndStore_total s result w0 w1 Hu Hst) as (res & s' & Hrun).
  exists res, s'. split; [done|].
  destruct (unpackAndStore_spec _ _ _ Hi Hn Hrun) as (Hfin & _ & _ & d & _ & _ & _ & _ & Hv).
  split; [by exists d|done].
Qed.

(** * Errors *)

(** C20: An error of [reconcile] leaves the finalizers alone and is reported in
    the Progressing condition for the current generation: True and Retrying, or
    False and Blocked exactly when the error is terminal, with its text as
    message. *)
Theorem reconcile_reports_errors s e s' :
  let c := rs_catalog s in
  st_inv (rs_world s) → elem_ok (cat_name c) → reconcile s = (Err e, s') →
  cat_finalizers (rs_catalog s') = cat_finalizers c ∧
  ∃ e0, (e = e0 ∨ e = finalize_error fbcDeletionFinalizer e0) ∧
    if is_terminal e0
    then shows (Status (rs_catalog s')) TypeProgressing ConditionFalse ReasonBlocked
           (error_text e0) (cat_generation c)
    else shows (Status (rs_catalog s')) TypeProgressing ConditionTrue ReasonRetrying
           (error_text e0) (cat_generation c).
Proof. apply reconcile_Err. Qed.

(** C18: A failed unpack or store of a live catalog does not disturb what is
    served: the stored content, the resolved source, the URL, the unpack time
    and the Serving condition stay as they were. *)
Theorem failed_unpack_keeps_serving s e s' :
  let c := rs_catalog s in let name := cat_name c in
  st_inv (rs_world s) → elem_ok name → live c → reconcile s = (Err e, s') →
  st_view (rs_world s') name = st_view (rs_world s) name ∧
  same_serving (Status c) (Status (rs_catalog s')).
Proof.
  intros c name Hi Hn Hl H. rewrite reconcile_live in H by done.
  destruct (decide_and_run_fail _ _ _ Hi Hn H) as (s1 & (Hc & Hs & R) & Hu).
  pose proof (reads_quiet _ _ _ Hn Hi R) as [Hi1 Hv].
  apply unpackAndStore_spec in Hu; rewrite ?Hc; [|by apply Hi1|done]. rewrite Hc in Hu.
  destruct Hu as (_ & _ & _ & Hsame & Hview). split; [|done]. unfold name, c in *. by rewrite Hview, Hv.
Qed.

(** C34: A status condition of a type the controller does not know makes every
    reconciliation of a live catalog unpack again: the expected status never
    has such a condition, the actual one keeps it. *)
Theorem foreign_condition_never_settles s :
  let c := rs_catalog s in
  st_inv (rs_world s) → elem_ok (cat_name c) → live c →
  (∃ cond, cond ∈ Conditions (Status c) ∧ known_type (cType cond) = false) →
  (∃ s1, only_reads (cat_name c) s s1 ∧ reconcile s = unpackAndStore s1)
  ∨ (reconcile s).1 = Crash.
Proof.
  intros c Hi Hn Hl (cond & Hin & Hu). rewrite reconcile_live by done.
  apply unknown_unpacks; [done..|]. unfold known_only. rewrite Forall_forall. intros Hk.
  by rewrite Hk in Hu.
Qed.

(** * Polling *)

(** The largest poll interval whose nanoseconds fit into an [int64]. *)
Definition max_minutes : Z := 153722867.

Lemma poll_duration m : (0 ≤ m ≤ max_minutes)%Z → duration_mul m Minute = (m * Minute)%Z.
Proof.
  unfold max_minutes. intros H. apply wrap64_id.
  unfold int64_ok, min_int64, max_int64, Minute, Second. lia.
Qed.

(** Up to 153722867 minutes, [needsPoll] answers true exactly when the time
    it reads is after the last successful poll plus the interval, and returns
    without an effect but reading the clock; without an interval it answers
    false, and without an image source it panics. *)
Theorem needs_poll_exact s c last now w' :
  Now (rs_world s) = (Ok now, w') →
  match Image (Source (Spec c)) with
  | None => needsPoll last c s = (Panic nil_dereference, s)
  | Some img =>
      match PollIntervalMinutes img with
      | None => needsPoll last c s = (Ok false, s)
      | Some m =>
          (0 ≤ m ≤ max_minutes)%Z →
          needsPoll last c s =
            (Ok (bool_decide (last + m * Minute < now)%Z), mkRS (rs_catalog s) (rs_stored s) w')
      end
  end.
Proof.
  intros Hnow. unfold needsPoll. destruct (Image (Source (Spec c))) as [img|]; [|done].
  destruct (PollIntervalMinutes img) as [m|]; [|done]. intros Hm.
  erewrite bind_step by (by apply lift_run). unfold ret. do 2 f_equal.
  rewrite poll_duration by done. unfold time_Before, time_Add.
  destruct (Z.ltb_spec (last + m * Minute) now); [by rewrite bool_decide_true|].
  rewrite bool_decide_false by lia. done.
Qed.

(** C36: From 153722868 to 307445734 minutes the multiplication overflows to a
    negative duration, so [needsPoll] answers true at any time that is not before
    the last poll, even at that very moment. *)
Theorem needs_poll_overflow s c img m last now w' :
  Now (rs_world s) = (Ok now, w') → Image (Source (Spec c)) = Some img →
  PollIntervalMinutes img = Some m → (max_minutes < m ≤ 307445734)%Z → (last ≤ now)%Z →
  needsPoll last c s = (Ok true, mkRS (rs_catalog s) (rs_stored s) w').
Proof.
  intros Hnow Himg Hm Hrange Hlast. unfold needsPoll. rewrite Himg, Hm.
  erewrite bind_step by (by apply lift_run). unfold ret. do 2 f_equal.
  unfold time_Before, time_Add, max_minutes in *.
  assert (duration_mul m Minute < 0)%Z; [|by apply Z.ltb_lt; lia].
  unfold duration_mul, wrap64, Minute, Second. 
  replace (m * (60 * 1000000000) + 2 ^ 63)%Z
    with (m * 60000000000 - 2 ^ 63 + 1 * 2 ^ 64)%Z by lia.
  rewrite Z.mod_add by lia. rewrite Z.mod_small by lia. lia.
Qed.

(** C23: The delay [nextPollResult] asks for ends between one interval and 1.01
    intervals after the last successful poll, so that the catalog is looked at
    again when the poll is due. This is for intervals of up to 152200858 minutes
    (289 years), beyond which 1.01 intervals are no longer a [time.Duration],
    and a last poll that is not in the future and not more than the
    longest duration ago. Without an interval no delay is asked for. *)
Theorem next_poll_in_window s c last now w' :
  Now (rs_world s) = (Ok now, w') →
  match poll_minutes c with
  | Some m =>
      SourceType (Source (Spec c)) = SourceTypeImage → (0 ≤ m ≤ 152200858)%Z →
      (0 ≤ now - last ≤ max_int64)%Z →
      ∃ d, nextPollResult last c s = (Ok d, mkRS (rs_catalog s) (rs_stored s) w') ∧
        (last + m * Minute ≤ now + d)%Z ∧ (100 * (now + d - last) ≤ 101 * (m * Minute))%Z
  | None => nextPollResult last c s = (Ok 0%Z, s)
  end.
Proof.
  intros Hnow. unfold nextPollResult. destruct (poll_minutes c) as [m|]; [|by destruct (decide _)].
  intros Ht Hm Hd. rewrite decide_True by done.
  erewrite bind_step by reflexivity. erewrite bind_step by (by apply lift_run).
  eexists. split; [reflexivity|]. rewrite poll_duration by (unfold max_minutes; lia).
  pose proof (Jitter_spec (rs_world s) (m * Minute) 1 100) as Hj. unfold requeueJitterMaxFactor.
  unfold time_Sub, time_Add, max_int64, min_int64, Minute, Second in *. lia.
Qed.

(** * [Reconcile] and the API server *)

Lemma update_finalizers_Ok (c : ClusterCatalog) fs (a a' : A) c' :
  ac_Update (set_finalizers fs c) a = (Ok c', a') →
  ∃ old, ac_object a (cat_name c) = Some old ∧
    (∀ n, n ≠ cat_name c → ac_object a' n = ac_object a n) ∧
    match ac_object a' (cat_name c) with
    | Some c'' => Spec c'' = Spec c ∧ cat_finalizers c'' = fs ∧ Status c'' = Status old
    | None => deleting c = true ∧ fs = []
    end.
Proof.
  intros H. destruct (ac_Update_Ok _ _ _ _ H) as (old & Hold & _ & Hn & Hs & Hf & Hst & Hobj).
  exists old. split_and!; [done|intros n Hne; by rewrite Hobj, decide_False|].
  rewrite Hobj, decide_True by done. change (deleting (set_finalizers fs c)) with (deleting c).
  destruct (deleting c) eqn:Ed; simpl; [|by split_and!].
  change (cat_finalizers (set_finalizers fs c)) with fs in *. case_bool_decide; by split_and!.
Qed.

(** The object after the guarded status update of [Reconcile]. *)
Lemma status_update_Ok name (c c1 : ClusterCatalog) (a a' : A) c' :
  bare c1 = bare c → ac_object a name = Some c → cat_name c = name →
  (if negb (DeepEqual_status (Status c) (Status c1))
   then ac_StatusUpdate c1 a = (Ok c', a') else c' = c1 ∧ a' = a) →
  ∃ old, ac_object a' name = Some old ∧
    (∀ n, n ≠ name → ac_object a' n = ac_object a n) ∧
    Spec old = Spec c ∧ cat_finalizers old = cat_finalizers c ∧
    (Status old = Status c1 ∨ Status old = wire_status ac_time (Status c1)) ∧
    cat_name c' = name ∧ Spec c' = Spec c ∧ deleting c' = deleting c.
Proof.
  intros Hb Hobj Hname Hup. pose proof (bare_name _ _ Hb) as Hbn.
  pose proof (bare_Spec _ _ Hb) as Hbs.
  destruct (DeepEqual_status (Status c) (Status c1)) eqn:Ed; simpl in Hup.
  - apply DeepEqual_status_spec in Ed. destruct Hup as [-> ->].
    exists c. split_and!; try done; [by left; rewrite <-Ed|congruence|]. by apply bare_deleting.
  - destruct (ac_StatusUpdate_Ok _ _ _ _ Hup) as (old & rv & Hold & _ & Hst & Hall).
    rewrite Hbn, Hname in *. simplify_eq.
    eexists. rewrite Hall, decide_True by done. split_and!; try done; [|by right].
    intros n Hne. by rewrite Hall, decide_False.
Qed.

(** C9: When [Reconcile] returns without an error and it was given the object as
    the server has it, the server ends up with what [reconcile] computed: its
    status (with times cut to seconds if it had to be written) and its
    finalizers, both, although the write of the status brings back an object
    with the old finalizers; the object is gone only when it was being deleted
    and no finalizer is left. The spec and the other objects are untouched. *)
Theorem reconcile_persists name t c a1 res t' :
  st_inv (ctl_world t) → ac_object (ctl_api t) name = Some c →
  ac_Get name (ctl_api t) = (Ok c, a1) → Reconcile name t = (Ok (res, None), t') →
  ∃ rs, reconcile (mkRS c (ctl_stored t) (ctl_world t)) = (Ok res, rs) ∧
    (∀ n, n ≠ name → ac_object (ctl_api t') n = ac_object (ctl_api t) n) ∧
    match ac_object (ctl_api t') name with
    | Some c' =>
        Spec c' = Spec c ∧ cat_finalizers c' = cat_finalizers (rs_catalog rs) ∧
        (Status c' = Status (rs_catalog rs) ∨
         Status c' = wire_status ac_time (Status (rs_catalog rs)))
    | None => deleting c = true ∧ cat_finalizers (rs_catalog rs) = []
    end.
Proof.
  intros Hi Hobj Hg H. rewrite (Reconcile_run _ _ _ _ Hi Hg) in H.
  destruct (ac_Get_name _ _ _ _ Hg) as [Hname Hok].
  pose proof (frame_reconcile name (mkRS c (ctl_stored t) (ctl_world t)) Hname Hok Hi) as (Hb & _).
  destruct (reconcile _) as [[r|e|msg|] rs] eqn:Er; try done; simpl in Hb;
    apply bind_Ok in H as (st & t1 & H1 & H); apply bind_Ok in H as (fn & t2 & H2 & H);
    injection H as <- Hnone <-;
    apply guarded_update_Ok in H1 as (_ & _ & H1 & H1');
    apply guarded_update_Ok in H2 as (_ & _ & H2 & H2').
  2:{ exfalso. apply H2'; [|done]. by apply H1'. }
  exists rs. split; [done|]. destruct (H2 Hnone) as [Hnone1 Hup2]. destruct (H1 Hnone1) as [_ Hup1].
  assert (Hg0 : ∀ n, ac_object a1 n = ac_object (ctl_api t) n).
  { intros n. rewrite <-(ac_Get_reads name (ctl_api t) n). by rewrite Hg. }
  destruct (status_update_Ok name c (rs_catalog rs) a1 (ctl_api t1) st.1)
    as (old & Hold & Hoth & Hs1 & Hf1 & Hst1 & Hn1 & Hs2 & Hd2); [done|by rewrite Hg0|done| |].
  { destruct (negb _); [done|]. by destruct Hup1 as [-> ->]. }
  destruct (DeepEqual_strings (cat_finalizers c) (cat_finalizers (rs_catalog rs))) eqn:Ef; simpl in Hup2.
  - apply DeepEqual_strings_spec in Ef. destruct Hup2 as [_ ->].
    split; [intros n Hne; by rewrite Hoth, Hg0|]. rewrite Hold.
    split_and!; try done. congruence.
  - destruct (update_finalizers_Ok _ _ _ _ _ Hup2) as (old' & Hold' & Hoth' & Hm).
    rewrite Hn1 in *. rewrite Hold in Hold'. injection Hold' as <-.
    split; [intros n Hne; by rewrite Hoth', Hoth, Hg0|].
    destruct (ac_object (ctl_api t2) name).
    + destruct Hm as (-> & -> & ->). by split_and!.
    + by rewrite <-Hd2.
Qed.

(** When [reconcile] fails, [Reconcile] returns an error and drops the map
    entry of the catalog, so that the next call unpacks again. *)
Theorem reconcile_error_retries name t c a1 e rs r t' :
  st_inv (ctl_world t) → ac_Get name (ctl_api t) = (Ok c, a1) →
  reconcile (mkRS c (ctl_stored t) (ctl_world t)) = (Err e, rs) →
  Reconcile name t = (Ok r, t') →
  r.1 = 0%Z ∧ r.2 ≠ None ∧ ctl_stored t' !! name = None ∧
  ∀ c', cat_name c' = name →
    decide_and_run c' (mkRS c' (ctl_stored t') (ctl_world t'))
    = unpackAndStore (mkRS c' (ctl_stored t') (ctl_world t')).
Proof.
  intros Hi Hg He H. pose proof (Reconcile_state name t c a1 Hi Hg) as Hst. rewrite He, H in Hst.
  destruct Hst as (_ & Hs & _). simpl in Hs.
  assert (Hgone : ctl_stored t' !! name = None) by (rewrite Hs; apply lookup_delete_eq).
  rewrite (Reconcile_run _ _ _ _ Hi Hg), He in H.
  apply bind_Ok in H as (st & t1 & H1 & H). apply bind_Ok in H as (fn & t2 & H2 & H).
  injection H as <- <-. apply guarded_update_Ok in H1 as (_ & _ & _ & H1).
  apply guarded_update_Ok in H2 as (_ & _ & _ & H2).
  split_and!; [done|by apply H2, H1|done|].
  intros c' Hc'. apply (no_entry_unpacks (mkRS c' (ctl_stored t2) (ctl_world t2))). cbn. by rewrite Hc'.
Qed.

(** * Runs of the controller *)

(** One step: a call of [Reconcile], the restart of a process that was killed in
    one or was stopped, or a change of the environment (users change objects,
    time passes) that does not touch the stored catalogs. *)
Inductive step : Ctl W FSys A → Ctl W FSys A → Prop :=
  | step_reconcile name t r t' : Reconcile name t = (r, t') → r ≠ Crash → step t t'
  | step_crash name t t' : Reconcile name t = (Crash, t') → step t (SetupWithManager t')
  | step_restart t : step t (SetupWithManager t)
  | step_env t w' a' : quiet (ctl_world t) w' → step t (mkCtl (ctl_stored t) w' a').

Definition consistent t : Prop :=
  st_inv (ctl_world t) ∧
  ∀ n, elem_ok n → is_Some (ctl_stored t !! n) → is_Some (st_view (ctl_world t) n).

Lemma Reconcile_no_object name t :
  (∀ c a1, ac_Get name (ctl_api t) ≠ (Ok c, a1)) →
  ctl_stored (Reconcile name t).2 = ctl_stored t ∧ ctl_world (Reconcile name t).2 = ctl_world t.
Proof.
  intros H. unfold Reconcile, bind, try, lift_api.
  destruct (ac_Get name (ctl_api t)) as [[c|e|msg|] a1]; try done. by destruct (H c a1).
Qed.

Lemma Reconcile_inv name t : st_inv (ctl_world t) → st_inv (ctl_world (Reconcile name t).2).
Proof.
  intros Hi. destruct (ac_Get name (ctl_api t)) as [[c|e|msg|] a1] eqn:Hg;
    try (destruct (Reconcile_no_object name t) as [_ ->]; [congruence|done]).
  destruct (ac_Get_name _ _ _ _ Hg) as [Hname Hok].
  pose proof (frame_reconcile name (mkRS c (ctl_stored t) (ctl_world t)) Hname Hok Hi) as (_ & _ & Hi' & _).
  pose proof (Reconcile_state name t c a1 Hi Hg) as H. destruct (reconcile _) as [r rs].
  destruct H as (-> & _). done.
Qed.

Lemma Reconcile_consistent name t r t' :
  consistent t → Reconcile name t = (r, t') → r ≠ Crash → consistent t'.
Proof.
  intros [Hi Hsv] H Hr. pose proof (Reconcile_inv name t Hi) as Hi'. rewrite H in Hi'. split; [done|].
  intros n Hn. destruct (ac_Get name (ctl_api t)) as [[c|e|msg|] a1] eqn:Hg;
    try (destruct (Reconcile_no_object name t) as [Hs Hw]; [congruence|];
         rewrite H in Hs, Hw; simpl in Hs, Hw; rewrite Hs, Hw; by apply Hsv).
  destruct (ac_Get_name _ _ _ _ Hg) as [Hname Hok].
  pose proof (frame_reconcile name (mkRS c (ctl_stored t) (ctl_world t)) Hname Hok Hi) as (_ & Hs & _ & Hv).
  pose proof (Reconcile_state name t c a1 Hi Hg) as Hst. rewrite H in Hst.
  destruct (reconcile _) as [r0 rs] eqn:Er. simpl in *. destruct Hst as (-> & Hst & Hc).
  destruct (decide (n = name)) as [->|Hne].
  - pose proof (reconcile_serves (mkRS c (ctl_stored t) (ctl_world t)) r0 rs Hi) as Hser.
    simpl in Hser. rewrite Hname in Hser. specialize (Hser Hok Er (Hsv name Hok)).
    rewrite Hst. destruct r0; try done; [|by destruct Hc].
    rewrite lookup_delete_eq. by intros [??].
  - assert (Hsn : ctl_stored t' !! n = ctl_stored t !! n).
    { rewrite Hst. destruct r0; rewrite ?lookup_delete_ne by done; by apply Hs. }
    rewrite Hsn, Hv by done. by apply Hsv.
Qed.

Lemma reachable_consistent t0 t :
  st_inv (ctl_world t0) → ctl_stored t0 = ∅ → rtc step t0 t → consistent t.
Proof.
  intros Hi He H. assert (Hempty : ∀ w, st_inv w → ∀ a, consistent (mkCtl ∅ w a)).
  { intros w Hw a. split; [done|]. intros n _ [d Hd]. simpl in Hd. by rewrite lookup_empty in Hd. }
  assert (Hc : consistent t0).
  { destruct t0. simpl in *. subst. by apply Hempty. }
  clear Hi He. induction H as [t|t t1 t2 Hs _ IH]; [done|]. apply IH.
  destruct Hs as [name t r t' H Hr|name t t' H|t|t w' a' [Hi Hv]].
  - by eapply Reconcile_consistent.
  - apply Hempty. pose proof (Reconcile_inv name t (proj1 Hc)) as Hi. by rewrite H in Hi.
  - apply Hempty, Hc.
  - destruct Hc as [Hi0 Hsv]. split; [by apply Hi|]. intros n Hn Hsome. simpl.
    rewrite Hv by done. by apply Hsv.
Qed.

(** In every state the controller can reach, through any sequence of calls of
    [Reconcile] with any outcome, of crashes, restarts and changes of the
    environment, every catalog that is recorded as stored is being served, and
    the storage is in order. *)
Theorem recorded_catalogs_are_served t0 t :
  st_inv (ctl_world t0) → ctl_stored t0 = ∅ → rtc step t0 t →
  st_inv (ctl_world t) ∧
  ∀ n, elem_ok n → is_Some (ctl_stored t !! n) → is_Some (st_view (ctl_world t) n).
Proof. apply reachable_consistent. Qed.
End Correct.
