(* ===== verification/ImageSource.v ===== *)
(** The image unpacker ([internal/source/containers_image.go]): resolves the
    image reference of a catalog, pulls the image into a temporary layout,
    unpacks the catalog directory of its layers into
    [BaseCachePath/<catalog>/<digest>], makes it read-only and deletes the
    images of earlier versions. The libraries that talk to registries and read
    images are parameters. *)
From Stdlib Require Import Ascii.
From stdpp Require Import pretty.
From S2P Require Import Prelude GoPath OsFS Api Source.

Definition ConfigDirLabel : string := "operators.operatorframework.io.index.configs.v1".

(** * The file trees of unpacked images *)

(** [deleteRecursive]: makes the directories writable, then removes the tree. *)
Definition make_writable : walk_fn := λ p k err,
  match err with
  | Some e => if os_IsNotExist e then ret tt else throw e
  | None => if decide (k = KDir) then os_Chmod p m0700 else ret tt
  end.

Definition deleteRecursive (root : path) : GoM OS unit :=
  wrap_err "error making catalog cache writable for deletion: "
    (filepath_WalkDir root make_writable) ;;
  os_RemoveAll root.

(** [d.Info()]: the walk has it for the root, for an entry it is a new call. *)
Definition entry_info (root p : path) (k : kind) : GoM OS kind :=
  if decide (p = root) then ret k
  else n <- os_Lstat p ;; ret (node_kind n).

Definition make_read_only (root : path) : walk_fn := λ p k err,
  match err with
  | Some e => throw e
  | None =>
      typ <- entry_info root p k ;;
      match typ with
      | KLink => ret tt
      | KDir => os_Chmod p m0500
      | KFile => os_Chmod p m0400
      | KOther => throw (ErrString ("refusing to change ownership of file "
                                    +:+ join_slash (reverse p)))
      end
  end.

Definition setReadOnlyRecursive (root : path) : GoM OS unit :=
  wrap_err "error making catalog cache read-only: "
    (filepath_WalkDir root (make_read_only root)).

(** * Layer filtering *)

(** The fields of [tar.Header] the filter uses. *)
Record Header := mkHeader { hName : string; hUid : Z; hGid : Z; hMode : Z }.

(** [applyLayerFilter]: [uid] and [gid] are those of the process. The filter
    changes the header in place and says whether to extract the entry. *)
Definition applyLayerFilter (uid gid : Z) (srcPath : string) (h : Header)
    : Header * (bool + error) :=
  let cleanSrcPath := path_Clean (TrimPrefix_slash srcPath) in
  let h' := mkHeader (hName h) uid gid (Z.lor (hMode h) m0700) in
  let cleanName := path_Clean (TrimPrefix_slash (hName h)) in
  match filepath_Rel cleanSrcPath cleanName with
  | inr err => (h', inr (ErrWrap "error getting relative path: " err))
  | inl relPath => (h', inl (negb (bool_decide (relPath = "..")) && negb (HasPrefix relPath "../")))
  end.

Definition wrapTerminal (err : error) (isTerminal : bool) : error :=
  if isTerminal then ErrTerminal err else err.

(** * The libraries *)

(** The parts of [containers/image], [containerd/archive] and [go-digest] the
    unpacker calls. A reference is canonical when it has a digest. *)
Class ImageLib := {
  Named : Type;
  Canonical : Type;
  SystemContext : Type;
  ImageReference : Type;
  ImageSrc : Type;
  Img : Type;
  BlobInfo : Type;
  Reader : Type;
  Policy : Type;
  PolicyContext : Type;
  ParseNamed : string → Named + error;
  as_Canonical : Named → option Canonical;
  canonical_String : Canonical → string;
  Digest : Canonical → string;
  docker_NewReference : Named → ImageReference + error;
  NewImageSource : ImageReference → SystemContext → GoM OS ImageSrc;
  src_Close : ImageSrc → GoM OS unit;
  GetManifest : ImageSrc → GoM OS string;
  manifest_Digest : string → string + error;
  WithDigest : Named → string → Canonical + error;
  TrimNamed : Named → Named;
  layout_NewReference : path → string → ImageReference + error;
  DefaultPolicy : SystemContext → GoM OS Policy;
  NewPolicyFromBytes : string → Policy + error;
  NewPolicyContext : Policy → PolicyContext + error;
  Destroy : PolicyContext → GoM OS unit;
  copy_Image : PolicyContext → ImageReference → ImageReference → SystemContext → GoM OS unit;
  NewImage : ImageReference → SystemContext → GoM OS Img;
  img_Close : Img → GoM OS unit;
  OCIConfig_Labels : Img → GoM OS (gmap string string);
  LayerInfos : Img → list BlobInfo;
  GetBlob : ImageSrc → BlobInfo → GoM OS Reader;
  reader_Close : Reader → GoM OS unit;
  AutoDecompress : Reader → GoM OS Reader;
  archive_Apply : path → Reader → (Header → Header * (bool + error)) → GoM OS unit
}.

(** A pure library call that returns an error. *)
Definition from_sum {A : Type} (r : A + error) : GoM OS A :=
  match r with inl a => ret a | inr e => throw e end.

(** * The unpacker *)

Module ContainersImageRegistry.
Section Registry.
Context {IL : ImageLib} {ET : ErrorText}.

(** [TempDir] is [os.TempDir()], [Uid] and [Gid] the ids of the process, and
    [ModTime] the modification times the file system keeps. *)
Record t := mk {
  BaseCachePath : string;
  SourceContextFunc : GoM OS SystemContext;
  TempDir : string;
  Uid : Z;
  Gid : Z;
  ModTime : OS → path → Z
}.

Definition catalogPath (i : t) (catalogName : string) : string :=
  path_Join [BaseCachePath i; catalogName].

Definition unpackPath (i : t) (catalogName digest : string) : string :=
  path_Join [catalogPath i catalogName; digest].

Definition successResult (unpackPath : path) (canonicalRef : Canonical) (lastUnpacked : Z)
    : GoM OS (Result path) :=
  now <- time_Now ;;
  ret (mkResult unpackPath
         (Some (mkResolvedSource SourceTypeImage
                  (Some (mkResolvedImage (canonical_String canonicalRef)))))
         (time_Truncate now Second)
         StateUnpacked
         ("unpacked " +:+ quoted (canonical_String canonicalRef) +:+ " successfully")
         (time_Truncate lastUnpacked Second)).

Definition resolveCanonicalRef (imgRef : Named) (imageCtx : SystemContext)
    : GoM OS (Canonical * bool) :=
  match as_Canonical imgRef with
  | Some canonicalRef => ret (canonicalRef, true)
  | None =>
      match docker_NewReference imgRef with
      | inr err => throw (ErrTerminal (ErrWrap "error creating reference: " err))
      | inl srcRef =>
          imgSrc <- wrap_err "error creating image source: " (NewImageSource srcRef imageCtx) ;;
          defer
            (imgManifestData <- wrap_err "error getting manifest: " (GetManifest imgSrc) ;;
             imgDigest <- wrap_err "error getting digest of manifest: "
                            (from_sum (manifest_Digest imgManifestData)) ;;
             canonicalRef <- wrap_err "error creating canonical reference: "
                               (from_sum (WithDigest (TrimNamed imgRef) imgDigest)) ;;
             ret (canonicalRef, false))
            (src_Close imgSrc)
      end
  end.

Definition resolveReferences (ref : string) (sourceContext : SystemContext)
    : GoM OS (Named * Canonical * bool) :=
  match ParseNamed ref with
  | inr err => throw (ErrTerminal (ErrWrap ("error parsing image reference " +:+ quoted ref +:+ ": ") err))
  | inl imgRef =>
      r <- wrap_err "error resolving canonical reference: "
             (resolveCanonicalRef imgRef sourceContext) ;;
      ret (imgRef, r.1, r.2)
  end.

Definition insecurePolicy : string :=
  "{" +:+ quoted "default" +:+ ":[{" +:+ quoted "type" +:+ ":"
  +:+ quoted "insecureAcceptAnything" +:+ "}]}".

Definition loadPolicyContext (sourceContext : SystemContext) : GoM OS PolicyContext :=
  d <- try (DefaultPolicy sourceContext) ;;
  let policy :=
    match d with
    | inr err => if os_IsNotExist err then NewPolicyFromBytes insecurePolicy else inr err
    | inl policy => inl policy
    end in
  policy <- wrap_err "error loading default policy: " (from_sum policy) ;;
  from_sum (NewPolicyContext policy).

Definition applyLayer (i : t) (destPath : path) (srcPath : string) (layer : Reader) : GoM OS unit :=
  decompressed <- wrap_err "auto-decompress failed: " (AutoDecompress layer) ;;
  defer (archive_Apply destPath decompressed (applyLayerFilter (Uid i) (Gid i) srcPath))
    (reader_Close decompressed).

(** One layer of the loop of [unpackImage]. *)
Definition unpackLayer (i : t) (unpackPath : path) (dirToUnpack : string) (layoutSrc : ImageSrc)
    (n : nat) (layerInfo : BlobInfo) : GoM OS unit :=
  layerReader <- wrap_err ("error getting blob for layer[" +:+ pretty n +:+ "]: ")
                   (GetBlob layoutSrc layerInfo) ;;
  defer
    (wrap_err ("error applying layer[" +:+ pretty n +:+ "]: ")
       (applyLayer i unpackPath dirToUnpack layerReader))
    (reader_Close layerReader).

Fixpoint unpackLayers (i : t) (unpackPath : path) (dirToUnpack : string) (layoutSrc : ImageSrc)
    (n : nat) (layerInfos : list BlobInfo) : GoM OS unit :=
  match layerInfos with
  | [] => ret tt
  | layerInfo :: rest =>
      r <- try (unpackLayer i unpackPath dirToUnpack layoutSrc n layerInfo) ;;
      match r with
      | inl _ => unpackLayers i unpackPath dirToUnpack layoutSrc (S n) rest
      | inr err =>
          d <- try (deleteRecursive unpackPath) ;;
          throw (ErrJoin (err :: match d with inl _ => [] | inr e => [e] end))
      end
  end.

Definition unpackImage (i : t) (unpackPath : path) (imageReference : ImageReference)
    (specIsCanonical : bool) (sourceContext : SystemContext) : GoM OS unit :=
  img <- wrap_err "error reading image: " (NewImage imageReference sourceContext) ;;
  defer
    (layoutSrc <- wrap_err "error creating image source: "
                    (NewImageSource imageReference sourceContext) ;;
     labels <- wrap_err "error parsing image config: " (OCIConfig_Labels img) ;;
     match labels !! ConfigDirLabel with
     | None =>
         throw (wrapTerminal
                  (ErrString ("catalog image is missing the required label " +:+ quoted ConfigDirLabel))
                  specIsCanonical)
     | Some dirToUnpack =>
         wrap_err "error creating unpack directory: " (os_MkdirAll unpackPath m0700) ;;
         unpackLayers i unpackPath dirToUnpack layoutSrc 0 (LayerInfos img) ;;
         wrap_err "error making unpack directory read-only: " (setReadOnlyRecursive unpackPath)
     end)
    (c <- try (img_Close img) ;;
     match c with inl _ => ret tt | inr e => panic (error_text e) end).

Definition deleteOtherImages (i : t) (catalogName digestToKeep : string) : GoM OS unit :=
  let catalogPath := catalogPath i catalogName in
  imgDirs <- wrap_err "error reading image directories: " (os_ReadDir (fpath catalogPath)) ;;
  forM imgDirs (λ imgDir,
    if decide (imgDir.1 = digestToKeep) then ret tt
    else
      wrap_err "error removing image directory: "
        (deleteRecursive (fpath (path_Join [catalogPath; imgDir.1])))).

Definition Cleanup (i : t) (catalog : ClusterCatalog) : GoM OS unit :=
  wrap_err "error deleting catalog cache: "
    (deleteRecursive (fpath (catalogPath i (cat_name catalog)))).

(** The part of [Unpack] that pulls and unpacks an image that is not there. *)
Definition pullAndUnpack (i : t) (catalogName : string) (imgRef : Named) (canonicalRef : Canonical)
    (specIsCanonical : bool) (srcCtx : SystemContext) : GoM OS (Result path) :=
  let unpackPath := fpath (unpackPath i catalogName (Digest canonicalRef)) in
  dockerRef <- wrap_err "error creating source reference: " (from_sum (docker_NewReference imgRef)) ;;
  layoutDir <- wrap_err "error creating temporary directory: "
                 (os_MkdirTemp (fpath (TempDir i)) ("oci-layout-" +:+ catalogName)) ;;
  defer
    (layoutRef <- wrap_err "error creating reference: "
                    (from_sum (layout_NewReference layoutDir (canonical_String canonicalRef))) ;;
     policyContext <- wrap_err "error loading policy context: " (loadPolicyContext srcCtx) ;;
     defer
       (wrap_err "error copying image: " (copy_Image policyContext layoutRef dockerRef srcCtx) ;;
        u <- try (unpackImage i unpackPath layoutRef specIsCanonical srcCtx) ;;
        match u with
        | inr err =>
            d <- try (deleteRecursive unpackPath) ;;
            throw (ErrWrap "error unpacking image: "
                     (match d with inl _ => err | inr cleanupErr => ErrJoin [err; cleanupErr] end))
        | inl _ =>
            wrap_err "error deleting old images: "
              (deleteOtherImages i catalogName (Digest canonicalRef)) ;;
            now <- time_Now ;;
            successResult unpackPath canonicalRef now
        end)
       (Destroy policyContext))
    (os_RemoveAll layoutDir).

Definition Unpack (i : t) (catalog : ClusterCatalog) : GoM OS (Result path) :=
  if decide (SourceType (Source (Spec catalog)) = SourceTypeImage) then
    match Image (Source (Spec catalog)) with
    | None =>
        throw (ErrTerminal (ErrString ("error parsing catalog, catalog " +:+ cat_name catalog
                                       +:+ " has a nil image source")))
    | Some image =>
        srcCtx <- SourceContextFunc i ;;
        refs <- resolveReferences (Ref image) srcCtx ;;
        let '(imgRef, canonicalRef, specIsCanonical) := refs in
        let unpackDir := fpath (unpackPath i (cat_name catalog) (Digest canonicalRef)) in
        st <- try (os_Stat unpackDir) ;;
        match st with
        | inl (Dir _) =>
            w <- gets id ;;
            successResult unpackDir canonicalRef (ModTime i w unpackDir)
        | inl _ => panic ("unexpected file at unpack path " +:+ quoted (unpackPath i (cat_name catalog) (Digest canonicalRef))
                          +:+ ": expected a directory")
        | inr _ =>
            pullAndUnpack i (cat_name catalog) imgRef canonicalRef specIsCanonical srcCtx
        end
    end
  else panic ("programmer error: source type " +:+ quoted SourceTypeImage
              +:+ " is unable to handle specified catalog source type "
              +:+ quoted (SourceType (Source (Spec catalog)))).
End Registry.
End ContainersImageRegistry.
