(* ===== verification/ImageTrees.v ===== *)
(** The file-tree operations of the image unpacker: what [deleteRecursive] and
    [setReadOnlyRecursive] do to a tree, and that a read-only tree can not be
    removed by [os.RemoveAll] alone. *)
From S2P Require Import Prelude GoPath OsFS OsLemmas OsWalk Api Source ImageSource.

(** * Calls that are never in the way *)

Lemma stable_make_writable (R : fsT → fsT → Prop) `{!PreOrder R} p k e :
  (∀ m n, m !! p = Some n → R m (<[p := set_mode m0700 n]> m)) →
  stable (fs_rel R) (make_writable p k e).
Proof.
  intros H. unfold make_writable. destruct e as [e|].
  - destruct (os_IsNotExist e); [apply stable_ret, _|apply stable_throw, _].
  - destruct (decide _); [by apply stable_Chmod|apply stable_ret, _].
Qed.

Lemma stable_make_read_only (R : fsT → fsT → Prop) `{!PreOrder R} root p k e :
  (∀ mode m n, m !! p = Some n → R m (<[p := set_mode mode n]> m)) →
  stable (fs_rel R) (make_read_only root p k e).
Proof.
  intros H. unfold make_read_only. destruct e as [e|]; [apply stable_throw, _|].
  apply (stable_bind (fs_rel R)).
  - unfold entry_info. destruct (decide _); [apply stable_ret, _|].
    apply (stable_bind (fs_rel R)); [apply stable_Lstat, _|]. intros ?. apply stable_ret, _.
  - intros []; [apply stable_Chmod; auto|apply stable_Chmod; auto|apply stable_ret, _|apply stable_throw, _].
Qed.

Lemma stable_deleteRecursive (R : fsT → fsT → Prop) `{!PreOrder R} root :
  (∀ m p n, root `suffix_of` p → m !! p = Some n → R m (<[p := set_mode m0700 n]> m)) →
  (∀ m q n, root `suffix_of` q → m !! q = Some n → (∀ md, n = Dir md → entries m q = []) →
            R m (delete q m)) →
  stable (fs_rel R) (deleteRecursive root).
Proof.
  intros H1 H2. unfold deleteRecursive. apply (stable_bind (fs_rel R)).
  - apply (stable_wrap_err (fs_rel R)), stable_WalkDir; [apply _|].
    intros p k e Hp. apply stable_make_writable; [apply _|]. intros m n. by apply H1.
  - intros _. apply stable_RemoveAll; [apply _|done].
Qed.

Lemma no_panic_make_writable p k e : no_panic (make_writable p k e).
Proof.
  unfold make_writable. destruct e as [e|].
  - destruct (os_IsNotExist e); auto with go.
  - destruct (decide _); [apply no_panic_sys|auto with go].
Qed.

Lemma no_panic_wrap_err {S A : Type} p (m : GoM S A) : no_panic m → no_panic (wrap_err p m).
Proof.
  intros Hm s msg. specialize (Hm s). unfold wrap_err.
  by destruct (m s) as [[a|e|msg'|] s']; simpl in *; try destruct (Hm msg').
Qed.

Lemma no_panic_deleteRecursive root : no_panic (deleteRecursive root).
Proof.
  apply no_panic_bind; [|intros _; apply no_panic_RemoveAll].
  apply no_panic_wrap_err, no_panic_WalkDir; [|apply no_panic_make_writable].
  intros p k e. apply stable_make_writable; [apply _|]. intros m n. apply same_nodes_insert.
Qed.

Lemma no_panic_setReadOnly root : no_panic (setReadOnlyRecursive root).
Proof.
  apply no_panic_wrap_err, no_panic_WalkDir; intros p k e.
  - apply stable_make_read_only; [apply _|]. intros mode m n. apply same_nodes_insert.
  - unfold make_read_only, entry_info. destruct e as [e|]; [apply no_panic_throw|].
    apply no_panic_bind; [destruct (decide _); [apply no_panic_ret|]|].
    + apply no_panic_bind; [apply no_panic_sys|]. intros ?. apply no_panic_ret.
    + intros []; first [apply no_panic_sys|apply no_panic_ret|apply no_panic_throw].
Qed.

(** * When nothing fails *)

Definition writable_dir (n : node) : node := match n with Dir _ => Dir m0700 | n => n end.

Lemma Chmod_calm p mode w n :
  no_faults w → walk (os_fs w) p = None → os_fs w !! p = Some n → (∀ t, n ≠ Symlink t) →
  os_Chmod p mode w = (Ok tt, set_fs (<[p := set_mode mode n]> (os_fs w)) w).
Proof.
  intros Hw Hwalk Hn Hl. unfold os_Chmod. rewrite sys_calm, (find_node_Some _ _ n) by done.
  destruct n; try done. by destruct (Hl target).
Qed.

Lemma unchanged_calm w p n : os_fs w !! p = Some n → (Ok tt, w) = (Ok tt, set_fs (<[p := n]> (os_fs w)) w).
Proof. intros Hn. by rewrite insert_id, set_fs_id. Qed.

Lemma make_writable_calm w p n :
  no_faults w → walk (os_fs w) p = None → os_fs w !! p = Some n → True →
  make_writable p (node_kind n) None w = (Ok tt, set_fs (<[p := writable_dir n]> (os_fs w)) w).
Proof.
  intros Hw Hwalk Hn _. unfold make_writable. destruct n; simpl; try by apply unchanged_calm.
  by rewrite (Chmod_calm _ _ _ (Dir mode)).
Qed.

(** The tree at [root] is gone afterwards, whatever the permissions in it. *)
Lemma deleteRecursive_calm root w n :
  no_faults w → wf_fs (os_fs w) → walk (os_fs w) root = None →
  parent_writable (os_fs w) root = true → os_fs w !! root = Some n →
  deleteRecursive root w = (Ok tt, set_fs (prune root (os_fs w)) w).
Proof.
  intros Hw Hwf Hwalk Hpw Hn. unfold deleteRecursive.
  set (m1 := mapped (under root) writable_dir (os_fs w)).
  assert (Hkind : ∀ n, node_kind (writable_dir n) = node_kind n) by (by intros []).
  assert (Hout : changes_only (λ q, under root q = true) (os_fs w) m1) by apply mapped_changes.
  erewrite bind_step.
  2:{ unfold wrap_err.
      erewrite (WalkDir_calm writable_dir (λ _, True) make_writable); [done|..|done]; try done.
      - intros md. exists m0700. split; [done|]. split; apply rwx_0700.
      - apply make_writable_calm. }
  fold m1. rewrite RemoveAll_calm; cbn [os_fs set_fs].
  - rewrite set_fs_set_fs. do 2 f_equal. apply map_eq. intros q.
    destruct (decide (root `suffix_of` q)) as [Hq|Hq]; [by rewrite !prune_in|].
    rewrite !prune_out by done. apply Hout. by rewrite under_true.
  - done.
  - by apply mapped_wf.
  - split_and!.
    + rewrite (walk_outside (os_fs w) m1 root _ Hout); [done|]. intros q. apply under_true.
    + destruct root as [|x p]; [done|]. simpl in *. rewrite Hout; [done|].
      rewrite under_true. intros Hs%suffix_length. simpl in Hs. lia.
    + intros q md Hq. unfold m1. rewrite mapped_lookup, (proj2 (under_true _ _) Hq).
      destruct (os_fs w !! q) as [[]|]; try done. intros [= <-]. apply rwx_0700.
Qed.

(** A root that is not there is not an error. *)
Lemma deleteRecursive_missing root w :
  no_faults w → find_node (os_fs w) root = inl ENOENT → deleteRecursive root w = (Ok tt, w).
Proof.
  intros Hw Hf. unfold deleteRecursive.
  assert (Hl : os_Lstat root w = (Err (ErrErrno "lstat" root ENOENT), w)).
  { unfold os_Lstat. rewrite sys_calm by done. by rewrite Hf. }
  erewrite bind_step.
  2:{ unfold wrap_err, filepath_WalkDir.
      erewrite bind_step; [|apply try_step; instantiate (2 := inr _); exact Hl]. done. }
  unfold os_RemoveAll. erewrite bind_step; [|apply try_step; instantiate (2 := inr _); exact Hl]. done.
Qed.

Definition read_only (n : node) : node :=
  match n with Dir _ => Dir m0500 | File _ d => File m0400 d | n => n end.

Lemma make_read_only_calm root w p n :
  no_faults w → walk (os_fs w) p = None → os_fs w !! p = Some n → n ≠ Special →
  make_read_only root p (node_kind n) None w = (Ok tt, set_fs (<[p := read_only n]> (os_fs w)) w).
Proof.
  intros Hw Hwalk Hn Hs. unfold make_read_only.
  erewrite bind_step with (a := node_kind n) (s1 := w).
  2:{ unfold entry_info. destruct (decide (p = root)); [done|].
      erewrite bind_step; [|apply Lstat_calm; [done|by apply find_node_Some]]. done. }
  destruct n as [md|md d|t|]; simpl; [| |by apply unchanged_calm|done].
  - by rewrite (Chmod_calm _ _ _ (Dir md)).
  - by rewrite (Chmod_calm _ _ _ (File md d)).
Qed.

(** Exactly the nodes at and below [root] become read-only. *)
Lemma setReadOnlyRecursive_calm root w n :
  no_faults w → wf_fs (os_fs w) → walk (os_fs w) root = None → os_fs w !! root = Some n →
  (∀ q n', root `suffix_of` q → os_fs w !! q = Some n' → n' ≠ Special) →
  setReadOnlyRecursive root w = (Ok tt, set_fs (mapped (under root) read_only (os_fs w)) w).
Proof.
  intros Hw Hwf Hwalk Hn Hs. unfold setReadOnlyRecursive, wrap_err.
  erewrite (WalkDir_calm read_only (λ n, n ≠ Special) (make_read_only root)); [done|..|done]; try done.
  - by intros [].
  - intros md. exists m0500. by vm_compute.
  - apply make_read_only_calm.
Qed.

(** * Read-only trees and [os.RemoveAll] *)

Lemma remove_each_stuck p qs first w x q n md :
  no_faults w → os_fs w !! (x :: q) = Some n → os_fs w !! q = Some (Dir md) → can_w md = false →
  x :: q ∈ qs ∨ first ≠ None →
  ∃ r w', remove_each p qs first w = (Ok r, w') ∧ r ≠ None ∧ no_faults w' ∧
    os_fs w' !! (x :: q) = Some n.
Proof.
  intros Hw Hx Hq Hmd. revert first w Hw Hx Hq.
  induction qs as [|y qs IH]; intros first w Hw Hx Hq Hin; simpl.
  { exists first, w. split_and!; try done. destruct Hin as [Hin|]; [|done]. by apply not_elem_of_nil in Hin. }
  set (f := λ m : fsT, if listable m p y then remove_node m y else inl EACCES).
  assert (Hstep : ∃ r1 w1, sys "unlinkat" y f w = (match r1 with inl a => Ok a | inr e => Err e end, w1) ∧
            no_faults w1 ∧ os_fs w1 !! (x :: q) = Some n ∧ os_fs w1 !! q = Some (Dir md) ∧
            (y = x :: q → ∃ e, r1 = inr e)).
  { rewrite sys_calm by done. destruct (f (os_fs w)) as [en|[u m']] eqn:Ef.
    - exists (inr (ErrErrno "unlinkat" y en)), w. split_and!; eauto.
    - exists (inl u), (set_fs m' w). split; [done|]. unfold f in Ef.
      destruct (listable _ _ _); [|done].
      apply remove_node_inv in Ef as (n0 & Hn0 & _ & Hpw & -> & He).
      assert (Hyx : y ≠ x :: q).
      { intros ->. simpl in Hpw. rewrite Hq in Hpw. congruence. }
      assert (Hyq : y ≠ q).
      { intros ->. rewrite Hq in Hn0. injection Hn0 as <-. specialize (He md eq_refl).
        rewrite (proj1 (entries_nil _ _) He x) in Hx. done. }
      cbn. rewrite !lookup_delete_ne by done. by split_and!. }
  destruct Hstep as (r1 & w1 & Hs & Hw1 & Hx1 & Hq1 & Hy).
  erewrite bind_step by (apply try_step; exact Hs). apply IH; [done..|].
  destruct first as [e0|]; [by right|]. destruct Hin as [Hin|]; [|done].
  apply elem_of_cons in Hin as [Heq|Hin]; [|by left].
  right. destruct (Hy (eq_sym Heq)) as [e ->]. done.
Qed.

(** A tree with a directory that is not writable and not empty can not be
    removed: [os.RemoveAll] fails and what is in that directory stays. *)
Lemma RemoveAll_stuck root w x q n md :
  no_faults w → wf_fs (os_fs w) → walk (os_fs w) root = None → root `suffix_of` (x :: q) →
  os_fs w !! (x :: q) = Some n → os_fs w !! q = Some (Dir md) → can_w md = false →
  ∃ e w', os_RemoveAll root w = (Err e, w') ∧ os_fs w' !! (x :: q) = Some n.
Proof.
  intros Hw Hwf Hwalk Hr Hx Hq Hmd.
  destruct (wf_ancestor (os_fs w) root (x :: q)) as [nr Hroot]; [done..|eauto|].
  pose proof (keeps_wf_RemoveAll root w Hwf) as Hwf'.
  destruct (remove_each_stuck root (postorder (os_fs w) root) None w x q n md)
    as (r & w' & Hrem & Hrn & Hw' & Hx'); try done.
  { left. apply elem_of_postorder. eauto. }
  assert (E : os_RemoveAll root w = match r, os_fs w' !! root with
                | Some e, Some _ => (Err e, w') | _, _ => (Ok tt, w') end).
  { unfold os_RemoveAll. erewrite bind_step; [|apply try_step; instantiate (2 := inl nr);
      apply Lstat_calm; [done|by apply find_node_Some]].
    cbv beta iota. erewrite bind_step by reflexivity. erewrite bind_step by exact Hrem.
    erewrite bind_step by reflexivity. destruct r, (os_fs w' !! root); done. }
  unfold fs_rel in Hwf'. destruct r as [e|]; [|done].
  assert (Hroot' : is_Some (os_fs w' !! root)).
  { rewrite E in Hwf'. destruct (os_fs w' !! root) eqn:Er; [eauto|]. simpl in Hwf'.
    rewrite (wf_gone _ _ _ Hwf' Er Hr) in Hx'. done. }
  destruct Hroot' as [n' Hn']. rewrite Hn' in E. eauto.
Qed.
