(* ===== verification/ImageFrame.v ===== *)
(** The image unpacker and the storage work side by side: with cache, temporary
    and storage directories that do not contain each other, unpacking and
    cleaning up never touch a stored catalog, and the unpacker meets the
    contract the controller relies on. *)
From stdpp Require Import pretty.
From S2P Require Import Prelude GoPath OsFS OsLemmas OsWalk Api Storage Source.
From S2P Require Import ImageSource ImageTrees.

#[export] Instance os_clock_now : Clock OS := { Now := time_Now }.

Lemma time_Now_run w : ∃ t w', time_Now w = (Ok t, w') ∧ os_fs w' = os_fs w.
Proof. unfold time_Now. destruct (os_ticks w); eauto. Qed.

(** * What the libraries may write *)

(** A computation that keeps the tree well-formed and writes only where [P]
    allows. *)
Definition writes (P : path → Prop) (m m' : fsT) : Prop := keeps_wf m m' ∧ changes_only P m m'.

(** The image libraries: [scratch] is where they keep caches of their own,
    pulling an image writes only there and into the layout directory it is
    given, and applying a layer writes there and below the destination. A
    digest is a plain file name. *)
Class ImageLibContract {IL : ImageLib} := {
  scratch : path → Prop;
  Digest_ok c : elem_ok (Digest c);
  lib_NewImageSource r c : stable (fs_rel (writes scratch)) (NewImageSource r c);
  lib_src_Close s : stable (fs_rel (writes scratch)) (src_Close s);
  lib_GetManifest s : stable (fs_rel (writes scratch)) (GetManifest s);
  lib_DefaultPolicy c : stable (fs_rel (writes scratch)) (DefaultPolicy c);
  lib_Destroy p : stable (fs_rel (writes scratch)) (Destroy p);
  lib_NewImage r c : stable (fs_rel (writes scratch)) (NewImage r c);
  lib_img_Close i : stable (fs_rel (writes scratch)) (img_Close i);
  lib_Labels i : stable (fs_rel (writes scratch)) (OCIConfig_Labels i);
  lib_GetBlob s b : stable (fs_rel (writes scratch)) (GetBlob s b);
  lib_reader_Close r : stable (fs_rel (writes scratch)) (reader_Close r);
  lib_AutoDecompress r : stable (fs_rel (writes scratch)) (AutoDecompress r);
  lib_copy pc dir ref r d c :
    layout_NewReference dir ref = inl r →
    stable (fs_rel (writes (λ q, scratch q ∨ dir `suffix_of` q))) (copy_Image pc r d c);
  lib_Apply dest r f :
    stable (fs_rel (writes (λ q, scratch q ∨ dest `suffix_of` q))) (archive_Apply dest r f)
}.

(** * Keeping the storage *)

Definition apart (p q : path) : Prop := ¬ p `suffix_of` q ∧ ¬ q `suffix_of` p.

(** The storage stays in order and serves what it served. *)
Definition keeps (s : LocalDirV1.t) (m m' : fsT) : Prop :=
  LocalDirV1.sound s m →
  LocalDirV1.sound s m' ∧ ∀ n, LocalDirV1.view s m' n = LocalDirV1.view s m n.

#[export] Instance keeps_preorder s : PreOrder (keeps s).
Proof.
  split; [by intros m H|]. intros m1 m2 m3 H12 H23 H1.
  destruct (H12 H1) as [H2 V2]. destruct (H23 H2) as [H3 V3]. split; [done|].
  intros n. by rewrite V3, V2.
Qed.

Lemma root_below_file s n : LocalDirV1.root s `suffix_of` LocalDirV1.fbc_file s n.
Proof. by exists ["all"; "v1"; "api"; n]. Qed.

Lemma writes_keeps s (P : path → Prop) m m' :
  (∀ q, P q → apart (LocalDirV1.root s) q) → writes P m m' → keeps s m m'.
Proof.
  intros HP [Hwf Hc] (Hw & Hwalk & [md Hr] & Hd).
  assert (Hin : ∀ q, LocalDirV1.root s `suffix_of` q → m' !! q = m !! q).
  { intros q Hq. apply Hc. intros H. by destruct (HP q H). }
  assert (Hup : ∀ q, q `suffix_of` LocalDirV1.root s → m' !! q = m !! q).
  { intros q Hq. apply Hc. intros H. by destruct (HP q H). }
  split.
  - split_and!.
    + by apply Hwf.
    + rewrite <-Hwalk. apply walk_ext. intros q x Hq. apply Hup. etrans; [|exact Hq]. by apply suffix_cons_r.
    + exists md. by rewrite Hup.
    + intros q md' Hq. rewrite Hin by done. by apply Hd.
  - intros n. unfold LocalDirV1.view. rewrite Hin; [done|apply root_below_file].
Qed.

Lemma stable_writes_keeps s (P : path → Prop) {A : Type} (m : GoM OS A) :
  (∀ q, P q → apart (LocalDirV1.root s) q) →
  stable (fs_rel (writes P)) m → stable (fs_rel (keeps s)) m.
Proof. intros HP H w. apply (writes_keeps s P); [done|apply H]. Qed.

Lemma apart_below r p q : apart r p → p `suffix_of` q → apart r q.
Proof.
  intros [H1 H2] Hq. split.
  - intros H. by destruct (suffix_weak_total _ _ _ H Hq).
  - intros H. apply H2. by etrans.
Qed.

Lemma writes_insert (P : path → Prop) (m : fsT) q n :
  P q → (wf_fs m → wf_fs (<[q := n]> m)) → writes P m (<[q := n]> m).
Proof. intros Hq Hwf. split; [exact Hwf|by apply changes_only_insert]. Qed.

Lemma writes_delete (P : path → Prop) (m : fsT) q n :
  P q → m !! q = Some n → (∀ md, n = Dir md → entries m q = []) → writes P m (delete q m).
Proof.
  intros Hq Hn He. split; [intros Hwf; by eapply wf_delete|by apply changes_only_delete].
Qed.

#[export] Instance writes_preorder P : PreOrder (writes P).
Proof.
  split; [intros m; by split|]. intros m1 m2 m3 [H1 C1] [H2 C2]. split.
  - intros H. by apply H2, H1.
  - by etrans.
Qed.

(** What the operations on trees write. *)
Lemma writes_deleteRecursive q : stable (fs_rel (writes (suffix q))) (deleteRecursive q).
Proof.
  apply stable_deleteRecursive; [apply _|..].
  - intros m r n Hr Hn. apply writes_insert; [done|]. intros Hwf. by eapply wf_set_mode.
  - intros m r n. apply writes_delete.
Qed.

Lemma writes_RemoveAll q : stable (fs_rel (writes (suffix q))) (os_RemoveAll q).
Proof. apply stable_RemoveAll; [apply _|]. intros m r n. apply writes_delete. Qed.

Lemma writes_MkdirAll q perm : path_ok q → stable (fs_rel (writes (λ r, r `suffix_of` q))) (os_MkdirAll q perm).
Proof.
  intros Hok. apply stable_MkdirAll; [apply _|]. intros m r Hr Hw Hn _. apply writes_insert; [done|].
  intros Hwf. apply wf_insert_new; try done. by eapply suffix_path_ok.
Qed.

Lemma writes_MkdirTemp dir prefix :
  elem_ok prefix → path_ok dir → stable (fs_rel (writes (suffix dir))) (os_MkdirTemp dir prefix).
Proof.
  intros Hp Hok. unfold os_MkdirTemp. set (R := fs_rel (writes (suffix dir))).
  apply (stable_bind R); [apply stable_gets, _|]. intros draws.
  induction draws as [|x draws IH]; [apply stable_throw, _|]. simpl.
  apply (stable_bind R); [intros w; unfold R, fs_rel; simpl; reflexivity|]. intros _.
  apply (stable_bind R).
  - apply (stable_try R), stable_Mkdir; [apply _|]. intros m Hw Hn Hpw.
    apply writes_insert; [by apply suffix_cons_r|]. intros Hwf. by apply wf_insert_new; [|apply temp_path_ok|..].
  - intros [u|e]; [apply stable_ret, _|].
    destruct e as [| | | |? ? []|]; try apply stable_throw, _. exact IH.
Qed.

Lemma writes_setReadOnly q : stable (fs_rel (writes (suffix q))) (setReadOnlyRecursive q).
Proof.
  apply (stable_wrap_err (fs_rel (writes (suffix q)))), stable_WalkDir; [apply _|]. intros r k e Hr.
  apply stable_make_read_only; [apply _|]. intros mode m n Hn. apply writes_insert; [done|].
  intros Hwf. by eapply wf_set_mode.
Qed.

Lemma stable_below_keeps s p {A : Type} (m : GoM OS A) :
  apart (LocalDirV1.root s) p → stable (fs_rel (writes (suffix p))) m → stable (fs_rel (keeps s)) m.
Proof. intros Hp. apply stable_writes_keeps. intros q Hq. by eapply apart_below. Qed.

Lemma keeps_deleteRecursive s p :
  apart (LocalDirV1.root s) p → stable (fs_rel (keeps s)) (deleteRecursive p).
Proof. intros Hp. by eapply stable_below_keeps, writes_deleteRecursive. Qed.

Lemma keeps_setReadOnly s p :
  apart (LocalDirV1.root s) p → stable (fs_rel (keeps s)) (setReadOnlyRecursive p).
Proof. intros Hp. by eapply stable_below_keeps, writes_setReadOnly. Qed.

(** Creating the directories above a path that is apart from the storage. *)
Lemma keeps_MkdirAll s p perm :
  path_ok p → apart (LocalDirV1.root s) p → stable (fs_rel (keeps s)) (os_MkdirAll p perm).
Proof.
  intros Hok Hp. apply stable_MkdirAll; [apply _|]. intros m q Hq Hwalk Hn Hpw Hs.
  pose proof Hs as (Hwf & _ & [md Hr] & _).
  assert (Hap : apart (LocalDirV1.root s) q).
  { split.
    - intros H. destruct Hp as [Hp _]. apply Hp. by etrans.
    - intros H. destruct (wf_ancestor m q (LocalDirV1.root s)) as [? ?]; [done..|eauto|]. congruence. }
  apply (writes_keeps s (λ q', q' = q)); [by intros ? ->| |done]. apply writes_insert; [done|].
  intros _. apply wf_insert_new; try done. by eapply suffix_path_ok.
Qed.

Lemma keeps_MkdirTemp s dir prefix :
  apart (LocalDirV1.root s) dir → elem_ok prefix → path_ok dir →
  stable (fs_rel (keeps s)) (os_MkdirTemp dir prefix).
Proof. intros Hd Hp Hok. by eapply stable_below_keeps, writes_MkdirTemp. Qed.

Lemma mkdir_temp_below dir prefix draws w p w' :
  mkdir_temp dir prefix draws w = (Ok p, w') → dir `suffix_of` p.
Proof.
  revert w. induction draws as [|x draws IH]; intros w H; [done|]. simpl in H.
  erewrite bind_step in H by reflexivity. apply bind_Ok in H as ([u|e] & w1 & _ & H).
  - injection H as <- _. by apply suffix_cons_r.
  - destruct e as [| | | |? ? []|]; try done. by eapply IH.
Qed.

Lemma keeps_RemoveAll s p :
  apart (LocalDirV1.root s) p → stable (fs_rel (keeps s)) (os_RemoveAll p).
Proof. intros Hp. by eapply stable_below_keeps, writes_RemoveAll. Qed.

(** * The unpacker *)

Section Registry.
Context {IL : ImageLib} {ILC : ImageLibContract} {ET : ErrorText}.
Context (s : LocalDirV1.t) (i : ContainersImageRegistry.t).
Abbreviation cache := (fpath (ContainersImageRegistry.BaseCachePath i)).
Abbreviation tmp := (fpath (ContainersImageRegistry.TempDir i)).

(** The directories do not contain each other, and [SourceContextFunc] only
    reads. *)
Record separate : Prop := {
  sep_cache_rooted : is_rooted (ContainersImageRegistry.BaseCachePath i) = true;
  sep_cache : apart (LocalDirV1.root s) cache;
  sep_tmp : apart (LocalDirV1.root s) tmp;
  sep_scratch q : scratch q → apart (LocalDirV1.root s) q;
  sep_context : stable (fs_rel (keeps s)) (ContainersImageRegistry.SourceContextFunc i)
}.
Context (Hsep : separate).

Lemma fpath_catalog name :
  elem_ok name → fpath (ContainersImageRegistry.catalogPath i name) = name :: cache.
Proof.
  intros Hn. unfold ContainersImageRegistry.catalogPath.
  rewrite fpath_Join; [done|apply Hsep|by constructor].
Qed.

Lemma fpath_unpack name d :
  elem_ok name → elem_ok d →
  fpath (ContainersImageRegistry.unpackPath i name d) = d :: name :: cache.
Proof.
  intros Hn Hd. unfold ContainersImageRegistry.unpackPath.
  rewrite fpath_Join; [|by apply is_rooted_Join, Hsep|by constructor].
  by rewrite fpath_catalog.
Qed.

Lemma apart_cache p : cache `suffix_of` p → apart (LocalDirV1.root s) p.
Proof. intros H. by eapply apart_below; [apply Hsep|]. Qed.

Lemma keeps_lib {A : Type} (m : GoM OS A) :
  stable (fs_rel (writes scratch)) m → stable (fs_rel (keeps s)) m.
Proof. apply stable_writes_keeps, Hsep. Qed.

Lemma keeps_from_sum {A : Type} (r : A + error) : stable (fs_rel (keeps s)) (from_sum r).
Proof. destruct r; [apply stable_ret, _|apply stable_throw, _]. Qed.

(** The continuation of a pure call runs with its result. *)
Lemma keeps_from_sum_bind {A B : Type} p (r : A + error) (k : A → GoM OS B) :
  (∀ a, r = inl a → stable (fs_rel (keeps s)) (k a)) →
  stable (fs_rel (keeps s)) (bind (wrap_err p (from_sum r)) k).
Proof.
  intros H w. destruct r as [a|e]; [|unfold fs_rel; simpl; reflexivity]. exact (H a eq_refl w).
Qed.

Lemma keeps_now : stable (fs_rel (keeps s)) time_Now.
Proof. intros w. unfold time_Now, fs_rel. by destruct (os_ticks w). Qed.

Ltac keeps_step :=
  match goal with
  | |- stable _ (bind _ _) => apply (stable_bind (fs_rel (keeps s))); [|intros ?]
  | |- stable _ (wrap_err _ _) => apply (stable_wrap_err (fs_rel (keeps s)))
  | |- stable _ (try _) => apply (stable_try (fs_rel (keeps s)))
  | |- stable _ (defer _ _) => apply (stable_defer (fs_rel (keeps s)))
  | |- stable _ (ret _) => apply stable_ret, _
  | |- stable _ (throw _) => apply stable_throw, _
  | |- stable _ (panic _) => apply stable_panic, _
  | |- stable _ (gets _) => apply stable_gets, _
  | |- stable _ (from_sum _) => apply keeps_from_sum
  | |- stable _ time_Now => apply keeps_now
  | |- stable _ (os_Stat _) => apply stable_Stat, _
  | |- stable _ (os_ReadDir _) => apply stable_ReadDir, _
  | |- stable _ (NewImageSource _ _) => apply keeps_lib, lib_NewImageSource
  | |- stable _ (src_Close _) => apply keeps_lib, lib_src_Close
  | |- stable _ (GetManifest _) => apply keeps_lib, lib_GetManifest
  | |- stable _ (DefaultPolicy _) => apply keeps_lib, lib_DefaultPolicy
  | |- stable _ (Destroy _) => apply keeps_lib, lib_Destroy
  | |- stable _ (NewImage _ _) => apply keeps_lib, lib_NewImage
  | |- stable _ (img_Close _) => apply keeps_lib, lib_img_Close
  | |- stable _ (OCIConfig_Labels _) => apply keeps_lib, lib_Labels
  | |- stable _ (GetBlob _ _) => apply keeps_lib, lib_GetBlob
  | |- stable _ (reader_Close _) => apply keeps_lib, lib_reader_Close
  | |- stable _ (AutoDecompress _) => apply keeps_lib, lib_AutoDecompress
  | |- stable _ (match ?x with _ => _ end) => destruct x
  end.

Lemma keeps_resolveReferences ref c :
  stable (fs_rel (keeps s)) (ContainersImageRegistry.resolveReferences ref c).
Proof.
  unfold ContainersImageRegistry.resolveReferences, ContainersImageRegistry.resolveCanonicalRef.
  repeat keeps_step.
Qed.

Lemma keeps_loadPolicyContext c :
  stable (fs_rel (keeps s)) (ContainersImageRegistry.loadPolicyContext c).
Proof. unfold ContainersImageRegistry.loadPolicyContext. repeat keeps_step. Qed.

Lemma keeps_successResult p c t :
  stable (fs_rel (keeps s)) (ContainersImageRegistry.successResult p c t).
Proof. unfold ContainersImageRegistry.successResult. repeat keeps_step. Qed.

Lemma keeps_unpackLayers p d src n ls :
  cache `suffix_of` p →
  stable (fs_rel (keeps s)) (ContainersImageRegistry.unpackLayers i p d src n ls).
Proof.
  intros Hp. revert n. induction ls as [|l ls IH]; intros n; [apply stable_ret, _|]. simpl.
  apply (stable_bind (fs_rel (keeps s))).
  - unfold ContainersImageRegistry.unpackLayer, ContainersImageRegistry.applyLayer.
    repeat keeps_step. apply (stable_writes_keeps s (λ q, scratch q ∨ p `suffix_of` q)).
    + intros q [Hq|Hq]; [by apply Hsep|]. apply apart_cache. by etrans.
    + apply lib_Apply.
  - intros [u|e]; [apply IH|]. repeat keeps_step. by apply keeps_deleteRecursive, apart_cache.
Qed.

Lemma keeps_unpackImage p r b c :
  path_ok p → cache `suffix_of` p →
  stable (fs_rel (keeps s)) (ContainersImageRegistry.unpackImage i p r b c).
Proof.
  intros Hok Hp. unfold ContainersImageRegistry.unpackImage. repeat keeps_step.
  - by apply keeps_MkdirAll, apart_cache.
  - by apply keeps_unpackLayers.
  - by apply keeps_setReadOnly, apart_cache.
Qed.

(** The names a directory of a well-formed tree has are plain. *)
Lemma ReadDir_names p w es w' :
  wf_fs (os_fs w) → os_ReadDir p w = (Ok es, w') → ∀ e, e ∈ es → elem_ok e.1.
Proof.
  intros Hwf H. apply sys_Ok in H. destruct (find_node (os_fs w) p) as [|[md| | |]]; try done.
  destruct (can_r md); [|done]. injection H as <- _.
  intros [x k] (n & Hn & _)%elem_of_entries. by destruct (Hwf _ _ _ Hn).
Qed.

Lemma fpath_image name x :
  elem_ok name → elem_ok x →
  fpath (path_Join [ContainersImageRegistry.catalogPath i name; x]) = x :: name :: cache.
Proof. apply fpath_unpack. Qed.

Lemma keeps_deleteOtherImages name d :
  elem_ok name → stable (fs_rel (keeps s)) (ContainersImageRegistry.deleteOtherImages i name d).
Proof.
  intros Hn w Hs. pose proof Hs as (Hwf & _). revert Hs. fold (fs_rel (keeps s) w).
  change (fs_rel (keeps s) w (ContainersImageRegistry.deleteOtherImages i name d w).2).
  unfold ContainersImageRegistry.deleteOtherImages, bind, wrap_err at 1.
  pose proof (stable_ReadDir (=) (fpath (ContainersImageRegistry.catalogPath i name)) w) as Hr.
  destruct (os_ReadDir (fpath (ContainersImageRegistry.catalogPath i name)) w)
    as [[es|e|msg|] w1] eqn:E; unfold fs_rel in Hr |- *; simpl in Hr |- *; try by rewrite Hr.
  assert (Hes := ReadDir_names _ _ _ _ Hwf E). rewrite Hr.
  change (fs_rel (keeps s) w1 (forM es (λ imgDir, if decide (imgDir.1 = d) then ret tt
    else wrap_err "error removing image directory: " (deleteRecursive
      (fpath (path_Join [ContainersImageRegistry.catalogPath i name; imgDir.1])))) w1).2).
  apply (stable_forM (fs_rel (keeps s))). intros e He. destruct (decide _); [apply stable_ret, _|].
  apply (stable_wrap_err (fs_rel (keeps s))), keeps_deleteRecursive.
  rewrite fpath_image by auto. apply apart_cache. by do 2 apply suffix_cons_r.
Qed.

Lemma elem_ok_layout name : elem_ok name → elem_ok ("oci-layout-" +:+ name).
Proof.
  intros (_ & _ & _ & Hf). apply (elem_ok_app "oci-layout-"); [|done].
  apply (bool_decide_unpack _). by vm_compute.
Qed.

Lemma keeps_pullAndUnpack name r c b ctx :
  elem_ok name →
  stable (fs_rel (keeps s)) (ContainersImageRegistry.pullAndUnpack i name r c b ctx).
Proof.
  intros Hn. unfold ContainersImageRegistry.pullAndUnpack. cbv zeta.
  rewrite fpath_unpack by (done || apply Digest_ok). set (p := Digest c :: name :: cache).
  assert (Hp : cache `suffix_of` p) by (by do 2 apply suffix_cons_r).
  assert (Hok : path_ok p).
  { constructor; [apply Digest_ok|]. constructor; [done|apply fpath_ok]. }
  keeps_step; [repeat keeps_step|]. intros w. unfold bind at 1, wrap_err at 1.
  pose proof (keeps_MkdirTemp s tmp ("oci-layout-" +:+ name) (sep_tmp Hsep)
                (elem_ok_layout name Hn) (fpath_ok _) w) as Hm.
  destruct (os_MkdirTemp tmp ("oci-layout-" +:+ name) w) as [[layout|e|msg|] w1] eqn:E; try exact Hm.
  assert (Hl : tmp `suffix_of` layout).
  { unfold os_MkdirTemp in E. erewrite bind_step in E by reflexivity. by eapply mkdir_temp_below. }
  assert (Ha : apart (LocalDirV1.root s) layout) by (exact (apart_below _ _ _ (sep_tmp Hsep) Hl)).
  etrans; [exact Hm|]. cbv beta iota. revert w1 Hm E. intros w1 _ _.
  match goal with |- fs_rel _ _ ((defer ?a ?b) w1).2 =>
    assert (Hd : stable (fs_rel (keeps s)) (defer a b)); [|exact (Hd w1)] end.
  keeps_step; [|by apply keeps_RemoveAll].
  apply keeps_from_sum_bind. intros ref Hr. cbv beta. keeps_step; [keeps_step; apply keeps_loadPolicyContext|].
  repeat keeps_step.
  - apply (stable_writes_keeps s (λ q, scratch q ∨ layout `suffix_of` q)).
    + intros q [Hq|Hq]; [by apply Hsep|by eapply apart_below].
    + by eapply lib_copy.
  - by apply keeps_unpackImage.
  - by apply keeps_deleteOtherImages.
  - apply keeps_successResult.
  - by apply keeps_deleteRecursive, apart_cache.
Qed.

Lemma keeps_Unpack c :
  elem_ok (cat_name c) → stable (fs_rel (keeps s)) (ContainersImageRegistry.Unpack i c).
Proof.
  intros Hn. unfold ContainersImageRegistry.Unpack.
  repeat first
    [ keeps_step | apply (sep_context Hsep) | apply keeps_resolveReferences
    | apply keeps_successResult | by apply keeps_pullAndUnpack ].
Qed.

Lemma keeps_Cleanup c :
  elem_ok (cat_name c) → stable (fs_rel (keeps s)) (ContainersImageRegistry.Cleanup i c).
Proof.
  intros Hn. unfold ContainersImageRegistry.Cleanup. keeps_step. apply keeps_deleteRecursive.
  rewrite fpath_catalog by done. apply apart_cache. by apply suffix_cons_r.
Qed.
End Registry.

(** * The contract of the controller *)

Section contract.
Context {DC : DeclCfg path} (s : LocalDirV1.t).
#[local] Existing Instance LocalDirV1.instance.
#[local] Instance the_storage : StorageInstance OS path := LocalDirV1.instance s.
#[local] Instance the_contract : StorageContract OS path := LocalDirV1.contract s.

Lemma keeps_quiet (w w' : OS) : LocalDirV1.inv s w → fs_rel (keeps s) w w' → quiet w w'.
Proof.
  intros [Hr Hs] H. destruct (H Hs) as [Hs' Hv]. split; [by intros _; split|].
  intros n _. apply Hv.
Qed.

Lemma same_fs_quiet (w w' : OS) : os_fs w' = os_fs w → quiet w w'.
Proof.
  intros H. split; [intros [Hr Hs]; split; [done|by rewrite H]|]. intros n _. simpl. by rewrite H.
Qed.
End contract.

(** What a computation returns, when it returns. *)
Definition yields {S A : Type} (P : A → Prop) (m : GoM S A) : Prop :=
  ∀ s a s', m s = (Ok a, s') → P a.

Lemma yields_bind {S A B : Type} (P : B → Prop) (m : GoM S A) (k : A → GoM S B) :
  (∀ a, yields P (k a)) → yields P (bind m k).
Proof. intros H s b s' (a & s1 & _ & Hk)%bind_Ok. by eapply H. Qed.

Lemma yields_ret {S A : Type} (P : A → Prop) a : P a → yields P (@ret S A a).
Proof. by intros H s b s' [= <- _]. Qed.

Lemma yields_throw {S A : Type} (P : A → Prop) e : yields P (@throw S A e).
Proof. by intros s a s' ?. Qed.

Lemma yields_panic {S A : Type} (P : A → Prop) msg : yields P (@panic S A msg).
Proof. by intros s a s' ?. Qed.

Lemma yields_defer {S A : Type} (P : A → Prop) (m : GoM S A) c : yields P m → yields P (defer m c).
Proof.
  intros H s a s'. unfold defer. destruct (m s) as [[b|e|msg|] s1] eqn:E; [|by destruct (c s1) as [[]]..|done].
  destruct (c s1) as [[u|e|msg|] s2]; try done; intros [= <- _]; by eapply H.
Qed.

(** Results of the image unpacker are complete, with times in whole seconds. *)
Definition complete (r : Result path) : Prop :=
  State r = StateUnpacked ∧ whole_seconds (UnpackTime r) ∧ whole_seconds (LastSuccessfulPollAttempt r).

Lemma truncate_whole t : whole_seconds (time_Truncate t Second).
Proof.
  unfold whole_seconds, time_Truncate. rewrite (proj2 (Z.leb_gt Second 0)) by (unfold Second; lia).
  rewrite Zminus_mod, Zmod_mod, Z.sub_diag. done.
Qed.

Section results.
Context {IL : ImageLib} {ET : ErrorText} (i : ContainersImageRegistry.t).

Ltac yields_step :=
  match goal with
  | |- yields _ (bind _ _) => apply yields_bind; intros ?
  | |- yields _ (defer _ _) => apply yields_defer
  | |- yields _ (throw _) => apply yields_throw
  | |- yields _ (panic _) => apply yields_panic
  | |- yields _ (match ?x with _ => _ end) => destruct x
  end.

Lemma successResult_complete p c t :
  yields complete (ContainersImageRegistry.successResult p c t).
Proof.
  apply yields_bind. intros now. apply yields_ret. split_and!; [done|apply truncate_whole..].
Qed.

Lemma Unpack_complete c : yields complete (ContainersImageRegistry.Unpack i c).
Proof.
  unfold ContainersImageRegistry.Unpack, ContainersImageRegistry.pullAndUnpack. cbv zeta.
  repeat (yields_step || apply successResult_complete).
Qed.
End results.

Definition image_unpacker {IL : ImageLib} {ET : ErrorText} (i : ContainersImageRegistry.t)
    : Unpacker OS path := {|
  Unpack := ContainersImageRegistry.Unpack i;
  Cleanup := ContainersImageRegistry.Cleanup i
|}.

(** The storage [LocalDirV1] and the unpacker [ContainersImageRegistry] side by
    side: the contract of the controller. *)
Lemma image_unpacker_contract {DC : DeclCfg path} {IL : ImageLib} {ILC : ImageLibContract}
    {ET : ErrorText} s i :
  separate s i →
  UnpackerContract OS path (I := LocalDirV1.instance s) (C := LocalDirV1.contract s)
    (U := image_unpacker i).
Proof.
  intros Hsep. split.
  - intros c w Hn Hi. apply (keeps_quiet s); [done|]. by apply keeps_Unpack.
  - intros c w Hn Hi. apply (keeps_quiet s); [done|]. by apply keeps_Cleanup.
  - intros c w msg. apply no_panic_wrap_err, no_panic_deleteRecursive.
  - intros c w r w' H. by apply Unpack_complete in H as (? & _).
  - intros c w r w' H. by apply Unpack_complete in H as (_ & ? & _).
  - intros w. destruct (time_Now_run w) as (t & w' & H & Hfs). exists t, w'. split; [done|].
    by apply (same_fs_quiet s).
Qed.
