(* ===== verification/ImageCorrect.v ===== *)
(** The properties of the image unpacker. *)
From Stdlib Require Import Ascii.
From stdpp Require Import pretty.
From S2P Require Import Prelude GoPath OsFS OsLemmas OsWalk Api Storage StorageDemo.
From S2P Require Import Source ImageSource ImageTrees ImageFrame.

(** * Which entries of a layer are extracted *)

Lemma split_head_nil (s : string) :
  head (split_slash s) = Some "" ↔ s = "" ∨ is_rooted s = true.
Proof.
  destruct s as [|c s]; simpl; [naive_solver|]. destruct (is_slash c); [naive_solver|].
  destruct (split_slash s); naive_solver.
Qed.

Lemma split_head_cons c (s : string) :
  is_slash c = false → ∃ w, head (split_slash s) = Some w ∧ head (split_slash (String c s)) = Some (String c w).
Proof.
  intros Hc. simpl. rewrite Hc. destruct (split_slash_cons s) as (w & ws & ->). by exists w.
Qed.

(** The test of the filter: the first element of the path is [..]. *)
Lemma dotdot_head (s : string) :
  bool_decide (s = "..") || HasPrefix s "../" = bool_decide (head (split_slash s) = Some "..").
Proof.
  destruct s as [|a s]; [done|]. destruct (is_slash a) eqn:Ea.
  { unfold is_slash in Ea. apply Ascii.eqb_eq in Ea as ->. done. }
  destruct (split_head_cons a s Ea) as (w & Hw & ->). destruct (Ascii.eqb_spec a ".") as [->|Ha].
  2:{ rewrite !bool_decide_false by congruence. cbn [HasPrefix orb].
      by rewrite (proj2 (Ascii.eqb_neq "." a)). }
  destruct s as [|b s]; [simpl in Hw; by injection Hw as <-|]. destruct (is_slash b) eqn:Eb.
  { unfold is_slash in Eb. apply Ascii.eqb_eq in Eb as ->. simpl in Hw. by injection Hw as <-. }
  destruct (split_head_cons b s Eb) as (v & Hv & Hbv). rewrite Hbv in Hw. injection Hw as <-.
  destruct (Ascii.eqb_spec b ".") as [->|Hb].
  2:{ rewrite !bool_decide_false by congruence. cbn [HasPrefix orb].
      by rewrite (proj2 (Ascii.eqb_neq "." b)). }
  destruct (decide (v = "")) as [->|Hne].
  - rewrite (bool_decide_true (Some _ = _)) by done. apply split_head_nil in Hv as [->|Hr]; [done|].
    destruct s as [|c s]; [done|]. simpl in Hr. unfold is_slash in Hr. apply Ascii.eqb_eq in Hr as ->.
    apply orb_true_iff. right. by destruct s.
  - rewrite !bool_decide_false; [|congruence|].
    + destruct s as [|c s]; [done|]. cbn [HasPrefix orb]. rewrite !Ascii.eqb_refl. cbn [andb].
      destruct (Ascii.eqb_spec "/" c) as [<-|]; [|done]. simpl in Hv. congruence.
    + intros [= ->]. simpl in Hv. congruence.
Qed.

Lemma comps_slash_free b : Forall (λ w, slash_free w = true) (path_comps b).
Proof.
  destruct (path_comps_shape b) as (n & oks & -> & Hoks & _). apply Forall_app.
  split; [by apply Forall_replicate|]. eapply Forall_impl; [exact Hoks|]. by intros ? (_ & _ & _ & ?).
Qed.

(** A result of [filepath.Rel] that leads up. *)
Lemma up_head k l :
  Forall (λ w, slash_free w = true) l →
  bool_decide (head (split_slash (join_slash (replicate (S k) ".." ++ l))) = Some "..") = true.
Proof.
  intros Hl. apply bool_decide_true. rewrite split_join_free; [done|done|].
  apply Forall_app. split; [by apply Forall_replicate|done].
Qed.

(** A result that leads down, by the elements [ts] below the directory [oka]. *)
Lemma down_head b oka t ts :
  Forall elem_ok oka → path_comps b = oka ++ t :: ts →
  bool_decide (head (split_slash (join_slash (t :: ts))) = Some "..")
  = negb (bool_decide (oka `prefix_of` path_comps b ∧ head (path_comps b) ≠ Some "..")).
Proof.
  intros Hoka Hb. pose proof (comps_slash_free b) as Hf. rewrite Hb in Hf.
  apply Forall_app in Hf as [_ Hf]. rewrite split_join_free by done. rewrite Hb.
  assert (Hpre : oka `prefix_of` oka ++ t :: ts) by by eexists.
  destruct Hoka as [|o oka Ho Hoka]; simpl.
  - destruct (decide (t = "..")) as [->|Ht].
    + rewrite bool_decide_true by done. rewrite bool_decide_false by naive_solver. done.
    + rewrite bool_decide_false by congruence. rewrite bool_decide_true; [done|]. split; [done|congruence].
  - (* below a plain first element there is no [..] *)
    destruct (path_comps_shape b) as (n & oks & Hsh & Hoks & _). rewrite Hb in Hsh.
    pose proof Ho as (_ & _ & Hodd & _). destruct n; simpl in Hsh; [|congruence].
    rewrite <-Hsh in Hoks. apply Forall_cons in Hoks as [_ [_ Hoks]%Forall_app].
    apply Forall_cons in Hoks as [(_ & _ & Ht & _) _].
    rewrite bool_decide_false by congruence. rewrite bool_decide_true; [done|]. split; [done|congruence].
Qed.

(** The comparison [filepath.Rel] makes, on the elements of cleaned paths. *)
Lemma Rel_inside (a b : string) :
  is_rooted a = false → is_rooted b = false → ".." ∉ path_comps a →
  ∃ rel, filepath_Rel a b = inl rel ∧
    bool_decide (head (split_slash rel) = Some "..")
    = negb (bool_decide (path_comps a `prefix_of` path_comps b ∧ head (path_comps b) ≠ Some "..")).
Proof.
  intros Ha Hb Hdd. unfold filepath_Rel. rewrite Ha, Hb. cbn [Bool.eqb negb].
  destruct (path_comps_shape a) as (na & oka & Hca & Hoka & _).
  assert (na = 0) as ->. { destruct na; [done|]. exfalso. apply Hdd. rewrite Hca. by left. }
  simpl in Hca. rewrite Hca in *. clear Hdd.
  destruct (decide (path_Clean a = path_Clean b)) as [Heq|Hne].
  { exists ".". split; [done|]. apply path_comps_eq in Heq. rewrite Hca in Heq. rewrite <-Heq.
    rewrite (bool_decide_true (_ ∧ _)); [done|]. split; [done|].
    destruct Hoka as [|w l (_ & _ & ? & _) _]; [done|]. simpl. congruence. }
  destruct (decide (path_Clean b = ".")) as [Hdot|Hdot].
  { (* the target is the directory itself *)
    assert (Hnil : path_comps b = []) by (by rewrite <-path_comps_Clean, Hdot).
    destruct Hoka as [|w l Hw Hl].
    { exfalso. apply Hne. rewrite Hdot. unfold path_Clean. by rewrite Ha, Hca. }
    pose proof Hw as (_ & Hwd & Hwdd & _).
    assert (strip_common (w :: l) ["."] = (w :: l, ["."])) as -> by (simpl; by rewrite decide_False).
    rewrite decide_False by done. eexists. split; [reflexivity|].
    rewrite Hnil, (bool_decide_false (_ ∧ _)) by (intros [?%prefix_nil_inv _]; done).
    apply up_head. by repeat constructor. }
  destruct (strip_common oka (path_comps b)) as [bs ts] eqn:Es.
  destruct (strip_common_spec oka (path_comps b)) as (l & H1 & H2). rewrite Es in H1, H2. simpl in H1, H2.
  destruct bs as [|w bs].
  - eexists. split; [done|]. rewrite app_nil_r in H1. subst l. destruct ts as [|t0 ts]; [|by apply down_head].
    exfalso. apply Hne, path_Clean_eq; [congruence|]. rewrite Hca, H2. by rewrite app_nil_r.
  - rewrite H1 in Hoka. apply Forall_app in Hoka as [_ [(_ & _ & Hwdd & _) _]%Forall_cons].
    rewrite decide_False by done. eexists. split; [done|]. cbn [length]. rewrite up_head.
    + rewrite bool_decide_false; [done|]. intros [[k Hk] _]. rewrite Hk in Es.
      rewrite strip_common_prefix in Es. congruence.
    + pose proof (comps_slash_free b) as Hf. rewrite H2 in Hf. by apply Forall_app in Hf as [_ ?].
Qed.

(** C22: An entry of a layer is extracted exactly when it lies in the configured
    directory: both paths, without a leading slash and cleaned, are compared
    element by element, and an entry whose path leads out of the image by [..]
    is never extracted. The entry becomes the property of the process and its
    owner gets all permissions, nothing else of its mode changes. *)
Theorem layer_filter_exact uid gid (src : string) (h : Header) :
  let s := TrimPrefix_slash src in let n := TrimPrefix_slash (hName h) in
  is_rooted s = false → is_rooted n = false → ".." ∉ path_comps s →
  applyLayerFilter uid gid src h =
    (mkHeader (hName h) uid gid (Z.lor (hMode h) m0700),
     inl (bool_decide (path_comps s `prefix_of` path_comps n ∧ head (path_comps n) ≠ Some ".."))).
Proof.
  intros s n Hs Hn Hdd. unfold applyLayerFilter. fold s n.
  destruct (Rel_inside (path_Clean s) (path_Clean n)) as (rel & -> & Hrel);
    rewrite ?is_rooted_Clean, ?path_comps_Clean; [done..|].
  rewrite !path_comps_Clean in Hrel. do 2 f_equal.
  rewrite <-negb_orb, dotdot_head, Hrel. apply negb_involutive.
Qed.

Lemma layer_filter_exact_witness :
  applyLayerFilter 1000 1000 "/configs" (mkHeader "configs/op/catalog.yaml" 0 0 256)
    = (mkHeader "configs/op/catalog.yaml" 1000 1000 448, inl true) ∧
  (applyLayerFilter 1000 1000 "/configs" (mkHeader "configs-other/x" 0 0 256)).2 = inl false.
Proof.
  rewrite !layer_filter_exact; try (vm_compute; reflexivity);
    try (apply (bool_decide_unpack _); vm_compute; reflexivity).
  split; vm_compute; reflexivity.
Defined.

(** * Deleting and protecting trees *)

Lemma delete_recursive_run root w :
  no_faults w → wf_fs (os_fs w) → walk (os_fs w) root = None →
  parent_writable (os_fs w) root = true →
  ∃ w', deleteRecursive root w = (Ok tt, w') ∧ (no_faults w' ∧ os_rand w' = os_rand w) ∧
    ∀ q, os_fs w' !! q = if decide (root `suffix_of` q) then None else os_fs w !! q.
Proof.
  intros Hw Hwf Hwalk Hpw. destruct (os_fs w !! root) as [n|] eqn:E.
  - eexists. split; [by eapply deleteRecursive_calm|]. split; [done|]. intros q. cbn.
    case_decide; [by apply prune_in|by apply prune_out].
  - exists w. split; [apply deleteRecursive_missing; [done|]; unfold find_node; by rewrite Hwalk, E|].
    split; [done|].
    intros q. case_decide; [by eapply wf_gone|done].
Qed.

(** When no system call fails, [deleteRecursive] removes exactly the tree at
    its root, whatever the permissions of the directories in it, and a root
    that is not there is not an error. *)
Theorem delete_recursive_exact root w :
  no_faults w → wf_fs (os_fs w) → walk (os_fs w) root = None →
  parent_writable (os_fs w) root = true →
  ∃ w', deleteRecursive root w = (Ok tt, w') ∧
    ∀ q, os_fs w' !! q = if decide (root `suffix_of` q) then None else os_fs w !! q.
Proof.
  intros Hw Hwf Hwalk Hpw. destruct (delete_recursive_run root w) as (w' & H & _ & Hq); eauto.
Qed.

(** When no system call fails and the tree has no device or socket,
    [setReadOnlyRecursive] gives every directory below its root the mode 0500
    and every file the mode 0400, keeps the data of the files and the links, and
    changes nothing else. *)
Theorem set_read_only_exact root w n :
  no_faults w → wf_fs (os_fs w) → walk (os_fs w) root = None → os_fs w !! root = Some n →
  (∀ q n', root `suffix_of` q → os_fs w !! q = Some n' → n' ≠ Special) →
  ∃ w', setReadOnlyRecursive root w = (Ok tt, w') ∧
    ∀ q, os_fs w' !! q =
      if decide (root `suffix_of` q) then
        match os_fs w !! q with
        | Some (Dir _) => Some (Dir m0500)
        | Some (File _ d) => Some (File m0400 d)
        | o => o
        end
      else os_fs w !! q.
Proof.
  intros Hw Hwf Hwalk Hn Hs. eexists. split; [by eapply setReadOnlyRecursive_calm|]. intros q. cbn.
  rewrite mapped_lookup. unfold under. case_decide.
  - rewrite bool_decide_true by done. by destruct (os_fs w !! q) as [[]|].
  - rewrite bool_decide_false by done. by destruct (os_fs w !! q).
Qed.

(** After [setReadOnlyRecursive], a directory that is not empty can not be
    removed by [os.RemoveAll]: it fails and its entries stay. [deleteRecursive]
    does remove it. *)
Theorem read_only_tree_needs_delete_recursive root w x md n :
  no_faults w → wf_fs (os_fs w) → walk (os_fs w) root = None →
  parent_writable (os_fs w) root = true →
  os_fs w !! root = Some (Dir md) → os_fs w !! (x :: root) = Some n →
  (∀ q n', root `suffix_of` q → os_fs w !! q = Some n' → n' ≠ Special) →
  ∃ w1, setReadOnlyRecursive root w = (Ok tt, w1) ∧
    (∃ e w2, os_RemoveAll root w1 = (Err e, w2) ∧ is_Some (os_fs w2 !! (x :: root))) ∧
    ∃ w3, deleteRecursive root w1 = (Ok tt, w3) ∧ os_fs w3 !! root = None.
Proof.
  intros Hw Hwf Hwalk Hpw Hroot Hx Hs. eexists. split; [by eapply setReadOnlyRecursive_calm|].
  set (w1 := set_fs _ w).
  assert (Hc : changes_only (λ q, under root q = true) (os_fs w) (os_fs w1)) by apply mapped_changes.
  assert (Hwf1 : wf_fs (os_fs w1)) by (apply mapped_wf; [by intros []|done]).
  assert (Hwalk1 : walk (os_fs w1) root = None).
  { rewrite (walk_outside _ _ _ _ Hc); [done|]. intros q. apply under_true. }
  assert (Hin : ∀ q n', root `suffix_of` q → os_fs w !! q = Some n' → os_fs w1 !! q = Some (read_only n')).
  { intros q n' Hq Hn'. cbn. rewrite mapped_lookup, Hn', (proj2 (under_true _ _) Hq). done. }
  assert (Hrx : root `suffix_of` x :: root) by (by apply suffix_cons_r).
  split.
  - destruct (RemoveAll_stuck root w1 x root (read_only n) m0500) as (e & w2 & He & Hx2); try done.
    + by apply Hin.
    + by apply (Hin root (Dir md)).
    + eauto 10.
  - eexists. split.
    + eapply deleteRecursive_calm; [done..| |by apply (Hin root (Dir md))].
      destruct root as [|y p]; [done|]. simpl in *. rewrite Hc; [done|].
      rewrite under_true. intros Hl%suffix_length. simpl in Hl. lia.
    + cbn. by apply prune_in.
Qed.

(** * One image per catalog *)

Section Registry.
Context {IL : ImageLib} {ET : ErrorText} (i : ContainersImageRegistry.t).
Abbreviation cache := (fpath (ContainersImageRegistry.BaseCachePath i)).

Lemma fpath_cached name x :
  is_rooted (ContainersImageRegistry.BaseCachePath i) = true → elem_ok name → elem_ok x →
  fpath (ContainersImageRegistry.catalogPath i name) = name :: cache ∧
  fpath (path_Join [ContainersImageRegistry.catalogPath i name; x]) = x :: name :: cache.
Proof.
  intros Hr Hn Hx. unfold ContainersImageRegistry.catalogPath.
  assert (H1 : fpath (path_Join [ContainersImageRegistry.BaseCachePath i; name]) = name :: cache)
    by (rewrite fpath_Join; [done|done|by constructor]).
  split; [done|]. rewrite fpath_Join; [by rewrite H1|by apply is_rooted_Join|by constructor].
Qed.

(** What the loop of [deleteOtherImages] leaves. *)
Definition kept (p : path) (d : string) (xs : list string) (m : fsT) (q : path) : option node :=
  if existsb (λ x, negb (bool_decide (x = d)) && under (x :: p) q) xs then None else m !! q.

Definition delete_other (p : path) (d : string) (e : string * kind) : GoM OS unit :=
  if decide (e.1 = d) then ret tt
  else wrap_err "error removing image directory: " (deleteRecursive (e.1 :: p)).

Lemma delete_other_run p d es w md :
  no_faults w → wf_fs (os_fs w) → walk (os_fs w) p = None →
  os_fs w !! p = Some (Dir md) → can_w md = true → can_x md = true →
  ∃ w', forM es (delete_other p d) w = (Ok tt, w') ∧ (no_faults w' ∧ os_rand w' = os_rand w) ∧
    ∀ q, os_fs w' !! q = kept p d es.*1 (os_fs w) q.
Proof.
  revert w. induction es as [|[x k] es IH]; intros w Hw Hwf Hwalk Hp Hcw Hcx.
  { exists w. by split_and!. }
  simpl. unfold delete_other at 1. simpl. destruct (decide (x = d)) as [->|Hne].
  { erewrite bind_step by reflexivity. destruct (IH w) as (w' & H & [Hf Hr1] & Hq); try done.
    exists w'. split_and!; try done. intros q. rewrite Hq. unfold kept. simpl.
    by rewrite bool_decide_true. }
  destruct (delete_recursive_run (x :: p) w) as (w1 & H1 & [Hf1 Hr1] & Hq1); try done.
  { apply walk_cons. eauto. }
  { simpl. by rewrite Hp. }
  erewrite bind_step by (unfold wrap_err; by rewrite H1).
  assert (Hout : ∀ q, q `suffix_of` p → os_fs w1 !! q = os_fs w !! q).
  { intros q Hq. rewrite Hq1, decide_False; [done|]. intros Hs. by eapply suffix_strict. }
  destruct (IH w1) as (w' & H & [Hf Hr2] & Hq); try done.
  { pose proof (stable_deleteRecursive keeps_wf (x :: p)) as Hst.
    specialize (Hst ltac:(intros m q n _ Hn Hm; by eapply wf_set_mode)
                    ltac:(intros m q n _ Hn He Hm; by eapply wf_delete) w Hwf).
    unfold fs_rel in Hst. by rewrite H1 in Hst. }
  { rewrite <-Hwalk. apply walk_ext. intros q y Hq. apply Hout. etrans; [|exact Hq]. by apply suffix_cons_r. }
  { by rewrite Hout. }
  exists w'. split_and!; try done; [congruence|]. intros q. rewrite Hq. unfold kept. simpl.
  rewrite Hq1, bool_decide_false by done. unfold under at 2. simpl. case_decide as Hs.
  - rewrite bool_decide_true by done. simpl. by destruct (existsb _ _).
  - rewrite bool_decide_false by done. done.
Qed.

Lemma delete_other_images_run name d w md :
  is_rooted (ContainersImageRegistry.BaseCachePath i) = true → elem_ok name →
  no_faults w → wf_fs (os_fs w) → walk (os_fs w) (name :: cache) = None →
  os_fs w !! (name :: cache) = Some (Dir md) → rwx md →
  ∃ w', ContainersImageRegistry.deleteOtherImages i name d w = (Ok tt, w') ∧ (no_faults w' ∧ os_rand w' = os_rand w) ∧
    (∀ x, x ≠ d → os_fs w' !! (x :: name :: cache) = None) ∧
    ∀ q, (d :: name :: cache) `suffix_of` q ∨ ¬ (name :: cache) `suffix_of` q ∨ q = name :: cache →
      os_fs w' !! q = os_fs w !! q.
Proof.
  intros Hr Hn Hw Hwf Hwalk Hp (Hcr & Hcw & Hcx). set (p := name :: cache) in *.
  set (es := entries (os_fs w) p).
  destruct (delete_other_run p d es w md) as (w' & Hrun & Hcalm & Hq); try done.
  assert (Hnames : ∀ e, e ∈ es → elem_ok e.1).
  { intros [x k] (n & Hx & _)%elem_of_entries. by destruct (Hwf _ _ _ Hx). }
  exists w'. split; [|split; [exact Hcalm|split]].
  - unfold ContainersImageRegistry.deleteOtherImages.
    rewrite (proj1 (fpath_cached name name Hr Hn Hn)). fold p. erewrite bind_step.
    2:{ unfold wrap_err, os_ReadDir. rewrite sys_calm, (find_node_Some _ _ (Dir md)), Hcr by done.
        by rewrite set_fs_id. }
    fold es. rewrite <-Hrun. clear Hrun Hq. revert Hnames. generalize es. clear es. intros es Hnames.
    apply forM_ext. intros e He w1. unfold delete_other.
    rewrite (proj2 (fpath_cached name e.1 Hr Hn (Hnames e He))). done.
  - intros x Hx. rewrite Hq. unfold kept. destruct (existsb _ _) eqn:E; [done|].
    destruct (os_fs w !! (x :: p)) as [n|] eqn:En; [|done]. exfalso.
    assert (Hin : x ∈ es.*1).
    { apply list_elem_of_fmap. exists (x, node_kind n). split; [done|]. apply elem_of_entries. eauto. }
    apply not_true_iff_false in E. apply E. apply existsb_exists. exists x.
    split; [by apply list_elem_of_In|]. rewrite bool_decide_false by done. simpl.
    by apply under_true.
  - intros q Hout. rewrite Hq. unfold kept. destruct (existsb _ _) eqn:E; [|done]. exfalso.
    apply existsb_exists in E as (x & _ & [Hx Hu]%andb_true_iff).
    apply under_true in Hu. apply negb_true_iff, bool_decide_eq_false in Hx.
    destruct Hout as [H|[H| ->]].
    + apply Hx. by eapply suffix_child_inj.
    + apply H. etrans; [|exact Hu]. by apply suffix_cons_r.
    + by apply suffix_cons_not in Hu.
Qed.

(** When no system call fails, [deleteOtherImages] removes every image of the
    catalog but the one with the given digest, which it leaves as it is along
    with everything outside the directory of the catalog. *)
Theorem delete_other_images_exact name d w md :
  is_rooted (ContainersImageRegistry.BaseCachePath i) = true → elem_ok name →
  no_faults w → wf_fs (os_fs w) → walk (os_fs w) (name :: cache) = None →
  os_fs w !! (name :: cache) = Some (Dir md) → rwx md →
  ∃ w', ContainersImageRegistry.deleteOtherImages i name d w = (Ok tt, w') ∧
    (∀ x, x ≠ d → os_fs w' !! (x :: name :: cache) = None) ∧
    ∀ q, (d :: name :: cache) `suffix_of` q ∨ ¬ (name :: cache) `suffix_of` q ∨ q = name :: cache →
      os_fs w' !! q = os_fs w !! q.
Proof.
  intros Hr Hn Hw Hwf Hwalk Hp Hrwx.
  destruct (delete_other_images_run name d w md) as (w' & H & _ & H'); eauto.
Qed.
End Registry.

(** * Resolving references and unpacking *)

Section Unpack.
Context {IL : ImageLib} {ET : ErrorText} (i : ContainersImageRegistry.t).

(** A reference that can not be parsed is a terminal error, found without any
    effect; a reference with a digest resolves to itself, without asking a
    registry. *)
Theorem resolve_references_local (ref : string) ctx w :
  match ParseNamed ref with
  | inr _ => ∃ e, ContainersImageRegistry.resolveReferences ref ctx w = (Err e, w) ∧ is_terminal e = true
  | inl r =>
      ∀ c, as_Canonical r = Some c →
        ContainersImageRegistry.resolveReferences ref ctx w = (Ok (r, c, true), w)
  end.
Proof.
  unfold ContainersImageRegistry.resolveReferences. destruct (ParseNamed ref) as [r|e]; [|by eexists].
  intros c Hc. unfold ContainersImageRegistry.resolveCanonicalRef. by rewrite Hc.
Qed.

(** An image without the label that names its catalog directory is refused
    before anything is written, with an error that is terminal exactly when the
    reference of the spec has a digest: a tag may move to a better image. *)
Theorem missing_label_refused p ref canonical ctx w img src labels w1 w2 w3 w4 :
  NewImage ref ctx w = (Ok img, w1) → NewImageSource ref ctx w1 = (Ok src, w2) →
  OCIConfig_Labels img w2 = (Ok labels, w3) → labels !! ConfigDirLabel = None →
  img_Close img w3 = (Ok tt, w4) →
  ∃ e, ContainersImageRegistry.unpackImage i p ref canonical ctx w = (Err e, w4) ∧
    is_terminal e = canonical.
Proof.
  intros H1 H2 H3 Hl H4. unfold ContainersImageRegistry.unpackImage.
  erewrite bind_step by (unfold wrap_err; by rewrite H1).
  unfold defer. erewrite bind_step by (unfold wrap_err; by rewrite H2).
  erewrite bind_step by (unfold wrap_err; by rewrite H3). rewrite Hl.
  unfold throw. unfold bind at 1, try. rewrite H4. eexists. split; [done|]. by destruct canonical.
Qed.

(** C35: A directory at the place of the unpacked image is taken for the complete
    image, whatever it holds: [Unpack] returns it without pulling anything or
    changing the tree. A directory that a killed process left half unpacked is
    taken as well. *)
Theorem existing_directory_is_trusted (cat : ClusterCatalog) image w w0 w1 ctx r c b md :
  let p := fpath (ContainersImageRegistry.unpackPath i (cat_name cat) (Digest c)) in
  SourceType (Source (Spec cat)) = SourceTypeImage →
  Image (Source (Spec cat)) = Some image →
  ContainersImageRegistry.SourceContextFunc i w = (Ok ctx, w0) →
  ContainersImageRegistry.resolveReferences (Ref image) ctx w0 = (Ok (r, c, b), w1) →
  no_faults w1 → walk (os_fs w1) p = None → os_fs w1 !! p = Some (Dir md) →
  ∃ res w2, ContainersImageRegistry.Unpack i cat w = (Ok res, w2) ∧ os_fs w2 = os_fs w1 ∧
    FS res = p ∧ State res = StateUnpacked ∧
    UnpackTime res = time_Truncate (ContainersImageRegistry.ModTime i w1 p) Second ∧
    rResolvedSource res = Some (mkResolvedSource SourceTypeImage
                            (Some (mkResolvedImage (canonical_String c)))).
Proof.
  intros p Ht Hi Hctx Href Hw Hwalk Hp. unfold ContainersImageRegistry.Unpack.
  rewrite decide_True, Hi by done. erewrite bind_step by exact Hctx.
  erewrite bind_step by exact Href. cbv beta iota zeta. fold p.
  erewrite bind_step; [|apply try_step; instantiate (2 := inl (Dir md)); by apply Stat_calm].
  cbv beta iota. erewrite bind_step by reflexivity.
  destruct (time_Now_run w1) as (t & w2 & Hn & Hfs).
  unfold ContainersImageRegistry.successResult. erewrite bind_step by exact Hn.
  eexists _, w2. by split_and!.
Qed.
End Unpack.

(** With directories that do not contain each other, the unpacker leaves the
    storage alone, whatever fails in it: the storage stays in order and serves
    the same content after [Unpack] and after [Cleanup]. A result is always
    complete, with its times in whole seconds. *)
Theorem unpacker_beside_storage {IL : ImageLib} {ILC : ImageLibContract} {ET : ErrorText}
    (s : LocalDirV1.t) (i : ContainersImageRegistry.t) (cat : ClusterCatalog) w :
  separate s i → elem_ok (cat_name cat) → LocalDirV1.inv s w →
  let unpack := ContainersImageRegistry.Unpack i cat w in
  let cleanup := ContainersImageRegistry.Cleanup i cat w in
  (LocalDirV1.inv s unpack.2 ∧ LocalDirV1.inv s cleanup.2) ∧
  (∀ n, LocalDirV1.view s (os_fs unpack.2) n = LocalDirV1.view s (os_fs w) n ∧
        LocalDirV1.view s (os_fs cleanup.2) n = LocalDirV1.view s (os_fs w) n) ∧
  (∀ r, unpack.1 = Ok r →
     State r = StateUnpacked ∧ whole_seconds (UnpackTime r) ∧
     whole_seconds (LastSuccessfulPollAttempt r)).
Proof.
  intros Hsep Hn [Hr Hs] unpack cleanup.
  destruct (keeps_Unpack s i Hsep cat Hn w Hs) as [Hs1 Hv1].
  destruct (keeps_Cleanup s i Hsep cat Hn w Hs) as [Hs2 Hv2].
  split_and!; [by split..|by intros n|]. intros r Hres.
  apply (Unpack_complete i cat w r unpack.2). fold unpack. destruct unpack. simpl in Hres. by subst.
Qed.
