(* ===== verification/ImageOutcome.v ===== *)
(** What the image unpacker leaves behind, whichever calls fail: after an error
    no half-unpacked image that a later call would take for a complete one,
    unless the clean-up failed too and the error says so; after a success the
    directory of the image. *)
From S2P Require Import Prelude GoPath OsFS OsLemmas OsWalk Api Storage Source.
From S2P Require Import ImageSource ImageTrees ImageFrame ImageCorrect.

(** * Outcomes

    [ends Φ m w]: when [m] returns from [w], with a value or an error, [Φ] holds
    of that and of the tree it leaves. *)
Definition ends {A : Type} (Φ : outcome A → fsT → Prop) (m : GoM OS A) (w : OS) : Prop :=
  match m w with
  | (Ok a, w') => Φ (Ok a) (os_fs w')
  | (Err e, w') => Φ (Err e) (os_fs w')
  | _ => True
  end.

Lemma ends_mono {A : Type} (Φ Ψ : outcome A → fsT → Prop) m w :
  ends Φ m w → (∀ r t, Φ r t → Ψ r t) → ends Ψ m w.
Proof. unfold ends. destruct (m w) as [[] ?]; auto. Qed.

Lemma ends_bind {A B : Type} (Φ : outcome B → fsT → Prop) (m : GoM OS A) (k : A → GoM OS B) w :
  (∀ e w1, m w = (Err e, w1) → Φ (Err e) (os_fs w1)) →
  (∀ a w1, m w = (Ok a, w1) → ends Φ (k a) w1) → ends Φ (bind m k) w.
Proof.
  intros He Hk. unfold ends, bind. destruct (m w) as [[a|e|msg|] w1]; try done.
  - by apply Hk.
  - by apply He.
Qed.

Lemma ends_try_bind {A B : Type} (Φ : outcome B → fsT → Prop) (m : GoM OS A) (k : A + error → GoM OS B) w :
  (∀ a w1, m w = (Ok a, w1) → ends Φ (k (inl a)) w1) →
  (∀ e w1, m w = (Err e, w1) → ends Φ (k (inr e)) w1) → ends Φ (bind (try m) k) w.
Proof.
  intros Hok Herr. apply ends_bind.
  - intros e w1. unfold try. by destruct (m w) as [[] ?].
  - intros [a|e] w1 H; apply try_Ok in H; auto.
Qed.

(** A deferred call that does not disturb the property. *)
Lemma ends_defer {A : Type} (R : fsT → fsT → Prop) (Φ : outcome A → fsT → Prop) (m : GoM OS A) (c : GoM OS unit) w :
  stable (fs_rel R) c → (∀ r t t', R t t' → Φ r t → Φ r t') → ends Φ m w → ends Φ (defer m c) w.
Proof.
  intros Hc HR H. unfold ends, defer in *. destruct (m w) as [[a|e|msg|] w1]; try done;
    specialize (Hc w1); unfold fs_rel in Hc; destruct (c w1) as [[u|e'|msg'|] w2]; try done;
    simpl in Hc; by eapply HR.
Qed.

Lemma wrap_err_Err {A : Type} p (m : GoM OS A) w e w' :
  wrap_err p m w = (Err e, w') → ∃ e', e = ErrWrap p e' ∧ m w = (Err e', w').
Proof. unfold wrap_err. destruct (m w) as [[] ?]; try done. intros [= <- <-]. eauto. Qed.

Lemma wrap_err_Ok {A : Type} p (m : GoM OS A) w a w' : wrap_err p m w = (Ok a, w') → m w = (Ok a, w').
Proof. unfold wrap_err. by destruct (m w) as [[] ?]. Qed.

(** * Panics *)

(** [m] panics only with messages in [Q]. *)
Definition panics_only {A : Type} (Q : string → Prop) (m : GoM OS A) : Prop :=
  ∀ w msg, (m w).1 = Panic msg → Q msg.

Section Panics.
Context (Q : string → Prop).

Lemma panics_none {A : Type} (m : GoM OS A) : no_panic m → panics_only Q m.
Proof. intros H w msg E. by destruct (H w msg). Qed.

Lemma panics_bind {A B : Type} (m : GoM OS A) (f : A → GoM OS B) :
  panics_only Q m → (∀ a, panics_only Q (f a)) → panics_only Q (bind m f).
Proof.
  intros Hm Hf w msg. specialize (Hm w msg). unfold bind.
  destruct (m w) as [[a|e|msg'|] w1]; simpl in *; [apply Hf|done| |done].
  intros [= ->]. by apply Hm.
Qed.

Lemma panics_try {A : Type} (m : GoM OS A) : panics_only Q m → panics_only Q (try m).
Proof.
  intros Hm w msg. specialize (Hm w msg). unfold try.
  destruct (m w) as [[a|e|msg'|] w1]; simpl in *; try done. intros [= ->]. by apply Hm.
Qed.

Lemma panics_wrap {A : Type} p (m : GoM OS A) : panics_only Q m → panics_only Q (wrap_err p m).
Proof.
  intros Hm w msg. specialize (Hm w msg). unfold wrap_err.
  by destruct (m w) as [[a|e|msg'|] w1].
Qed.

Lemma panics_defer {A : Type} (m : GoM OS A) c :
  panics_only Q m → panics_only Q c → panics_only Q (defer m c).
Proof.
  intros Hm Hc w msg. specialize (Hm w msg). unfold defer. destruct (m w) as [o w1].
  pose proof (Hc w1 msg) as Hc1.
  destruct o as [a|e|msg'|]; [..|done]; destruct (c w1) as [[u|e'|msg''|] w2]; simpl in *; try done;
    intros [= ->]; auto.
Qed.

Lemma panics_forM {A : Type} (l : list A) (f : A → GoM OS unit) :
  (∀ a, panics_only Q (f a)) → panics_only Q (forM l f).
Proof. intros H. induction l as [|a l IH]; simpl; [by intros w msg|]. by apply panics_bind. Qed.
End Panics.

(** The libraries report failures as errors. *)
Class LibReturns {IL : ImageLib} := {
  ret_NewImageSource r c : no_panic (NewImageSource r c);
  ret_DefaultPolicy c : no_panic (DefaultPolicy c);
  ret_Destroy p : no_panic (Destroy p);
  ret_copy pc r d c : no_panic (copy_Image pc r d c);
  ret_NewImage r c : no_panic (NewImage r c);
  ret_img_Close im : no_panic (img_Close im);
  ret_Labels im : no_panic (OCIConfig_Labels im);
  ret_GetBlob src b : no_panic (GetBlob src b);
  ret_reader_Close rd : no_panic (reader_Close rd);
  ret_AutoDecompress rd : no_panic (AutoDecompress rd);
  ret_Apply dest rd f : no_panic (archive_Apply dest rd f)
}.

Section Panic.
Context {IL : ImageLib} {LR : LibReturns} {ET : ErrorText} (i : ContainersImageRegistry.t).

(** The panic of the deferred function of [unpackImage]. *)
Definition close_failed (msg : string) : Prop :=
  ∃ im w e w', img_Close im w = (Err e, w') ∧ msg = error_text e.

Lemma no_panic_MkdirAll p perm : no_panic (os_MkdirAll p perm).
Proof.
  induction p as [|x p IH]; simpl;
    (apply no_panic_bind; [apply no_panic_try, no_panic_sys|]; intros [[]|]; auto with go;
     apply no_panic_bind; [auto with go|]; intros _;
     apply no_panic_bind; [apply no_panic_try, no_panic_sys|]; intros [|]; auto with go;
     apply no_panic_bind; [apply no_panic_try, no_panic_sys|]; intros [[]|]; auto with go).
Qed.

Lemma no_panic_MkdirTemp dir prefix : no_panic (os_MkdirTemp dir prefix).
Proof.
  assert (H : ∀ draws, no_panic (mkdir_temp dir prefix draws)).
  { induction draws as [|x draws IH]; simpl; auto with go. apply no_panic_bind; [by intros w msg|].
    intros _. apply no_panic_bind; [apply no_panic_try, no_panic_sys|].
    intros [|[]]; auto with go. destruct en; auto with go. }
  apply no_panic_bind; [apply no_panic_gets|]. intros draws. apply H.
Qed.

Lemma panics_close im :
  panics_only close_failed
    (c <- try (img_Close im) ;; match c with inl _ => ret tt | inr e => panic (error_text e) end).
Proof.
  intros w msg. pose proof (ret_img_Close im w) as Hn. unfold bind, try.
  destruct (img_Close im w) as [[u|e|msg'|] w1] eqn:E; simpl in *; try done; [|by destruct (Hn msg')].
  intros [= <-]. by exists im, w, e, w1.
Qed.

Ltac panic_step :=
  first
  [ apply panics_none; first
    [ apply no_panic_ret | apply no_panic_throw | apply no_panic_gets | apply no_panic_RemoveAll
    | apply no_panic_deleteRecursive | apply no_panic_setReadOnly | apply no_panic_MkdirAll
    | apply no_panic_MkdirTemp | apply no_panic_sys
    | apply ret_NewImageSource | apply ret_DefaultPolicy | apply ret_Destroy | apply ret_copy
    | apply ret_NewImage | apply ret_Labels | apply ret_GetBlob | apply ret_reader_Close
    | apply ret_AutoDecompress | apply ret_Apply ]
  | apply panics_close
  | match goal with
    | |- panics_only _ time_Now => intros ? ?; unfold time_Now; by destruct (os_ticks _)
    | |- panics_only _ (from_sum ?x) => destruct x
    | |- panics_only _ (bind _ _) => apply panics_bind; [|intros ?]
    | |- panics_only _ (try _) => apply panics_try
    | |- panics_only _ (wrap_err _ _) => apply panics_wrap
    | |- panics_only _ (defer _ _) => apply panics_defer
    | |- panics_only _ (forM _ _) => apply panics_forM; intros ?
    | |- panics_only _ (match ?x with _ => _ end) => destruct x
    end ].

Lemma panics_unpackLayers p d src n ls :
  panics_only close_failed (ContainersImageRegistry.unpackLayers i p d src n ls).
Proof.
  revert n. induction ls as [|l ls IH]; intros n; simpl; [by intros w msg|].
  unfold ContainersImageRegistry.unpackLayer, ContainersImageRegistry.applyLayer.
  repeat (apply IH || panic_step).
Qed.

(** Pulling and unpacking panics only when the image cannot be closed. *)
Lemma panics_pull name imgRef c b ctx :
  panics_only close_failed (ContainersImageRegistry.pullAndUnpack i name imgRef c b ctx).
Proof.
  unfold ContainersImageRegistry.pullAndUnpack, ContainersImageRegistry.unpackImage,
    ContainersImageRegistry.loadPolicyContext, ContainersImageRegistry.deleteOtherImages,
    ContainersImageRegistry.successResult.
  repeat (apply panics_unpackLayers || panic_step).
Qed.
End Panic.

(** * Calls that leave one place alone *)

(** [archive.Apply] extracts below a directory, which stays one. *)
Class ApplyRoot {IL : ImageLib} := {
  Apply_root dest r f w md :
    os_fs w !! dest = Some (Dir md) →
    ∃ md', os_fs (archive_Apply dest r f w).2 !! dest = Some (Dir md')
}.

Section Outcome.
Context {IL : ImageLib} {ILC : ImageLibContract} {AR : ApplyRoot} {LR : LibReturns} {ET : ErrorText}.
Context (i : ContainersImageRegistry.t).
Abbreviation cache := (fpath (ContainersImageRegistry.BaseCachePath i)).
Abbreviation tmp := (fpath (ContainersImageRegistry.TempDir i)).

(** The cache of unpacked images holds neither temporary files nor those of the
    libraries, nor is it among them, and making a context only reads. *)
Record own_cache : Prop := {
  oc_rooted : is_rooted (ContainersImageRegistry.BaseCachePath i) = true;
  oc_tmp : apart cache tmp;
  oc_scratch q : scratch q → apart cache q;
  oc_context : stable (fs_rel (=)) (ContainersImageRegistry.SourceContextFunc i)
}.
Context (Hoc : own_cache).

(** ** Writing only at some places *)

Lemma writes_mono (P Q : path → Prop) {A : Type} (m : GoM OS A) :
  (∀ q, P q → Q q) → stable (fs_rel (writes P)) m → stable (fs_rel (writes Q)) m.
Proof.
  intros HPQ H w. destruct (H w) as [H1 H2]. split; [done|]. by eapply changes_only_mono.
Qed.

Section Places.
Context (P : path → Prop) (HP : ∀ q, scratch q → P q).
Abbreviation within := (stable (fs_rel (writes P))).

Lemma within_lib {A : Type} (m : GoM OS A) : stable (fs_rel (writes scratch)) m → within m.
Proof. by apply writes_mono. Qed.

Lemma within_now : within time_Now.
Proof. intros w. unfold time_Now, fs_rel. by destruct (os_ticks w). Qed.

Lemma within_from_sum {A : Type} (r : A + error) : within (from_sum r).
Proof. destruct r; [apply stable_ret, _|apply stable_throw, _]. Qed.

Ltac within_step :=
  match goal with
  | |- stable _ (bind _ _) => apply (stable_bind (fs_rel (writes P))); [|intros ?]
  | |- stable _ (wrap_err _ _) => apply (stable_wrap_err (fs_rel (writes P)))
  | |- stable _ (try _) => apply (stable_try (fs_rel (writes P)))
  | |- stable _ (defer _ _) => apply (stable_defer (fs_rel (writes P)))
  | |- stable _ (ret _) => apply stable_ret, _
  | |- stable _ (throw _) => apply stable_throw, _
  | |- stable _ (panic _) => apply stable_panic, _
  | |- stable _ (gets _) => apply stable_gets, _
  | |- stable _ (from_sum _) => apply within_from_sum
  | |- stable _ time_Now => apply within_now
  | |- stable _ (NewImageSource _ _) => apply within_lib, lib_NewImageSource
  | |- stable _ (src_Close _) => apply within_lib, lib_src_Close
  | |- stable _ (GetManifest _) => apply within_lib, lib_GetManifest
  | |- stable _ (DefaultPolicy _) => apply within_lib, lib_DefaultPolicy
  | |- stable _ (Destroy _) => apply within_lib, lib_Destroy
  | |- stable _ (NewImage _ _) => apply within_lib, lib_NewImage
  | |- stable _ (img_Close _) => apply within_lib, lib_img_Close
  | |- stable _ (OCIConfig_Labels _) => apply within_lib, lib_Labels
  | |- stable _ (GetBlob _ _) => apply within_lib, lib_GetBlob
  | |- stable _ (reader_Close _) => apply within_lib, lib_reader_Close
  | |- stable _ (AutoDecompress _) => apply within_lib, lib_AutoDecompress
  | |- stable _ (match ?x with _ => _ end) => destruct x
  end.

Lemma within_loadPolicyContext c : within (ContainersImageRegistry.loadPolicyContext c).
Proof. unfold ContainersImageRegistry.loadPolicyContext. repeat within_step. Qed.

Lemma within_resolveReferences ref c : within (ContainersImageRegistry.resolveReferences ref c).
Proof.
  unfold ContainersImageRegistry.resolveReferences, ContainersImageRegistry.resolveCanonicalRef.
  repeat within_step.
Qed.

Lemma within_successResult p c t : within (ContainersImageRegistry.successResult p c t).
Proof. unfold ContainersImageRegistry.successResult. repeat within_step. Qed.

Lemma within_close img :
  within (c <- try (img_Close img) ;; match c with inl _ => ret tt | inr e => panic (error_text e) end).
Proof. repeat within_step. Qed.

Lemma within_unpackLayer p d src n l :
  (∀ q, p `suffix_of` q → P q) → within (ContainersImageRegistry.unpackLayer i p d src n l).
Proof.
  intros Hp. unfold ContainersImageRegistry.unpackLayer, ContainersImageRegistry.applyLayer.
  repeat within_step. eapply writes_mono; [|apply lib_Apply]. intros q [|]; auto.
Qed.

Lemma within_unpackLayers p d src n ls :
  (∀ q, p `suffix_of` q → P q) → within (ContainersImageRegistry.unpackLayers i p d src n ls).
Proof.
  intros Hp. revert n. induction ls as [|l ls IH]; intros n; [apply stable_ret, _|]. simpl.
  within_step; [by within_step; apply within_unpackLayer|]. within_step; [apply IH|]. repeat within_step.
  by eapply writes_mono; [|apply writes_deleteRecursive].
Qed.

Lemma within_unpackImage p r b c :
  path_ok p → (∀ q, p `suffix_of` q ∨ q `suffix_of` p → P q) →
  within (ContainersImageRegistry.unpackImage i p r b c).
Proof.
  intros Hok Hp. unfold ContainersImageRegistry.unpackImage. repeat within_step.
  - eapply writes_mono; [|by apply writes_MkdirAll]. auto.
  - apply within_unpackLayers. auto.
  - eapply writes_mono; [|apply writes_setReadOnly]. auto.
Qed.
End Places.

(** ** Two ends of a tree *)

Lemma deleteRecursive_Ok p w w' :
  wf_fs (os_fs w) → deleteRecursive p w = (Ok tt, w') → os_fs w' !! p = None.
Proof.
  intros Hwf H. unfold deleteRecursive in H. apply bind_Ok in H as ([] & w1 & H1 & H2).
  eapply RemoveAll_Ok; [|exact H2]. apply wrap_err_Ok in H1.
  assert (Hs : stable (fs_rel keeps_wf) (filepath_WalkDir p make_writable)).
  { apply stable_WalkDir; [apply _|]. intros q k e _. apply stable_make_writable; [apply _|].
    intros m n Hn Hm. by eapply wf_set_mode. }
  specialize (Hs w). rewrite H1 in Hs. by apply Hs.
Qed.

Definition is_dir (p : path) (t : fsT) : Prop := ∃ md, t !! p = Some (Dir md).

Definition keeps_dir (p : path) (t t' : fsT) : Prop := is_dir p t → is_dir p t'.

#[export] Instance keeps_dir_preorder p : PreOrder (keeps_dir p).
Proof.
  split; [intros t H; exact H|]. intros t1 t2 t3 H12 H23 H. apply H23, H12, H.
Qed.

Lemma keeps_dir_writes {A : Type} p (P : path → Prop) (m : GoM OS A) :
  ¬ P p → stable (fs_rel (writes P)) m → stable (fs_rel (keeps_dir p)) m.
Proof. intros HP H w [md Hd]. exists md. destruct (H w) as [_ Hc]. by rewrite Hc. Qed.

Lemma keeps_dir_setReadOnly p : stable (fs_rel (keeps_dir p)) (setReadOnlyRecursive p).
Proof.
  apply (stable_wrap_err (fs_rel (keeps_dir p))), stable_WalkDir; [apply _|]. intros r k e Hr.
  apply stable_make_read_only; [apply _|]. intros mode m n Hn [md Hd].
  destruct (decide (r = p)) as [->|Hne]; [|exists md; by rewrite lookup_insert_ne].
  rewrite Hd in Hn. injection Hn as <-. exists mode. by rewrite lookup_insert_eq.
Qed.

(** * Unpacking *)

Section Image.
Context (p : path) (Hp : cache `suffix_of` p) (Hok : path_ok p).

Lemma not_scratch q : scratch q → q ≠ p.
Proof. intros H ->. by destruct (oc_scratch Hoc p H). Qed.

Lemma dir_lib {A : Type} (m : GoM OS A) :
  stable (fs_rel (writes scratch)) m → stable (fs_rel (keeps_dir p)) m.
Proof. apply keeps_dir_writes. intros H. by apply (not_scratch p). Qed.

Lemma keeps_dir_unpackLayer d src n l :
  stable (fs_rel (keeps_dir p)) (ContainersImageRegistry.unpackLayer i p d src n l).
Proof.
  unfold ContainersImageRegistry.unpackLayer, ContainersImageRegistry.applyLayer.
  set (R := fs_rel (keeps_dir p)).
  apply (stable_bind R); [apply (stable_wrap_err R), dir_lib, lib_GetBlob|]. intros rd.
  apply (stable_defer R); [|apply dir_lib, lib_reader_Close]. apply (stable_wrap_err R).
  apply (stable_bind R); [apply (stable_wrap_err R), dir_lib, lib_AutoDecompress|]. intros rd'.
  apply (stable_defer R); [|apply dir_lib, lib_reader_Close].
  intros w [md Hd]. by eapply Apply_root.
Qed.

Lemma unpackLayers_Ok d src n ls w w' :
  is_dir p (os_fs w) → ContainersImageRegistry.unpackLayers i p d src n ls w = (Ok tt, w') →
  is_dir p (os_fs w').
Proof.
  revert n w. induction ls as [|l ls IH]; intros n w Hd H; simpl in H; [by injection H as <-|].
  apply bind_Ok in H as ([u|e] & w1 & H1 & H).
  - apply try_Ok in H1. pose proof (keeps_dir_unpackLayer d src n l w Hd) as Hd1. rewrite H1 in Hd1.
    by eapply IH.
  - by apply bind_Ok in H as (? & ? & _ & ?).
Qed.

Lemma unpackImage_ends r b c w :
  ends (λ o t, match o with Ok _ => is_dir p t | _ => True end)
    (ContainersImageRegistry.unpackImage i p r b c) w.
Proof.
  unfold ContainersImageRegistry.unpackImage. apply ends_bind; [done|]. intros img w1 _.
  eapply (ends_defer (keeps_dir p)).
  - apply (stable_bind (fs_rel (keeps_dir p))).
    + apply (stable_try (fs_rel (keeps_dir p))), dir_lib, lib_img_Close.
    + intros []; [apply stable_ret, _|apply stable_panic, _].
  - intros [] t t' Ht; auto.
  - apply ends_bind; [done|]. intros src w2 _. apply ends_bind; [done|]. intros labels w3 _.
    destruct (labels !! ConfigDirLabel) as [d|]; [|done].
    apply ends_bind; [done|]. intros [] w4 Hm%wrap_err_Ok%MkdirAll_Ok.
    apply ends_bind; [done|]. intros [] w5 Hl. apply unpackLayers_Ok in Hl; [|done].
    pose proof (keeps_dir_setReadOnly p w5 Hl) as Hd. unfold ends, wrap_err.
    by destruct (setReadOnlyRecursive p w5) as [[]].
Qed.
End Image.

(** * The whole call *)

(** What a failed call leaves at the place of the image: nothing; or the clean-up
    failed as well and the error says so; or the image is complete and only the
    removal of older ones failed. *)
Definition failed_at (p : path) (e : error) (t : fsT) : Prop :=
  t !! p = None ∨
  (∃ err cleanupErr, e = ErrWrap "error unpacking image: " (ErrJoin [err; cleanupErr])) ∨
  (∃ err, e = ErrWrap "error deleting old images: " err) ∧ is_dir p t.

Definition outcome_at {A : Type} (p : path) (o : outcome A) (t : fsT) : Prop :=
  match o with Ok _ => is_dir p t | Err e => failed_at p e t | _ => True end.

Lemma outcome_at_lookup {A : Type} p (o : outcome A) t t' :
  t' !! p = t !! p → outcome_at p o t → outcome_at p o t'.
Proof. intros H. unfold outcome_at, failed_at, is_dir. by rewrite H. Qed.

Lemma place_ok c name : elem_ok name → path_ok (Digest c :: name :: cache).
Proof. intros Hn. constructor; [apply Digest_ok|]. constructor; [done|apply fpath_ok]. Qed.

Lemma not_in_tmp p q : cache `suffix_of` p → tmp `suffix_of` q → ¬ q `suffix_of` p.
Proof.
  intros Hp Hq H. assert (Ht : tmp `suffix_of` p) by (by etrans).
  destruct (oc_tmp Hoc) as [H1 H2]. destruct (suffix_weak_total _ _ _ Ht Hp); auto.
Qed.

(** ** Calls beside the image *)

Section Beside.
Context (p : path) (Hp : cache `suffix_of` p).

Definition beside (t t' : fsT) : Prop := writes (λ q, q ≠ p) t t'.

Lemma beside_run {A : Type} (m : GoM OS A) w o w1 :
  stable (fs_rel beside) m → m w = (o, w1) → wf_fs (os_fs w) →
  wf_fs (os_fs w1) ∧ os_fs w1 !! p = os_fs w !! p.
Proof.
  intros H E Hwf. specialize (H w). rewrite E in H. destruct H as [H1 H2]. split; [by apply H1|].
  apply H2. intros Hne. by apply Hne.
Qed.

Lemma beside_below {A : Type} q (m : GoM OS A) :
  ¬ q `suffix_of` p → stable (fs_rel (writes (suffix q))) m → stable (fs_rel beside) m.
Proof. intros Hq. apply writes_mono. by intros r Hr ->. Qed.

Lemma beside_Other name d x :
  p = d :: name :: cache → x ≠ d → stable (fs_rel beside) (deleteRecursive (x :: name :: cache)).
Proof.
  intros Hpd Hx. eapply beside_below; [|apply writes_deleteRecursive]. rewrite Hpd. intros H.
  apply Hx. by eapply (suffix_child_inj _ _ (name :: cache)); [exact H|].
Qed.

Lemma beside_deleteOtherImages name d w :
  p = d :: name :: cache → elem_ok name → wf_fs (os_fs w) →
  fs_rel beside w (ContainersImageRegistry.deleteOtherImages i name d w).2.
Proof.
  intros Hpd Hn Hwf. unfold ContainersImageRegistry.deleteOtherImages, bind, wrap_err at 1.
  pose proof (stable_ReadDir (=) (fpath (ContainersImageRegistry.catalogPath i name)) w) as Hr.
  destruct (os_ReadDir _ w) as [[es|e|msg|] w1] eqn:E; unfold fs_rel in Hr |- *; simpl in Hr |- *;
    try by rewrite Hr.
  assert (Hes := ReadDir_names _ _ _ _ Hwf E). rewrite Hr. clear E Hr.
  match goal with |- beside _ (os_fs (?m w1).2) =>
    assert (Hst : stable (fs_rel beside) m); [|exact (Hst w1)] end.
  apply (stable_forM (fs_rel beside)). intros e He. destruct (decide _) as [|Hne]; [apply stable_ret, _|].
  apply (stable_wrap_err (fs_rel beside)).
  rewrite (proj2 (fpath_cached i name e.1 (oc_rooted Hoc) Hn (Hes e He))). by apply (beside_Other name d).
Qed.
End Beside.

Section Call.
Context (name : string) (c : Canonical) (Hn : elem_ok name).
Abbreviation p := (Digest c :: name :: cache).

Lemma in_cache : cache `suffix_of` p.
Proof. by do 2 apply suffix_cons_r. Qed.

Lemma beside_lib {A : Type} (m : GoM OS A) :
  stable (fs_rel (writes scratch)) m → stable (fs_rel (beside p)) m.
Proof. apply writes_mono. intros q. apply not_scratch, in_cache. Qed.

(** After the clean-up of [pullAndUnpack], or with the image in place. *)
Lemma after_unpack_ends b ctx ref w :
  wf_fs (os_fs w) →
  ends (outcome_at p)
    (u <- try (ContainersImageRegistry.unpackImage i p ref b ctx) ;;
     match u with
     | inr err =>
         d <- try (deleteRecursive p) ;;
         throw (ErrWrap "error unpacking image: "
                  (match d with inl _ => err | inr cleanupErr => ErrJoin [err; cleanupErr] end))
     | inl _ =>
         wrap_err "error deleting old images: "
           (ContainersImageRegistry.deleteOtherImages i name (Digest c)) ;;
         now <- time_Now ;;
         ContainersImageRegistry.successResult p c now
     end) w.
Proof.
  intros Hwf. pose proof (unpackImage_ends p in_cache ref b ctx w) as Hu.
  pose proof (within_unpackImage (λ _, True) ltac:(done) p ref b ctx (place_ok c name Hn) ltac:(done) w) as Hw.
  unfold ends in Hu. apply ends_try_bind.
  - intros [] w1 E. rewrite E in Hu, Hw. destruct Hw as [Hwf1 _]. specialize (Hwf1 Hwf).
    pose proof (beside_deleteOtherImages p name (Digest c) w1 eq_refl Hn Hwf1) as Hb.
    assert (Hd : ∀ w', fs_rel (beside p) w1 w' → is_dir p (os_fs w')).
    { intros w' [_ Hc]. destruct Hu as [md Hmd]. exists md. rewrite <-Hmd. apply Hc. intros H. by apply H. }
    apply ends_bind.
    + intros e w2 (err & -> & E2)%wrap_err_Err. rewrite E2 in Hb. right. right. eauto.
    + intros [] w2 E2%wrap_err_Ok. rewrite E2 in Hb.
      destruct (time_Now_run w2) as (t3 & w3 & E3 & F3). unfold ends. erewrite bind_step by exact E3.
      unfold ContainersImageRegistry.successResult.
      destruct (time_Now_run w3) as (t4 & w4 & E4 & F4). erewrite bind_step by exact E4. simpl.
      rewrite F4, F3. by apply Hd.
  - intros e w1 E. rewrite E in Hw. destruct Hw as [Hwf1 _]. specialize (Hwf1 Hwf). apply ends_try_bind.
    + intros [] w2 E2. left. by eapply deleteRecursive_Ok.
    + intros e2 w2 _. right. left. eauto.
Qed.

(** A call beside the image that may fail, before there is one. *)
Lemma beside_bind {B : Type} (m : GoM OS B) (k : B → GoM OS (Result path)) w :
  wf_fs (os_fs w) → os_fs w !! p = None → stable (fs_rel (beside p)) m →
  (∀ b w1, m w = (Ok b, w1) → wf_fs (os_fs w1) → os_fs w1 !! p = None → ends (outcome_at p) (k b) w1) →
  ends (outcome_at p) (bind m k) w.
Proof.
  intros H1 H2 Hm Hk. apply ends_bind.
  - intros e w1 E. destruct (beside_run p m w _ _ Hm E H1) as [_ H]. left. by rewrite H.
  - intros b' w1 E. destruct (beside_run p m w _ _ Hm E H1) as [? H]. apply Hk; [done..|]. by rewrite H.
Qed.

Lemma beside_outcome (r : outcome (Result path)) t t' :
  beside p t t' → outcome_at p r t → outcome_at p r t'.
Proof. intros [_ H]. apply outcome_at_lookup. apply H. intros Hne. by apply Hne. Qed.

Lemma pull_ends imgRef b ctx w :
  wf_fs (os_fs w) → os_fs w !! p = None →
  ends (outcome_at p) (ContainersImageRegistry.pullAndUnpack i name imgRef c b ctx) w.
Proof.
  intros Hwf Hnone. unfold ContainersImageRegistry.pullAndUnpack. cbv zeta.
  change (ContainersImageRegistry.unpackPath i name (Digest c))
    with (path_Join [ContainersImageRegistry.catalogPath i name; Digest c]).
  rewrite (proj2 (fpath_cached i name (Digest c) (oc_rooted Hoc) Hn (Digest_ok c))).
  pose proof in_cache as Hin.
  apply beside_bind; [done..|apply (stable_wrap_err (fs_rel (beside p))), within_from_sum|].
  intros dockerRef w1 _ Hwf1 Hn1. apply beside_bind; [done..| |].
  { apply (stable_wrap_err (fs_rel (beside p))). eapply beside_below; [|apply writes_MkdirTemp].
    - by apply not_in_tmp.
    - by apply elem_ok_layout.
    - apply fpath_ok. }
  intros layout w2 Hl Hwf2 Hn2. apply wrap_err_Ok in Hl.
  assert (Hlay : tmp `suffix_of` layout).
  { unfold os_MkdirTemp in Hl. erewrite bind_step in Hl by reflexivity. by eapply mkdir_temp_below. }
  apply (ends_defer (beside p)); [|apply beside_outcome|].
  { eapply beside_below; [|apply writes_RemoveAll]. by apply not_in_tmp. }
  apply beside_bind; [done..|apply (stable_wrap_err (fs_rel (beside p))), within_from_sum|].
  intros ref w3 Hr Hwf3 Hn3. apply wrap_err_Ok in Hr.
  assert (Href : layout_NewReference layout (canonical_String c) = inl ref).
  { unfold from_sum in Hr. destruct (layout_NewReference _ _); [|done]. by injection Hr as ->. }
  apply beside_bind; [done..| |].
  { apply (stable_wrap_err (fs_rel (beside p))), within_loadPolicyContext. by apply not_scratch. }
  intros pc w4 _ Hwf4 Hn4.
  apply (ends_defer (beside p)); [apply beside_lib, lib_Destroy|apply beside_outcome|].
  apply beside_bind; [done..| |intros [] w5 _ Hwf5 _; by apply after_unpack_ends].
  apply (stable_wrap_err (fs_rel (beside p))). eapply writes_mono; [|by eapply lib_copy].
  intros q [Hq|Hq]; [by apply not_scratch|]. intros ->. by apply (not_in_tmp p layout).
Qed.

Lemma pull_result imgRef b ctx :
  yields (λ res, Source.FS res = p) (ContainersImageRegistry.pullAndUnpack i name imgRef c b ctx).
Proof.
  unfold ContainersImageRegistry.pullAndUnpack. cbv zeta.
  change (ContainersImageRegistry.unpackPath i name (Digest c))
    with (path_Join [ContainersImageRegistry.catalogPath i name; Digest c]).
  rewrite (proj2 (fpath_cached i name (Digest c) (oc_rooted Hoc) Hn (Digest_ok c))).
  repeat match goal with
  | |- yields _ (bind _ _) => apply yields_bind; intros ?
  | |- yields _ (defer _ _) => apply yields_defer
  | |- yields _ (throw _) => apply yields_throw
  | |- yields _ (ret _) => by apply yields_ret
  | |- yields _ (ContainersImageRegistry.successResult _ _ _) => unfold ContainersImageRegistry.successResult
  | |- yields _ (match ?x with _ => _ end) => destruct x
  end.
Qed.
End Call.

(** C12: Failed unpacking leaves no debris that would pass for an image. When the
    image of a catalog is not in the cache and [Unpack] returns an error, whichever
    calls of the system or the libraries failed on the way, there is still nothing
    at the place of the image, so that the next call pulls it again; unless the
    clean-up failed as well, which the error then reports, or the directory of the
    image is there and only the removal of older ones failed. When [Unpack] succeeds, the result
    is the directory of the image, and it is there. As long as the libraries do not
    panic themselves ([LibReturns]), [Unpack] panics only if the image it has
    read cannot be closed; such a panic passes the clean-up, so that after it, and
    after the end of the process in the middle of the call, nothing is promised
    about the place. All this is for an image whose reference has been resolved,
    and a cache apart from the temporary directories ([own_cache]). *)
Theorem unpack_leaves_no_debris c image w ctx w1 imgRef canonicalRef b w2 o w' :
  let p := Digest canonicalRef :: cat_name c :: cache in
  elem_ok (cat_name c) → wf_fs (os_fs w) →
  SourceType (Api.Source (Spec c)) = SourceTypeImage → Image (Api.Source (Spec c)) = Some image →
  ContainersImageRegistry.SourceContextFunc i w = (Ok ctx, w1) →
  ContainersImageRegistry.resolveReferences (Ref image) ctx w1 = (Ok (imgRef, canonicalRef, b), w2) →
  os_fs w !! p = None → ContainersImageRegistry.Unpack i c w = (o, w') →
  match o with
  | Ok res => Source.FS res = p ∧ ∃ md, os_fs w' !! p = Some (Dir md)
  | Err e =>
      os_fs w' !! p = None ∨
      (∃ err cleanupErr, e = ErrWrap "error unpacking image: " (ErrJoin [err; cleanupErr])) ∨
      (∃ err, e = ErrWrap "error deleting old images: " err) ∧ ∃ md, os_fs w' !! p = Some (Dir md)
  | Panic msg => close_failed msg
  | Crash => True
  end.
Proof.
  intros p Hn Hwf Ht Himg Hctx Href Hnone H. unfold ContainersImageRegistry.Unpack in H.
  rewrite decide_True, Himg in H by done. erewrite bind_step in H by exact Hctx.
  erewrite bind_step in H by exact Href. cbv beta iota zeta in H.
  change (ContainersImageRegistry.unpackPath i (cat_name c) (Digest canonicalRef))
    with (path_Join [ContainersImageRegistry.catalogPath i (cat_name c); Digest canonicalRef]) in H.
  rewrite (proj2 (fpath_cached i (cat_name c) _ (oc_rooted Hoc) Hn (Digest_ok canonicalRef))) in H. fold p in H.
  assert (Hin : cache `suffix_of` p) by apply in_cache.
  pose proof (oc_context Hoc w) as F1. rewrite Hctx in F1. unfold fs_rel in F1. simpl in F1.
  assert (Hwf1 : wf_fs (os_fs w1)) by (by rewrite <-F1).
  destruct (beside_run p _ w1 _ _ (within_resolveReferences _ (not_scratch p Hin) _ _) Href Hwf1) as [Hwf2 N2].
  rewrite <-F1, Hnone in N2.
  pose proof (stable_Stat (=) p w2) as F3. unfold fs_rel in F3.
  unfold bind at 1, try in H. destruct (os_Stat p w2) as [[n|e|msg|] w3] eqn:E3; simpl in F3;
    [|..|by destruct (sys_no_panic _ _ _ w2 msg (f_equal fst E3))|by injection H as <- _].
  { apply Stat_Ok in E3 as (_ & E3 & _). congruence. }
  pose proof (pull_ends (cat_name c) canonicalRef Hn imgRef b ctx w3) as Hp. rewrite <-F3 in Hp.
  specialize (Hp Hwf2 N2). unfold ends in Hp. rewrite H in Hp. destruct o as [res|e'|msg|]; try done.
  2:{ eapply (panics_pull i _ _ _ _ _ w3). by rewrite H. }
  split; [|done]. by eapply (pull_result (cat_name c) canonicalRef Hn).
Qed.
End Outcome.
