(* ===== verification/Pull.v ===== *)
(** When the registry has the image and the file system works, [Unpack] succeeds
    and leaves the files of the image in the cache: the libraries are
    described by what their calls return, everything else is computed. *)
From stdpp Require Import pretty.
From S2P Require Import Prelude GoPath OsFS OsLemmas OsWalk Api Storage Source.
From S2P Require Import ImageSource ImageTrees ImageFrame ImageCorrect ImageOutcome.

(** * Total correctness

    [total m w Φ]: from [w], [m] returns a value, and [Φ] holds of it and of the
    state it leaves. *)
Definition total {A : Type} (m : GoM OS A) (w : OS) (Φ : A → OS → Prop) : Prop :=
  ∃ a w', m w = (Ok a, w') ∧ Φ a w'.

Lemma total_run {A : Type} (m : GoM OS A) w (Φ : A → OS → Prop) a w' :
  m w = (Ok a, w') → Φ a w' → total m w Φ.
Proof. intros H HΦ. by exists a, w'. Qed.

Lemma total_mono {A : Type} (m : GoM OS A) w (Φ Ψ : A → OS → Prop) :
  total m w Φ → (∀ a w', Φ a w' → Ψ a w') → total m w Ψ.
Proof. intros (a & w' & H & HΦ) HΨ. exists a, w'. auto. Qed.

Lemma total_bind {A B : Type} (m : GoM OS A) (f : A → GoM OS B) w Φ :
  total m w (λ a w1, total (f a) w1 Φ) → total (bind m f) w Φ.
Proof. intros (a & w1 & H & b & w2 & Hb & HΦ). exists b, w2. by rewrite (bind_step _ _ _ _ _ H). Qed.

Lemma total_try {A : Type} (m : GoM OS A) w Φ : total m w (λ a, Φ (inl a)) → total (try m) w Φ.
Proof. intros (a & w1 & H & HΦ). exists (inl a), w1. unfold try. by rewrite H. Qed.

Lemma total_wrap {A : Type} p (m : GoM OS A) w Φ : total m w Φ → total (wrap_err p m) w Φ.
Proof. intros (a & w1 & H & HΦ). exists a, w1. unfold wrap_err. by rewrite H. Qed.

(** A deferred call may fail, but not panic. *)
Lemma total_defer {A : Type} (m : GoM OS A) c w Φ :
  no_panic c → total m w (λ a w1, (c w1).1 ≠ Crash ∧ Φ a (c w1).2) → total (defer m c) w Φ.
Proof.
  intros Hc (a & w1 & H & Hk & HΦ). exists a, (c w1).2. unfold defer. rewrite H. specialize (Hc w1).
  by destruct (c w1) as [[u|e|msg|] w2]; [..|destruct (Hc msg)|].
Qed.

(** A deferred call that succeeds. *)
Lemma total_defer_ok {A : Type} (m : GoM OS A) c w Φ :
  total m w (λ a w1, total c w1 (λ _, Φ a)) → total (defer m c) w Φ.
Proof. intros (a & w1 & H & [] & w2 & Hc & HΦ). exists a, w2. unfold defer. by rewrite H, Hc. Qed.

(** ** Steps that change the tree at some places *)

Definition moved (P : path → Prop) (w w' : OS) : Prop :=
  no_faults w' ∧ os_rand w' = os_rand w ∧ writes P (os_fs w) (os_fs w').

Lemma moved_refl P w : no_faults w → moved P w w.
Proof. intros Hw. by split_and!. Qed.

Lemma moved_trans P w1 w2 w3 : moved P w1 w2 → moved P w2 w3 → moved P w1 w3.
Proof. intros (_ & H1 & H2) (H3 & H4 & H5). split_and!; [done|congruence|]. by etrans. Qed.

Lemma moved_mono (P Q : path → Prop) w w' : (∀ q, P q → Q q) → moved P w w' → moved Q w w'.
Proof.
  intros HPQ (H1 & H2 & H3 & H4). split_and!; [done..|]. split; [done|]. by eapply changes_only_mono.
Qed.

Lemma moved_same P w w' q : moved P w w' → ¬ P q → os_fs w' !! q = os_fs w !! q.
Proof. intros (_ & _ & _ & H) Hq. by apply H. Qed.

Lemma moved_wf P w w' : moved P w w' → wf_fs (os_fs w) → wf_fs (os_fs w').
Proof. intros (_ & _ & H & _). apply H. Qed.

Lemma moved_walk P w w' p :
  moved P w w' → (∀ q, q `suffix_of` p → q ≠ p → ¬ P q) → walk (os_fs w') p = walk (os_fs w) p.
Proof.
  intros H HP. apply walk_ext. intros q x Hq. eapply moved_same; [done|]. apply HP.
  - etrans; [|exact Hq]. by apply suffix_cons_r.
  - intros ->. by eapply suffix_strict.
Qed.

Lemma total_now P w Φ :
  no_faults w → (∀ t w', moved P w w' → os_fs w' = os_fs w → Φ t w') → total time_Now w Φ.
Proof.
  intros Hw HΦ. unfold total, time_Now. destruct (os_ticks w) as [|t l]; eexists _, _; (split; [done|]);
    (apply HΦ; [by split_and!|done]).
Qed.

(** The files at and below [p], by their paths from there. *)
Definition tree_at (m : fsT) (p : path) (T : fsT) : Prop := ∀ q, m !! (q ++ p) = T !! q.

(** They can be reached. *)
Definition stands (m : fsT) (p : path) (T : fsT) : Prop := walk m p = None ∧ tree_at m p T.

Lemma stands_same m m' p T :
  (∀ q, q `suffix_of` p ∨ p `suffix_of` q → m' !! q = m !! q) → stands m p T → stands m' p T.
Proof.
  intros Hq [H1 H2]. split.
  - rewrite <-H1. apply walk_ext. intros q x Hx. apply Hq. left. etrans; [|exact Hx]. by apply suffix_cons_r.
  - intros q. rewrite <-H2. apply Hq. right. by eexists.
Qed.

Definition empty_dir : fsT := {[ [] := Dir m0700 ]}.

Lemma tree_moved P w w' p T :
  moved P w w' → (∀ q, p `suffix_of` q → ¬ P q) → tree_at (os_fs w) p T → tree_at (os_fs w') p T.
Proof. intros H HP HT q. rewrite <-HT. eapply moved_same; [done|]. apply HP. by eexists. Qed.

Lemma tree_root m p T : tree_at m p T → m !! p = T !! [].
Proof. intros H. apply (H []). Qed.

Lemma tree_new m p :
  wf_fs m → m !! p = None → ∀ m', m' !! p = Some (Dir m0700) →
  (∀ q, p `suffix_of` q → q ≠ p → m' !! q = m !! q) → tree_at m' p empty_dir.
Proof.
  intros Hwf Hp m' Hp' Hq q. unfold empty_dir. destruct q as [|x q]; [by rewrite lookup_singleton_eq|].
  rewrite lookup_singleton_ne by done. rewrite Hq.
  - apply eq_None_not_Some. intros [n Hn]. destruct (wf_ancestor m p ((x :: q) ++ p)) as [? ?]; eauto.
    + by eexists.
    + congruence.
  - by eexists.
  - intros Hl%(f_equal length). rewrite length_app in Hl. simpl in Hl. lia.
Qed.

(** [os.MkdirTemp] when nothing fails. *)
Lemma MkdirTemp_calm dir prefix w x rest :
  no_faults w → os_rand w = x :: rest →
  walk (os_fs w) (temp_path dir prefix x) = None → os_fs w !! temp_path dir prefix x = None →
  parent_writable (os_fs w) (temp_path dir prefix x) = true →
  os_MkdirTemp dir prefix w =
    (Ok (temp_path dir prefix x),
     set_rand rest (set_fs (<[temp_path dir prefix x := Dir m0700]> (os_fs w)) w)).
Proof.
  intros Hw Hr Hwalk Hn Hp. unfold os_MkdirTemp. erewrite bind_step; [|reflexivity].
  rewrite Hr. cbn [mkdir_temp]. erewrite bind_step; [|reflexivity].
  erewrite bind_step; [|apply try_step; instantiate (2 := inl tt)].
  2:{ unfold os_Mkdir. rewrite sys_calm by done. cbn [os_fs set_rand].
      rewrite Hwalk, Hn, Hp. reflexivity. }
  done.
Qed.

(** * What the libraries do *)

(** The call succeeds with [a] in every state whose tree has [P], without using up
    faults or random numbers. *)
Definition succeeds {A : Type} (P : fsT → Prop) (m : GoM OS A) (a : A) : Prop :=
  ∀ w, no_faults w → P (os_fs w) → ∃ w', m w = (Ok a, w') ∧ no_faults w' ∧ os_rand w' = os_rand w.

Lemma total_lib {A : Type} P (S : path → Prop) (m : GoM OS A) a w Φ :
  succeeds P m a → stable (fs_rel (writes S)) m → no_faults w → P (os_fs w) →
  (∀ w', moved S w w' → Φ a w') → total m w Φ.
Proof.
  intros Hm Hst Hw HP HΦ. destruct (Hm w Hw HP) as (w' & H & Hw' & Hr). exists a, w'. split; [done|].
  apply HΦ. specialize (Hst w). rewrite H in Hst. by split_and!.
Qed.

Section Pull.
Context {IL : ImageLib} {ILC : ImageLibContract} {ET : ErrorText}.
Context (i : ContainersImageRegistry.t).
Abbreviation cache := (fpath (ContainersImageRegistry.BaseCachePath i)).
Abbreviation tmp := (fpath (ContainersImageRegistry.TempDir i)).

(** ** An image in a registry

    [ctx] is the context of the calls, [dir] the directory of the layout, and
    [p] the place of the image in the cache. The calls need not succeed on every
    tree, but on those with [near]. *)

Section Image.
Context (near : fsT → Prop) (ctx : SystemContext) (dir p : path).

Definition in_layout (layout m : fsT) : Prop := near m ∧ tree_at m dir layout.

(** The layers, one after the other, make the tree [T'] of the tree [T] at [p],
    reading from the layout. *)
Fixpoint extracts (layout : fsT) (src : ImageSrc) (d : string) (bs : list BlobInfo) (T T' : fsT) : Prop :=
  match bs with
  | [] => T' = T
  | b :: bs' =>
      ∃ rd rd' T1,
        succeeds (in_layout layout) (GetBlob src b) rd ∧
        succeeds (in_layout layout) (AutoDecompress rd) rd' ∧
        (∀ w, no_faults w → in_layout layout (os_fs w) → walk (os_fs w) p = None →
           tree_at (os_fs w) p T →
           ∃ w', archive_Apply p rd' (applyLayerFilter (ContainersImageRegistry.Uid i)
                                        (ContainersImageRegistry.Gid i) d) w = (Ok tt, w') ∧
             no_faults w' ∧ os_rand w' = os_rand w ∧ tree_at (os_fs w') p T1) ∧
        succeeds (in_layout layout) (reader_Close rd') tt ∧
        succeeds (in_layout layout) (reader_Close rd) tt ∧
        extracts layout src d bs' T1 T'
  end.

(** The image that was copied to the layout can be read, has the label, and its
    layers make [T] of an empty directory. *)
Definition readable_image (layout : fsT) (lr : ImageReference) (T : fsT) : Prop :=
  let ok {A} (m : GoM OS A) a := succeeds (in_layout layout) m a in
  ∃ img src labels d,
    ok (NewImage lr ctx) img ∧ ok (NewImageSource lr ctx) src ∧ ok (OCIConfig_Labels img) labels ∧
    labels !! ConfigDirLabel = Some d ∧ ok (img_Close img) tt ∧
    extracts layout src d (LayerInfos img) empty_dir T.

(** The registry tells the digest of a reference that has none. *)
Definition resolves (named : Named) (canon : Canonical) : Prop :=
  ∃ r src manifest digest,
    docker_NewReference named = inl r ∧ succeeds near (NewImageSource r ctx) src ∧
    succeeds near (GetManifest src) manifest ∧ manifest_Digest manifest = inl digest ∧
    WithDigest (TrimNamed named) digest = inl canon ∧ succeeds near (src_Close src) tt.

(** The policy of the host, or the insecure one if there is none. *)
Definition loads_policy (policy : Policy) : Prop :=
  succeeds near (DefaultPolicy ctx) policy ∨
  NewPolicyFromBytes ContainersImageRegistry.insecurePolicy = inl policy ∧
  ∀ w, no_faults w → near (os_fs w) → ∃ e w', DefaultPolicy ctx w = (Err e, w') ∧ no_faults w' ∧ os_rand w' = os_rand w ∧
    os_IsNotExist e = true.

(** The registry has the image [ref], which is [canon], with the files [T]. *)
Record has_image (ref : string) (named : Named) (canon : Canonical) (T : fsT) : Prop := {
  hi_parse : ParseNamed ref = inl named;
  hi_canon : as_Canonical named = Some canon ∨ as_Canonical named = None ∧ resolves named canon;
  hi_files : (∃ md, T !! [] = Some (Dir md)) ∧ ∀ q, T !! q ≠ Some Special;
  hi_pull : ∃ r lr policy pc layout,
    docker_NewReference named = inl r ∧ layout_NewReference dir (canonical_String canon) = inl lr ∧
    loads_policy policy ∧ NewPolicyContext policy = inl pc ∧
    (∀ w, no_faults w → in_layout empty_dir (os_fs w) →
       ∃ w', copy_Image pc lr r ctx w = (Ok tt, w') ∧ no_faults w' ∧ os_rand w' = os_rand w ∧
         tree_at (os_fs w') dir layout) ∧
    succeeds near (Destroy pc) tt ∧ readable_image layout lr T
}.

(** ** References *)

Context (Hnear : ∀ w w', moved scratch w w' → near (os_fs w) → near (os_fs w')).

Lemma resolveReferences_total ref named canon T w :
  no_faults w → near (os_fs w) → has_image ref named canon T →
  total (ContainersImageRegistry.resolveReferences ref ctx) w
    (λ r w', r.1 = (named, canon) ∧ moved scratch w w').
Proof.
  intros Hw Hnw [Hp Hc _ _]. unfold ContainersImageRegistry.resolveReferences. rewrite Hp.
  apply total_bind, total_wrap. unfold ContainersImageRegistry.resolveCanonicalRef.
  destruct Hc as [->|[-> (r & src & mf & dg & -> & Hs & Hm & Hd & Hcn & Hcl)]].
  { eapply total_run; [done|]. eapply total_run; [done|]. split; [done|by apply moved_refl]. }
  apply total_bind, total_wrap. eapply total_lib; [exact Hs|apply lib_NewImageSource|done..|].
  intros w1 M1. apply total_defer_ok, total_bind, total_wrap.
  eapply total_lib; [exact Hm|apply lib_GetManifest|apply M1|by eapply Hnear|]. intros w2 M2.
  rewrite Hd. apply total_bind, total_wrap. eapply total_run; [done|].
  rewrite Hcn. apply total_bind, total_wrap. eapply total_run; [done|]. eapply total_run; [done|].
  eapply total_lib; [exact Hcl|apply lib_src_Close|apply M2|by eapply Hnear, Hnear|]. intros w3 M3.
  eapply total_run; [done|]. split; [done|]. by eapply moved_trans, moved_trans.
Qed.

Lemma loadPolicyContext_total policy pc w :
  no_faults w → near (os_fs w) → loads_policy policy → NewPolicyContext policy = inl pc →
  total (ContainersImageRegistry.loadPolicyContext ctx) w (λ r w', r = pc ∧ moved scratch w w').
Proof.
  intros Hw Hnw Hp Hpc. unfold ContainersImageRegistry.loadPolicyContext.
  destruct Hp as [Hp|[Hb He]]; apply total_bind.
  - apply total_try. eapply total_lib; [exact Hp|apply lib_DefaultPolicy|done..|]. intros w1 M1.
    cbv beta iota zeta. eapply total_bind, total_run; [done|]. rewrite Hpc. by eapply total_run.
  - destruct (He w Hw Hnw) as (e & w1 & E & H1 & H2 & H3).
    eapply (total_run _ _ _ (inr e) w1); [unfold try; by rewrite E|]. cbv beta iota zeta. rewrite H3, Hb.
    eapply total_bind, total_run; [done|]. rewrite Hpc. eapply total_run; [done|]. split; [done|].
    pose proof (lib_DefaultPolicy ctx w) as Hs. rewrite E in Hs. by split_and!.
Qed.
End Image.

(** ** Unpacking the image at its place *)

Section Place.
Context (Hoc : own_cache i) (name : string) (Hn : elem_ok name) (canon : Canonical).
Context (ctx : SystemContext) (x : N).
Abbreviation p := (Digest canon :: name :: cache).
Abbreviation dir := (temp_path tmp ("oci-layout-" +:+ name) x).
Context (Hdir : ∀ q, scratch q → apart dir q).

(** Where unpacking writes, and where the whole call does. *)
Definition touched (q : path) : Prop := scratch q ∨ (name :: cache) `suffix_of` q.

Definition pulled (q : path) : Prop := touched q ∨ dir `suffix_of` q.

(** Trees that are [m0] except there. *)
Definition nearby (m0 m : fsT) : Prop := wf_fs m ∧ changes_only pulled m0 m.

Context (m0 : fsT).
Abbreviation near := (nearby m0).
Abbreviation lay layout m := (in_layout near dir layout m).

Lemma above_not_scratch q : q `suffix_of` p → ¬ scratch q.
Proof.
  intros Hq H. destruct (oc_scratch i Hoc q H) as [H1 H2].
  destruct (suffix_weak_total q cache p); [done|by do 2 apply suffix_cons_r|by apply H2|by apply H1].
Qed.

Lemma above_untouched q : q `suffix_of` cache → ¬ touched q.
Proof.
  intros Hq [H|H].
  - apply (above_not_scratch q); [|done]. etrans; [exact Hq|]. by do 2 apply suffix_cons_r.
  - by eapply suffix_strict.
Qed.

Lemma layout_untouched q : dir `suffix_of` q → ¬ touched q.
Proof.
  intros Hq [H|H].
  - by destruct (Hdir q H).
  - apply (not_in_tmp i Hoc q tmp); [|done|].
    + etrans; [|exact H]. by apply suffix_cons_r.
    + etrans; [|exact Hq]. by apply suffix_cons_r.
Qed.

Lemma touched_lib q : scratch q → touched q.
Proof. by left. Qed.

(** A step of unpacking keeps what it relies on. *)
Lemma touched_walk w w' : moved touched w w' → walk (os_fs w') (name :: cache) = walk (os_fs w) (name :: cache).
Proof.
  intros H. eapply moved_walk; [done|]. intros q Hq Hne. apply above_untouched.
  by apply suffix_cases in Hq as [|].
Qed.

Lemma touched_pulled w w' : moved touched w w' → moved pulled w w'.
Proof. apply moved_mono. by left. Qed.

Lemma near_moved w w' : moved pulled w w' → near (os_fs w) → near (os_fs w').
Proof.
  intros M [Hwf Hc]. split; [by eapply moved_wf|]. intros q Hq. rewrite <-Hc by done. by eapply moved_same.
Qed.

Lemma near_lib w w' : moved scratch w w' → near (os_fs w) → near (os_fs w').
Proof. intros M. apply near_moved, touched_pulled. eapply moved_mono; [|exact M]. apply touched_lib. Qed.

Lemma touched_layout layout w w' : moved touched w w' → lay layout (os_fs w) → lay layout (os_fs w').
Proof.
  intros H [Hw HT]. split; [by eapply near_moved; [apply touched_pulled|]|].
  eapply tree_moved; [done| |done]. apply layout_untouched.
Qed.

(** Inside the image only. *)
Definition inside (q : path) : Prop := scratch q ∨ p `suffix_of` q.

Lemma inside_touched w w' : moved inside w w' → moved touched w w'.
Proof. apply moved_mono. intros q [H|H]; [by left|right]. etrans; [|exact H]. by apply suffix_cons_r. Qed.

Lemma inside_walk w w' : moved inside w w' → walk (os_fs w') p = walk (os_fs w) p.
Proof.
  intros H. eapply moved_walk; [done|]. intros q Hq Hne [Hs|Hs].
  - by apply (above_not_scratch q).
  - apply Hne. by apply (anti_symm suffix).
Qed.

Lemma lib_inside w w' : moved scratch w w' → moved inside w w'.
Proof. apply moved_mono. by left. Qed.

Lemma lib_tree w w' T : moved scratch w w' → tree_at (os_fs w) p T → tree_at (os_fs w') p T.
Proof.
  intros H. eapply tree_moved; [done|]. intros q Hq Hs. destruct (oc_scratch i Hoc q Hs) as [H1 _].
  apply H1. etrans; [|exact Hq]. by do 2 apply suffix_cons_r.
Qed.

(** What each step of the layers finds and leaves. *)
Definition unpacking (layout T : fsT) (w : OS) : Prop :=
  no_faults w ∧ lay layout (os_fs w) ∧ walk (os_fs w) p = None ∧ tree_at (os_fs w) p T.

Lemma unpacking_lib layout T w w' : moved scratch w w' → unpacking layout T w → unpacking layout T w'.
Proof.
  intros H (H1 & H2 & H3 & H4). split_and!; [apply H| | |by eapply lib_tree].
  - eapply touched_layout; [|done]. by apply inside_touched, lib_inside.
  - by rewrite (inside_walk w w') by by apply lib_inside.
Qed.

Lemma unpackLayer_total layout src d n b T T1 w rd rd' :
  unpacking layout T w →
  succeeds (in_layout near dir layout) (GetBlob src b) rd →
  succeeds (in_layout near dir layout) (AutoDecompress rd) rd' →
  (∀ w, no_faults w → lay layout (os_fs w) → walk (os_fs w) p = None → tree_at (os_fs w) p T →
     ∃ w', archive_Apply p rd' (applyLayerFilter (ContainersImageRegistry.Uid i)
                                  (ContainersImageRegistry.Gid i) d) w = (Ok tt, w') ∧
       no_faults w' ∧ os_rand w' = os_rand w ∧ tree_at (os_fs w') p T1) →
  succeeds (in_layout near dir layout) (reader_Close rd') tt →
  succeeds (in_layout near dir layout) (reader_Close rd) tt →
  total (ContainersImageRegistry.unpackLayer i p d src n b) w
    (λ _ w', unpacking layout T1 w' ∧ moved inside w w').
Proof.
  intros Hu Hg Ha Hap Hc' Hc. unfold ContainersImageRegistry.unpackLayer, ContainersImageRegistry.applyLayer.
  apply total_bind, total_wrap. eapply total_lib; [exact Hg|apply lib_GetBlob|apply Hu..|]. intros w1 M1.
  pose proof (unpacking_lib _ _ _ _ M1 Hu) as U1.
  apply total_defer_ok, total_wrap, total_bind, total_wrap.
  eapply total_lib; [exact Ha|apply lib_AutoDecompress|apply U1..|]. intros w2 M2.
  pose proof (unpacking_lib _ _ _ _ M2 U1) as U2. pose proof U2 as (F2 & L2 & K2 & T2).
  apply total_defer_ok. destruct (Hap w2 F2 L2 K2 T2) as (w3 & E3 & F3 & R3 & T3).
  assert (M3 : moved inside w2 w3).
  { pose proof (lib_Apply p rd' (applyLayerFilter (ContainersImageRegistry.Uid i)
                                  (ContainersImageRegistry.Gid i) d) w2) as H.
    rewrite E3 in H. by split_and!. }
  assert (U3 : unpacking layout T1 w3).
  { split_and!; [done| | |done]; [|by rewrite (inside_walk w2 w3)].
    by eapply touched_layout; [apply inside_touched|]. }
  eapply total_run; [exact E3|].
  eapply total_lib; [exact Hc'|apply lib_reader_Close|apply U3..|]. intros w4 M4.
  pose proof (unpacking_lib _ _ _ _ M4 U3) as U4.
  eapply total_lib; [exact Hc|apply lib_reader_Close|apply U4..|]. intros w5 M5.
  split; [by eapply unpacking_lib|].
  eapply moved_trans; [by apply lib_inside|]. eapply moved_trans; [by apply lib_inside|].
  eapply moved_trans; [done|]. eapply moved_trans; by apply lib_inside.
Qed.

Lemma unpackLayers_total layout src d n bs T T' w :
  unpacking layout T w → extracts near dir p layout src d bs T T' →
  total (ContainersImageRegistry.unpackLayers i p d src n bs) w
    (λ _ w', unpacking layout T' w' ∧ moved inside w w').
Proof.
  revert n T w. induction bs as [|b bs IH]; intros n T w Hu Hx; simpl in Hx |- *.
  { subst. eapply total_run; [done|]. split; [done|]. apply moved_refl, Hu. }
  destruct Hx as (rd & rd' & T1 & Hg & Ha & Hap & Hc' & Hc & Hx).
  apply total_bind, total_try. eapply total_mono; [by eapply unpackLayer_total|].
  intros [] w1 [U1 M1]. cbv beta iota. eapply total_mono; [by eapply IH|].
  intros [] w2 [U2 M2]. split; [done|]. by eapply moved_trans.
Qed.

(** The cache can be written to, and so can the directory of the catalog, if it is
    there. *)
Definition usable_cache (m : fsT) : Prop := ∃ md, walk m cache = None ∧ m !! cache = Some (Dir md) ∧ rwx md.

Definition roomy (m : fsT) : Prop :=
  wf_fs m ∧ usable_cache m ∧ ∀ n, m !! (name :: cache) = Some n → ∃ md, n = Dir md ∧ rwx md.

Lemma clear_place m : roomy m → m !! p = None → clear_way m p.
Proof.
  intros (Hwf & (mdc & Hwalk & Hc & Hcr) & Hcat) Hp. split.
  - destruct (decide ([] = cache)) as [Heq|Hne]; [rewrite Heq; eauto|].
    destruct (suffix_child [] cache) as [y Hy]; [apply suffix_nil|done|].
    destruct (walk_dirs m cache [] y) as (md & ? & _); eauto.
  - intros q n Hq Hn'. apply suffix_cases in Hq as [->|Hq]; [congruence|].
    apply suffix_cases in Hq as [->|Hq].
    { destruct (Hcat n Hn') as (md & -> & (_ & Hw & Hx)). exists md. by split_and!. }
    destruct (decide (q = cache)) as [->|Hne].
    { rewrite Hc in Hn'. injection Hn' as <-. exists mdc. destruct Hcr as (_ & Hw & Hx). by split_and!. }
    destruct (suffix_child q cache) as [y Hy]; [done|congruence|].
    destruct (walk_dirs m cache q y) as (md & Hmd & Hx); [done..|].
    rewrite Hn' in Hmd. injection Hmd as ->. exists md. split_and!; try done.
    intros z Hz Hnone. exfalso. assert (z = y) as ->.
    { eapply suffix_child_inj; [exact Hz|]. etrans; [exact Hy|]. by do 2 apply suffix_cons_r. }
    destruct (wf_ancestor m (y :: q) cache) as [? ?]; eauto. congruence.
Qed.

Lemma lib_above w w' q : moved scratch w w' → q `suffix_of` p → os_fs w' !! q = os_fs w !! q.
Proof. intros H Hq. eapply moved_same; [exact H|]. by apply above_not_scratch. Qed.

Lemma roomy_same m m' :
  wf_fs m' → (∀ q, q `suffix_of` p → m' !! q = m !! q) → roomy m → roomy m'.
Proof.
  intros Hwf' Hq (_ & (md & H1 & H2 & H3) & H4). split_and!; [done|..].
  - exists md. split_and!; [|by rewrite Hq by by do 2 apply suffix_cons_r|done].
    rewrite <-H1. apply walk_ext. intros q z Hz. apply Hq. do 2 apply suffix_cons_r.
    etrans; [|exact Hz]. by apply suffix_cons_r.
  - intros n. rewrite Hq by by apply suffix_cons_r. apply H4.
Qed.

Lemma roomy_lib w w' : moved scratch w w' → roomy (os_fs w) → roomy (os_fs w').
Proof.
  intros M Hroom. eapply roomy_same; [eapply moved_wf; [exact M|apply Hroom]| |exact Hroom].
  intros q. by apply lib_above.
Qed.

(** The place of the image is made. *)
Definition made (w1 : OS) : Prop :=
  walk (os_fs w1) p = None ∧ walk (os_fs w1) (name :: cache) = None ∧
  ∃ md, os_fs w1 !! (name :: cache) = Some (Dir md) ∧ rwx md.

Lemma make_place w :
  no_faults w → roomy (os_fs w) → os_fs w !! p = None →
  total (os_MkdirAll p m0700) w (λ _ w1, moved touched w w1 ∧ made w1 ∧ tree_at (os_fs w1) p empty_dir).
Proof.
  intros Hw Hroom Hp. pose proof (clear_place _ Hroom Hp) as Hclear.
  destruct Hroom as (Hwf & (mdc & Hwalk & Hc & Hcr) & Hcat). pose proof (proj1 Hclear) as H0.
  pose proof (MkdirAll_calm w p m0700 Hw Hwf Hclear rwx_0700) as E.
  eapply total_run; [exact E|]. set (m1 := mkdirs p m0700 (os_fs w)) in *.
  assert (Hup : ∀ q, q `suffix_of` cache → m1 !! q = os_fs w !! q).
  { intros q Hq. unfold m1. rewrite mkdirs_lookup; [|etrans; [exact Hq|by do 2 apply suffix_cons_r]|done].
    destruct (wf_ancestor (os_fs w) q cache) as [n Hn']; eauto. by rewrite Hn'. }
  assert (Hcat1 : ∃ md, m1 !! (name :: cache) = Some (Dir md) ∧ rwx md).
  { unfold m1. rewrite mkdirs_lookup by (done || by apply suffix_cons_r).
    destruct (os_fs w !! (name :: cache)) as [n|] eqn:En; [|eexists; split; [done|apply rwx_0700]].
    destruct (Hcat n eq_refl) as (md & -> & Hr). by exists md. }
  assert (Hwc : walk m1 (name :: cache) = None).
  { apply walk_cons. split; [|exists mdc; rewrite Hup by done; split; [done|apply Hcr]].
    rewrite <-Hwalk. apply walk_ext. intros q z Hq. apply Hup. etrans; [|exact Hq]. by apply suffix_cons_r. }
  split; [|split].
  - split; [done|]. split; [done|]. pose proof (writes_MkdirAll p m0700 (place_ok i canon name Hn) w) as H.
    rewrite E in H. split; [apply H|]. intros q Hq. cbn [os_fs set_fs].
    destruct (decide (q `suffix_of` cache)) as [Hs|Hs]; [by apply Hup|]. apply mkdirs_ne. intros Hs'.
    apply Hq. right. apply suffix_cases in Hs' as [->|Hs']; [by apply suffix_cons_r|].
    by apply suffix_cases in Hs' as [->|Hs'].
  - split_and!; [|done|done]. destruct Hcat1 as (md & Hmd & Hr). apply walk_cons. split; [done|].
    exists md. split; [done|apply Hr].
  - eapply (tree_new (os_fs w)); [done..| |].
    + cbn [os_fs set_fs]. unfold m1. by rewrite mkdirs_lookup, Hp by done.
    + intros q Hq Hne. cbn [os_fs set_fs]. apply mkdirs_ne. intros Hs. apply Hne. by apply (anti_symm suffix).
Qed.

Lemma made_inside w w' : moved inside w w' → made w → made w'.
Proof.
  intros M (H1 & H2 & md & H3 & H4). pose proof (inside_touched _ _ M) as M'. split_and!.
  - by rewrite (inside_walk w w').
  - by rewrite (touched_walk w w').
  - exists md. split; [|done]. rewrite <-H3. eapply moved_same; [exact M|]. intros [Hs|Hs].
    + apply (above_not_scratch (name :: cache)); [by apply suffix_cons_r|done].
    + by eapply suffix_strict.
Qed.

(** ** The image as a whole *)

Lemma setReadOnly_total layout T w :
  unpacking layout T w → wf_fs (os_fs w) → (∃ md, T !! [] = Some (Dir md)) → (∀ q, T !! q ≠ Some Special) →
  total (setReadOnlyRecursive p) w
    (λ _ w', moved inside w w' ∧ tree_at (os_fs w') p (read_only <$> T)).
Proof.
  intros (Hw & HL & HK & HT) Hwf [md Hmd] Hsp.
  assert (E : setReadOnlyRecursive p w = (Ok tt, set_fs (mapped (under p) read_only (os_fs w)) w)).
  { apply (setReadOnlyRecursive_calm p w (Dir md)); try done.
    - by rewrite (tree_root _ _ _ HT).
    - intros q n [l ->] Hq ->. by apply (Hsp l); rewrite <-HT. }
  eapply total_run; [exact E|]. split.
  - split; [done|]. split; [done|]. pose proof (writes_setReadOnly p w) as H. rewrite E in H.
    destruct H as [H1 H2]. split; [exact H1|]. eapply changes_only_mono; [|exact H2]. by right.
  - intros q. cbn. rewrite mapped_lookup, lookup_fmap, HT.
    rewrite (proj2 (under_true p (q ++ p))) by by eexists. by destruct (T !! q).
Qed.

Lemma unpackImage_total layout lr T pinned w :
  no_faults w → lay layout (os_fs w) → roomy (os_fs w) → os_fs w !! p = None →
  readable_image near ctx dir p layout lr T → (∃ md, T !! [] = Some (Dir md)) → (∀ q, T !! q ≠ Some Special) →
  total (ContainersImageRegistry.unpackImage i p lr pinned ctx) w
    (λ _ w', moved touched w w' ∧ made w' ∧ tree_at (os_fs w') p (read_only <$> T)).
Proof.
  intros Hw HL Hroom Hp (img & src & labels & d & HNI & HNS & Hlab & Hd & Hcl & Hx) Hroot Hsp.
  assert (Hlib : ∀ w w', moved scratch w w' → moved touched w w') by (intros ??; apply moved_mono, touched_lib).
  unfold ContainersImageRegistry.unpackImage. apply total_bind, total_wrap.
  eapply total_lib; [exact HNI|apply lib_NewImage|done..|]. intros w1 M1.
  apply total_defer_ok, total_bind, total_wrap.
  eapply total_lib; [exact HNS|apply lib_NewImageSource|apply M1|by eapply touched_layout, HL; apply Hlib|].
  intros w2 M2. pose proof (moved_trans _ _ _ _ M1 M2) as M12. apply total_bind, total_wrap.
  eapply total_lib; [exact Hlab|apply lib_Labels|apply M2|by eapply touched_layout, HL; apply Hlib|].
  intros w3 M3. pose proof (moved_trans _ _ _ _ M12 M3) as M13. rewrite Hd. apply total_bind, total_wrap.
  assert (Hwf3 : wf_fs (os_fs w3)) by (eapply moved_wf; [exact M13|apply Hroom]).
  eapply total_mono.
  { apply make_place; [apply M3|by eapply roomy_lib|]. by rewrite (lib_above w w3) by done. }
  intros [] w4 (M4 & Hmade & T4). pose proof (moved_trans _ _ _ _ (Hlib _ _ M13) M4) as M14.
  assert (U4 : unpacking layout empty_dir w4).
  { split_and!; [apply M4|by eapply touched_layout|apply Hmade|done]. }
  apply total_bind. eapply total_mono; [by eapply unpackLayers_total|]. intros [] w5 [U5 M5].
  apply total_wrap. eapply total_mono; [eapply setReadOnly_total; try done|].
  { exact (moved_wf _ _ _ M5 (moved_wf _ _ _ M4 Hwf3)). }
  intros [] w6 [M6 T6]. pose proof (moved_trans _ _ _ _ M5 M6) as M46.
  pose proof (moved_trans _ _ _ _ M14 (inside_touched _ _ M46)) as M16.
  apply total_bind, total_try.
  eapply total_lib; [exact Hcl|apply lib_img_Close|apply M6|exact (touched_layout _ _ _ M16 HL)|]. intros w7 M7.
  eapply total_run; [done|]. split_and!.
  - eapply moved_trans; [exact M16|by apply Hlib].
  - eapply made_inside; [by apply lib_inside|]. by eapply made_inside.
  - by eapply lib_tree.
Qed.

(** ** The whole call *)

Lemma pulled_above q : q `suffix_of` p → ¬ (scratch q ∨ dir `suffix_of` q).
Proof.
  intros Hq [H|H]; [by apply (above_not_scratch q)|]. apply (not_in_tmp i Hoc p dir).
  - by do 2 apply suffix_cons_r.
  - by apply suffix_cons_r.
  - by etrans.
Qed.

Lemma pulled_beside q : q `suffix_of` p ∨ p `suffix_of` q → ¬ (scratch q ∨ dir `suffix_of` q).
Proof.
  intros [Hq|Hq]; [by apply pulled_above|]. assert (cache `suffix_of` q).
  { etrans; [|exact Hq]. by do 2 apply suffix_cons_r. }
  intros [Hs|Hs]; [by destruct (oc_scratch i Hoc q Hs)|].
  apply (not_in_tmp i Hoc q dir); [done|by apply suffix_cons_r|done].
Qed.

(** A new directory for the layout can be made. *)
Definition temp_room (m : fsT) : Prop :=
  walk m dir = None ∧ m !! dir = None ∧ parent_writable m dir = true.

Lemma layout_dir_total rest w :
  no_faults w → os_rand w = x :: rest → roomy (os_fs w) → temp_room (os_fs w) →
  total (os_MkdirTemp tmp ("oci-layout-" +:+ name)) w
    (λ d w1, d = dir ∧ no_faults w1 ∧ os_rand w1 = rest ∧ writes pulled (os_fs w) (os_fs w1) ∧
       roomy (os_fs w1) ∧ os_fs w1 !! p = os_fs w !! p ∧ tree_at (os_fs w1) dir empty_dir).
Proof.
  intros Hw Hr Hroom (Hwalk & Hnone & Hpw). eapply total_run; [by apply (MkdirTemp_calm _ _ _ x rest)|].
  set (m1 := <[dir := Dir m0700]> (os_fs w)). cbn [os_fs set_rand set_fs os_rand].
  assert (Hwf1 : wf_fs m1).
  { apply wf_insert_new; try done; [apply Hroom|]. apply temp_path_ok; [by apply elem_ok_layout|apply fpath_ok]. }
  assert (Hup : ∀ q, q `suffix_of` p → m1 !! q = os_fs w !! q).
  { intros q Hq. apply lookup_insert_ne. intros <-. by destruct (pulled_above dir Hq); right. }
  split_and!; try done; [|by eapply roomy_same|by apply Hup|].
  - split; [by intros _|]. intros q Hq. apply lookup_insert_ne. intros <-. apply Hq. by right.
  - eapply (tree_new (os_fs w)); [apply Hroom|done|apply lookup_insert_eq|].
    intros q _ Hne. by apply lookup_insert_ne.
Qed.

(** The image in the cache, and only this one. *)
Lemma keep_only_total T w :
  no_faults w → wf_fs (os_fs w) → made w → tree_at (os_fs w) p T →
  total (ContainersImageRegistry.deleteOtherImages i name (Digest canon)) w
    (λ _ w', moved touched w w' ∧ stands (os_fs w') p T).
Proof.
  intros Hw Hwf (Hwp & Hwalk & md & Hmd & Hr) HT.
  destruct (delete_other_images_run i name (Digest canon) w md (oc_rooted i Hoc) Hn Hw Hwf Hwalk Hmd Hr)
    as (w' & E & [Hw' Hrand] & _ & Hsame).
  eapply total_run; [exact E|]. split.
  - split; [done|]. split; [done|].
    destruct (beside_deleteOtherImages i Hoc p name (Digest canon) w eq_refl Hn Hwf) as [Hk _].
    rewrite E in Hk. split; [exact Hk|]. intros q Hq. apply Hsame. right. left. intros H. apply Hq. by right.
  - eapply stands_same; [|by split]. intros q [[->|Hq]%suffix_cases|Hq]; apply Hsame; auto.
    apply suffix_cases in Hq as [->|Hq]; [auto|]. right. left. intros H. by eapply suffix_strict.
Qed.

(** What follows the copy of the image. *)
Lemma after_copy_total layout lr T pinned w :
  no_faults w → lay layout (os_fs w) → roomy (os_fs w) → os_fs w !! p = None →
  readable_image near ctx dir p layout lr T → (∃ md, T !! [] = Some (Dir md)) → (∀ q, T !! q ≠ Some Special) →
  total
    (u <- try (ContainersImageRegistry.unpackImage i p lr pinned ctx) ;;
     match u with
     | inr err =>
         d <- try (deleteRecursive p) ;;
         throw (ErrWrap "error unpacking image: "
                  (match d with inl _ => err | inr cleanupErr => ErrJoin [err; cleanupErr] end))
     | inl _ =>
         wrap_err "error deleting old images: "
           (ContainersImageRegistry.deleteOtherImages i name (Digest canon)) ;;
         now <- time_Now ;;
         ContainersImageRegistry.successResult p canon now
     end) w
    (λ res w', Source.FS res = p ∧ moved touched w w' ∧ stands (os_fs w') p (read_only <$> T)).
Proof.
  intros Hw HL Hroom Hp Him Hroot Hsp. apply total_bind, total_try.
  eapply total_mono; [by eapply unpackImage_total|]. intros [] w1 (M1 & Hmade & T1). cbv beta iota.
  apply total_bind, total_wrap.
  eapply total_mono; [apply keep_only_total; [apply M1| |done|exact T1]|].
  { eapply moved_wf; [exact M1|apply Hroom]. }
  intros [] w2 [M2 T2]. apply total_bind, (total_now touched); [apply M2|]. intros now w3 M3 F3.
  apply total_bind, (total_now touched); [apply M3|]. intros t w4 M4 F4.
  eapply total_run; [done|]. split_and!; [done| |].
  - eapply moved_trans; [exact M1|]. eapply moved_trans; [exact M2|]. by eapply moved_trans.
  - by rewrite F4, F3.
Qed.

(** The layout is removed at the end. *)
Lemma layout_removed T w w1 w' :
  writes pulled (os_fs w) (os_fs w1) → moved pulled w1 w' → stands (os_fs w') p T →
  let run := os_RemoveAll dir w' in
  run.1 ≠ Crash ∧ no_faults run.2 ∧ os_rand run.2 = os_rand w1 ∧
  writes pulled (os_fs w) (os_fs run.2) ∧ stands (os_fs run.2) p T.
Proof.
  intros W1 M HT run. destruct (goes_on_RemoveAll dir w' (proj1 M)) as [[Fw Rw] Hcr].
  pose proof (writes_RemoveAll dir w') as [Kw Cw]. split_and!; try done.
  - unfold run. rewrite Rw. by destruct M as (_ & -> & _).
  - etrans; [exact W1|]. etrans; [apply M|]. split; [exact Kw|].
    eapply changes_only_mono; [|exact Cw]. by right.
  - eapply stands_same; [|exact HT]. intros q Hq. apply Cw. intros H. apply (pulled_beside q Hq). by right.
Qed.

Lemma pull_total ref named T pinned rest w :
  no_faults w → os_rand w = x :: rest → roomy (os_fs w) → os_fs w !! p = None → temp_room (os_fs w) →
  near (os_fs w) → has_image near ctx dir p ref named canon T →
  total (ContainersImageRegistry.pullAndUnpack i name named canon pinned ctx) w
    (λ res w', Source.FS res = p ∧ no_faults w' ∧ os_rand w' = rest ∧
       writes pulled (os_fs w) (os_fs w') ∧ stands (os_fs w') p (read_only <$> T)).
Proof.
  intros Hw Hrand Hroom Hp Htmp Hnr [_ _ [Hroot Hsp] (r & lr & policy & pc & layout & Hr & Hlr & Hpol & Hpc & Hcopy & Hdes & Him)].
  unfold ContainersImageRegistry.pullAndUnpack. cbv zeta.
  change (ContainersImageRegistry.unpackPath i name (Digest canon))
    with (path_Join [ContainersImageRegistry.catalogPath i name; Digest canon]).
  rewrite (proj2 (fpath_cached i name (Digest canon) (oc_rooted i Hoc) Hn (Digest_ok canon))).
  rewrite Hr. apply total_bind, total_wrap. eapply total_run; [done|]. apply total_bind, total_wrap.
  eapply total_mono; [by eapply layout_dir_total|]. intros d w1 (-> & F1 & R1 & W1 & Hroom1 & P1 & L1).
  assert (N1 : near (os_fs w1)).
  { split; [apply Hroom1|]. intros q Hq. rewrite <-(proj2 Hnr) by done. by apply W1. }
  rewrite Hp in P1. apply total_defer; [apply no_panic_RemoveAll|].
  eapply (total_mono _ _ (λ res w', Source.FS res = p ∧ moved pulled w1 w' ∧ stands (os_fs w') p (read_only <$> T))).
  2:{ intros res w' (Hres & M & HT). destruct (layout_removed _ _ _ _ W1 M HT) as (Hcr & H1 & H2 & H3).
      split; [exact Hcr|]. by rewrite H2. }
  rewrite Hlr. apply total_bind, total_wrap. eapply total_run; [done|]. apply total_bind, total_wrap.
  eapply total_mono; [by eapply loadPolicyContext_total|]. intros pc' w2 [-> M2].
  apply total_defer_ok, total_bind, total_wrap.
  destruct (Hcopy w2) as (w3 & E3 & F3 & R3 & L3).
  { apply M2. }
  { eapply touched_layout; [|by split]. eapply moved_mono; [|exact M2]. apply touched_lib. }
  pose proof (lib_copy pc dir _ lr r ctx Hlr w2) as W3. rewrite E3 in W3.
  assert (M3 : moved (λ q, scratch q ∨ dir `suffix_of` q) w1 w3).
  { eapply (moved_trans _ _ w2); [|by split_and!]. eapply moved_mono; [|exact M2]. by left. }
  eapply total_run; [exact E3|]. eapply total_mono.
  { eapply (after_copy_total layout lr T pinned w3); try done.
    - split; [|done]. eapply near_moved; [|exact N1]. eapply moved_mono; [|exact M3].
      intros q [H|H]; [left; by left|by right].
    - eapply roomy_same; [eapply moved_wf; [exact M3|apply Hroom1]| |exact Hroom1].
      intros q Hq. eapply moved_same; [exact M3|]. by apply pulled_above.
    - rewrite <-P1. eapply moved_same; [exact M3|]. by apply pulled_above. }
  intros res w4 (Hres & M4 & T4).
  assert (M14 : moved pulled w1 w4).
  { eapply moved_trans; [eapply moved_mono; [|exact M3]|by apply touched_pulled].
    intros q [H|H]; [left; by left|by right]. }
  eapply total_lib; [exact Hdes|apply lib_Destroy|apply M4|by eapply near_moved|]. intros w5 M5.
  split; [done|]. split.
  - eapply moved_trans; [exact M14|]. eapply moved_mono; [|exact M5]. intros q H. left. by left.
  - eapply stands_same; [|exact T4]. intros q Hq. eapply moved_same; [exact M5|]. intros H.
    apply (pulled_beside q Hq). by left.
Qed.

Lemma temp_room_lib w w' : moved scratch w w' → temp_room (os_fs w) → temp_room (os_fs w').
Proof.
  intros M (H1 & H2 & H3).
  assert (Hq : ∀ q, q `suffix_of` dir → os_fs w' !! q = os_fs w !! q).
  { intros q Hq. eapply moved_same; [exact M|]. intros Hs. by destruct (Hdir q Hs). }
  split_and!.
  - rewrite <-H1. apply walk_ext. intros q z Hz. apply Hq. etrans; [|exact Hz]. by apply suffix_cons_r.
  - by rewrite Hq.
  - simpl in *. by rewrite Hq by by apply suffix_cons_r.
Qed.

Lemma cached_walk T w :
  roomy (os_fs w) → tree_at (os_fs w) p T → is_Some (T !! []) → walk (os_fs w) p = None.
Proof.
  intros (Hwf & (md & H1 & H2 & H3) & H4) HT [n Hn']. rewrite <-(tree_root _ _ _ HT) in Hn'.
  destruct (Hwf _ _ _ Hn') as (_ & md' & Hmd'). destruct (H4 _ Hmd') as (md0 & [= ->] & Hr).
  apply walk_cons. split; [|exists md0; split; [done|apply Hr]].
  apply walk_cons. split; [done|]. exists md. split; [done|apply H3].
Qed.

(** [Unpack] succeeds: it pulls the image, or finds it in the cache. *)
Lemma Unpack_total c image named T rest w :
  cat_name c = name → SourceType (Api.Source (Spec c)) = SourceTypeImage →
  Image (Api.Source (Spec c)) = Some image →
  ContainersImageRegistry.SourceContextFunc i w = (Ok ctx, w) →
  no_faults w → os_rand w = x :: rest → roomy (os_fs w) → temp_room (os_fs w) →
  near (os_fs w) → has_image near ctx dir p (Ref image) named canon T →
  os_fs w !! p = None ∨ tree_at (os_fs w) p (read_only <$> T) →
  total (ContainersImageRegistry.Unpack i c) w
    (λ res w', Source.FS res = p ∧ no_faults w' ∧ (os_rand w' = rest ∨ os_rand w' = x :: rest) ∧
       writes pulled (os_fs w) (os_fs w') ∧ stands (os_fs w') p (read_only <$> T)).
Proof.
  intros Hname Hst Himg Hctx Hw Hrand Hroom Htmp Hnr Hhas Hplace.
  unfold ContainersImageRegistry.Unpack. rewrite decide_True, Himg, Hname by done.
  eapply total_bind, total_run; [exact Hctx|]. apply total_bind.
  eapply total_mono; [eapply resolveReferences_total; [exact near_lib|done..]|]. intros [[nm cn] pinned] w1 [[= -> ->] M1].
  cbv beta iota zeta.
  change (ContainersImageRegistry.unpackPath i name (Digest canon))
    with (path_Join [ContainersImageRegistry.catalogPath i name; Digest canon]).
  rewrite (proj2 (fpath_cached i name (Digest canon) (oc_rooted i Hoc) Hn (Digest_ok canon))).
  pose proof (roomy_lib _ _ M1 Hroom) as Hroom1. pose proof (temp_room_lib _ _ M1 Htmp) as Htmp1.
  pose proof M1 as (F1 & R1 & W1). rewrite Hrand in R1.
  assert (W1' : writes pulled (os_fs w) (os_fs w1)).
  { destruct W1 as [Hk Hc]. split; [done|]. eapply changes_only_mono; [|exact Hc]. intros q H. left. by left. }
  apply total_bind. destruct Hplace as [Hnone|HT].
  - assert (N1 : os_fs w1 !! p = None) by (by rewrite (lib_above w w1)).
    assert (∃ e, os_Stat p w1 = (Err e, w1)) as [e E].
    { unfold os_Stat. rewrite sys_calm by done. unfold find_node. rewrite N1.
      destruct (walk (os_fs w1) p); eauto. }
    eapply (total_run _ _ _ (inr e) w1); [unfold try; by rewrite E|]. cbv beta iota.
    eapply total_mono; [eapply pull_total; try done; by eapply near_lib|]. intros res w2 (H1 & H2 & H3 & H4 & H5).
    split_and!; try done; [by left|by etrans].
  - pose proof (lib_tree _ _ _ M1 HT) as T1. destruct (hi_files _ _ _ _ _ _ _ _ Hhas) as [[md Hmd] _].
    assert (Hroot : (read_only <$> T) !! [] = Some (Dir m0500)) by (by rewrite lookup_fmap, Hmd).
    assert (Hwalk : walk (os_fs w1) p = None) by (eapply cached_walk; [done..|by rewrite Hroot]).
    eapply (total_run _ _ _ (inl (Dir m0500)) w1).
    { unfold try. rewrite (Stat_calm w1 p (Dir m0500)); try done. by rewrite (tree_root _ _ _ T1). }
    cbv beta iota. eapply total_bind, total_run; [done|]. apply total_bind, (total_now touched); [done|].
    intros t w2 M2 F2. eapply total_run; [done|]. destruct M2 as (F2' & R2 & _).
    split_and!; [done|done|right; congruence|by rewrite F2|]. by rewrite F2.
Qed.
End Place.
End Pull.
