(* ===== verification/ImageDemo.v ===== *)
(** A small image library: references are strings, a reference with a digest is
    the digest itself, and every image has one layer with two files in its
    catalog directory. The properties of the image unpacker are exercised with
    it. *)
From stdpp Require Import pretty.
From S2P Require Import Prelude GoPath Url OsFS OsLemmas OsWalk Api Storage StorageDemo.
From S2P Require Import Source ImageSource ImageTrees ImageFrame ImageCorrect ImageOutcome.

#[local] Existing Instance demo_text.

Definition layer : list (string * string) := [("a.yaml", "A"); ("b.yaml", "B")].

(** Extracts the files the filter keeps. *)
Definition apply_files (dest : path) (files : list (string * string))
    (filter : Header → Header * (bool + error)) : GoM OS unit :=
  forM files (λ f,
    match (filter (mkHeader ("configs/" +:+ f.1) 0 0 m0600)).2 with
    | inr e => throw e
    | inl false => ret tt
    | inl true =>
        if decide (elem_ok f.1) then os_WriteFile (f.1 :: dest) f.2 m0600
        else throw (ErrString "bad name")
    end).

Definition op_digest : string := "sha256:0".

#[local] Instance demo_lib : ImageLib := {
  Named := string;
  Canonical := unit;
  SystemContext := string * string * string;
  ImageReference := bool;
  ImageSrc := unit;
  Img := bool;
  BlobInfo := unit;
  Reader := list (string * string);
  Policy := unit;
  PolicyContext := unit;
  ParseNamed s := if decide (s = "") then inr (ErrString "invalid reference format") else inl s;
  as_Canonical s := if decide (s = op_digest) then Some tt else None;
  canonical_String _ := op_digest;
  Digest _ := op_digest;
  docker_NewReference _ := inl true;
  NewImageSource _ _ := ret tt;
  src_Close _ := ret tt;
  GetManifest _ := ret "manifest";
  manifest_Digest _ := inl op_digest;
  WithDigest _ _ := inl tt;
  TrimNamed s := s;
  layout_NewReference _ _ := inl true;
  DefaultPolicy _ := throw (ErrErrno "open" ["policy.json"; "containers"; "etc"] ENOENT);
  NewPolicyFromBytes _ := inl tt;
  NewPolicyContext _ := inl tt;
  Destroy _ := ret tt;
  copy_Image _ _ _ _ := ret tt;
  NewImage r _ := ret r;
  img_Close _ := ret tt;
  OCIConfig_Labels labelled :=
    ret (if labelled : bool then {[ ConfigDirLabel := "/configs" ]} else ∅);
  LayerInfos _ := [tt];
  GetBlob _ _ := ret layer;
  reader_Close _ := ret tt;
  AutoDecompress r := ret r;
  archive_Apply := apply_files
}.

Lemma writes_ret {A : Type} (P : path → Prop) (a : A) : stable (fs_rel (writes P)) (ret a).
Proof. apply stable_ret, _. Qed.

#[local] Program Instance demo_lib_contract : ImageLibContract := {
  scratch _ := False
}.
Next Obligation. intros c. elem. Qed.
Next Obligation. intros r c. apply writes_ret. Qed.
Next Obligation. intros s. apply writes_ret. Qed.
Next Obligation. intros s. apply writes_ret. Qed.
Next Obligation. intros c. apply stable_throw, _. Qed.
Next Obligation. intros p. apply writes_ret. Qed.
Next Obligation. intros r c. apply writes_ret. Qed.
Next Obligation. intros r. apply writes_ret. Qed.
Next Obligation. intros r. apply writes_ret. Qed.
Next Obligation. intros s b. apply writes_ret. Qed.
Next Obligation. intros r. apply writes_ret. Qed.
Next Obligation. intros r. apply writes_ret. Qed.
Next Obligation. intros pc dir ref r d c _. apply writes_ret. Qed.
Next Obligation.
  intros dest files f. set (P := λ q : path, False ∨ dest `suffix_of` q).
  apply (stable_forM (fs_rel (writes P))). intros [x d] _. simpl.
  destruct (f _).2 as [[]|e]; [|apply stable_ret, _|apply stable_throw, _].
  destruct (decide (elem_ok x)) as [Hx|]; [|apply stable_throw, _].
  assert (Hd : P (x :: dest)) by (right; by apply suffix_cons_r).
  apply stable_WriteFile; [apply _|..].
  - intros m md d0 d1 Hp. apply writes_insert; [done|]. intros Hwf. by eapply wf_replace.
  - intros m Hw Hn Hpw. apply writes_insert; [done|]. intros Hwf y q n.
    destruct (decide (x :: dest = y :: q)) as [[= <- <-]|Hne].
    + intros _. split; [done|]. apply walk_cons in Hw as (_ & md & Hmd & _). exists md.
      rewrite lookup_insert_ne; [done|]. intros Heq%(f_equal length). simpl in Heq. lia.
    + rewrite lookup_insert_ne by done. intros Hq. destruct (Hwf _ _ _ Hq) as (Hy & md & Hmd).
      split; [done|]. exists md. rewrite lookup_insert_ne; [done|]. congruence.
Qed.

(** ** A cache directory *)

Definition demo_registry : ContainersImageRegistry.t :=
  ContainersImageRegistry.mk "/var/unpack" (ret ("", "", "")) "/tmp" 1000 1000 (λ _ _, 77%Z).

Definition image_fs : fsT :=
  list_to_map [
    ([], Dir m0700); (["tmp"], Dir m0700); (["var"], Dir m0700); (["catalogs"; "var"], Dir m0700);
    (["unpack"; "var"], Dir m0700); (["op"; "unpack"; "var"], Dir m0700);
    (["old"; "op"; "unpack"; "var"], Dir m0500);
    (["x.yaml"; "old"; "op"; "unpack"; "var"], File m0400 "X")].

Definition image_os (faults : list fault) : OS := mkOS image_fs faults [1%N; 2%N] 5000000000 [].

Definition op_cat : ClusterCatalog :=
  mkCatalog "ClusterCatalog" "olm.operatorframework.io/v1"
    (mkMeta "op" "" "u1" "1" 1 0 None None None [])
    (mkSpec (mkCatalogSource SourceTypeImage (Some (mkImageSource "quay.io/op:v1" None))) 0 "Available")
    zeroStatus.

Lemma image_wf faults : wf_fs (os_fs (image_os faults)).
Proof. apply wf_by_check. vm_compute. reflexivity. Defined.

Lemma demo_separate : separate demo_storage demo_registry.
Proof.
  split.
  - reflexivity.
  - split; apply (bool_decide_unpack _); vm_compute; exact I.
  - split; apply (bool_decide_unpack _); vm_compute; exact I.
  - intros q [].
  - apply stable_ret, _.
Defined.

(** * Witnesses *)

Definition old_path : path := ["old"; "op"; "unpack"; "var"].

Lemma delete_recursive_exact_witness :
  ∃ w', deleteRecursive old_path (image_os []) = (Ok tt, w') ∧
    os_fs w' !! ["x.yaml"; "old"; "op"; "unpack"; "var"] = None.
Proof.
  destruct (delete_recursive_exact old_path (image_os [])) as (w' & H & Hq).
  - reflexivity.
  - apply image_wf.
  - reflexivity.
  - reflexivity.
  - exists w'. split; [exact H|]. rewrite Hq. reflexivity.
Defined.

Definition plain_nodes : bool :=
  all_nodes (λ _ n, match n with Special => false | _ => true end) image_fs.

Lemma image_no_special root q n' :
  root `suffix_of` q → os_fs (image_os []) !! q = Some n' → n' ≠ Special.
Proof.
  intros _ Hn. assert (H : plain_nodes = true) by (vm_compute; reflexivity).
  pose proof (all_nodes_spec _ _ _ _ H Hn) as Hk. cbv beta in Hk. by destruct n'.
Qed.

Lemma set_read_only_exact_witness :
  ∃ w', setReadOnlyRecursive ["op"; "unpack"; "var"] (image_os []) = (Ok tt, w') ∧
    os_fs w' !! ["op"; "unpack"; "var"] = Some (Dir m0500).
Proof.
  destruct (set_read_only_exact ["op"; "unpack"; "var"] (image_os []) (Dir m0700)) as (w' & H & Hq).
  - reflexivity.
  - apply image_wf.
  - reflexivity.
  - reflexivity.
  - apply image_no_special.
  - exists w'. split; [exact H|]. rewrite Hq. reflexivity.
Defined.

Lemma read_only_tree_needs_delete_recursive_witness :
  ∃ w1, setReadOnlyRecursive old_path (image_os []) = (Ok tt, w1) ∧
    ∃ e w2, os_RemoveAll old_path w1 = (Err e, w2).
Proof.
  destruct (read_only_tree_needs_delete_recursive old_path (image_os []) "x.yaml" m0500
              (File m0400 "X")) as (w1 & H & (e & w2 & He & _) & _).
  - reflexivity.
  - apply image_wf.
  - reflexivity.
  - reflexivity.
  - reflexivity.
  - reflexivity.
  - apply image_no_special.
  - exists w1. split; [exact H|]. exists e, w2. exact He.
Defined.

Lemma delete_other_images_exact_witness :
  ∃ w', ContainersImageRegistry.deleteOtherImages demo_registry "op" op_digest (image_os []) = (Ok tt, w') ∧
    os_fs w' !! old_path = None.
Proof.
  destruct (delete_other_images_exact demo_registry "op" op_digest (image_os []) m0700)
    as (w' & H & Hx & _).
  - reflexivity.
  - elem.
  - reflexivity.
  - apply image_wf.
  - reflexivity.
  - reflexivity.
  - apply rwx_0700.
  - exists w'. split; [exact H|]. apply (Hx "old"). discriminate.
Defined.

Lemma missing_label_refused_witness :
  ∃ e, ContainersImageRegistry.unpackImage demo_registry ["p"] false true ("", "", "") (image_os [])
       = (Err e, image_os []) ∧ is_terminal e = true.
Proof.
  exact (missing_label_refused (IL := demo_lib) demo_registry ["p"] false true ("", "", "") (image_os [])
           false tt ∅ (image_os []) (image_os []) (image_os []) (image_os [])
           eq_refl eq_refl eq_refl eq_refl eq_refl).
Defined.

Lemma resolve_references_local_witness :
  (∃ e, ContainersImageRegistry.resolveReferences "" ("", "", "") (image_os []) = (Err e, image_os []) ∧
        is_terminal e = true) ∧
  ContainersImageRegistry.resolveReferences op_digest ("", "", "") (image_os [])
  = (Ok (op_digest, tt, true), image_os []).
Proof.
  split; [exact (resolve_references_local "" ("", "", "") (image_os []))|].
  exact (resolve_references_local op_digest ("", "", "") (image_os []) tt eq_refl).
Defined.

(** The process is killed between the two files of the layer, and started again. *)
Definition killed : outcome (Result path) * OS :=
  Eval vm_compute in
    ContainersImageRegistry.Unpack demo_registry op_cat (image_os (replicate 7 FNone ++ [FKill])).

Lemma killed_run :
  ContainersImageRegistry.Unpack demo_registry op_cat (image_os (replicate 7 FNone ++ [FKill]))
  = killed ∧ killed.1 = Crash.
Proof. split; vm_compute; reflexivity. Defined.

Definition restarted : OS := set_faults [] killed.2.

Lemma existing_directory_is_trusted_witness :
  os_fs restarted !! ["a.yaml"; op_digest; "op"; "unpack"; "var"] = Some (File m0600 "A") ∧
  os_fs restarted !! ["b.yaml"; op_digest; "op"; "unpack"; "var"] = None ∧
  ∃ res w2, ContainersImageRegistry.Unpack demo_registry op_cat restarted = (Ok res, w2) ∧
    os_fs w2 = os_fs restarted.
Proof.
  split; [vm_compute; reflexivity|]. split; [vm_compute; reflexivity|].
  destruct (existing_directory_is_trusted demo_registry op_cat (mkImageSource "quay.io/op:v1" None)
              restarted restarted restarted ("", "", "") "quay.io/op:v1" tt false m0700)
    as (res & w2 & H & Hfs & _); try (vm_compute; reflexivity).
  exists res, w2. exact (conj H Hfs).
Defined.

Lemma unpacker_beside_storage_witness :
  LocalDirV1.inv demo_storage killed.2.
Proof.
  destruct (unpacker_beside_storage demo_storage demo_registry op_cat
              (image_os (replicate 7 FNone ++ [FKill]))) as ([H _] & _).
  - apply demo_separate.
  - elem.
  - split; [reflexivity|]. apply LocalDirV1.sound_by_check. vm_compute. reflexivity.
  - rewrite (proj1 killed_run) in H. exact H.
Defined.

#[local] Instance demo_apply_root : ApplyRoot.
Proof.
  split. intros dest files f w md Hd.
  assert (H : stable (fs_rel (keeps_dir dest)) (apply_files dest files f)).
  { apply (stable_forM (fs_rel (keeps_dir dest))). intros [x d] _. simpl.
    destruct (f _).2 as [[]|e]; [|apply stable_ret, _|apply stable_throw, _].
    destruct (decide (elem_ok x)); [|apply stable_throw, _].
    assert (Hne : x :: dest ≠ dest) by (intros Heq%(f_equal length); simpl in Heq; lia).
    apply stable_WriteFile; [apply _|..]; intros m; intros; intros [md' Hm]; exists md';
      by rewrite lookup_insert_ne. }
  apply (H w). by exists md.
Qed.

Lemma demo_own_cache : own_cache demo_registry.
Proof.
  split; [reflexivity| |intros q []|apply stable_ret, _].
  split; apply (bool_decide_unpack _); vm_compute; exact I.
Qed.

#[local] Program Instance demo_lib_returns : LibReturns.
Next Obligation. by intros r c w msg. Qed.
Next Obligation. by intros c w msg. Qed.
Next Obligation. by intros p w msg. Qed.
Next Obligation. by intros pc r d c w msg. Qed.
Next Obligation. by intros r c w msg. Qed.
Next Obligation. by intros im w msg. Qed.
Next Obligation. by intros im w msg. Qed.
Next Obligation. by intros src b w msg. Qed.
Next Obligation. by intros rd w msg. Qed.
Next Obligation. by intros rd w msg. Qed.
Next Obligation.
  intros dest files f. induction files as [|[x d] files IH]; [by intros w msg|].
  apply no_panic_bind; [|intros _; exact IH]. simpl.
  destruct (f _).2 as [[]|e]; [|by intros w msg..]. destruct (decide (elem_ok x)); [|by intros w msg].
  apply no_panic_bind; [apply no_panic_sys|]. intros _ w msg. unfold file_Write.
  by destruct (pop_fault w) as [[] ?].
Qed.

(** The disk is full when the second file of the layer is written. *)
Definition full_disk : OS := image_os (replicate 7 FNone ++ [FErr true 0]).

Lemma unpack_leaves_no_debris_witness :
  ∃ e w', ContainersImageRegistry.Unpack demo_registry op_cat full_disk = (Err e, w') ∧
    (os_fs w' !! [op_digest; "op"; "unpack"; "var"] = None ∨
     (∃ err cleanupErr, e = ErrWrap "error unpacking image: " (ErrJoin [err; cleanupErr])) ∨
     (∃ err, e = ErrWrap "error deleting old images: " err) ∧
       ∃ md, os_fs w' !! [op_digest; "op"; "unpack"; "var"] = Some (Dir md)).
Proof.
  assert (H : match (ContainersImageRegistry.Unpack demo_registry op_cat full_disk).1 with
              | Err _ => True | _ => False end) by (vm_compute; exact I).
  destruct (ContainersImageRegistry.Unpack demo_registry op_cat full_disk) as [[res|e|msg|] w'] eqn:E;
    try destruct H.
  exists e, w'. split; [reflexivity|].
  exact (unpack_leaves_no_debris demo_registry demo_own_cache op_cat (mkImageSource "quay.io/op:v1" None)
           full_disk ("", "", "") full_disk "quay.io/op:v1" tt false full_disk (Err e) w'
           ltac:(elem) (image_wf _) eq_refl eq_refl eq_refl eq_refl eq_refl E).
Defined.
