(* ===== verification/Regexp.v ===== *)
(** Regular expressions as the validation rules of the API use them: the subset
    of the RE2 syntax they need, with the leftmost-first match that CEL's
    [matches] and [find] (Go's [regexp]) take. Strings are ASCII. *)
From Stdlib Require Import Ascii.
From S2P Require Import Prelude GoPath Url.

Inductive regex :=
  | Eps
  | Class (f : ascii → bool)
  | Cat (a b : regex)
  | Alt (a b : regex)
  | Star (a : regex)                   (** greedy *)
  | TextStart                          (** [^] *)
  | TextEnd                            (** [$] *)
  | WordBoundary.                      (** [\b] *)

Declare Scope regex_scope.
Delimit Scope regex_scope with re.
Bind Scope regex_scope with regex.
Infix ";;;" := Cat (at level 55, right associativity) : regex_scope.
Infix "+++" := Alt (at level 60, right associativity) : regex_scope.

Definition Plus (a : regex) : regex := (a ;;; Star a)%re.
Definition Opt (a : regex) : regex := (a +++ Eps)%re.
Definition Chr (c : ascii) : regex := Class (Ascii.eqb c).
Definition newline : ascii := "010".
Definition dot (c : ascii) : bool := negb (Ascii.eqb c newline).
Definition is_word (c : ascii) : bool := is_alnum c || one_of "_" c.

(** Whether a word character is before or after a position. *)
Definition word_at (c : option ascii) : bool := match c with Some x => is_word x | None => false end.
Definition head (s : string) : option ascii :=
  match s with String c _ => Some c | EmptyString => None end.

(** Matches at a position given by the character before it and the text from it
    on, in the order of preference, until the continuation accepts what is left.
    Each round of a star consumes a character in all expressions below, so that
    the number of rounds is bounded by the length of the text. *)
Fixpoint re_match (r : regex) (k : option ascii → string → option string) (p : option ascii) (s : string)
    {struct r} : option string :=
  match r with
  | Eps => k p s
  | Class f => match s with String c s' => if f c then k (Some c) s' else None | EmptyString => None end
  | Cat a b => re_match a (re_match b k) p s
  | Alt a b => match re_match a k p s with Some x => Some x | None => re_match b k p s end
  | Star a =>
      (fix rounds (n : nat) (p : option ascii) (s : string) : option string :=
         match n with
         | 0 => None
         | S n => match re_match a (rounds n) p s with Some x => Some x | None => k p s end
         end) (S (String.length s)) p s
  | TextStart => match p with None => k p s | Some _ => None end
  | TextEnd => match s with EmptyString => k p s | _ => None end
  | WordBoundary => if xorb (word_at p) (word_at (head s)) then k p s else None
  end.

Definition accept : option ascii → string → option string := λ _ rest, Some rest.

(** The leftmost match: the text from its start on and the text after it. *)
Fixpoint search (r : regex) (p : option ascii) (s : string) : option (string * string) :=
  match re_match r accept p s with
  | Some rest => Some (s, rest)
  | None => match s with String c s' => search r (Some c) s' | EmptyString => None end
  end.

(** CEL's [s.matches(r)] and [s.find(r)]. *)
Definition matches (r : regex) (s : string) : bool :=
  match search r None s with Some _ => true | None => false end.

Definition find (r : regex) (s : string) : string :=
  match search r None s with
  | Some (from, rest) => String.substring 0 (String.length from - String.length rest) from
  | None => EmptyString
  end.

(** * What the expressions that are searched for match *)

(** A star of a class, without the bound. *)
Fixpoint star_class (f : ascii → bool) (k : option ascii → string → option string)
    (p : option ascii) (s : string) : option string :=
  match s with
  | String c s' =>
      if f c then match star_class f k (Some c) s' with Some x => Some x | None => k p s end else k p s
  | EmptyString => k p s
  end.

Lemma match_star_class f k p s : re_match (Star (Class f)) k p s = star_class f k p s.
Proof.
  cbn [re_match]. generalize (Nat.lt_succ_diag_r (String.length s)).
  generalize (S (String.length s)) as n. intros n. revert n p.
  induction s as [|c s IH]; intros [|n] p H; simpl in H; try lia; [done|].
  simpl. destruct (f c); [|done]. by rewrite (IH n) by lia.
Qed.

Definition all_chars (f : ascii → bool) (s : string) : bool := forallb f (String.list_ascii_of_string s).

(** From the first [c] on; up to the last [c]; after the last [c]. *)
Fixpoint from_first (c : ascii) (s : string) : option string :=
  match s with
  | EmptyString => None
  | String x s' => if Ascii.eqb c x then Some s else from_first c s'
  end.

Fixpoint after_last (c : ascii) (s : string) : option string :=
  match s with
  | EmptyString => None
  | String x s' =>
      match after_last c s' with
      | Some t => Some t
      | None => if Ascii.eqb c x then Some s' else None
      end
  end.

Lemma star_to_end k p s :
  all_chars dot s = true → (∀ p, k p EmptyString = Some EmptyString) →
  star_class dot (re_match TextEnd k) p s = Some EmptyString.
Proof.
  intros Hs Hk. revert p Hs. induction s as [|c s IH]; intros p Hs; [apply Hk|].
  unfold all_chars in Hs. simpl in Hs. apply andb_true_iff in Hs as [Hc Hs]. simpl. by rewrite Hc, IH.
Qed.

Lemma star_to_last c p s :
  all_chars dot s = true → star_class dot (re_match (Chr c) accept) p s = after_last c s.
Proof.
  revert p. induction s as [|x s IH]; intros p Hs; [done|].
  unfold all_chars in Hs. simpl in Hs. apply andb_true_iff in Hs as [Hc Hs]. simpl. by rewrite Hc, IH.
Qed.

Lemma star_class_end f p s :
  star_class f (re_match TextEnd accept) p s = if all_chars f s then Some EmptyString else None.
Proof.
  revert p. induction s as [|c s IH]; intros p; [done|]. unfold all_chars. simpl.
  destruct (f c); [|done]. rewrite IH. unfold all_chars. by destruct (forallb f _).
Qed.
