(* ===== verification/Crd.v ===== *)
(** The validation of [ClusterCatalog] objects ([api/v1/clustercatalog_types.go]):
    the kubebuilder markers of the types, which the generated resource definition
    carries and the API server evaluates on every write. *)
From Stdlib Require Import Ascii.
From S2P Require Import Prelude GoPath Url Api Regexp.

#[local] Open Scope regex_scope.

(** * The regular expressions *)

Definition alnum : regex := Class is_alnum.
Definition lower_digit (c : ascii) : bool := between 97 122 c || between 48 57 c.
Definition digit : regex := Class (between 48 57).
Definition letter (c : ascii) : bool := between 97 122 c || between 65 90 c.
Definition is_hex (c : ascii) : bool := between 48 57 c || between 65 70 c || between 97 102 c.

(** "^([a-zA-Z0-9]|[a-zA-Z0-9][a-zA-Z0-9-]*[a-zA-Z0-9])((\.(…))+)?(:[0-9]+)?\b" *)
Definition label_re : regex :=
  alnum +++ alnum ;;; Star (Class (λ c, is_alnum c || one_of "-" c)) ;;; alnum.
Definition domain_re : regex :=
  TextStart ;;; label_re ;;; Opt (Plus (Chr "." ;;; label_re)) ;;; Opt (Chr ":" ;;; Plus digit)
    ;;; WordBoundary.

(** Path elements of lower case letters and digits, separated by [.], [_], [__] or
    any number of dashes; at least one element, each after a slash. *)
Definition separator_re : regex :=
  Class (one_of "._") +++ (Chr "_" ;;; Chr "_") +++ Star (Chr "-").
Definition element_re : regex :=
  Chr "/" ;;; Plus (Class lower_digit) ;;; Opt (Plus (separator_re ;;; Plus (Class lower_digit))).
Definition name_re : regex := element_re ;;; Opt (Plus element_re).

(** "(@.*:)" and ":.*$" *)
Definition digest_re : regex := Chr "@" ;;; Star (Class dot) ;;; Chr ":".
Definition identifier_re : regex := Chr ":" ;;; Star (Class dot) ;;; TextEnd.

(** ":[\w][\w.-]*$" *)
Definition tag_re : regex :=
  Chr ":" ;;; Class is_word ;;; Star (Class (λ c, is_word c || one_of ".-" c)) ;;; TextEnd.

(** After the [@], words that start with a letter, separated by one of [-_+.],
    and a colon. *)
Definition algorithm_re : regex :=
  Chr "@" ;;; Class letter ;;; Star alnum
    ;;; Star (Class (one_of "-_+.") ;;; Class letter ;;; Star alnum) ;;; Chr ":".

(** ":[0-9A-Fa-f]*$" *)
Definition encoded_re : regex := Chr ":" ;;; Star (Class is_hex) ;;; TextEnd.

(** * The rules *)

(** A rule with the core of its message. *)
Record rule (A : Type) := mkRule { holds : A → bool; message : string }.
Arguments mkRule {A}.
Arguments holds {A}.
Arguments message {A}.

(** The messages of the rules that do not hold. *)
Definition check {A : Type} (rules : list (rule A)) (x : A) : list string :=
  message <$> List.filter (λ r, negb (holds r x)) rules.

Definition has {A : Type} (x : option A) : bool := match x with Some _ => true | None => false end.

(** A reference has a digest; what follows its first colon. *)
Definition has_digest (ref : string) : bool := not_empty (find digest_re ref).
Definition identifier (ref : string) : string := drop1 (find identifier_re ref).

Definition domain_rule : rule string :=
  mkRule (matches domain_re) "must start with a valid domain".
Definition name_rule : rule string :=
  mkRule (λ ref, not_empty (find name_re ref)) "a valid name is required".
Definition algorithm_rule : rule string :=
  mkRule (λ ref, if has_digest ref then matches algorithm_re (find digest_re ref) else true)
    "digest algorithm is not valid".
Definition encoded_size_rule : rule string :=
  mkRule (λ ref, if has_digest ref then Nat.leb 32 (String.length (identifier ref)) else true)
    "the encoded string must be at least 32 characters".
Definition encoded_hex_rule : rule string :=
  mkRule (λ ref, if has_digest ref then matches encoded_re (find identifier_re ref) else true)
    "the encoded string must only contain hex characters".
Definition max_length (n : nat) : rule string :=
  mkRule (λ s, Nat.leb (String.length s) n) "Too long".

(** [ImageSource.Ref] *)
Definition ImageSource_Ref_rules : list (rule string) := [
  max_length 1000;
  domain_rule;
  name_rule;
  mkRule (λ ref, has_digest ref || not_empty (find identifier_re ref)) "must end with a digest or a tag";
  mkRule (λ ref, if has_digest ref then true
                 else if not_empty (find identifier_re ref)
                 then Nat.leb (String.length (identifier ref)) 127 else true)
    "the tag must not be more than 127 characters";
  mkRule (λ ref, if has_digest ref then true
                 else if not_empty (find identifier_re ref) then matches tag_re (find identifier_re ref)
                 else true)
    "valid tags must begin with a word character";
  algorithm_rule;
  encoded_size_rule;
  encoded_hex_rule].

(** [ImageSource] *)
Definition ImageSource_rules : list (rule ImageSource) := [
  mkRule (λ i, if has_digest (Ref i) then negb (has (PollIntervalMinutes i)) else true)
    "cannot specify pollIntervalMinutes while using digest-based image";
  mkRule (λ i, match PollIntervalMinutes i with Some n => Z.leb 1 n | None => true end)
    "pollIntervalMinutes should be greater than or equal to 1"].

Definition validate_ImageSource (i : ImageSource) : list string :=
  check ImageSource_rules i ++ check ImageSource_Ref_rules (Ref i).

(** [CatalogSource] *)
Definition CatalogSource_rules : list (rule CatalogSource) := [
  mkRule (λ s, bool_decide (SourceType s = SourceTypeImage)) "Unsupported value: type";
  mkRule (λ s, if bool_decide (SourceType s = "Image") then has (Image s) else negb (has (Image s)))
    "image is required when source type is Image, and forbidden otherwise"].

Definition validate_CatalogSource (s : CatalogSource) : list string :=
  check CatalogSource_rules s ++ match Image s with Some i => validate_ImageSource i | None => [] end.

(** [ClusterCatalogSpec], with its default. *)
Definition default_Spec (s : ClusterCatalogSpec) : ClusterCatalogSpec :=
  if decide (AvailabilityMode s = "") then mkSpec (Source s) (Priority s) AvailabilityModeAvailable else s.

(** The range of [priority] is the one its markers name. They are in lower case, and
    the generated definition has [format: int32] instead, with the same range. *)
Definition ClusterCatalogSpec_rules : list (rule ClusterCatalogSpec) := [
  mkRule (λ s, Z.leb (-2147483648) (Priority s) && Z.leb (Priority s) 2147483647) "priority is out of range";
  mkRule (λ s, bool_decide (AvailabilityMode s ∈ [AvailabilityModeUnavailable; AvailabilityModeAvailable]))
    "Unsupported value: availabilityMode"].

Definition validate_Spec (s : ClusterCatalogSpec) : list string :=
  check ClusterCatalogSpec_rules s ++ validate_CatalogSource (Source s).

(** [ResolvedImageSource.Ref] *)
Definition ResolvedImageSource_Ref_rules : list (rule string) := [
  max_length 1000;
  domain_rule;
  name_rule;
  mkRule has_digest "must end with a digest";
  algorithm_rule;
  encoded_size_rule;
  encoded_hex_rule].

(** [ResolvedCatalogSource] *)
Definition ResolvedCatalogSource_rules : list (rule ResolvedCatalogSource) := [
  mkRule (λ s, bool_decide (ResolvedType s = SourceTypeImage)) "Unsupported value: type";
  mkRule (λ s, if bool_decide (ResolvedType s = "Image") then has (ResolvedImage s)
               else negb (has (ResolvedImage s)))
    "image is required when source type is Image, and forbidden otherwise"].

(** [ClusterCatalogURLs.Base], with CEL's [isURL] and [getScheme]. *)
Definition ClusterCatalogURLs_Base_rules (isURL : string → bool) (getScheme : string → string)
    : list (rule string) := [
  max_length 525;
  mkRule isURL "must be a valid URL";
  mkRule (λ u, if isURL u then bool_decide (getScheme u = "http") || bool_decide (getScheme u = "https")
               else true)
    "scheme must be either http or https"].

Definition validate_Status (isURL : string → bool) (getScheme : string → string)
    (s : ClusterCatalogStatus) : list string :=
  match ResolvedSource s with
  | Some r => check ResolvedCatalogSource_rules r
              ++ match ResolvedImage r with
                 | Some i => check ResolvedImageSource_Ref_rules (ResolvedRef i)
                 | None => []
                 end
  | None => []
  end
  ++ match URLs s with
     | Some u => check (ClusterCatalogURLs_Base_rules isURL getScheme) (Base u)
     | None => []
     end.

(** * The cases of [clustercatalog_types_test.go] *)

Definition sha (s : string) : string := "docker.io/foo/bar@sha256:" +:+ s.

Fixpoint repeat_char (c : ascii) (n : nat) : string :=
  match n with 0 => EmptyString | S n => String c (repeat_char c n) end.

Example test_digest_poll :
  validate_ImageSource (mkImageSource "docker.io/test-image@sha256:abcdef123456789abcdef123456789abc" (Some 1%Z))
  = ["cannot specify pollIntervalMinutes while using digest-based image"].
Proof. vm_compute. reflexivity. Qed.

Example test_image_refs :
  (λ ref, check ImageSource_Ref_rules ref) <$> [
    "docker.io/test-image@sha256:abcdef123456789abcdef123456789abc";
    "-quay+docker/foo/bar@sha256:abcdef123456789abcdef123456789abc";
    "docker.io/FOO/BAR@sha256:abcdef123456789abcdef123456789abc";
    "docker.io/foo/bar@99-problems:abcdef123456789abcdef123456789abc";
    sha "abcdef123456789"; sha "XYZxy123456789abcdef123456789abc"; "docker.io/foo/bar";
    "docker.io/foo/bar:" +:+ repeat_char "x" 128; "docker.io/foo/bar:-foo_bar-"; "docker.io/foo/bar:v1.0.0";
    "docker.io:8080"; "my-subdomain.docker.io:8080/foo/bar:latest";
    "my-subdomain.docker.io:8080/foo/bar:latest-"]
  = [[]; ["must start with a valid domain"]; ["a valid name is required"]; ["digest algorithm is not valid"];
     ["the encoded string must be at least 32 characters"];
     ["the encoded string must only contain hex characters"]; ["must end with a digest or a tag"];
     ["the tag must not be more than 127 characters"]; ["valid tags must begin with a word character"];
     []; ["a valid name is required"]; []; []].
Proof. vm_compute. reflexivity. Qed.

Example test_resolved_refs :
  (λ ref, check ResolvedImageSource_Ref_rules ref) <$> [
    "docker.io/foo/bar"; "docker.io:8080"; "docker.io/foo/bar:latest"]
  = [["must end with a digest"]; ["a valid name is required"; "must end with a digest"];
     ["must end with a digest"]].
Proof. vm_compute. reflexivity. Qed.
