(* ===== verification/CrdCorrect.v ===== *)
(** What the validation rules guarantee the controller, and what they check. *)
From Stdlib Require Import Ascii.
From S2P Require Import Prelude GoPath Url OsFS Api Storage StorageDemo Source Controller.
From S2P Require Import ImageSource ImageFrame ImageDemo Regexp Crd.

(** * The searches *)

(** A text without the character [c]. *)
Definition without (c : ascii) (s : string) : bool := all_chars (λ x, negb (Ascii.eqb c x)) s.

Lemma all_chars_app f a b : all_chars f (a +:+ b) = all_chars f a && all_chars f b.
Proof. unfold all_chars. induction a as [|c a IH]; [done|]. simpl. by rewrite IH, andb_assoc. Qed.

Lemma search_identifier p s :
  all_chars dot s = true →
  search identifier_re p s = match from_first ":" s with Some t => Some (t, EmptyString) | None => None end.
Proof.
  revert p. induction s as [|c s IH]; intros p Hs; [done|].
  pose proof Hs as [_ Hs']%andb_true_iff.
  assert (Hm : re_match identifier_re accept p (String c s)
               = if Ascii.eqb ":" c then Some EmptyString else None).
  { unfold identifier_re. cbn [re_match Chr]. destruct (Ascii.eqb ":" c); [|done].
    change (re_match (Star (Class dot)) (re_match TextEnd accept) (Some c) s = Some EmptyString).
    rewrite match_star_class. by apply star_to_end. }
  cbn [search from_first]. rewrite Hm. destruct (Ascii.eqb ":" c); [done|]. by apply IH.
Qed.

Lemma after_last_from_first a c s t :
  from_first a s = Some t → after_last c s = None → after_last c t = None.
Proof.
  induction s as [|x s IH]; [done|]. cbn [from_first].
  destruct (Ascii.eqb a x); [by intros [= <-]|]. intros H. simpl.
  destruct (after_last c s) eqn:E; [done|]. intros _. by apply IH.
Qed.

Lemma search_digest p s :
  all_chars dot s = true →
  search digest_re p s =
  match from_first "@" s with
  | Some t => match after_last ":" t with Some rest => Some (t, rest) | None => None end
  | None => None
  end.
Proof.
  revert p. induction s as [|c s IH]; intros p Hs; [done|].
  pose proof Hs as [_ Hs']%andb_true_iff.
  assert (Hm : re_match digest_re accept p (String c s)
               = if Ascii.eqb "@" c then after_last ":" s else None).
  { unfold digest_re. cbn [re_match Chr]. destruct (Ascii.eqb "@" c); [|done].
    change (re_match (Star (Class dot)) (re_match (Chr ":") accept) (Some c) s = after_last ":" s).
    rewrite match_star_class. by apply star_to_last. }
  cbn [search from_first]. rewrite Hm. destruct (Ascii.eqb_spec "@" c) as [<-|Hc]; [|by apply IH].
  simpl. destruct (after_last ":" s) eqn:E; [done|]. rewrite IH by done.
  destruct (from_first "@" s) eqn:Ef; [|done]. by rewrite (after_last_from_first _ _ _ _ Ef E).
Qed.

Lemma after_last_None c s : after_last c s = None ↔ without c s = true.
Proof.
  unfold without, all_chars. induction s as [|x s IH]; [done|]. simpl. rewrite andb_true_iff, <-IH.
  destruct (after_last c s), (Ascii.eqb c x); naive_solver.
Qed.

Lemma after_last_length c s t : after_last c s = Some t → String.length t < String.length s.
Proof.
  induction s as [|x s IH]; [done|]. simpl. destruct (after_last c s) as [t'|].
  - intros [= <-]. specialize (IH eq_refl). lia.
  - destruct (Ascii.eqb c x); [|done]. intros [= <-]. lia.
Qed.

Lemma matches_encoded p s :
  match search encoded_re p s with Some _ => true | None => false end
  = match after_last ":" s with Some t => all_chars is_hex t | None => false end.
Proof.
  revert p. induction s as [|c s IH]; intros p; [done|].
  assert (Hm : re_match encoded_re accept p (String c s)
               = if Ascii.eqb ":" c then (if all_chars is_hex s then Some EmptyString else None) else None).
  { unfold encoded_re. cbn [re_match Chr]. destruct (Ascii.eqb ":" c); [|done].
    change (re_match (Star (Class is_hex)) (re_match TextEnd accept) (Some c) s
            = if all_chars is_hex s then Some EmptyString else None).
    rewrite match_star_class. apply star_class_end. }
  cbn [search after_last]. rewrite Hm. specialize (IH (Some c)).
  destruct (after_last ":" s) as [t|] eqn:E.
  - destruct (Ascii.eqb ":" c); [|exact IH]. destruct (all_chars is_hex s) eqn:Eh; [|exact IH].
    exfalso. assert (without ":" s = true) as Hw.
    { unfold without, all_chars in *. apply forallb_forall. intros x Hx.
      rewrite forallb_forall in Eh. specialize (Eh x Hx).
      destruct (Ascii.eqb_spec ":" x) as [<-|]; [by vm_compute in Eh|done]. }
    apply after_last_None in Hw. by rewrite Hw in E.
  - destruct (Ascii.eqb ":" c); [|exact IH]. by destruct (all_chars is_hex s).
Qed.

Lemma substring_all s : String.substring 0 (String.length s) s = s.
Proof. induction s as [|c s IH]; [done|]. simpl. by rewrite IH. Qed.

Lemma find_identifier s :
  all_chars dot s = true → find identifier_re s = default EmptyString (from_first ":" s).
Proof.
  intros Hs. unfold find. rewrite search_identifier by done.
  destruct (from_first ":" s) as [t|]; [|done]. simpl. rewrite Nat.sub_0_r. apply substring_all.
Qed.

Lemma has_digest_spec s :
  all_chars dot s = true →
  has_digest s = match from_first "@" s with Some t => has (after_last ":" t) | None => false end.
Proof.
  intros Hs. unfold has_digest, find. rewrite search_digest by done.
  destruct (from_first "@" s) as [t|]; [|done]. destruct (after_last ":" t) as [r|] eqn:E; [|done].
  apply after_last_length in E. destruct t as [|c t]; [simpl in E; lia|].
  destruct (String.length (String c t) - String.length r) eqn:El; [lia|]. done.
Qed.

Lemma from_first_app c a b : without c a = true → from_first c (a +:+ b) = from_first c b.
Proof.
  unfold without, all_chars. induction a as [|x a IH]; [done|]. simpl.
  intros [Hx%negb_true_iff Ha]%andb_true_iff. rewrite Hx. by apply IH.
Qed.

Lemma after_last_app c a b t : after_last c b = Some t → after_last c (a +:+ b) = Some t.
Proof. intros H. induction a as [|x a IH]; [done|]. simpl. by rewrite IH. Qed.

Lemma after_last_here c b : without c b = true → after_last c (String c b) = Some b.
Proof. intros H%after_last_None. simpl. by rewrite H, Ascii.eqb_refl. Qed.

Lemma after_last_first c s t : from_first c s = Some t → after_last c t = after_last c s.
Proof.
  revert t. induction s as [|x s IH]; intros t; [done|]. cbn [from_first].
  destruct (Ascii.eqb c x) eqn:Ex; [by intros [= <-]|]. intros H. simpl. rewrite Ex, (IH _ H).
  by destruct (after_last c s).
Qed.

Lemma from_first_None c s : from_first c s = None → after_last c s = None.
Proof.
  induction s as [|x s IH]; [done|]. simpl. destruct (Ascii.eqb c x); [done|]. intros H. by rewrite IH.
Qed.

(** * Properties *)

Lemma check_nil {A : Type} (rules : list (rule A)) x :
  check rules x = [] ↔ Forall (λ r, holds r x = true) rules.
Proof.
  unfold check. induction rules as [|r rules IH]; [by split; [constructor|]|]. simpl.
  rewrite Forall_cons, <-IH. destruct (holds r x); simpl; naive_solver.
Qed.

(** C16: What the controller is given is well typed: after defaulting and
    validation, a specification has an image source of type Image, a priority of
    32 bits and one of the two modes; an interval is at least one minute and
    comes with no digest. So [needsPoll] returns without a panic, and never asks
    for a poll of an image that is given by its digest. *)
Theorem admitted_spec_typed {W FSys : Type} {ST : StorageInstance W FSys} {SC : StorageContract W FSys}
    {UP : Unpacker W FSys} {CK : Clock W} {UC : UnpackerContract W FSys} c spec :
  Spec c = default_Spec spec → validate_Spec (default_Spec spec) = [] →
  ∃ img, Source (Spec c) = mkCatalogSource SourceTypeImage (Some img) ∧
    (-2 ^ 31 ≤ Priority (Spec c) < 2 ^ 31)%Z ∧
    (AvailabilityMode (Spec c) = AvailabilityModeAvailable ∨
     AvailabilityMode (Spec c) = AvailabilityModeUnavailable) ∧
    (∀ n, PollIntervalMinutes img = Some n → (1 ≤ n)%Z ∧ has_digest (Ref img) = false) ∧
    ∀ last (s : RS W FSys), ∃ b s', needsPoll last c s = (Ok b, s') ∧ (has_digest (Ref img) = true → b = false).
Proof.
  intros <-. intros [Hs Hsrc]%app_nil. set (sp := Spec c) in *.
  apply check_nil in Hs. apply Forall_cons in Hs as [[Hp1%Z.leb_le Hp2%Z.leb_le]%andb_true_iff Hs].
  apply Forall_cons in Hs as [Hm%bool_decide_eq_true _].
  apply app_nil in Hsrc as [Hsrc Himg]. apply check_nil in Hsrc.
  apply Forall_cons in Hsrc as [Ht%bool_decide_eq_true Hsrc]. apply Forall_cons in Hsrc as [Hi _].
  cbn [holds] in *. rewrite Ht in Hi. cbn in Hi.
  destruct (Source sp) as [ty [img|]] eqn:Es; [|done]. cbn [SourceType Image] in *. subst ty.
  apply app_nil in Himg as [Himg _]. apply check_nil in Himg.
  apply Forall_cons in Himg as [Hd Hn]. apply Forall_cons in Hn as [Hn _]. cbn [holds] in *.
  exists img. split; [done|]. split; [lia|]. split; [set_solver|].
  assert (Hpoll : ∀ n, PollIntervalMinutes img = Some n → (1 ≤ n)%Z ∧ has_digest (Ref img) = false).
  { intros n E. rewrite E in Hd, Hn. apply Z.leb_le in Hn. by destruct (has_digest (Ref img)). }
  split; [exact Hpoll|]. intros last s. unfold needsPoll. fold sp.
  rewrite Es. cbn [Image]. destruct (PollIntervalMinutes img) as [n|] eqn:En; [|by exists false, s].
  destruct (Hpoll n eq_refl) as [_ Hnd]. destruct (up_now (rs_world s)) as (now & w' & Hnow & _).
  eexists _, _. split; [|intros ?; congruence]. unfold bind, lift. rewrite Hnow. reflexivity.
Qed.

(** C30: The searches of the rules, on a text of one line, are simple scans: the
    identifier goes from the first colon to the end; a digest is there when a
    colon follows the first at sign; and a text ends in an encoded string when
    all that follows its last colon is hexadecimal. *)
Theorem rule_searches_are_scans s :
  all_chars dot s = true →
  find identifier_re s = default EmptyString (from_first ":" s) ∧
  has_digest s = match from_first "@" s with Some t => negb (without ":" t) | None => false end ∧
  matches encoded_re s = match after_last ":" s with Some t => all_chars is_hex t | None => false end.
Proof.
  intros Hs. split; [by apply find_identifier|]. split; [|apply matches_encoded].
  rewrite has_digest_spec by done. destruct (from_first "@" s) as [t|]; [|done].
  pose proof (after_last_None ":" t) as H. destruct (after_last ":" t), (without ":" t); naive_solver.
Qed.

(** A reference by digest. *)
Definition digest_ref (name alg enc : string) : string := name +:+ "@" +:+ alg +:+ ":" +:+ enc.

Lemma digest_ref_has_digest name alg enc :
  all_chars dot (digest_ref name alg enc) = true → without "@" name = true →
  has_digest (digest_ref name alg enc) = true.
Proof.
  intros Hs Hn. rewrite has_digest_spec by done. unfold digest_ref. rewrite from_first_app by done.
  change (from_first "@" _) with (Some (String "@" (alg +:+ String ":" enc))). cbv beta iota.
  destruct (after_last ":" (String "@" (alg +:+ String ":" enc))) eqn:E; [done|].
  apply after_last_None in E. change (String "@" (alg +:+ String ":" enc)) with ("@" +:+ alg +:+ String ":" enc) in E.
  unfold without in E. rewrite !all_chars_app in E. by apply andb_true_iff in E as [_ [_ E]%andb_true_iff].
Qed.

Lemma digest_rules_hold name alg enc :
  let ref := digest_ref name alg enc in
  all_chars dot ref = true → without "@" name = true → without ":" enc = true →
  holds encoded_hex_rule ref = all_chars is_hex enc ∧
  (without ":" name = true → without ":" alg = true →
     holds encoded_size_rule ref = Nat.leb 32 (String.length enc)) ∧
  ∀ host rest, name = host +:+ ":" +:+ rest → without ":" host = true →
     holds encoded_size_rule ref = Nat.leb 32 (String.length (digest_ref rest alg enc)).
Proof.
  intros ref Hs Hn He. pose proof (digest_ref_has_digest name alg enc Hs Hn) as Hd. fold ref in Hd.
  assert (Hlast : after_last ":" ref = Some enc).
  { unfold ref, digest_ref. do 3 apply after_last_app. by apply after_last_here. }
  unfold encoded_hex_rule, encoded_size_rule, identifier. cbn [holds].
  rewrite Hd, find_identifier by done. split; [|split].
  - unfold matches. rewrite matches_encoded. destruct (from_first ":" ref) as [t|] eqn:Ef; simpl.
    + by rewrite (after_last_first _ _ _ Ef), Hlast.
    + by rewrite (from_first_None _ _ Ef) in Hlast.
  - intros Hnm Hal. unfold ref, digest_ref. rewrite from_first_app by done.
    change ("@" +:+ alg +:+ ":" +:+ enc) with (String "@" (alg +:+ ":" +:+ enc)). cbn [from_first].
    by rewrite from_first_app by done.
  - intros host rest -> Hh. unfold ref, digest_ref. rewrite string_app_assoc, from_first_app by done. done.
Qed.

(** What the rules check of a digest: all characters of the encoded string are
    hexadecimal, wherever it stands; its length is at least 32 when no colon
    comes before the algorithm. With a port in the reference, the length that is
    tested is that of everything after the port's colon. *)
Theorem digest_rules_checked name alg enc :
  let ref := digest_ref name alg enc in
  all_chars dot ref = true → without "@" name = true → without ":" enc = true →
  holds encoded_hex_rule ref = all_chars is_hex enc ∧
  (without ":" name = true → without ":" alg = true →
     holds encoded_size_rule ref = Nat.leb 32 (String.length enc)) ∧
  ∀ host rest, name = host +:+ ":" +:+ rest → without ":" host = true →
     holds encoded_size_rule ref = Nat.leb 32 (String.length (digest_ref rest alg enc)).
Proof. apply digest_rules_hold. Qed.

(** A reference with a port. *)
Definition ported (enc : string) : string :=
  digest_ref "registry.example.com:5000/operatorhubio/catalog" "sha256" enc.

Lemma is_hex_plain s : all_chars is_hex s = true → all_chars dot s = true ∧ without ":" s = true.
Proof.
  unfold without, all_chars. rewrite !forallb_forall. intros H. split; intros c Hc; specialize (H c Hc).
  - unfold dot. destruct (Ascii.eqb_spec c newline) as [->|]; [by vm_compute in H|done].
  - destruct (Ascii.eqb_spec ":" c) as [<-|]; [by vm_compute in H|done].
Qed.


Lemma substring_app a b : String.substring 0 (String.length a) (a +:+ b) = a.
Proof. induction a as [|c a IH]; [by destruct b|]. simpl. by rewrite IH. Qed.

Lemma ported_admitted enc :
  all_chars is_hex enc = true → String.length enc ≤ 900 →
  validate_ImageSource (mkImageSource (ported enc) None) = [].
Proof.
  intros He Hl. destruct (is_hex_plain enc He) as [Hdot Hcol].
  assert (Hs : all_chars dot (ported enc) = true).
  { unfold ported, digest_ref. by rewrite !all_chars_app, Hdot. }
  assert (Hd : has_digest (ported enc) = true) by (by apply digest_ref_has_digest).
  destruct (digest_rules_hold "registry.example.com:5000/operatorhubio/catalog" "sha256" enc)
    as (Hhex & _ & Hsize); [done..|].
  specialize (Hsize "registry.example.com" "5000/operatorhubio/catalog" eq_refl eq_refl).
  fold (ported enc) in Hhex, Hsize.
  unfold validate_ImageSource. rewrite (proj2 (check_nil ImageSource_rules _)).
  2:{ repeat apply Forall_cons_2; [|done|apply Forall_nil_2]. cbn [holds Ref]. by rewrite Hd. }
  apply check_nil. cbn [Ref]. repeat apply Forall_cons_2; [..|apply Forall_nil_2]; cbn [holds max_length];
    rewrite ?Hd; try done.
  - apply Nat.leb_le. unfold ported, digest_ref. rewrite !string_length_app. simpl. lia.
  - cbn [holds name_rule]. unfold find.
    assert (search name_re None (ported enc)
            = Some ("/operatorhubio/catalog" +:+ ("@sha256:" +:+ enc), "@sha256:" +:+ enc)) as ->
      by (vm_compute; reflexivity).
    cbv beta iota. rewrite string_length_app, Nat.add_sub, substring_app. done.
  - unfold algorithm_rule. cbn [holds]. rewrite Hd. unfold find. rewrite search_digest by done.
    change (from_first "@" (ported enc)) with (Some ("@sha256:" +:+ enc)). cbv beta iota.
    assert (after_last ":" ("@sha256:" +:+ enc) = Some enc) as ->.
    { apply (after_last_app ":" "@sha256"). by apply after_last_here. }
    rewrite string_length_app, Nat.add_sub, substring_app. by vm_compute.
  - by rewrite Hhex.
Qed.

(** C37: The rule on the length of a digest is fooled by a port. In a reference
    [host:rest@alg:enc] it asks that [rest@alg:enc] have 32 characters, not the
    encoded digest [enc], as the documentation of the field and the message of
    the rule say. So all rules of the schema together admit, for instance,
    [registry.example.com:5000/operatorhubio/catalog@sha256:enc] with any
    hexadecimal [enc] of up to 900 characters, however short. *)
Theorem short_digest_admitted_with_port enc :
  all_chars is_hex enc = true → String.length enc ≤ 900 →
  validate_ImageSource (mkImageSource (ported enc) None) = [] ∧
  ∀ host rest alg, let name := host +:+ ":" +:+ rest in
    all_chars dot (digest_ref name alg enc) = true → without "@" name = true → without ":" host = true →
    holds encoded_size_rule (digest_ref name alg enc)
    = Nat.leb 32 (String.length (digest_ref rest alg enc)).
Proof.
  intros He Hl. split; [by apply ported_admitted|]. intros host rest alg name Hd Ha Hh.
  destruct (is_hex_plain enc He) as [_ Hcol].
  destruct (digest_rules_hold name alg enc) as (_ & _ & H); [done..|]. by apply (H host).
Qed.

(** * Witnesses *)

Definition tagged_spec : ClusterCatalogSpec :=
  mkSpec (mkCatalogSource SourceTypeImage (Some (mkImageSource "quay.io/operatorhubio/catalog:latest" (Some 5%Z))))
    0 "".

Lemma rule_searches_are_scans_witness :
  find identifier_re (ported "abc") = ":5000/operatorhubio/catalog@sha256:abc" ∧
  has_digest (ported "abc") = true ∧ matches encoded_re (ported "abc") = true.
Proof. apply (rule_searches_are_scans (ported "abc")). vm_compute. reflexivity. Defined.

Lemma digest_rules_checked_witness :
  holds encoded_size_rule (digest_ref "quay.io/operatorhubio/catalog" "sha256" "abc") = false ∧
  holds encoded_size_rule (ported "abc") = true.
Proof.
  destruct (digest_rules_checked "quay.io/operatorhubio/catalog" "sha256" "abc") as (_ & H & _);
    [reflexivity..|].
  destruct (digest_rules_checked "registry.example.com:5000/operatorhubio/catalog" "sha256" "abc")
    as (_ & _ & H'); [reflexivity..|].
  split; [by rewrite H|].
  unfold ported. by rewrite (H' "registry.example.com" "5000/operatorhubio/catalog").
Defined.

Lemma short_digest_admitted_with_port_witness :
  validate_ImageSource (mkImageSource "registry.example.com:5000/operatorhubio/catalog@sha256:abc" None) = [] ∧
  holds encoded_size_rule "r.io:5000/cat@sha256:abc" = false.
Proof.
  destruct (short_digest_admitted_with_port "abc") as [H1 H2]; [reflexivity|simpl; lia|].
  split; [exact H1|]. etransitivity; [apply (H2 "r.io" "5000/cat" "sha256"); reflexivity|reflexivity].
Defined.

#[local] Existing Instance dir_cfg.
#[local] Existing Instance demo_text.
#[local] Existing Instance demo_lib.
#[local] Existing Instance demo_lib_contract.

Lemma admitted_spec_typed_witness :
  let c := mkCatalog "ClusterCatalog" "olm.operatorframework.io/v1" (Meta op_cat) (default_Spec tagged_spec)
             zeroStatus in
  AvailabilityMode (Spec c) = AvailabilityModeAvailable ∧
  ∃ b s', needsPoll (FSys := path) 0 c (mkRS c ∅ (image_os [])) = (Ok b, s').
Proof.
  intros c.
  destruct (admitted_spec_typed (ST := LocalDirV1.instance demo_storage)
              (SC := LocalDirV1.contract demo_storage) (UP := image_unpacker demo_registry)
              (UC := image_unpacker_contract demo_storage demo_registry demo_separate)
              c tagged_spec eq_refl) as (img & _ & _ & Hm & _ & H).
  - vm_compute. reflexivity.
  - split; [reflexivity|]. destruct (H 0%Z (mkRS c ∅ (image_os []))) as (b & s' & Hb & _).
    exists b, s'. exact Hb.
Defined.
