(* ===== verification/Converge.v ===== *)
(** Progress of the ClusterCatalog controller: when the API server answers and
    the storage and the unpacker work, at most two calls of [Reconcile] bring a
    catalog from any state into the one its object asks for. *)
From S2P Require Import Prelude GoPath Api Storage Source Controller ControllerLemmas ControllerCorrect.

(** The object without what the controller and the server write: the status, the
    finalizers and the resource version. *)
Definition skeleton (c : ClusterCatalog) : ClusterCatalog := bare (set_version "" c).

Lemma skeleton_bare c c' : bare c = bare c' → skeleton c = skeleton c'.
Proof.
  destruct c as [? ? [] ? ?], c' as [? ? [] ? ?]. unfold skeleton, bare, set_version.
  cbn. by intros [=]; subst.
Qed.

Lemma skeleton_Spec c c' : skeleton c = skeleton c' → Spec c = Spec c'.
Proof. destruct c as [? ? [] ? ?], c' as [? ? [] ? ?]. by intros [=]. Qed.

Lemma skeleton_name c c' : skeleton c = skeleton c' → cat_name c = cat_name c'.
Proof. destruct c as [? ? [] ? ?], c' as [? ? [] ? ?]. by intros [=]. Qed.

Lemma skeleton_generation c c' : skeleton c = skeleton c' → cat_generation c = cat_generation c'.
Proof. destruct c as [? ? [] ? ?], c' as [? ? [] ? ?]. by intros [=]. Qed.

Lemma skeleton_deleting c c' : skeleton c = skeleton c' → deleting c = deleting c'.
Proof. destruct c as [? ? [] ? ?], c' as [? ? [] ? ?]. unfold deleting. cbn. by intros [=]; subst. Qed.

Lemma bare_version c c' : bare c = bare c' → ResourceVersion (Meta c) = ResourceVersion (Meta c').
Proof. destruct c as [? ? [] ? ?], c' as [? ? [] ? ?]. by intros [=]. Qed.

(** An API server that can be reached, and a client whose reads are up to date:
    an object that is there is found, an update with the current
    resource version succeeds, and one that asks for no change but of the status
    or the finalizers makes no other change but of the resource version. *)
Class CalmClient (A : Type) {CL : Client A} := {
  calm_Get a name c :
    ac_object a name = Some c → cat_name c = name → elem_ok name → ∃ a', ac_Get name a = (Ok c, a');
  calm_StatusUpdate c a old :
    ac_object a (cat_name c) = Some old → ResourceVersion (Meta c) = ResourceVersion (Meta old) →
    ∃ c' a', ac_StatusUpdate c a = (Ok c', a');
  calm_Update c a old :
    ac_object a (cat_name c) = Some old → ResourceVersion (Meta c) = ResourceVersion (Meta old) →
    ∃ c' a', ac_Update c a = (Ok c', a') ∧ (skeleton c = skeleton old → skeleton c' = skeleton old)
}.

Section Converge.
Context {W FSys A : Type}.
Context {ST : StorageInstance W FSys} {SC : StorageContract W FSys}.
Context {UP : Unpacker W FSys} {CK : Clock W} {UC : UnpackerContract W FSys}.
Context {CS : ConditionSetter} {SE : SemanticEquality} {ET : ErrorText}.
Context {FU : FinalizerUtil} {FL : FinalizerLib W FSys} {JT : Jitterer W}.
Context {CL : Client A} {CC : CalmClient A}.
Implicit Types (s : RS W FSys) (t : Ctl W FSys A) (name : string).

(** * The updates at the end of a call *)

Lemma guarded_status_calm c c1 t :
  ac_object (ctl_api t) (cat_name c) = Some c → bare c1 = bare c →
  ∃ old a', guarded_update (negb (DeepEqual_status (Status c) (Status c1))) ac_StatusUpdate
       "error updating status: " c1 None t = (Ok (old, None), mkCtl (ctl_stored t) (ctl_world t) a') ∧
    ac_object a' (cat_name c) = Some (set_finalizers (cat_finalizers c) old) ∧
    bare (set_version "" old) = skeleton c ∧
    (Status old = Status c1 ∨ Status old = wire_status ac_time (Status c1)).
Proof.
  intros Hobj Hb. pose proof (bare_name _ _ Hb) as Hn. unfold guarded_update.
  destruct (DeepEqual_status (Status c) (Status c1)) eqn:Ed; cbn [negb].
  - apply DeepEqual_status_spec in Ed. exists c1, (ctl_api t). split_and!.
    + by destruct t.
    + rewrite Hobj. f_equal. clear -Hb Ed. destruct c as [? ? [] ? ?], c1 as [? ? [] ? ?].
      cbn in *. by injection Hb as; subst.
    + by apply skeleton_bare.
    + by left.
  - destruct (calm_StatusUpdate c1 (ctl_api t) c) as (c' & a' & H); [by rewrite Hn|by apply bare_version|].
    destruct (ac_StatusUpdate_Ok _ _ _ _ H) as (old & rv & Hold & _ & Hc' & Hall).
    rewrite Hn, Hobj in Hold. injection Hold as <-. rewrite Hn in Hall.
    exists c', a'. split_and!.
    + unfold bind, try, lift_api. by rewrite H.
    + rewrite Hall, decide_True, Hc' by done. by destruct c as [? ? [] ? ?].
    + rewrite Hc'. by destruct c as [? ? [] ? ?].
    + right. by rewrite Hc'.
Qed.

(** Nothing but the status and the finalizers changes, both do, and the object
    vanishes when the last finalizer of a deleted one is removed. *)
Lemma finish_calm c c1 res t :
  ac_object (ctl_api t) (cat_name c) = Some c → bare c1 = bare c →
  ∃ a', finish c c1 res None t = (Ok (res, None), mkCtl (ctl_stored t) (ctl_world t) a') ∧
    match ac_object a' (cat_name c) with
    | Some c' =>
        skeleton c' = skeleton c ∧ cat_finalizers c' = cat_finalizers c1 ∧
        (Status c' = Status c1 ∨ Status c' = wire_status ac_time (Status c1)) ∧
        (deleting c = true → cat_finalizers c1 = [] → cat_finalizers c = [])
    | None => deleting c = true ∧ cat_finalizers c1 = []
    end.
Proof.
  intros Hobj Hb. destruct (guarded_status_calm c c1 t Hobj Hb) as (old & a1 & H1 & Hobj1 & Hsk & Hst).
  unfold finish. erewrite bind_step by exact H1. cbn [fst snd]. unfold guarded_update.
  destruct (DeepEqual_strings (cat_finalizers c) (cat_finalizers c1)) eqn:Ef; cbn [negb].
  - apply DeepEqual_strings_spec in Ef. exists a1. split; [done|]. rewrite Hobj1. split_and!; try done.
    by rewrite Ef.
  - set (c2 := set_finalizers (cat_finalizers c1) old).
    assert (Hn2 : cat_name c2 = cat_name c) by (by apply (skeleton_name c2)).
    destruct (calm_Update c2 a1 (set_finalizers (cat_finalizers c) old)) as (c3 & a2 & H2 & Hk).
    { by rewrite Hn2. } { done. }
    destruct (ac_Update_Ok _ _ _ _ H2) as (old' & Hold' & _ & _ & _ & Hf3 & Hst3 & Hall).
    rewrite Hn2, Hobj1 in Hold'. injection Hold' as <-. exists a2. split.
    { unfold bind, try, lift_api. cbn [ctl_api]. by rewrite H2. }
    rewrite Hall, decide_True by done. specialize (Hk eq_refl).
    assert (Hd2 : deleting c2 = deleting c) by (by apply (skeleton_deleting c2)).
    rewrite Hd2. destruct (deleting c) eqn:Ed; cbn [andb].
    + case_bool_decide as Hnil; [done|]. split_and!; try done; [by rewrite Hk|by rewrite Hst3].
    + split_and!; try done; [by rewrite Hk|by rewrite Hst3].
Qed.

(** A call whose [reconcile] succeeds. *)
Lemma Reconcile_returns name t c res rs :
  st_inv (ctl_world t) → elem_ok name → ac_object (ctl_api t) name = Some c → cat_name c = name →
  reconcile (mkRS c (ctl_stored t) (ctl_world t)) = (Ok res, rs) →
  ∃ a', Reconcile name t = (Ok (res, None), mkCtl (rs_stored rs) (rs_world rs) a') ∧
    match ac_object a' name with
    | Some c' =>
        skeleton c' = skeleton c ∧ cat_finalizers c' = cat_finalizers (rs_catalog rs) ∧
        (Status c' = Status (rs_catalog rs) ∨ Status c' = wire_status ac_time (Status (rs_catalog rs))) ∧
        (deleting c = true → cat_finalizers (rs_catalog rs) = [] → cat_finalizers c = [])
    | None => deleting c = true ∧ cat_finalizers (rs_catalog rs) = []
    end.
Proof.
  intros Hi Hok Hobj Hn Hr. destruct (calm_Get _ _ _ Hobj Hn Hok) as [a1 Hg].
  rewrite (Reconcile_run _ _ _ _ Hi Hg), Hr.
  pose proof (frame_reconcile name (mkRS c (ctl_stored t) (ctl_world t)) Hn Hok Hi) as (Hb & _).
  rewrite Hr in Hb. pose proof (ac_Get_reads name (ctl_api t) name) as Hg0. rewrite Hg in Hg0.
  destruct (finish_calm c (rs_catalog rs) res (mkCtl (rs_stored rs) (rs_world rs) a1))
    as (a' & H & Hm); [by rewrite Hn; etrans|done|]. rewrite Hn in Hm. by exists a'.
Qed.

(** * Calls that return *)

(** The storage and the unpacker work: whenever the storage is asked it tells the
    truth, the catalog can be unpacked and stored, and removed and cleaned up. *)
Record workable (c : ClusterCatalog) (w : W) : Prop := mkWorkable {
  wk_image : is_Some (Image (Source (Spec c)));
  wk_exists w1 : reads (cat_name c) w w1 →
    ∃ w2, st_ContentExists (cat_name c) w1 = (Ok (bool_decide (is_Some (st_view w1 (cat_name c)))), w2);
  wk_store c' w1 : reads (cat_name c) w w1 → cat_name c' = cat_name c → Spec c' = Spec c →
    ∃ result w2 w3, Unpack c' w1 = (Ok result, w2) ∧ st_Store (cat_name c) (FS result) w2 = (Ok tt, w3);
  wk_delete : ∃ w1, st_Delete (cat_name c) w = (Ok tt, w1) ∧
    ∀ c' now w2, Now w1 = (Ok now, w2) → cat_name c' = cat_name c → ∃ w3, Cleanup c' w2 = (Ok tt, w3)
}.

Lemma workable_skeleton c c' w : skeleton c = skeleton c' → workable c w → workable c' w.
Proof.
  intros H [H1 H2 H3 H4]. rewrite (skeleton_name _ _ H), (skeleton_Spec _ _ H) in *. by split.
Qed.

Lemma workable_answers c w : workable c w → answers (cat_name c) w.
Proof.
  intros H w1 b w2 Hr He. destruct (wk_exists _ _ H w1 Hr) as [w2' He']. rewrite He in He'.
  injection He' as -> _. apply bool_decide_eq_true.
Qed.

Lemma deleteCatalogCache_total s :
  workable (rs_catalog s) (rs_world s) → ∃ s', deleteCatalogCache s = (Ok tt, s').
Proof.
  intros H. destruct (wk_delete _ _ H) as (w1 & Hd & Hc). unfold deleteCatalogCache.
  erewrite bind_step by reflexivity.
  erewrite bind_step; [|apply try_step; instantiate (2 := inl tt); by apply lift_run]. cbv beta iota.
  destruct (up_now w1) as (now & w2 & Hnow & _).
  erewrite bind_step; [|unfold update_status; erewrite bind_step by (by apply lift_run); reflexivity].
  cbn [update_catalog modify rs_catalog rs_stored rs_world]. erewrite bind_step by reflexivity.
  edestruct Hc as [w3 Hw3]; [exact Hnow| |].
  2:{ erewrite bind_step; [|apply try_step; instantiate (2 := inl tt); apply lift_run; exact Hw3].
      cbv beta iota. eexists. reflexivity. }
  done.
Qed.

Lemma getCurrentState_workable c s :
  workable c (rs_world s) → ∃ cur s', getCurrentState c s = (Ok cur, s').
Proof.
  intros H. unfold getCurrentState. erewrite bind_step by reflexivity.
  destruct (rs_stored s !! cat_name c) as [d|]; [|eauto].
  destruct (wk_exists _ _ H (rs_world s)) as [w2 E]; [constructor|].
  erewrite bind_step by (apply lift_run; exact E). destruct (bool_decide _); [|eauto].
  destruct (up_now w2) as (t3 & w3 & E3 & _). destruct (up_now w3) as (t4 & w4 & E4 & _).
  erewrite bind_step by (apply lift_run; exact E3).
  erewrite bind_step by (apply lift_run; exact E4). eauto.
Qed.

Lemma needsUnpack_workable c w e o s :
  workable c w → reads (cat_name c) w (rs_world s) → ∃ b s', needsUnpack c e o s = (Ok b, s').
Proof.
  intros H R. unfold needsUnpack. destruct o as [d|]; [|eauto].
  destruct (wk_exists _ _ H _ R) as [w2 E]. erewrite bind_step by (apply lift_run; exact E).
  destruct (bool_decide _); cbn [negb]; [|eauto]. destruct (DeepEqual_status _ _); cbn [negb]; [|eauto].
  destruct (Z.eqb _ _); cbn [negb]; [|eauto]. unfold needsPoll.
  destruct (wk_image _ _ H) as [img ->]. destruct (PollIntervalMinutes img); [|eauto].
  destruct (up_now w2) as (t3 & w3 & E3 & _). erewrite bind_step by (apply lift_run; exact E3). eauto.
Qed.

Lemma decide_and_run_total s :
  workable (rs_catalog s) (rs_world s) → ∃ res s', decide_and_run (rs_catalog s) s = (Ok res, s').
Proof.
  intros H. unfold decide_and_run.
  destruct (getCurrentState_workable _ s H) as (cur & s1 & E1). erewrite bind_step by exact E1.
  apply getCurrentState_Ok in E1 as ((Hc1 & _ & R1) & _).
  destruct (needsUnpack_workable _ _ cur.1 cur.2 s1 H R1) as (b & s2 & E2). erewrite bind_step by exact E2.
  apply needsUnpack_Ok in E2 as ((Hc2 & _ & R2) & _).
  assert (Hu : ∃ res s', unpackAndStore s2 = (Ok res, s')).
  { assert (Hc : rs_catalog s2 = rs_catalog s) by congruence.
    destruct (wk_store _ _ H (rs_catalog s2) (rs_world s2)) as (result & w2 & w3 & Hu & Hst);
      [by eapply reads_trans|by rewrite Hc..|].
    eapply unpackAndStore_total; [done|by rewrite Hc]. }
  destruct b; [done|]. destruct cur.2 as [d|]; [|done].
  edestruct nextPollResult_run as (res & w3 & _ & ->). eauto.
Qed.

(** * Convergence *)

(** What the object asks for. *)
Definition converged name (c : ClusterCatalog) t : Prop :=
  let obj := ac_object (ctl_api t) name in
  if decide (unavailable c) then
    st_view (ctl_world t) name = None ∧ ctl_stored t !! name = None ∧
    (obj = None ∧ deleting c = true ∨
     ∃ c', obj = Some c' ∧ skeleton c' = skeleton c ∧ (fbcDeletionFinalizer ∉ cat_finalizers c') ∧
       unserved (Status c') ∧
       shows (Status c') TypeServing ConditionFalse ReasonUserSpecifiedUnavailable msgUnavailable
         (cat_generation c'))
  else if deleting c then
    st_view (ctl_world t) name = None ∧ ctl_stored t !! name = None ∧ obj = None
  else
    ∃ c' d, obj = Some c' ∧ skeleton c' = skeleton c ∧ live c' ∧ known_only (Status c') ∧
      ctl_stored t !! name = Some d ∧ observedGeneration d = cat_generation c' ∧
      agrees (st_BaseURL name) (cat_generation c') (unpackResult d) (Status c') ∧
      is_Some (st_view (ctl_world t) name).

Lemma converged_skeleton name c c' t : skeleton c' = skeleton c → converged name c' t → converged name c t.
Proof.
  intros H. unfold converged, unavailable. by rewrite (skeleton_Spec _ _ H), (skeleton_deleting _ _ H), H.
Qed.

(** The states in which the object is the server's and the memory is that of this
    program: in the record all times are whole. *)
Record started name (c : ClusterCatalog) t : Prop := mkStarted {
  sd_inv : st_inv (ctl_world t);
  sd_ok : elem_ok name;
  sd_obj : ac_object (ctl_api t) name = Some c;
  sd_name : cat_name c = name;
  sd_work : workable c (ctl_world t);
  sd_known : known_only (Status c);
  sd_whole : ∀ d, ctl_stored t !! name = Some d → whole_seconds (UnpackTime (unpackResult d))
}.

Lemma started_run name c t res rs :
  started name c t → reconcile (mkRS c (ctl_stored t) (ctl_world t)) = (Ok res, rs) →
  ∃ a', Reconcile name t = (Ok (res, None), mkCtl (rs_stored rs) (rs_world rs) a') ∧
    match ac_object a' name with
    | Some c' =>
        skeleton c' = skeleton c ∧ cat_finalizers c' = cat_finalizers (rs_catalog rs) ∧
        (Status c' = Status (rs_catalog rs) ∨ Status c' = wire_status ac_time (Status (rs_catalog rs))) ∧
        (deleting c = true → cat_finalizers (rs_catalog rs) = [] → cat_finalizers c = [])
    | None => deleting c = true ∧ cat_finalizers (rs_catalog rs) = []
    end.
Proof. intros [] H. by apply Reconcile_returns. Qed.

Lemma converge_unavailable name c t :
  started name c t → unavailable c →
  ∃ t', Reconcile name t = (Ok (0%Z, None), t') ∧ converged name c t'.
Proof.
  intros Hs Hu. pose proof Hs as [Hi Hok _ <- Hw _ _]. set (s := mkRS c (ctl_stored t) (ctl_world t)).
  assert (Hrun : ∃ rs, reconcile s = (Ok 0%Z, rs)).
  { rewrite reconcile_unavailable by done. unfold makeUnavailable.
    destruct (deleteCatalogCache_total s Hw) as [s1 H1]. erewrite bind_step by exact H1.
    destruct (up_now (rs_world s1)) as (t2 & w2 & E2 & _). destruct (up_now w2) as (t3 & w3 & E3 & _).
    erewrite bind_step by (apply lift_run; exact E2).
    erewrite bind_step by (apply lift_run; exact E3). eexists. reflexivity. }
  destruct Hrun as [rs Hrun]. destruct (started_run _ _ _ _ _ Hs Hrun) as (a' & HR & Hm).
  rewrite reconcile_unavailable in Hrun by done.
  destruct (makeUnavailable_spec s _ _ Hi Hok Hrun) as (_ & Hv & Hst & Hf & Hun & Hsv & _).
  eexists. split; [exact HR|]. unfold converged. rewrite decide_True by done. cbn in *.
  split_and!; [done|by rewrite Hst, lookup_delete_eq|].
  destruct (ac_object a' (cat_name c)) as [c'|]; [right|by left; destruct Hm].
  destruct Hm as (Hk & Hf' & Hst' & _). exists c'. split_and!; try done.
  - rewrite Hf', Hf, RemoveFinalizer_spec. tauto.
  - unfold unserved in *. destruct Hun as (H1 & H2 & H3). destruct Hst' as [-> | ->]; [done|]. cbn.
    by rewrite H1, H2, H3.
  - rewrite (skeleton_generation _ _ Hk). destruct Hst' as [-> | ->]; [done|by apply shows_wire].
Qed.

Lemma converge_deleted name c t :
  started name c t → ¬ unavailable c → deleting c = true →
  fbcDeletionFinalizer ∈ cat_finalizers c → (∀ f, f ∈ cat_finalizers c → f = fbcDeletionFinalizer) →
  ∃ t', Reconcile name t = (Ok (0%Z, None), t') ∧ converged name c t'.
Proof.
  intros Hs Hu Hd Hin Honly. pose proof Hs as [Hi Hok _ <- Hw _ _].
  set (s := mkRS c (ctl_stored t) (ctl_world t)).
  destruct (deleteCatalogCache_total s Hw) as [s1 H1].
  destruct (deleteCatalogCache_spec s _ _ Hi Hok H1) as (Hf & Hv & Hst & _).
  assert (Hrun : reconcile s = (Ok 0%Z, with_finalizers (RemoveFinalizer (cat_finalizers c) fbcDeletionFinalizer) s1)).
  { rewrite reconcile_available by done. cbn [rs_catalog s]. unfold has_fin.
    rewrite Hd, bool_decide_true, H1, Hf by done. done. }
  assert (Hnil : RemoveFinalizer (cat_finalizers c) fbcDeletionFinalizer = []).
  { apply elem_of_nil_inv. intros f. rewrite RemoveFinalizer_spec. intros [Hff Hne]. by apply Hne, Honly. }
  rewrite Hnil in Hrun. destruct (started_run _ _ _ _ _ Hs Hrun) as (a' & HR & Hm).
  eexists. split; [exact HR|]. unfold converged. rewrite decide_False, Hd by done. cbn in *.
  split_and!; [done|by rewrite Hst, lookup_delete_eq|].
  destruct (ac_object a' (cat_name c)) as [c'|]; [|done]. destruct Hm as (_ & _ & _ & Hm).
  rewrite (Hm Hd eq_refl) in Hin. by apply elem_of_nil in Hin.
Qed.

Lemma converge_live name c t :
  started name c t → live c →
  ∃ res t', Reconcile name t = (Ok (res, None), t') ∧ converged name c t'.
Proof.
  intros Hs Hl. pose proof Hs as [Hi Hok _ <- Hw Hk Hwh]. set (s := mkRS c (ctl_stored t) (ctl_world t)).
  destruct (decide_and_run_total s Hw) as (res & rs & Hrun). cbn [rs_catalog s] in Hrun.
  destruct (decide_and_run_Ok s res rs Hi Hok (workable_answers _ _ Hw) Hrun)
    as (Hf & d & Hd & Hg & Hag & Hv).
  destruct (decide_and_run_whole s res rs Hi Hok Hwh Hk Hrun) as (Hk' & Hwh').
  rewrite <-(reconcile_live s Hl) in Hrun. destruct (started_run _ _ _ _ _ Hs Hrun) as (a' & HR & Hm).
  eexists res, _. split; [exact HR|]. destruct Hl as (Ha & Hdel & Hfin).
  unfold converged. rewrite decide_False, Hdel by done. cbn in *.
  destruct (ac_object a' (cat_name c)) as [c'|]; [|by destruct Hm; congruence].
  destruct Hm as (Hsk & Hf' & Hst & _). exists c', d.
  rewrite (skeleton_generation _ _ Hsk). split_and!; try done.
  - split_and!; [by rewrite (skeleton_Spec _ _ Hsk)|by rewrite (skeleton_deleting _ _ Hsk)|].
    by rewrite Hf', Hf.
  - destruct Hst as [-> | ->]; [done|by apply known_wire].
  - destruct Hst as [-> | ->]; [done|]. apply agrees_wire; [|done]. by apply ac_time_whole, Hwh'.
Qed.

(** The first call for a new catalog. *)
Lemma converge_new name c t :
  started name c t → ¬ unavailable c → deleting c = false → fbcDeletionFinalizer ∉ cat_finalizers c →
  ∃ c1 t1, Reconcile name t = (Ok (0%Z, None), t1) ∧ started name c1 t1 ∧ live c1 ∧ skeleton c1 = skeleton c.
Proof.
  intros Hs Hu Hd Hf. pose proof Hs as [Hi Hok _ <- Hw Hk Hwh].
  set (s := mkRS c (ctl_stored t) (ctl_world t)).
  set (fs := AddFinalizer (cat_finalizers c) fbcDeletionFinalizer).
  assert (Hrun : reconcile s = (Ok 0%Z, with_finalizers fs s)).
  { rewrite reconcile_available by done. cbn [rs_catalog s]. unfold has_fin.
    by rewrite Hd, bool_decide_false. }
  destruct (started_run _ _ _ _ _ Hs Hrun) as (a' & HR & Hm). cbn in *.
  destruct (ac_object a' (cat_name c)) as [c1|] eqn:Ho; [|by destruct Hm; congruence].
  destruct Hm as (Hsk & Hf1 & Hst & _). eexists c1, _. split; [exact HR|]. split_and!; [|split_and!|done].
  - split; cbn; try done.
    + by apply skeleton_name.
    + by eapply workable_skeleton.
    + destruct Hst as [-> | ->]; [done|by apply known_wire].
  - by rewrite (skeleton_Spec _ _ Hsk).
  - by rewrite (skeleton_deleting _ _ Hsk).
  - rewrite Hf1. apply AddFinalizer_spec. by right.
Qed.

Lemma converges name c t :
  started name c t →
  (deleting c = true → ¬ unavailable c → fbcDeletionFinalizer ∈ cat_finalizers c ∧
     ∀ f, f ∈ cat_finalizers c → f = fbcDeletionFinalizer) →
  ∃ r1 t1, Reconcile name t = (Ok (r1, None), t1) ∧
    (converged name c t1 ∨
     ∃ r2 t2, Reconcile name t1 = (Ok (r2, None), t2) ∧ converged name c t2).
Proof.
  intros Hs Hdel. destruct (decide (unavailable c)) as [Hu|Hu].
  { destruct (converge_unavailable name c t Hs Hu) as (t' & H & Hc). eauto. }
  destruct (deleting c) eqn:Hd.
  { destruct (Hdel eq_refl Hu) as [Hin Honly].
    destruct (converge_deleted name c t Hs Hu Hd Hin Honly) as (t' & H & Hc). eauto. }
  destruct (decide (fbcDeletionFinalizer ∈ cat_finalizers c)) as [Hf|Hf].
  { destruct (converge_live name c t Hs) as (res & t' & H & Hc); [by split_and!|]. eauto. }
  destruct (converge_new name c t Hs Hu Hd Hf) as (c1 & t1 & H1 & Hs1 & Hl & Hsk).
  destruct (converge_live name c1 t1 Hs1 Hl) as (res & t2 & H2 & Hc).
  exists 0%Z, t1. split; [done|]. right. exists res, t2. split; [done|].
  by apply (converged_skeleton _ _ c1).
Qed.

(** C4: The controller makes progress. Take a state ([started]) in which the API
    server answers ([CalmClient]), the storage and the unpacker work for this
    object ([workable]: unpacking and storing its image, looking at the storage
    and cleaning up succeed), the status of the object has no conditions but
    those of this controller ([known_only]), and the time of unpacking in the
    record is in whole seconds. If an available object is being deleted, it must
    still have the finalizer of this controller, and no other. Then one or two
    calls of [Reconcile] end without an error in the state the object asks for: an
    available catalog has its finalizer, is recorded for the current generation,
    is served, and its object says so; an unavailable one is neither recorded nor
    served, and its object, if it is still there, says so; and the object of the deleted one is
    gone, with its content. *)
Theorem reconcile_converges name c t :
  started name c t →
  (deleting c = true → ¬ unavailable c → fbcDeletionFinalizer ∈ cat_finalizers c ∧
     ∀ f, f ∈ cat_finalizers c → f = fbcDeletionFinalizer) →
  ∃ r1 t1, Reconcile name t = (Ok (r1, None), t1) ∧
    (converged name c t1 ∨
     ∃ r2 t2, Reconcile name t1 = (Ok (r2, None), t2) ∧ converged name c t2).
Proof. apply converges. Qed.
End Converge.
