(* ===== verification/ControllerDemo.v ===== *)
(** A concrete environment for the controller: the storage of [StorageDemo], an
    unpacker that always finds the same catalog, and the libraries and the API
    server as the contracts describe them. The properties of the controller are
    exercised in it. *)
From stdpp Require Import pretty.
From S2P Require Import Prelude GoPath Url OsFS OsLemmas Api Storage StorageDemo Source.
From S2P Require Import Controller ControllerLemmas ImageFrame Converge.

#[export] Existing Instance dir_cfg.
#[export] Existing Instance reference_conditions.
#[export] Existing Instance reference_equality.

#[export] Existing Instance demo_text.

#[export] Instance demo_st : StorageInstance OS path := LocalDirV1.instance demo_storage.
#[export] Instance demo_sc : StorageContract OS path := LocalDirV1.contract demo_storage.

(** ** The unpacker *)

Definition demo_resolved : ResolvedCatalogSource :=
  mkResolvedSource SourceTypeImage (Some (mkResolvedImage "quay.io/op/catalog@sha256:0")).

Definition demo_unpack (_ : ClusterCatalog) : GoM OS (Result path) :=
  now <- time_Now ;;
  ret (mkResult demo_dir (Some demo_resolved) (time_Truncate now Second) StateUnpacked
         "unpacked" (time_Truncate now Second)).

#[export] Instance demo_up : Unpacker OS path := {
  Unpack := demo_unpack;
  Cleanup _ := ret tt
}.

#[export] Program Instance demo_uc : UnpackerContract OS path.
Next Obligation.
  intros c w _ _. simpl. unfold demo_unpack. destruct (time_Now_run w) as (t & w' & H & Hfs).
  erewrite bind_step by exact H. by apply (same_fs_quiet demo_storage).
Qed.
Next Obligation. intros c w _ _. simpl. reflexivity. Qed.
Next Obligation. done. Qed.
Next Obligation.
  intros c w r w'. simpl. unfold demo_unpack. destruct (time_Now_run w) as (t & w1 & H & _).
  erewrite bind_step by exact H. by intros [= <- _].
Qed.
Next Obligation.
  intros c w r w'. simpl. unfold demo_unpack. destruct (time_Now_run w) as (t & w1 & H & _).
  erewrite bind_step by exact H. intros [= <- _]. simpl. unfold whole_seconds, time_Truncate.
  rewrite (proj2 (Z.leb_gt Second 0)) by (unfold Second; lia).
  rewrite Zminus_mod, Zmod_mod, Z.sub_diag. done.
Qed.
Next Obligation.
  intros w. destruct (time_Now_run w) as (t & w' & H & Hfs). exists t, w'. split; [done|].
  by apply (same_fs_quiet demo_storage).
Qed.

(** ** The libraries *)

#[export] Program Instance demo_fu : FinalizerUtil := {
  AddFinalizer fs f := if decide (f ∈ fs) then fs else fs ++ [f];
  RemoveFinalizer fs f := List.filter (λ g, negb (bool_decide (g = f))) fs
}.
Next Obligation. intros fs f g. simpl. case_decide; set_solver. Qed.
Next Obligation.
  intros fs f g. simpl. rewrite !list_elem_of_In, List.filter_In, negb_true_iff.
  by rewrite bool_decide_eq_false.
Qed.
Next Obligation.
  intros fs f H. simpl. induction fs as [|g fs IH]; [done|]. apply not_elem_of_cons in H as [Hg H].
  simpl. rewrite bool_decide_false by done. simpl. by rewrite IH.
Qed.

Definition demo_finalize (key : string) (fn : GoM (RS OS path) FinalizeResult)
    : GoM (RS OS path) FinalizeResult := λ s,
  let c := rs_catalog s in
  let has := bool_decide (key ∈ cat_finalizers c) in
  if deleting c then
    if has then
      match fn s with
      | (Ok r, s') =>
          (Ok (mkFinalize true (StatusUpdated r)),
           mkRS (set_finalizers (RemoveFinalizer (cat_finalizers (rs_catalog s')) key) (rs_catalog s'))
             (rs_stored s') (rs_world s'))
      | (Err e, s') => (Err (ErrWrap ("finalizer " +:+ key +:+ " failed: ") e), s')
      | (Panic msg, s') => (Panic msg, s')
      | (Crash, s') => (Crash, s')
      end
    else (Ok (mkFinalize false false), s)
  else if has then (Ok (mkFinalize false false), s)
  else (Ok (mkFinalize true false),
        mkRS (set_finalizers (AddFinalizer (cat_finalizers c) key) c) (rs_stored s) (rs_world s)).

#[export] Instance demo_fl : FinalizerLib OS path := {
  Finalize := demo_finalize;
  finalize_error key e := ErrWrap ("finalizer " +:+ key +:+ " failed: ") e;
  Finalize_spec key fn s := eq_refl
}.

#[export] Program Instance demo_jt : Jitterer OS := { Jitter _ d _ := d }.
Next Obligation. intros w d num den Hd Hn Hm. simpl. nia. Qed.

(** ** The API server *)

Definition demo_get (name : string) : GoM (gmap string ClusterCatalog) ClusterCatalog := λ a,
  match a !! name with
  | Some c => if decide (cat_name c = name ∧ elem_ok name) then (Ok c, a) else (Err (ErrNotFound name), a)
  | None => (Err (ErrNotFound name), a)
  end.

Definition next_version (c : ClusterCatalog) : string := ResourceVersion (Meta c) +:+ "+".

Definition demo_status_update (c : ClusterCatalog) : GoM (gmap string ClusterCatalog) ClusterCatalog := λ a,
  match a !! cat_name c with
  | Some old =>
      if decide (ResourceVersion (Meta old) = ResourceVersion (Meta c)) then
        let c' := set_version (next_version old)
                    (set_status (wire_status (λ t, time_Truncate t Second) (Status c)) old) in
        (Ok c', <[cat_name c := c']> a)
      else (Err (ErrString "conflict"), a)
  | None => (Err (ErrNotFound (cat_name c)), a)
  end.

Definition demo_update (c : ClusterCatalog) : GoM (gmap string ClusterCatalog) ClusterCatalog := λ a,
  match a !! cat_name c with
  | Some old =>
      if decide (ResourceVersion (Meta old) = ResourceVersion (Meta c)) then
        let c' := set_version (next_version old) (set_status (Status old) c) in
        (Ok c', if deleting c && bool_decide (cat_finalizers c = []) then delete (cat_name c) a
                else <[cat_name c := c']> a)
      else (Err (ErrString "conflict"), a)
  | None => (Err (ErrNotFound (cat_name c)), a)
  end.

Definition demo_ignore (e : error) : option error :=
  match e with ErrNotFound _ => None | e => Some e end.

#[export] Program Instance demo_cl : Client (gmap string ClusterCatalog) := {
  ac_object a n := a !! n;
  ac_time t := time_Truncate t Second;
  ac_Get := demo_get;
  ac_StatusUpdate := demo_status_update;
  ac_Update := demo_update;
  IgnoreNotFound := demo_ignore
}.
Next Obligation.
  intros t Ht. unfold whole_seconds in Ht. unfold time_Truncate. rewrite Ht. 
  destruct (_ <=? _)%Z; lia.
Qed.
Next Obligation. done. Qed.
Next Obligation. intros [] ; simpl; auto. Qed.
Next Obligation.
  intros name a n. unfold demo_get. destruct (a !! name); [|done]. by case_decide.
Qed.
Next Obligation.
  intros name a c a'. unfold demo_get. destruct (a !! name); [|done].
  case_decide; [|done]. by intros [= <- <-].
Qed.
Next Obligation.
  intros c a c' a'. unfold demo_status_update. destruct (a !! cat_name c) as [old|]; [|done].
  case_decide; [|done]. intros [= <- <-]. exists old, (next_version old). split_and!; try done.
  intros n. case_decide; subst; [by rewrite lookup_insert_eq|by rewrite lookup_insert_ne].
Qed.
Next Obligation.
  intros c a c' a'. unfold demo_update. destruct (a !! cat_name c) as [old|]; [|done].
  case_decide; [|done]. intros [= <- <-]. exists old. split_and!; try done.
  intros n. destruct (deleting c && bool_decide (cat_finalizers c = [])); case_decide; subst.
  - by rewrite lookup_delete_eq.
  - by rewrite lookup_delete_ne.
  - by rewrite lookup_insert_eq.
  - by rewrite lookup_insert_ne.
Qed.

#[export] Program Instance demo_calm : CalmClient (gmap string ClusterCatalog).
Next Obligation.
  intros a name c Hc Hn Hok. exists a. simpl in *. unfold demo_get. rewrite Hc. by rewrite decide_True.
Qed.
Next Obligation.
  intros c a old Ho Hv. simpl in *. unfold demo_status_update. rewrite Ho, decide_True by done. eauto.
Qed.
Next Obligation.
  intros c a old Ho Hv. simpl in *. unfold demo_update. rewrite Ho, decide_True by done.
  eexists _, _. split; [reflexivity|]. intros <-. by destruct c as [? ? [] ? ?].
Qed.
