(* ===== verification/ControllerWitness.v ===== *)
(** The properties of the controller at work on one catalog, [op], in the
    environment of [ControllerDemo]. *)
From S2P Require Import Prelude GoPath Url OsFS OsLemmas Api Storage StorageDemo Source.
From S2P Require Import Controller ControllerLemmas ControllerCorrect ImageFrame.
From S2P Require Import ControllerDemo Converge.

(** * The catalog and its states *)

Definition op_spec (mode : string) (minutes : option Z) : ClusterCatalogSpec :=
  mkSpec (mkCatalogSource SourceTypeImage (Some (mkImageSource "quay.io/op/catalog:v1" minutes))) 0 mode.

Definition op (mode : string) (deletion : option Z) (fins : list string) (st : ClusterCatalogStatus)
    : ClusterCatalog :=
  mkCatalog "ClusterCatalog" "olm.operatorframework.io/v1"
    (mkMeta "op" "" "u1" "1" 1 0 deletion None None fins) (op_spec mode (Some 5%Z)) st.

Definition fin : string := fbcDeletionFinalizer.
Definition op_live : ClusterCatalog := op AvailabilityModeAvailable None [fin] zeroStatus.

Definition fresh (c : ClusterCatalog) : RS OS path := mkRS c ∅ (demo_os []).

Definition outcome_of (s : RS OS path) : outcome Z := (reconcile s).1.
Definition after (s : RS OS path) : RS OS path := (reconcile s).2.

Lemma run_eq (s : RS OS path) r : outcome_of s = r → reconcile s = (r, after s).
Proof. unfold outcome_of, after. destruct (reconcile s). simpl. by intros ->. Defined.

Lemma op_ok : elem_ok "op".
Proof. elem. Defined.

Lemma op_live_live : live op_live.
Proof. split_and!; [done|done|by left]. Defined.

(** In a world without faults in which the clock stands still, looking changes
    nothing. *)
Definition still (w : OS) : Prop := LocalDirV1.inv demo_storage w ∧ no_faults w ∧ os_ticks w = [].

Lemma still_reads w w' : still w → reads "op" w w' → w' = w.
Proof.
  intros (Hi & Hf & Ht) H. induction H as [w|w t w1 w2 Hn _ IH|w b w1 w2 He _ IH]; [done| |].
  - simpl in Hn. unfold time_Now in Hn. rewrite Ht in Hn. injection Hn as _ <-. by apply IH.
  - simpl in He. rewrite LocalDirV1.ContentExists_calm in He by (done || apply op_ok).
    injection He as _ <-. by apply IH.
Qed.

Lemma still_answers w : still w → answers "op" w.
Proof.
  intros Hs w1 b w2 Hr He. rewrite (still_reads _ _ Hs Hr) in *. destruct Hs as (Hi & Hf & Ht).
  simpl in He. rewrite LocalDirV1.ContentExists_calm in He by (done || apply op_ok).
  injection He as <- _. simpl. apply bool_decide_eq_true.
Qed.

Lemma still_present w :
  still w → LocalDirV1.view demo_storage (os_fs w) "op" ≠ None → present "op" w.
Proof.
  intros Hs Hv w1 Hr. rewrite (still_reads _ _ Hs Hr). destruct Hs as (Hi & Hf & Ht).
  exists w. simpl. rewrite LocalDirV1.ContentExists_calm by (done || apply op_ok).
  rewrite bool_decide_true; [done|]. by apply not_eq_None_Some.
Qed.

Lemma fresh_still : still (demo_os []).
Proof. split_and!; [apply demo_inv|done|done]. Defined.

(** The catalog after its first successful reconciliation. *)
Definition done_rs : RS OS path := Eval vm_compute in after (fresh op_live).
Definition op_done : ClusterCatalog := rs_catalog done_rs.

Lemma done_run : reconcile (fresh op_live) = (Ok (5 * Minute - 1000)%Z, done_rs).
Proof. vm_compute. reflexivity. Defined.

Lemma done_still : still (rs_world done_rs).
Proof.
  split_and!; [split; [done|]|(vm_compute; reflexivity)|(vm_compute; reflexivity)].
  apply LocalDirV1.sound_by_check. (vm_compute; reflexivity).
Defined.

Definition done_entry : storedCatalogData path :=
  default (mkStored 0 (mkResult [] None 0 "" "" 0)) (rs_stored done_rs !! "op").

(** * Witnesses *)

Lemma reconcile_confined_witness :
  checkForUnexpectedFieldChange op_live (rs_catalog (reconcile (fresh op_live)).2) = false.
Proof. apply (reconcile_confined (fresh op_live)); [apply demo_inv|apply op_ok]. Defined.


Lemma reconcile_unpacks_witness :
  ∃ res s', reconcile (fresh op_live) = (Ok res, s') ∧
    LocalDirV1.view demo_storage (os_fs (rs_world s')) "op" = Some "schema: olm.package".
Proof.
  destruct (reconcile_unpacks (fresh op_live)
    (mkResult demo_dir (Some demo_resolved) 0 StateUnpacked "unpacked" 0) (demo_os [])
    (LocalDirV1.Store demo_storage "op" demo_dir (demo_os [])).2)
    as (res & s' & d & Hr & _ & _ & _ & Hv).
  - apply demo_inv.
  - apply op_ok.
  - apply op_live_live.
  - vm_compute. reflexivity.
  - vm_compute. reflexivity.
  - vm_compute. reflexivity.
  - exists res, s'. split; [exact Hr|].
    rewrite done_run in Hr. injection Hr as _ Hs. rewrite <-Hs.
    vm_compute. reflexivity.
Defined.

Lemma done_live : live op_done.
Proof. split_and!; [vm_compute; discriminate|vm_compute; reflexivity|vm_compute; constructor]. Defined.

Lemma done_agrees : agrees (st_BaseURL "op") 1 (unpackResult done_entry) (Status op_done).
Proof. split_and!; try (eexists; vm_compute; reflexivity); vm_compute; reflexivity. Defined.

Lemma done_known : known_only (Status op_done).
Proof. unfold known_only. vm_compute. repeat constructor. Defined.

Lemma done_not_due :
  not_due "op" (rs_world done_rs) op_done (LastSuccessfulPollAttempt (unpackResult done_entry)).
Proof.
  eexists. split; [vm_compute; reflexivity|]. intros m Hm w1 t w2 Hr Hn.
  rewrite (still_reads _ _ done_still Hr) in Hn. vm_compute in Hn. injection Hn as <- _.
  injection Hm as <-. vm_compute. discriminate.
Defined.

Lemma reconcile_settled_witness :
  ∃ res w', reconcile done_rs = (Ok res, mkRS op_done (rs_stored done_rs) w').
Proof.
  destruct (reconcile_settled done_rs done_entry) as (res & w' & _ & H).
  - exact done_live.
  - vm_compute. reflexivity.
  - vm_compute. reflexivity.
  - exact done_known.
  - exact done_agrees.
  - apply still_present; [apply done_still|vm_compute; discriminate].
  - exact done_not_due.
  - exists res, w'. exact H.
Defined.

Definition op_wired : ClusterCatalog :=
  set_status (wire_status (λ t, time_Truncate t Second) (Status op_done)) op_done.

Lemma success_settles_witness :
  ∃ res w', reconcile (mkRS op_wired (rs_stored done_rs) (rs_world done_rs))
            = (Ok res, mkRS op_wired (rs_stored done_rs) w').
Proof.
  destruct (success_settles (fresh op_live) (5 * Minute - 1000)%Z done_rs
            (λ t, time_Truncate t Second) (rs_world done_rs)) as (res & w' & _ & H).
  - exact (ac_time_whole (A := gmap string ClusterCatalog)).
  - intros d Hd. vm_compute in Hd. discriminate Hd.
  - constructor.
  - apply demo_inv.
  - apply op_ok.
  - apply op_live_live.
  - apply still_answers, fresh_still.
  - exact done_run.
  - apply still_present; [apply done_still|vm_compute; discriminate].
  - intros d Hd. change (rs_stored done_rs !! "op" = Some d) in Hd.
    assert (d = done_entry) as -> by (vm_compute in Hd; injection Hd as <-; vm_compute; reflexivity).
    exact done_not_due.
  - exists res, w'. exact H.
Defined.

(** The served catalog is made unavailable. *)
Definition off_rs : RS OS path :=
  mkRS (op AvailabilityModeUnavailable None [fin; "other"] (Status op_done))
    (rs_stored done_rs) (rs_world done_rs).

Lemma reconcile_unavailable_mode_witness :
  st_view (rs_world off_rs) "op" = Some "schema: olm.package" ∧
  st_view (rs_world (after off_rs)) "op" = None ∧
  cat_finalizers (rs_catalog (after off_rs)) = ["other"].
Proof.
  split; [vm_compute; reflexivity|].
  destruct (reconcile_unavailable_mode off_rs 0 (after off_rs)) as (_ & Hv & _).
  - apply done_still.
  - apply op_ok.
  - reflexivity.
  - exact (run_eq off_rs (Ok 0%Z) ltac:(vm_compute; reflexivity)).
  - split; [exact Hv|]. vm_compute. reflexivity.
Defined.

Definition new_rs : RS OS path := fresh (op AvailabilityModeAvailable None ["other"] zeroStatus).

Lemma finalizer_first_witness :
  ∃ c', reconcile new_rs = (Ok 0%Z, mkRS c' ∅ (demo_os [])) ∧ cat_finalizers c' = ["other"; fin].
Proof.
  destruct (finalizer_first new_rs) as (c' & H & _).
  - vm_compute. discriminate.
  - reflexivity.
  - apply (bool_decide_unpack _). vm_compute. constructor.
  - exists c'. split; [exact H|].
    assert (Hc : c' = rs_catalog (after new_rs)) by (unfold after; rewrite H; reflexivity).
    rewrite Hc. vm_compute. reflexivity.
Defined.

(** The served catalog is deleted. *)
Definition gone_rs : RS OS path :=
  mkRS (op AvailabilityModeAvailable (Some 5%Z) [fin] (Status op_done))
    (rs_stored done_rs) (rs_world done_rs).

Lemma deletion_cleans_up_witness :
  st_view (rs_world (after gone_rs)) "op" = None ∧ cat_finalizers (rs_catalog (after gone_rs)) = [].
Proof.
  destruct (deletion_cleans_up gone_rs (Ok 0%Z) (after gone_rs)) as (_ & Hv & _).
  - apply done_still.
  - apply op_ok.
  - vm_compute. discriminate.
  - reflexivity.
  - constructor.
  - exact (run_eq gone_rs (Ok 0%Z) ltac:(vm_compute; reflexivity)).
  - split; [exact Hv|]. vm_compute. reflexivity.
Defined.

(** The deleted catalog is still held by another finalizer. *)
Definition held_rs : RS OS path :=
  fresh (op AvailabilityModeAvailable (Some 5%Z) ["other"] zeroStatus).

Lemma deleted_object_is_stored_again_witness :
  ∃ res s', reconcile held_rs = (Ok res, s') ∧ is_Some (st_view (rs_world s') "op").
Proof.
  destruct (deleted_object_is_stored_again held_rs
    (mkResult demo_dir (Some demo_resolved) 0 StateUnpacked "unpacked" 0) (demo_os [])
    (LocalDirV1.Store demo_storage "op" demo_dir (demo_os [])).2) as (res & s' & Hr & Hv & _).
  - apply demo_inv.
  - apply op_ok.
  - vm_compute. discriminate.
  - reflexivity.
  - apply (bool_decide_unpack _). vm_compute. constructor.
  - vm_compute. reflexivity.
  - vm_compute. reflexivity.
  - vm_compute. reflexivity.
  - exists res, s'. exact (conj Hr Hv).
Defined.

(** The disk is full when the catalog is stored. *)
Definition full_rs : RS OS path := mkRS op_live ∅ (demo_os (replicate 8 FNone ++ [FErr true 3])).

Definition full_error : error :=
  match outcome_of full_rs with Err e => e | _ => ErrString "" end.

Lemma full_run : reconcile full_rs = (Err full_error, after full_rs).
Proof. exact (run_eq full_rs (Err full_error) ltac:(vm_compute; reflexivity)). Defined.

Lemma reconcile_reports_errors_witness :
  cat_finalizers (rs_catalog (after full_rs)) = [fin] ∧
  shows (Status (rs_catalog (after full_rs))) TypeProgressing ConditionTrue ReasonRetrying
    "error storing fbc: error walking FBC root: write var/catalogs/op7" 1.
Proof.
  destruct (reconcile_reports_errors full_rs full_error (after full_rs)) as (Hf & _).
  - apply demo_inv.
  - apply op_ok.
  - exact full_run.
  - split; [exact Hf|]. eexists. vm_compute. reflexivity.
Defined.

Lemma failed_unpack_keeps_serving_witness :
  st_view (rs_world (after full_rs)) "op" = None.
Proof.
  destruct (failed_unpack_keeps_serving full_rs full_error (after full_rs)) as (Hv & _).
  - apply demo_inv.
  - apply op_ok.
  - apply op_live_live.
  - exact full_run.
  - etransitivity; [exact Hv|]. vm_compute. reflexivity.
Defined.

(** Somebody added a condition of their own to the settled catalog. *)
Definition foreign_rs : RS OS path :=
  mkRS (op AvailabilityModeAvailable None [fin]
          (set_conditions (mkCondition "Mine" ConditionTrue 1 1 "R" "" :: Conditions (Status op_done))
             (Status op_done)))
    (rs_stored done_rs) (rs_world done_rs).

Lemma foreign_condition_never_settles_witness :
  (∃ s1, only_reads "op" foreign_rs s1 ∧ reconcile foreign_rs = unpackAndStore s1)
  ∨ (reconcile foreign_rs).1 = Crash.
Proof.
  apply (foreign_condition_never_settles foreign_rs).
  - apply done_still.
  - apply op_ok.
  - split_and!; [vm_compute; discriminate|reflexivity|constructor].
  - eexists. split; [left|]. reflexivity.
Defined.

Lemma needs_poll_exact_witness :
  needsPoll 0 op_live (fresh op_live) = (Ok false, fresh op_live).
Proof.
  refine (eq_trans (needs_poll_exact (fresh op_live) op_live 0 1000 (demo_os []) _ _) _).
  - reflexivity.
  - vm_compute. split; discriminate.
  - reflexivity.
Defined.

Definition op_long : ClusterCatalog :=
  mkCatalog (Kind op_live) (APIVersion op_live) (Meta op_live)
    (op_spec AvailabilityModeAvailable (Some 200000000%Z)) zeroStatus.

Lemma needs_poll_overflow_witness :
  needsPoll 0 op_long (fresh op_long) = (Ok true, fresh op_long).
Proof.
  apply (needs_poll_overflow (fresh op_long) op_long
           (mkImageSource "quay.io/op/catalog:v1" (Some 200000000%Z)) 200000000 0 1000 (demo_os []));
    try reflexivity; unfold max_minutes; lia.
Defined.

Lemma next_poll_in_window_witness :
  ∃ d, nextPollResult 0 op_live (fresh op_live) = (Ok d, fresh op_live) ∧
    (5 * Minute ≤ 1000 + d)%Z.
Proof.
  destruct (next_poll_in_window (fresh op_live) op_live 0 1000 (demo_os [])) as (d & Hd & Hl & _).
  - reflexivity.
  - reflexivity.
  - lia.
  - vm_compute. split; discriminate.
  - exists d. split; [exact Hd|]. unfold Minute, Second in *. lia.
Defined.

Definition server (c : ClusterCatalog) : gmap string ClusterCatalog := {[ "op" := c ]}.
Definition ctl (c : ClusterCatalog) (w : OS) : Ctl OS path (gmap string ClusterCatalog) :=
  mkCtl ∅ w (server c).

Definition ctl_done : Ctl OS path (gmap string ClusterCatalog) :=
  Eval vm_compute in (Reconcile "op" (ctl op_live (demo_os []))).2.

Lemma ctl_done_run :
  Reconcile "op" (ctl op_live (demo_os [])) = (Ok ((5 * Minute - 1000)%Z, None), ctl_done).
Proof. vm_compute. reflexivity. Defined.

Lemma reconcile_persists_witness :
  ∃ rs, reconcile (fresh op_live) = (Ok (5 * Minute - 1000)%Z, rs) ∧
    ∃ c', ctl_api ctl_done !! "op" = Some c' ∧
      cat_finalizers c' = cat_finalizers (rs_catalog rs).
Proof.
  destruct (reconcile_persists "op" (ctl op_live (demo_os [])) op_live (server op_live)
              (5 * Minute - 1000)%Z ctl_done) as (rs & Hr & _ & Hm).
  - apply demo_inv.
  - vm_compute. reflexivity.
  - vm_compute. reflexivity.
  - exact ctl_done_run.
  - exists rs. split; [exact Hr|]. eexists. split; [vm_compute; reflexivity|]. apply Hm.
Defined.

Definition full_os : OS := demo_os (replicate 8 FNone ++ [FErr true 3]).

Lemma reconcile_error_retries_witness :
  ∃ r, (Reconcile "op" (ctl op_live full_os)).1 = Ok r ∧ r.2 ≠ None ∧
    ctl_stored (Reconcile "op" (ctl op_live full_os)).2 !! "op" = None.
Proof.
  destruct (Reconcile "op" (ctl op_live full_os)) as [r t'] eqn:H.
  assert (Hr : r = (Reconcile "op" (ctl op_live full_os)).1) by (rewrite H; reflexivity).
  destruct r as [r|e|msg|]; [|vm_compute in Hr; discriminate Hr..].
  destruct (reconcile_error_retries "op" (ctl op_live full_os) op_live (server op_live)
              full_error (after full_rs) r t') as (_ & Hne & Hs & _).
  - apply demo_inv.
  - vm_compute. reflexivity.
  - exact full_run.
  - exact H.
  - exists r. exact (conj eq_refl (conj Hne Hs)).
Defined.

Lemma recorded_catalogs_are_served_witness :
  is_Some (ctl_stored ctl_done !! "op") ∧ is_Some (st_view (ctl_world ctl_done) "op").
Proof.
  assert (Hs : is_Some (ctl_stored ctl_done !! "op")) by (vm_compute; eexists; reflexivity).
  split; [exact Hs|].
  refine (proj2 (recorded_catalogs_are_served (ctl op_live (demo_os [])) ctl_done _ _ _) "op" _ Hs).
  - apply demo_inv.
  - reflexivity.
  - eapply rtc_l; [|apply rtc_refl]. eapply step_reconcile; [exact ctl_done_run|discriminate].
  - apply op_ok.
Defined.

(** ** Progress *)

Definition op_fresh : ClusterCatalog := op AvailabilityModeAvailable None ["other"] zeroStatus.

(** What storing and removing the catalog lead to. *)
Definition demo_result : Result path :=
  mkResult demo_dir (Some demo_resolved) 0 StateUnpacked "unpacked" 0.
Definition demo_stored : OS :=
  Eval vm_compute in (LocalDirV1.Store demo_storage "op" demo_dir (demo_os [])).2.
Definition demo_removed : OS := Eval vm_compute in (LocalDirV1.Delete demo_storage "op" (demo_os [])).2.

Lemma demo_unpack_run c : Unpack c (demo_os []) = (Ok demo_result, demo_os []).
Proof. vm_compute. reflexivity. Qed.

Lemma demo_store_run : LocalDirV1.Store demo_storage "op" demo_dir (demo_os []) = (Ok tt, demo_stored).
Proof. vm_compute. reflexivity. Qed.

Lemma demo_remove_run : LocalDirV1.Delete demo_storage "op" (demo_os []) = (Ok tt, demo_removed).
Proof. vm_compute. reflexivity. Qed.

Lemma op_fresh_workable : workable op_fresh (demo_os []).
Proof.
  split.
  - eexists. reflexivity.
  - intros w1 Hr. rewrite (still_reads _ _ fresh_still Hr). exists (demo_os []).
    destruct fresh_still as (Hi & Hf & _). exact (LocalDirV1.ContentExists_calm demo_storage "op" _ Hi op_ok Hf).
  - intros c' w1 Hr _ _. rewrite (still_reads _ _ fresh_still Hr). exists demo_result, (demo_os []), demo_stored.
    split; [apply demo_unpack_run|exact demo_store_run].
  - exists demo_removed. split; [exact demo_remove_run|]. intros c' now w2 _ _. by exists w2.
Qed.

Lemma op_fresh_started : started "op" op_fresh (ctl op_fresh (demo_os [])).
Proof.
  split; [apply demo_inv|apply op_ok|reflexivity|reflexivity|apply op_fresh_workable|constructor|].
  intros d Hd. vm_compute in Hd. discriminate Hd.
Qed.

Lemma reconcile_converges_witness :
  ∃ r1 t1, Reconcile "op" (ctl op_fresh (demo_os [])) = (Ok (r1, None), t1) ∧
    (converged "op" op_fresh t1 ∨
     ∃ r2 t2, Reconcile "op" t1 = (Ok (r2, None), t2) ∧ converged "op" op_fresh t2).
Proof.
  apply reconcile_converges; [apply op_fresh_started|]. intros H. discriminate H.
Defined.
