(* ===== verification/GarbageCollector.v ===== *)
(** The garbage collector ([internal/garbagecollection/garbage_collector.go]):
    at the start and then periodically, it removes from the unpack cache the
    entries of catalogs that no longer exist. *)
From S2P Require Import Prelude GoPath OsFS OsLemmas OsWalk Api Source ImageSource.
From S2P Require Import ImageTrees StorageDemo.

(** * The code *)

(** The loop of [runGarbageCollection] over the entries of the cache. *)
Fixpoint collectEntries (expectedCatalogs : gset string) (cachePath : string)
    (cacheDirEntries : list (string * kind)) (removed : list string) : GoM OS (list string) :=
  match cacheDirEntries with
  | [] => ret removed
  | cacheDirEntry :: rest =>
      if bool_decide (cacheDirEntry.2 = KDir) && bool_decide (cacheDirEntry.1 ∈ expectedCatalogs)
      then collectEntries expectedCatalogs cachePath rest removed
      else
        wrap_err ("error removing cache directory entry " +:+ quoted cacheDirEntry.1 +:+ ": ")
          (os_RemoveAll (fpath (path_Join [cachePath; cacheDirEntry.1]))) ;;
        collectEntries expectedCatalogs cachePath rest (removed ++ [cacheDirEntry.1])
  end.

(** [listCatalogs] is the [List] call of the metadata client: the names of the
    catalogs that exist. *)
Definition runGarbageCollection (listCatalogs : GoM OS (list string)) (cachePath : string)
    : GoM OS (list string) :=
  names <- wrap_err "error listing clustercatalogs: " listCatalogs ;;
  let expectedCatalogs : gset string := list_to_set names in
  cacheDirEntries <- wrap_err "error reading cache directory: " (os_ReadDir (fpath cachePath)) ;;
  collectEntries expectedCatalogs cachePath cacheDirEntries [].

(** What the [select] of [Start] sees next. *)
Inductive wakeup := ContextDone | IntervalElapsed.

Definition ctx_err : error := ErrString "context canceled".

(** The loop of [Start]; it waits when no wakeup is left. Errors are logged. *)
Fixpoint collectLoop (run : GoM OS (list string)) (wakeups : list wakeup) : GoM OS (option error) :=
  match wakeups with
  | [] => ret None
  | ContextDone :: _ => ret (Some ctx_err)
  | IntervalElapsed :: rest => try run ;; collectLoop run rest
  end.

(** The struct; the metadata client is [listCatalogs]. *)
Record GarbageCollectorT := mkGC { CachePath : string; Interval : Z }.

Definition Start (listCatalogs : GoM OS (list string)) (gc : GarbageCollectorT) (wakeups : list wakeup)
    : GoM OS (option error) :=
  let run := runGarbageCollection listCatalogs (CachePath gc) in
  try run ;; collectLoop run wakeups.

(** * What it does *)

Definition stale (expected : gset string) (e : string * kind) : bool :=
  negb (bool_decide (e.2 = KDir) && bool_decide (e.1 ∈ expected)).

Lemma fpath_entry cachePath x :
  is_rooted cachePath = true → elem_ok x → fpath (path_Join [cachePath; x]) = x :: fpath cachePath.
Proof. intros Hr Hx. rewrite fpath_Join; [done|done|by constructor]. Qed.

(** Every outcome of the loop: only stale entries are touched. *)
Lemma collectEntries_safe expected cachePath es removed :
  is_rooted cachePath = true → (∀ e, e ∈ es → elem_ok e.1) →
  stable (fs_rel (changes_only (λ q, ∃ e, e ∈ es ∧ stale expected e = true ∧
                                     (e.1 :: fpath cachePath) `suffix_of` q)))
    (collectEntries expected cachePath es removed).
Proof.
  intros Hr. revert removed. induction es as [|e es IH]; intros removed Hok; simpl.
  { apply stable_ret, _. }
  set (P := λ q, ∃ e', e' ∈ e :: es ∧ stale expected e' = true ∧ (e'.1 :: fpath cachePath) `suffix_of` q).
  assert (Hrest : ∀ removed, stable (fs_rel (changes_only P)) (collectEntries expected cachePath es removed)).
  { intros removed'. eapply stable_fs_mono; [|apply IH; intros e' He'; apply Hok; by right].
    intros m m'. apply changes_only_mono. intros q (e' & He' & Hs & Hq). exists e'. split_and!; try done. by right. }
  destruct (bool_decide (e.2 = KDir) && bool_decide (e.1 ∈ expected)) eqn:Es; [apply Hrest|].
  apply (stable_bind (fs_rel (changes_only P))); [|intros _; apply Hrest].
  apply (stable_wrap_err (fs_rel (changes_only P))). rewrite fpath_entry by (done || apply Hok; by left).
  eapply stable_fs_mono; [|apply changes_RemoveAll]. intros m m'. apply changes_only_mono.
  intros q Hq. exists e. split_and!; [by left|by unfold stale; rewrite Es|done].
Qed.

Definition swept (p : path) (expected : gset string) (es : list (string * kind)) (m : fsT) (q : path)
    : option node :=
  if existsb (λ e, stale expected e && under (e.1 :: p) q) es then None else m !! q.

Definition erasable_entries (m : fsT) (p : path) : Prop :=
  walk m p = None ∧ ∀ q md, p `suffix_of` q → m !! q = Some (Dir md) → rwx md.

Lemma collectEntries_calm expected cachePath es removed w md :
  let p := fpath cachePath in
  is_rooted cachePath = true → (∀ e, e ∈ es → elem_ok e.1) →
  no_faults w → wf_fs (os_fs w) → os_fs w !! p = Some (Dir md) → erasable_entries (os_fs w) p →
  ∃ w', collectEntries expected cachePath es removed w
        = (Ok (removed ++ (List.filter (stale expected) es).*1), w') ∧
    no_faults w' ∧ ∀ q, os_fs w' !! q = swept p expected es (os_fs w) q.
Proof.
  intros p Hr. revert removed w. induction es as [|e es IH]; intros removed w Hok Hw Hwf Hp [Hwalk Hd].
  { exists w. simpl. rewrite app_nil_r. by split_and!. }
  assert (Hst : stale expected e = negb (bool_decide (e.2 = KDir) && bool_decide (e.1 ∈ expected)))
    by done.
  simpl. unfold swept. cbn [existsb]. rewrite Hst.
  destruct (bool_decide (e.2 = KDir) && bool_decide (e.1 ∈ expected)) eqn:Es; simpl.
  { destruct (IH removed w) as (w' & H & Hf & Hq); [intros; apply Hok; by right|done..|by split|].
    exists w'. by split_and!. }
  rewrite fpath_entry by (done || apply Hok; by left). fold p. destruct (Hd p md) as (_ & Hcw & Hcx); [done..|].
  assert (Her : erasable (os_fs w) (e.1 :: p)).
  { split_and!; [apply walk_cons; eauto|simpl; by rewrite Hp|].
    intros q md' Hq. apply Hd. etrans; [|exact Hq]. by apply suffix_cons_r. }
  erewrite bind_step by (unfold wrap_err; rewrite RemoveAll_calm by done; reflexivity).
  set (w1 := set_fs (prune (e.1 :: p) (os_fs w)) w).
  assert (Hout : ∀ q, q `suffix_of` p → os_fs w1 !! q = os_fs w !! q).
  { intros q Hq. cbn. apply prune_out. intros Hs. by eapply suffix_strict. }
  destruct (IH (removed ++ [e.1]) w1) as (w' & H & Hf & Hq); [intros; apply Hok; by right|done|..].
  - pose proof (keeps_wf_RemoveAll (e.1 :: p) w Hwf) as Hk. unfold fs_rel in Hk.
    by rewrite RemoveAll_calm in Hk by done.
  - by rewrite Hout.
  - split.
    + rewrite <-Hwalk. apply walk_ext. intros q y Hq. apply Hout. etrans; [|exact Hq]. by apply suffix_cons_r.
    + intros q md' Hq Hmd'. cbn in Hmd'. apply (Hd q); [done|].
      destruct (decide ((e.1 :: p) `suffix_of` q)); [by rewrite prune_in in Hmd'|by rewrite prune_out in Hmd'].
  - exists w'. rewrite H, <-app_assoc. split_and!; [done..|]. intros q. rewrite Hq. unfold swept, w1, under. cbn [os_fs set_fs].
    destruct (decide ((e.1 :: p) `suffix_of` q)) as [Hs|Hs].
    + rewrite bool_decide_true by done. simpl. rewrite prune_in by done. by destruct (existsb _ _).
    + rewrite bool_decide_false by done. simpl. by rewrite prune_out.
Qed.

(** * Properties *)

Section Correct.
Context (listCatalogs : GoM OS (list string)) (cachePath : string).
Context (list_reads : stable (fs_rel (=)) listCatalogs).
Context (rooted : is_rooted cachePath = true).
Abbreviation cache := (fpath cachePath).

Lemma run_unfold w names w1 es w2 :
  listCatalogs w = (Ok names, w1) → os_ReadDir cache w1 = (Ok es, w2) →
  runGarbageCollection listCatalogs cachePath w
  = collectEntries (list_to_set names) cachePath es [] w2.
Proof.
  intros H1 H2. unfold runGarbageCollection. erewrite bind_step by (unfold wrap_err; by rewrite H1).
  by erewrite bind_step by (unfold wrap_err; by rewrite H2).
Qed.

(** A run fails before it changes anything, or goes through the entries. *)
Lemma run_cases w :
  os_fs (runGarbageCollection listCatalogs cachePath w).2 = os_fs w ∨
  ∃ names w1 w2, listCatalogs w = (Ok names, w1) ∧ os_fs w2 = os_fs w ∧
    runGarbageCollection listCatalogs cachePath w
    = collectEntries (list_to_set names) cachePath (entries (os_fs w) cache) [] w2.
Proof.
  pose proof (list_reads w) as Hl. unfold fs_rel in Hl.
  destruct (listCatalogs w) as [[names|e|msg|] w1] eqn:E1; simpl in Hl;
    [|left; unfold runGarbageCollection, bind, wrap_err; rewrite E1; done..].
  pose proof (stable_ReadDir (=) cache w1) as Hr. unfold fs_rel in Hr.
  destruct (os_ReadDir cache w1) as [[es|e|msg|] w2] eqn:E2; simpl in Hr.
  2-4: left; unfold runGarbageCollection; erewrite bind_step by (unfold wrap_err; by rewrite E1);
       unfold bind, wrap_err; rewrite E2; simpl; by rewrite <-Hr, <-Hl.
  right. exists names, w1, w2. rewrite (run_unfold _ _ _ _ _ E1 E2). split_and!; [done|by rewrite Hl, Hr|].
  assert (es = entries (os_fs w1) cache) as ->; [|by rewrite Hl].
  apply sys_Ok in E2. destruct (find_node (os_fs w1) cache) as [|[md| | |]]; try done.
  destruct (can_r md); [|done]. by injection E2.
Qed.

Lemma entries_ok (m : fsT) (p : path) e : wf_fs m → e ∈ entries m p → elem_ok e.1.
Proof. intros Hwf. destruct e as [x k]. intros (n & Hn & _)%elem_of_entries. by destruct (Hwf _ _ _ Hn). Qed.

Lemma run_changes w names w1 :
  wf_fs (os_fs w) → listCatalogs w = (Ok names, w1) →
  changes_only (λ q, ∃ e, e ∈ entries (os_fs w) cache ∧ stale (list_to_set names) e = true ∧
                          (e.1 :: cache) `suffix_of` q)
    (os_fs w) (os_fs (runGarbageCollection listCatalogs cachePath w).2).
Proof.
  intros Hwf H1. destruct (run_cases w) as [->|(names' & w1' & w2 & H1' & Hfs & ->)]; [done|].
  rewrite H1 in H1'. injection H1' as <- _.
  pose proof (collectEntries_safe (list_to_set names) cachePath _ [] rooted
                (λ e, entries_ok (os_fs w) cache e Hwf) w2) as H.
  unfold fs_rel in H. by rewrite Hfs in H.
Qed.

(** C24: Whatever fails, the garbage collector never touches the directory of a
    catalog that exists, nor anything outside the cache directory. *)
Theorem gc_keeps_existing w names w1 :
  wf_fs (os_fs w) → listCatalogs w = (Ok names, w1) →
  let m' := os_fs (runGarbageCollection listCatalogs cachePath w).2 in
  (∀ n md q, n ∈ names → os_fs w !! (n :: cache) = Some (Dir md) → (n :: cache) `suffix_of` q →
     m' !! q = os_fs w !! q) ∧
  ∀ q, ¬ cache `suffix_of` q → m' !! q = os_fs w !! q.
Proof.
  intros Hwf H1 m'. pose proof (run_changes w names w1 Hwf H1) as Hc. fold m' in Hc. split.
  - intros n md q Hin Hd Hq. apply Hc. intros ([x k] & He & Hs & Hx). simpl in Hx.
    rewrite (suffix_child_inj x n cache q Hx Hq) in *.
    apply elem_of_entries in He as (n' & Hn' & <-). rewrite Hd in Hn'. injection Hn' as <-.
    unfold stale in Hs. simpl in Hs. rewrite !bool_decide_true in Hs by (done || by apply elem_of_list_to_set).
    done.
  - intros q Hq. apply Hc. intros ([x k] & _ & _ & Hx). apply Hq. etrans; [|exact Hx]. by apply suffix_cons_r.
Qed.

(** C25: When no system call fails and the process may write in every directory
    of the cache, one run removes exactly the entries that are not directories
    of existing catalogs, and reports their names in the order of the listing. *)
Theorem gc_removes_stale w names md :
  listCatalogs w = (Ok names, w) → no_faults w → wf_fs (os_fs w) →
  os_fs w !! cache = Some (Dir md) → erasable_entries (os_fs w) cache →
  let es := entries (os_fs w) cache in
  ∃ w', runGarbageCollection listCatalogs cachePath w
        = (Ok (List.filter (stale (list_to_set names)) es).*1, w') ∧
    ∀ x n, os_fs w !! (x :: cache) = Some n →
      os_fs w' !! (x :: cache) =
        if bool_decide (node_kind n = KDir) && bool_decide (x ∈ names) then Some n else None.
Proof.
  intros H1 Hw Hwf Hp Her es. destruct Her as [Hwalk Hd]. destruct (Hd cache md) as (Hcr & _); [done..|].
  assert (E2 : os_ReadDir cache w = (Ok es, w)).
  { unfold os_ReadDir. rewrite sys_calm, (find_node_Some _ _ (Dir md)), Hcr by done. by rewrite set_fs_id. }
  rewrite (run_unfold _ _ _ _ _ H1 E2).
  destruct (collectEntries_calm (list_to_set names) cachePath es [] w md) as (w' & H & _ & Hq); try done.
  { intros e. by apply entries_ok. }
  exists w'. split; [exact H|]. intros x n Hn. rewrite Hq. unfold swept.
  assert (Hin : (x, node_kind n) ∈ es) by (apply elem_of_entries; eauto).
  assert (Hst : stale (list_to_set names) (x, node_kind n)
                = negb (bool_decide (node_kind n = KDir) && bool_decide (x ∈ names))).
  { unfold stale. simpl. do 2 f_equal. apply bool_decide_ext. by rewrite elem_of_list_to_set. }
  destruct (bool_decide (node_kind n = KDir) && bool_decide (x ∈ names)) eqn:Eb.
  - destruct (existsb _ es) eqn:Ex; [|done]. exfalso.
    apply existsb_exists in Ex as ([y k] & Hy & [Hs Hu]%andb_true_iff). apply under_true in Hu. simpl in Hu.
    assert (y = x) as -> by (eapply suffix_child_inj; [exact Hu|done]).
    apply list_elem_of_In, elem_of_entries in Hy as (n' & Hn' & <-). rewrite Hn in Hn'.
    injection Hn' as <-. by rewrite Hst in Hs.
  - destruct (existsb _ es) eqn:Ex; [done|]. exfalso. apply not_true_iff_false in Ex. apply Ex.
    apply existsb_exists. exists (x, node_kind n). split; [by apply list_elem_of_In|].
    rewrite Hst. simpl. by apply under_true.
Qed.

(** A stale entry with something in it that cannot be removed. *)
Definition stuck_entry (expected : gset string) (m : fsT) (x : string) (k : kind) (y : string) (q : path)
    (n : node) : Prop :=
  stale expected (x, k) = true ∧ (x :: cache) `suffix_of` (y :: q) ∧ m !! (y :: q) = Some n ∧
  ∃ md, m !! q = Some (Dir md) ∧ can_w md = false.

Lemma stuck_below x y q (m : fsT) md :
  (x :: cache) `suffix_of` (y :: q) → m !! q = Some (Dir md) → can_w md = false →
  (∃ mdc, m !! cache = Some (Dir mdc) ∧ rwx mdc) → (x :: cache) `suffix_of` q.
Proof.
  intros [l Hl] Hq Hmd (mdc & Hc & Hrwx). destruct l as [|z l]; simpl in Hl; injection Hl as -> ->.
  - rewrite Hq in Hc. injection Hc as ->. destruct Hrwx as (_ & Hw & _). congruence.
  - by exists l.
Qed.

(** The loop ends with an error at that entry, or before. *)
Lemma collectEntries_stuck expected es removed w x k y q n :
  (∀ e, e ∈ es → elem_ok e.1) → (x, k) ∈ es → stuck_entry expected (os_fs w) x k y q n →
  no_faults w → wf_fs (os_fs w) → walk (os_fs w) cache = None →
  (∃ mdc, os_fs w !! cache = Some (Dir mdc) ∧ rwx mdc) →
  ∃ e w', collectEntries expected cachePath es removed w = (Err e, w') ∧ os_fs w' !! (y :: q) = Some n.
Proof.
  revert removed w. induction es as [|[x' k'] es IH]; intros removed w Hok Hin Hst Hw Hwf Hwalk Hc;
    [by apply elem_of_nil in Hin|].
  pose proof Hst as (Hs & Hsuf & Hn & md & Hq & Hmd). assert (Hok' : ∀ e, e ∈ es → elem_ok e.1)
    by (intros e He; apply Hok; by right).
  assert (Hx' : elem_ok x') by (apply (Hok (x', k')); by left).
  cbn [collectEntries fst snd].
  destruct (bool_decide (k' = KDir) && bool_decide (x' ∈ expected)) eqn:Ek.
  { apply IH; try done. apply elem_of_cons in Hin as [[= -> ->]|]; [|done].
    unfold stale in Hs. cbn [fst snd] in Hs. by rewrite Ek in Hs. }
  rewrite fpath_entry by done. pose proof (stuck_below x y q (os_fs w) md Hsuf Hq Hmd Hc) as Hbelow.
  assert (Hwx : walk (os_fs w) (x' :: cache) = None).
  { destruct Hc as (mdc & Hmdc & _ & _ & Hx). apply walk_cons. eauto. }
  destruct (decide (x' = x)) as [->|Hne].
  { destruct (RemoveAll_stuck (x :: cache) w y q n md) as (e & w' & E & Hstay); try done.
    unfold bind, wrap_err. rewrite E. eauto. }
  destruct (goes_on_RemoveAll (x' :: cache) w Hw) as [[Hw1 _] Hcr].
  pose proof (no_panic_RemoveAll (x' :: cache) w) as Hnp.
  pose proof (keeps_wf_RemoveAll (x' :: cache) w Hwf) as Hwf1.
  pose proof (changes_RemoveAll (x' :: cache) w) as Hch. unfold fs_rel in Hch.
  assert (Hsame : ∀ p, ¬ (x' :: cache) `suffix_of` p →
            os_fs (os_RemoveAll (x' :: cache) w).2 !! p = os_fs w !! p) by (intros p Hp; by apply Hch).
  clear Hch. assert (Hpar : ∀ p, p `suffix_of` cache → ¬ (x' :: cache) `suffix_of` p).
  { intros p Hp Hp'. by eapply suffix_strict. }
  assert (Hoth : ∀ p, (x :: cache) `suffix_of` p → ¬ (x' :: cache) `suffix_of` p).
  { intros p Hp Hp'. apply Hne. by eapply suffix_child_inj. }
  unfold bind, wrap_err.
  destruct (os_RemoveAll (x' :: cache) w) as [[u|e|msg|] w1]; cbn [fst snd] in *;
    [|eexists _, w1; split; [done|]; by rewrite Hsame by by apply Hoth|by destruct (Hnp msg)|done].
  apply IH; try done.
  - by apply elem_of_cons in Hin as [[= -> ->]|].
  - split_and!; [done..|by rewrite Hsame by by apply Hoth|]. exists md. by rewrite Hsame by by apply Hoth.
  - rewrite <-Hwalk. apply walk_ext. intros p z Hp. apply Hsame, Hpar. etrans; [|exact Hp]. by apply suffix_cons_r.
  - by rewrite Hsame by by apply Hpar.
Qed.

(** C32: An unpacked image is read-only, and that is too much for the garbage
    collector: when some entry of the cache is not the directory of an
    existing catalog and has a directory below it that is not empty and not writable, as
    [setReadOnlyRecursive] leaves it, then even if no system call fails of itself the run
    ends with an error and what the directory holds stays, wherever the entry
    stands in the listing. *)
Theorem gc_stuck_on_unpacked_image w names x k y q n :
  listCatalogs w = (Ok names, w) → no_faults w → wf_fs (os_fs w) →
  walk (os_fs w) cache = None → (∃ mdc, os_fs w !! cache = Some (Dir mdc) ∧ rwx mdc) →
  (x, k) ∈ entries (os_fs w) cache → stuck_entry (list_to_set names) (os_fs w) x k y q n →
  ∃ e w', runGarbageCollection listCatalogs cachePath w = (Err e, w') ∧
    os_fs w' !! (y :: q) = Some n.
Proof.
  intros H1 Hw Hwf Hwalk Hc Hin Hst.
  assert (E2 : os_ReadDir cache w = (Ok (entries (os_fs w) cache), w)).
  { destruct Hc as (mdc & Hmdc & Hcr & _). unfold os_ReadDir.
    rewrite sys_calm, (find_node_Some _ _ (Dir mdc)), Hcr by done. by rewrite set_fs_id. }
  rewrite (run_unfold _ _ _ _ _ H1 E2). eapply collectEntries_stuck; try done.
  intros e. by apply entries_ok.
Qed.

(** [Start] collects once at the start and once after each interval until the
    context ends, and an error of one run does not stop it. *)
Theorem gc_runs_every_interval interval k :
  let run := runGarbageCollection listCatalogs cachePath in
  Start listCatalogs (mkGC cachePath interval) (replicate k IntervalElapsed ++ [ContextDone])
  = Nat.iter (S k) (λ rest, try run ;; rest) (ret (Some ctx_err)).
Proof.
  intros run. unfold Start. cbn [CachePath]. fold run. simpl.
  assert (Hloop : collectLoop run (replicate k IntervalElapsed ++ [ContextDone])
                  = Nat.iter k (λ rest, try run ;; rest) (ret (Some ctx_err))).
  { induction k as [|k IH]; [done|]. simpl. by rewrite IH. }
  by rewrite Hloop.
Qed.
End Correct.

(** * Witnesses *)

Definition gc_fs (dead_mode : Z) : fsT :=
  list_to_map [
    ([], Dir m0700); (["unpack"], Dir m0700);
    (["dead"; "unpack"], Dir m0700); (["sha256:0"; "dead"; "unpack"], Dir dead_mode);
    (["x.yaml"; "sha256:0"; "dead"; "unpack"], File m0400 "X");
    (["live"; "unpack"], Dir m0700); (["sha256:1"; "live"; "unpack"], Dir m0500)].

Definition gc_os (dead_mode : Z) : OS := mkOS (gc_fs dead_mode) [] [] 0 [].
Definition only_live : GoM OS (list string) := ret ["live"].

Lemma only_live_reads : stable (fs_rel (=)) only_live.
Proof. apply stable_ret, _. Defined.

Lemma gc_wf mode : mode = m0500 ∨ mode = m0700 → wf_fs (os_fs (gc_os mode)).
Proof. intros [-> | ->]; apply wf_by_check; vm_compute; reflexivity. Defined.

Lemma gc_keeps_existing_witness :
  os_fs (runGarbageCollection only_live "/unpack" (gc_os m0700)).2 !! ["sha256:1"; "live"; "unpack"]
  = Some (Dir m0500).
Proof.
  destruct (gc_keeps_existing only_live "/unpack" only_live_reads eq_refl (gc_os m0700) ["live"]
              (gc_os m0700)) as [H _].
  - apply gc_wf. by right.
  - reflexivity.
  - rewrite (H "live" m0700); [vm_compute; reflexivity|by left|vm_compute; reflexivity|by eexists ["sha256:1"]].
Defined.

Definition gc_small : OS :=
  mkOS (list_to_map [([], Dir m0700); (["unpack"], Dir m0700); (["dead"; "unpack"], Dir m0700);
          (["live"; "unpack"], Dir m0700); (["stray"; "unpack"], File m0400 "")]) [] [] 0 [].

Lemma gc_removes_stale_witness :
  ∃ w', runGarbageCollection only_live "/unpack" gc_small = (Ok ["dead"; "stray"], w') ∧
    os_fs w' !! ["dead"; "unpack"] = None.
Proof.
  destruct (gc_removes_stale only_live "/unpack" eq_refl gc_small ["live"] m0700) as (w' & H & Hx).
  - reflexivity.
  - reflexivity.
  - apply wf_by_check. vm_compute. reflexivity.
  - reflexivity.
  - split; [reflexivity|]. apply rwx_by_check. vm_compute. reflexivity.
  - exists w'. split; [exact H|]. exact (Hx "dead" (Dir m0700) eq_refl).
Defined.

Lemma gc_stuck_on_unpacked_image_witness :
  ∃ e w', runGarbageCollection only_live "/unpack" (gc_os m0500) = (Err e, w') ∧
    os_fs w' !! ["x.yaml"; "sha256:0"; "dead"; "unpack"] = Some (File m0400 "X").
Proof.
  apply (gc_stuck_on_unpacked_image only_live "/unpack" eq_refl (gc_os m0500) ["live"] "dead" KDir
           "x.yaml" ["sha256:0"; "dead"; "unpack"] (File m0400 "X")).
  - reflexivity.
  - reflexivity.
  - apply gc_wf. by left.
  - vm_compute. reflexivity.
  - exists m0700. split; [vm_compute; reflexivity|apply rwx_0700].
  - apply (bool_decide_unpack _). vm_compute. exact I.
  - split_and!; [vm_compute; reflexivity|by eexists ["x.yaml"; "sha256:0"]|vm_compute; reflexivity|].
    exists m0500. split; vm_compute; reflexivity.
Defined.
