(* ===== verification/PullSecret.v ===== *)
(** The pull secret controller
    ([internal/controllers/core/pull_secret_controller.go]): keeps the data of
    one secret in a local file that the image unpacker reads for credentials. *)
From S2P Require Import Prelude GoPath OsFS OsLemmas StorageDemo.

Definition dockerconfigjson : string := ".dockerconfigjson".

(** [types.NamespacedName] *)
Record NamespacedName := mkNN { Namespace : string; Name : string }.
#[global] Instance NamespacedName_eq_dec : EqDecision NamespacedName.
Proof. solve_decision. Defined.

Module PullSecretReconciler.
Section Reconciler.

(** [Get] of the client for a secret, as its data, and [apierrors.IsNotFound]. *)
Context (Get : NamespacedName → GoM OS (gmap string string)) (IsNotFound : error → bool).

Record t := mk { SecretKey : NamespacedName; AuthFilePath : string }.

Definition newSecretPredicate (key obj : NamespacedName) : bool :=
  bool_decide (Name obj = Name key) && bool_decide (Namespace obj = Namespace key).

Definition writeSecretToFile (r : t) (secretData : gmap string string) : GoM OS unit :=
  match secretData !! dockerconfigjson with
  | None => ret tt
  | Some dockerConfigJSON =>
      wrap_err "failed to write secret data to file: "
        (os_WriteFile (fpath (AuthFilePath r)) dockerConfigJSON m0600)
  end.

Definition deleteSecretFile (r : t) : GoM OS unit :=
  x <- try (os_Remove (fpath (AuthFilePath r))) ;;
  match x with
  | inl _ => ret tt
  | inr err =>
      if os_IsNotExist err then ret tt
      else throw (ErrWrap "failed to delete secret file: " err)
  end.

Definition Reconcile (r : t) (req : NamespacedName) : GoM OS unit :=
  if decide (Name req ≠ Name (SecretKey r) ∨ Namespace req ≠ Namespace (SecretKey r)) then ret tt
  else
    got <- try (Get req) ;;
    match got with
    | inr err => if IsNotFound err then deleteSecretFile r else throw err
    | inl secret => writeSecretToFile r secret
    end.

(** The requests that [SetupWithManager] makes of the events of the secrets that
    the cache shows, and the controller at work on them: an error is retried
    later, which is another event here. *)
Definition SetupWithManager (r : t) (events : list NamespacedName) : list NamespacedName :=
  List.filter (newSecretPredicate (SecretKey r)) events.

Definition run (r : t) (events : list NamespacedName) : GoM OS unit :=
  forM (SetupWithManager r events) (λ req, try (Reconcile r req) ;; ret tt).

(** * Lemmas *)

Lemma predicate_key key obj : newSecretPredicate key obj = true ↔ obj = key.
Proof.
  unfold newSecretPredicate. rewrite andb_true_iff, !bool_decide_eq_true.
  destruct key, obj; simpl. naive_solver.
Qed.

Lemma requests_replicate r events :
  SetupWithManager r events = replicate (length (SetupWithManager r events)) (SecretKey r).
Proof.
  unfold SetupWithManager. induction events as [|e events IH]; [done|]. simpl.
  destruct (newSecretPredicate (SecretKey r) e) eqn:E; [|done]. apply predicate_key in E as ->.
  simpl. by f_equal.
Qed.

Definition auth_file (r : t) : path := fpath (AuthFilePath r).

(** The auth file can be written and removed. *)
Definition writable_place (m : fsT) (p : path) : Prop :=
  walk m p = None ∧ parent_writable m p = true ∧
  match m !! p with
  | None => True
  | Some (File md _) => can_w md = true
  | _ => False
  end.

Lemma WriteFile_calm p d perm w :
  no_faults w → writable_place (os_fs w) p →
  ∃ md, os_WriteFile p d perm w = (Ok tt, set_fs (<[p := File md d]> (os_fs w)) w) ∧
    (os_fs w !! p = None → md = perm).
Proof.
  intros Hw (Hwalk & Hpw & Hp). unfold os_WriteFile.
  assert (Hopen : ∃ md, sys "open" p (λ m,
    match walk m p with
    | Some e => inl e
    | None =>
        match m !! p with
        | Some (File md _) => if can_w md then inr (tt, <[p := File md ""]> m) else inl EACCES
        | Some (Dir _) => inl EISDIR
        | Some (Symlink _) => inl ELOOP
        | Some Special => inl EINVAL
        | None => if parent_writable m p then inr (tt, <[p := File perm ""]> m) else inl EACCES
        end
    end) w = (Ok tt, set_fs (<[p := File md ""]> (os_fs w)) w) ∧ (os_fs w !! p = None → md = perm)).
  { rewrite sys_calm by done. rewrite Hwalk, Hpw.
    destruct (os_fs w !! p) as [[|md d0| |]|]; try done; [rewrite Hp|]; eexists; by split. }
  destruct Hopen as (md & Hopen & Hmd). exists md. split; [|done]. erewrite bind_step by exact Hopen.
  unfold file_Write, pop_fault. cbn [os_faults set_fs]. rewrite Hw. unfold append_data. cbn [os_fs set_fs].
  rewrite lookup_insert_eq. by rewrite set_fs_set_fs, insert_insert_eq.
Qed.

Lemma deleteSecretFile_calm r w :
  no_faults w → wf_fs (os_fs w) → writable_place (os_fs w) (auth_file r) →
  deleteSecretFile r w = (Ok tt, set_fs (delete (auth_file r) (os_fs w)) w).
Proof.
  intros Hw Hwf (Hwalk & Hpw & Hp). unfold deleteSecretFile. fold (auth_file r).
  destruct (os_fs w !! auth_file r) as [n|] eqn:E.
  - erewrite bind_step; [|apply try_step; instantiate (2 := inl tt)].
    2:{ unfold os_Remove. rewrite sys_calm by done. unfold remove_node.
        rewrite (find_node_Some _ _ n), Hpw by done. by destruct n. }
    done.
  - erewrite bind_step; [|apply try_step; instantiate (2 := inr _); by apply Remove_missing]. simpl.
    rewrite delete_id by done. unfold ret. by rewrite set_fs_id.
Qed.

Lemma Reconcile_calm r w w1 got :
  try (Get (SecretKey r)) w = (Ok got, w1) → os_fs w1 = os_fs w → no_faults w1 →
  wf_fs (os_fs w) → writable_place (os_fs w) (auth_file r) →
  let '(res, w') := Reconcile r (SecretKey r) w in
  no_faults w' ∧ (∀ q, q ≠ auth_file r → os_fs w' !! q = os_fs w !! q) ∧
  match got with
  | inl secret =>
      res = Ok tt ∧
      match secret !! dockerconfigjson with
      | Some json => ∃ md, os_fs w' !! auth_file r = Some (File md json)
      | None => os_fs w' = os_fs w
      end
  | inr err =>
      if IsNotFound err then res = Ok tt ∧ os_fs w' !! auth_file r = None
      else res = Err err ∧ os_fs w' = os_fs w
  end.
Proof.
  intros Hget Hfs Hw Hwf Hpl. rewrite <-Hfs in *. unfold Reconcile.
  rewrite decide_False by (by intros [|]). unfold bind. rewrite Hget.
  destruct got as [secret|err].
  - unfold writeSecretToFile. destruct (secret !! dockerconfigjson) as [json|]; [|by split_and!].
    destruct (WriteFile_calm (auth_file r) json m0600 w1 Hw Hpl) as (md & Hrun & _).
    unfold wrap_err. fold (auth_file r). rewrite Hrun. cbn. split_and!; [done| |done|].
    + intros q Hq. by rewrite lookup_insert_ne.
    + exists md. apply lookup_insert_eq.
  - destruct (IsNotFound err); [|by split_and!].
    rewrite deleteSecretFile_calm by done. cbn. split_and!; [done| |done|apply lookup_delete_eq].
    intros q Hq. by rewrite lookup_delete_ne.
Qed.

(** * Properties *)

(** When no system call fails, one reconciliation brings the auth file in line
    with the secret: it holds the secret's docker configuration, stays as it is
    when the secret has none, and is gone when the secret does not exist; any
    other error of the API is returned without touching the file. No other file
    is touched. *)
Theorem auth_file_follows_secret r w w1 got :
  try (Get (SecretKey r)) w = (Ok got, w1) → os_fs w1 = os_fs w → no_faults w1 →
  wf_fs (os_fs w) → writable_place (os_fs w) (auth_file r) →
  let '(res, w') := Reconcile r (SecretKey r) w in
  (∀ q, q ≠ auth_file r → os_fs w' !! q = os_fs w !! q) ∧
  match got with
  | inl secret =>
      res = Ok tt ∧
      match secret !! dockerconfigjson with
      | Some json => ∃ md, os_fs w' !! auth_file r = Some (File md json)
      | None => os_fs w' = os_fs w
      end
  | inr err =>
      if IsNotFound err then res = Ok tt ∧ os_fs w' !! auth_file r = None
      else res = Err err ∧ os_fs w' = os_fs w
  end.
Proof.
  intros Hget Hfs Hw Hwf Hpl. pose proof (Reconcile_calm r w w1 got Hget Hfs Hw Hwf Hpl) as H.
  destruct (Reconcile r (SecretKey r) w). by destruct H.
Qed.

(** Requests for any other secret are ignored, and the event filter lets
    exactly the configured secret through. *)
Theorem other_secrets_ignored r req w :
  (newSecretPredicate (SecretKey r) req = true ↔ req = SecretKey r) ∧
  (req ≠ SecretKey r → Reconcile r req w = (Ok tt, w)).
Proof.
  destruct req as [ns n], r as [[kns kn] path]. unfold newSecretPredicate. simpl. split.
  - rewrite andb_true_iff, !bool_decide_eq_true. naive_solver.
  - intros Hne. unfold Reconcile. simpl. rewrite decide_True; [done|].
    destruct (decide (n = kn)); [|by left]. right. congruence.
Qed.

(** Whatever happens to other secrets, the controller reconciles its own, once
    for each of its events. *)
Theorem only_the_secret_counts r events w :
  run r events w =
    forM (replicate (length (filter (λ e, e = SecretKey r) events)) (SecretKey r))
      (λ req, try (Reconcile r req) ;; ret tt) w.
Proof.
  unfold run. rewrite requests_replicate. do 3 f_equal.
  unfold SetupWithManager. induction events as [|e events IH]; [done|]. rewrite filter_cons. simpl.
  case_decide as Hd.
  - rewrite (proj2 (predicate_key _ _)) by done. simpl. by rewrite IH.
  - destruct (newSecretPredicate (SecretKey r) e) eqn:E; [|done]. by apply predicate_key in E.
Qed.
End Reconciler.
End PullSecretReconciler.

(** * Witnesses *)

Definition key : NamespacedName := mkNN "olmv1-system" "pull".
Definition puller : PullSecretReconciler.t := PullSecretReconciler.mk key "/var/auth.json".
Definition found : NamespacedName → GoM OS (gmap string string) :=
  λ _, ret {[ dockerconfigjson := "{}" ]}.
Definition not_found (e : error) : bool := match e with ErrNotFound _ => true | _ => false end.

Lemma auth_file_follows_secret_witness :
  ∃ md, os_fs (PullSecretReconciler.Reconcile found not_found puller key (demo_os [])).2
        !! ["auth.json"; "var"] = Some (File md "{}").
Proof.
  pose proof (PullSecretReconciler.auth_file_follows_secret found not_found puller (demo_os [])
    (demo_os []) (inl {[ dockerconfigjson := "{}" ]}) eq_refl eq_refl eq_refl) as H.
  destruct (PullSecretReconciler.Reconcile found not_found puller (PullSecretReconciler.SecretKey puller)
              (demo_os [])) as [res w'] eqn:E.
  destruct H as (_ & _ & md & H).
  - apply wf_by_check. vm_compute. reflexivity.
  - split_and!; vm_compute; reflexivity || exact I.
  - exists md. change key with (PullSecretReconciler.SecretKey puller). rewrite E. exact H.
Defined.

Lemma other_secrets_ignored_witness :
  PullSecretReconciler.Reconcile found not_found puller (mkNN "default" "pull") (demo_os [])
  = (Ok tt, demo_os []).
Proof.
  apply (PullSecretReconciler.other_secrets_ignored found not_found puller (mkNN "default" "pull")).
  discriminate.
Defined.
