(* ===== verification/Webhook.v ===== *)
(** The defaulting webhook ([internal/webhook/cluster_catalog_webhook.go]): every
    catalog carries its name in the label [olm.operatorframework.io/metadata.name]. *)
From S2P Require Import Prelude Api.

(** A [runtime.Object] as far as the webhook can tell. *)
Inductive Object :=
  | ObjClusterCatalog (catalog : ClusterCatalog)
  | ObjOther (type : string).

(** [Default]: the object as it leaves it, and its error. *)
Definition Default (obj : Object) : Object * option error :=
  match obj with
  | ObjOther type => (obj, Some (ErrString ("expected a ClusterCatalog but got a " +:+ type)))
  | ObjClusterCatalog catalog =>
      let labels := match Labels (Meta catalog) with None => ∅ | Some ls => ls end in
      (ObjClusterCatalog (set_labels (Some (<[MetadataNameLabel := cat_name catalog]> labels)) catalog), None)
  end.

(** The labels of a catalog, when it has a map for them or not. *)
Definition label (catalog : ClusterCatalog) (k : string) : option string :=
  ls ← Labels (Meta catalog); ls !! k.

Lemma set_labels_same c ls : Labels (Meta c) = ls → set_labels ls c = c.
Proof. destruct c as [? ? [] ? ?]. simpl. by intros ->. Qed.

Lemma set_labels_twice c ls ls' : set_labels ls (set_labels ls' c) = set_labels ls c.
Proof. by destruct c as [? ? [] ? ?]. Qed.

(** C26: Defaulting a catalog succeeds, sets the name label to the name of the
    catalog, keeps every other label and every other field, and doing it again
    changes nothing; any other object is refused and left alone. *)
Theorem default_sets_name_label obj :
  match obj with
  | ObjClusterCatalog c =>
      ∃ c', Default obj = (ObjClusterCatalog c', None) ∧
        label c' MetadataNameLabel = Some (cat_name c) ∧
        (∀ k, k ≠ MetadataNameLabel → label c' k = label c k) ∧
        set_labels (Labels (Meta c)) c' = c ∧
        Default (ObjClusterCatalog c') = (ObjClusterCatalog c', None)
  | ObjOther _ => ∃ e, Default obj = (obj, Some e)
  end.
Proof.
  destruct obj as [c|t]; [|by eexists]. eexists. split; [done|]. unfold label. simpl. split_and!.
  - by rewrite lookup_insert_eq.
  - intros k Hk. rewrite lookup_insert_ne by done. destruct (Labels (Meta c)); [done|]. apply lookup_empty.
  - rewrite set_labels_twice. by apply set_labels_same.
  - do 2 f_equal. apply set_labels_same. simpl. by rewrite insert_insert_eq.
Qed.
