(* ===== verification/System.v ===== *)
(** The parts put together: the controller with the storage [LocalDirV1] and the
    unpacker [ContainersImageRegistry] on one file system. *)
From S2P Require Import Prelude GoPath Url OsFS OsLemmas Api Storage StorageDemo Source.
From S2P Require Import Controller ControllerLemmas ControllerCorrect ImageSource.
From S2P Require Import ImageFrame ImageDemo ControllerDemo.

Section System.
Context {A : Type} {DC : DeclCfg path} {IL : ImageLib} {ILC : ImageLibContract} {ET : ErrorText}.
Context {CS : ConditionSetter} {SE : SemanticEquality} {FU : FinalizerUtil}.
Context {FL : FinalizerLib OS path} {JT : Jitterer OS} {CL : Client A}.
Context (s : LocalDirV1.t) (i : ContainersImageRegistry.t).

(** The state and the steps of the assembled controller. *)
Definition catalogd_step : relation (Ctl OS path A) :=
  step (ST := LocalDirV1.instance s) (SC := LocalDirV1.contract s) (UP := image_unpacker i).

(** The assembled controller, with directories that do not contain each other:
    after any run from the start of the process, with any failures of the file
    system, the registry and the API server, crashes and restarts, each catalog
    recorded as stored has its content in the file [api/v1/all] of its
    directory. *)
Theorem catalogd_serves_what_it_records t0 t :
  separate s i → LocalDirV1.inv s (ctl_world t0) → ctl_stored t0 = ∅ → rtc catalogd_step t0 t →
  LocalDirV1.inv s (ctl_world t) ∧
  ∀ n, elem_ok n → is_Some (ctl_stored t !! n) →
    ∃ md d, os_fs (ctl_world t) !! LocalDirV1.fbc_file s n = Some (File md d).
Proof.
  intros Hsep Hi He Hrun. pose proof (image_unpacker_contract s i Hsep) as UC.
  destruct (reachable_consistent (ST := LocalDirV1.instance s) (SC := LocalDirV1.contract s)
              (UP := image_unpacker i) t0 t Hi He Hrun) as [Hi' Hsv].
  split; [exact Hi'|]. intros n Hn Hsome. destruct (Hsv n Hn Hsome) as [d Hd].
  simpl in Hd. unfold LocalDirV1.view in Hd.
  destruct (os_fs (ctl_world t) !! LocalDirV1.fbc_file s n) as [[| md d' | |]|]; try done. eauto.
Qed.
End System.

(** * Witness: the catalog [op] is pulled, unpacked, stored and recorded *)

#[local] Existing Instance demo_lib.
#[local] Existing Instance demo_lib_contract.

Definition op_new : ClusterCatalog := set_finalizers [fbcDeletionFinalizer] op_cat.

Definition start : Ctl OS path (gmap string ClusterCatalog) :=
  mkCtl ∅ (image_os []) {[ "op" := op_new ]}.

Definition first_run : outcome (Z * option error) * Ctl OS path (gmap string ClusterCatalog) :=
  Eval vm_compute in
    Reconcile (ST := LocalDirV1.instance demo_storage) (UP := image_unpacker demo_registry) "op" start.

Lemma first_run_eq :
  Reconcile (ST := LocalDirV1.instance demo_storage) (UP := image_unpacker demo_registry) "op" start
  = first_run.
Proof. vm_compute. reflexivity. Defined.

Lemma catalogd_serves_what_it_records_witness :
  first_run.1 = Ok (0%Z, None) ∧ is_Some (ctl_stored first_run.2 !! "op") ∧
  ∃ md d, os_fs (ctl_world first_run.2) !! ["all"; "v1"; "api"; "op"; "catalogs"; "var"]
          = Some (File md d).
Proof.
  assert (Hs : is_Some (ctl_stored first_run.2 !! "op")) by (vm_compute; eexists; reflexivity).
  split; [vm_compute; reflexivity|]. split; [exact Hs|].
  destruct (catalogd_serves_what_it_records demo_storage demo_registry start first_run.2)
    as [_ H].
  - apply demo_separate.
  - split; [reflexivity|]. apply LocalDirV1.sound_by_check. vm_compute. reflexivity.
  - reflexivity.
  - eapply rtc_l; [|apply rtc_refl].
    apply (step_reconcile (ST := LocalDirV1.instance demo_storage) (UP := image_unpacker demo_registry)
             (SC := LocalDirV1.contract demo_storage) "op" start first_run.1 first_run.2).
    + rewrite first_run_eq. destruct first_run. reflexivity.
    + vm_compute. discriminate.
  - apply (H "op"); [elem|exact Hs].
Defined.
