(* ===== verification/Server.v ===== *)
(** The HTTP server as a runnable of the manager
    ([internal/third_party/server/server.go]). [Start] runs two goroutines: the
    caller serves until the server is closed, the other one waits for the end of
    the context, shuts the server down and says so on a channel. The model is a
    state machine whose events are the steps of the two goroutines, of the
    clients and of time. *)
From stdpp Require Import relations.
From S2P Require Import Prelude.

Module HttpServer.

(** [http.ErrServerClosed] *)
Definition server_closed : string := "http: Server closed".

(** [errors.Is(err, http.ErrServerClosed)] *)
Fixpoint is_server_closed (e : error) : bool :=
  match e with
  | ErrString msg => bool_decide (msg = server_closed)
  | ErrWrap _ e' | ErrTerminal e' => is_server_closed e'
  | ErrJoin es => existsb is_server_closed es
  | ErrErrno _ _ _ | ErrNotFound _ => false
  end.

(** The settings of [Server] that [Start] uses. With a [Listener] or without, the
    server behaves the same: [serve] only chooses between [Serve] and
    [ListenAndServe]. *)
Record Server := mkServer {
  Kind : string;
  ServerAddr : string;
  Listener : option string;            (** its address *)
  OnlyServeWhenLeader : bool;
  ShutdownTimeout : option nat
}.

Definition NeedLeaderElection (s : Server) : bool := OnlyServeWhenLeader s.

Definition addr (s : Server) : string :=
  match Listener s with
  | Some a => a
  | None => ServerAddr s
  end.

(** Where the goroutine that called [Start] is: in [s.serve()], waiting for
    [serverShutdown], or back. *)
Inductive main_pc := Serving | AwaitingShutdown | Returned (err : option error).

(** Where the other one is: waiting for the context; in [Server.Shutdown], called
    at the time [began]; or done, with [serverShutdown] closed. *)
Inductive shutdown_pc := AwaitingContext | ShuttingDown (began : nat) | ChannelClosed (began : nat).

Record state := mkState {
  main : main_pc;
  shutdown : shutdown_pc;
  ctx_done : bool;
  conns : nat;                         (** connections that are not idle *)
  now : nat
}.

Definition initial (t : nat) : state := mkState Serving AwaitingContext false 0 t.

Inductive event :=
  | Cancel                             (** the context ends *)
  | Connect | Disconnect               (** a client *)
  | Tick                               (** time passes *)
  | ServeFails (e : error)             (** [Serve] returns another error *)
  | ServeClosed                        (** [Serve] returns [ErrServerClosed] *)
  | BeginShutdown                      (** [<-ctx.Done()], then [Shutdown] is called *)
  | ShutdownDone                       (** [Shutdown] returns nil *)
  | ShutdownExpires                    (** [Shutdown] returns the error of its context *)
  | ReceiveShutdown.                   (** [<-serverShutdown] *)

(** From the call of [Shutdown] on no connection is accepted and [Serve] returns. *)
Definition closing (s : state) : bool :=
  match shutdown s with AwaitingContext => false | _ => true end.

(** The context of [Shutdown] has expired; without a timeout it never does. *)
Definition expired (srv : Server) (s : state) (began : nat) : bool :=
  match ShutdownTimeout srv with Some d => Nat.leb (began + d) (now s) | None => false end.

Definition set_main (m : main_pc) (s : state) : state :=
  mkState m (shutdown s) (ctx_done s) (conns s) (now s).
Definition set_shutdown (p : shutdown_pc) (s : state) : state :=
  mkState (main s) p (ctx_done s) (conns s) (now s).
Definition set_conns (n : nat) (s : state) : state :=
  mkState (main s) (shutdown s) (ctx_done s) n (now s).

(** The effect of an event; [None] when it can not happen. *)
Definition next (srv : Server) (s : state) (e : event) : option state :=
  match e with
  | Cancel => Some (mkState (main s) (shutdown s) true (conns s) (now s))
  | Tick => Some (mkState (main s) (shutdown s) (ctx_done s) (conns s) (S (now s)))
  | Connect =>
      match main s with
      | Serving => if closing s then None else Some (set_conns (S (conns s)) s)
      | _ => None
      end
  | Disconnect =>
      match conns s with
      | 0 => None
      | S n => Some (set_conns n s)
      end
  | ServeFails err =>
      match main s with
      | Serving =>
          if closing s then None
          else if is_server_closed err then None
          else Some (set_main (Returned (Some err)) s)
      | _ => None
      end
  | ServeClosed =>
      match main s with
      | Serving => if closing s then Some (set_main AwaitingShutdown s) else None
      | _ => None
      end
  | BeginShutdown =>
      match shutdown s with
      | AwaitingContext =>
          if ctx_done s
          then Some (set_shutdown (ShuttingDown (now s)) s)
          else None
      | _ => None
      end
  | ShutdownDone =>
      match shutdown s, conns s with
      | ShuttingDown began, 0 => Some (set_shutdown (ChannelClosed began) s)
      | _, _ => None
      end
  | ShutdownExpires =>
      match shutdown s with
      | ShuttingDown began =>
          if expired srv s began then Some (set_shutdown (ChannelClosed began) s) else None
      | _ => None
      end
  | ReceiveShutdown =>
      match main s, shutdown s with
      | AwaitingShutdown, ChannelClosed _ => Some (set_main (Returned None) s)
      | _, _ => None
      end
  end.

Definition step (srv : Server) (s s' : state) : Prop := ∃ e, next srv s e = Some s'.

(** The steps of the two goroutines, as opposed to those of the environment. *)
Definition internal (e : event) : bool :=
  match e with
  | ServeClosed | BeginShutdown | ShutdownDone | ShutdownExpires | ReceiveShutdown => true
  | _ => false
  end.

Definition internal_step (srv : Server) (s s' : state) : Prop :=
  ∃ e, internal e = true ∧ next srv s e = Some s'.

(** * Invariant *)

Definition valid (srv : Server) (s : state) : Prop :=
  (closing s = true → ctx_done s = true) ∧
  match main s with
  | Serving => True
  | AwaitingShutdown => closing s = true
  | Returned None => ∃ began, shutdown s = ChannelClosed began
  | Returned (Some e) => is_server_closed e = false
  end ∧
  match shutdown s with
  | AwaitingContext => True
  | ShuttingDown began => began ≤ now s
  | ChannelClosed began => conns s = 0 ∨ expired srv s began = true
  end.

Lemma expired_later srv s s' began : now s ≤ now s' → expired srv s began = true → expired srv s' began = true.
Proof. unfold expired. destruct (ShutdownTimeout srv); [|done]. rewrite !Nat.leb_le. lia. Qed.

Lemma valid_step srv s s' : valid srv s → step srv s s' → valid srv s'.
Proof.
  destruct s as [m p c n t]. intros (Hc & Hm & Hp) [e He].
  destruct e; simpl in He; unfold closing in *; simpl in *;
    repeat (case_match; simplify_eq/=); split_and!; simpl; try done; try lia; try (by eauto);
    try (by left); try (by right).
  all: try (destruct Hp as [[=]|Hp]; right; revert Hp; apply expired_later; simpl; lia).
  all: try (destruct Hp as [->|Hp]; [by left|]; right; revert Hp; apply expired_later; simpl; lia).
  all: naive_solver.
Qed.

Lemma reachable_valid srv t0 s : rtc (step srv) (initial t0) s → valid srv s.
Proof.
  intros H. assert (valid srv (initial t0)) as Hv by by split_and!.
  revert Hv. induction H as [s|s s1 s2 Hs _ IH]; [done|]. intros Hv. apply IH. by eapply valid_step.
Qed.

(** * Internal steps end *)

Definition work_left (s : state) : nat :=
  match main s with Serving => 2 | AwaitingShutdown => 1 | Returned _ => 0 end
  + match shutdown s with AwaitingContext => 2 | ShuttingDown _ => 1 | ChannelClosed _ => 0 end.

Lemma internal_step_work srv s s' : internal_step srv s s' → work_left s = S (work_left s').
Proof.
  destruct s as [m p c n t]. intros (e & Hi & He).
  destruct e; try done; simpl in He; unfold closing in *; simpl in *;
    repeat (case_match; simplify_eq/=); unfold work_left; simpl; lia.
Qed.

Lemma internal_steps_work srv k s s' : nsteps (internal_step srv) k s s' → work_left s = k + work_left s'.
Proof.
  induction 1 as [s|k s s1 s2 Hs _ IH]; [done|]. apply internal_step_work in Hs. lia.
Qed.

(** In any state after the end of the context there is an internal step, unless
    [Start] has returned or waits for open connections. *)
Lemma internal_progress srv s :
  valid srv s → ctx_done s = true →
  (∃ s', internal_step srv s s') ∨ (∃ r, main s = Returned r) ∨
  ∃ began, shutdown s = ShuttingDown began ∧ 0 < conns s ∧ expired srv s began = false.
Proof.
  destruct s as [m p c n t]. intros (_ & Hm & _) Hc. simpl in *. subst c.
  destruct p as [|began|began].
  - left. eexists. by exists BeginShutdown.
  - destruct n as [|n]; [left; eexists; by exists ShutdownDone|].
    destruct (expired srv (mkState m (ShuttingDown began) true (S n) t) began) eqn:E.
    + left. eexists. exists ShutdownExpires. split; [done|]. simpl. by rewrite E.
    + right. right. exists began. split_and!; [done|simpl; lia|done].
  - destruct m as [| |r].
    + left. eexists. by exists ServeClosed.
    + left. eexists. by exists ReceiveShutdown.
    + eauto.
Qed.

Lemma internal_valid srv s s' :
  valid srv s → ctx_done s = true → rtc (internal_step srv) s s' → valid srv s' ∧ ctx_done s' = true.
Proof.
  intros Hv Hc H. induction H as [s|s s1 s2 (e & Hi & He) _ IH]; [done|]. apply IH.
  - eapply valid_step; [done|]. by exists e.
  - destruct s as [m p c n t]. destruct e; try done; simpl in He; simpl in Hc; subst;
      repeat (case_match; simplify_eq/=); done.
Qed.

(** C14: [Start] returns without an error only after the context has ended and the
    shutdown is over: no connection is open any more, or the shutdown has used
    up its whole timeout. It returns an error only when serving failed for a
    reason other than the server being closed. *)
Theorem start_returns_after_shutdown srv t0 s r :
  rtc (step srv) (initial t0) s → main s = Returned r →
  match r with
  | Some e => is_server_closed e = false
  | None =>
      ctx_done s = true ∧
      ∃ began, shutdown s = ChannelClosed began ∧
        (conns s = 0 ∨ ∃ d, ShutdownTimeout srv = Some d ∧ began + d ≤ now s)
  end.
Proof.
  intros (Hc & Hm & Hp)%reachable_valid Hr. rewrite Hr in Hm. destruct r as [e|]; [done|].
  destruct Hm as [began Hb]. rewrite Hb in Hp. split; [apply Hc; unfold closing; by rewrite Hb|].
  exists began. split; [done|]. destruct Hp as [|He]; [by left|right].
  unfold expired in He. destruct (ShutdownTimeout srv) as [d|]; [|done].
  exists d. by apply Nat.leb_le in He.
Qed.

(** C27: After the end of the context [Start] does return: in every reachable
    state the two goroutines take at most four more steps of their own, and when
    they can take none, [Start] has returned or [Shutdown] is waiting for open
    connections within its timeout. *)
Theorem start_returns srv t0 s :
  rtc (step srv) (initial t0) s → ctx_done s = true →
  (∀ k s', nsteps (internal_step srv) k s s' → k ≤ 4) ∧
  ∀ s', rtc (internal_step srv) s s' → nf (internal_step srv) s' →
    (∃ r, main s' = Returned r) ∨
    ∃ began, shutdown s' = ShuttingDown began ∧ 0 < conns s' ∧ expired srv s' began = false.
Proof.
  intros Hv%reachable_valid Hc. split.
  - intros k s' Hk%internal_steps_work. unfold work_left in Hk at 1.
    destruct (main s), (shutdown s); lia.
  - intros s' Hs Hnf. destruct (internal_valid srv s s' Hv Hc Hs) as [Hv' Hc'].
    destruct (internal_progress srv s' Hv' Hc') as [Hstep|H]; [by destruct Hnf|exact H].
Qed.

(** * A run *)

Fixpoint run (srv : Server) (s : state) (es : list event) : option state :=
  match es with
  | [] => Some s
  | e :: es' => s' ← next srv s e; run srv s' es'
  end.

Lemma run_steps srv s es s' : run srv s es = Some s' → rtc (step srv) s s'.
Proof.
  revert s. induction es as [|e es IH]; intros s H; simpl in H; [by simplify_eq; constructor|].
  destruct (next srv s e) as [s1|] eqn:E; [|done]. eapply rtc_l; [by exists e|]. by apply IH.
Qed.

Definition catalog_server : Server := mkServer "catalogs" ":8443" (Some "[::]:8443") false (Some 30).

(** A client stays connected: the shutdown takes its thirty seconds. *)
Definition slow_client : list event :=
  [Connect; Connect; Disconnect; Cancel; BeginShutdown; ServeClosed]
  ++ replicate 30 Tick ++ [ShutdownExpires; ReceiveShutdown].

Lemma start_returns_after_shutdown_witness :
  let s := mkState (Returned None) (ChannelClosed 100) true 1 130 in
  run catalog_server (initial 100) slow_client = Some s ∧ ctx_done s = true ∧
  ∃ began, shutdown s = ChannelClosed began ∧
    (conns s = 0 ∨ ∃ d, ShutdownTimeout catalog_server = Some d ∧ began + d ≤ now s).
Proof.
  intros s. assert (Hrun : run catalog_server (initial 100) slow_client = Some s) by (vm_compute; reflexivity).
  split; [exact Hrun|].
  exact (start_returns_after_shutdown catalog_server 100 s None (run_steps _ _ _ _ Hrun) eq_refl).
Defined.

Lemma start_returns_witness :
  let s := mkState AwaitingShutdown (ShuttingDown 100) true 1 100 in
  run catalog_server (initial 100) [Connect; Cancel; BeginShutdown; ServeClosed] = Some s ∧
  ∀ k s', nsteps (internal_step catalog_server) k s s' → k ≤ 4.
Proof.
  intros s.
  assert (Hrun : run catalog_server (initial 100) [Connect; Cancel; BeginShutdown; ServeClosed] = Some s)
    by (vm_compute; reflexivity).
  split; [exact Hrun|].
  exact (proj1 (start_returns catalog_server 100 s (run_steps _ _ _ _ Hrun) eq_refl)).
Defined.
End HttpServer.
