(* ===== verification/ServerUtil.v ===== *)
(** The catalog server ([internal/serverutil/serverutil.go],
    [internal/metrics/metrics.go]): how the handler of the storage, the metrics
    and the listener are put together. *)
From S2P Require Import Prelude GoPath Url OsFS Storage Http StorageServer Server.

Definition RequestDurationMetricName : string := "catalogd_http_request_duration_seconds".

(** [prometheus.HistogramOpts]; the bounds of the buckets in tenths of a second. *)
Record HistogramOpts := mkHistogram { hName : string; Help : string; Buckets : list Z; hLabels : list string }.

Definition RequestDurationMetric : HistogramOpts :=
  mkHistogram RequestDurationMetricName "Histogram of request duration in seconds"
    [1; 2; 3; 4; 5; 6; 7; 8; 9; 10; 12; 16; 20; 24; 28; 32; 36; 40; 100]%Z ["code"].

(** [net.Listen("tcp", addr)] with the address it gives, and
    [promhttp.InstrumentHandlerDuration], which observes a handler and answers
    what the handler answers. *)
Class ServerLib := {
  net_Listen : string → GoM OS string;
  InstrumentHandlerDuration : HistogramOpts → Handler → Handler;
  Instrument_passes metric handler h r w : InstrumentHandlerDuration metric handler h r w = handler h r w
}.

Definition AddMetricsToHandler {SL : ServerLib} (handler : Handler) : Handler :=
  InstrumentHandlerDuration RequestDurationMetric handler.

Record CatalogServerConfig := mkConfig {
  ExternalAddr : string;
  CatalogAddr : string;
  CertFile : string;
  KeyFile : string;
  LocalStorage : LocalDirV1.t
}.

(** [tls.Config]: whether certificates come from the certificate watcher, the
    version in its wire encoding, the protocols offered. *)
Record TLSConfig := mkTLS {
  GetCertificate_watched : bool;
  MinVersion : Z;
  NextProtos : list string
}.
Definition VersionTLS12 : Z := 0x0303.

(** [server.Server] with its [http.Server] and listener. *)
Record CatalogServer := mkCatalogServer {
  cs_server : HttpServer.Server;
  cs_handler : Handler;
  ReadTimeout : Z;
  WriteTimeout : Z;
  cs_tls : option TLSConfig
}.

Section AddServer.
Context {CC : ContentServer} {GZ : GzipLib} {SL : ServerLib}.

(** [add] is [mgr.Add]. Times of the server are in seconds. *)
Definition AddCatalogServerToManager {A : Type} (add : CatalogServer → GoM OS A)
    (cfg : CatalogServerConfig) : GoM OS A :=
  listener <- wrap_err "error creating catalog server listener: " (net_Listen (CatalogAddr cfg)) ;;
  let tls := if decide (CertFile cfg ≠ "" ∧ KeyFile cfg ≠ "") then Some (mkTLS true VersionTLS12 []) else None in
  let shutdownTimeout := 30 in
  let catalogServer :=
    mkCatalogServer
      (HttpServer.mkServer "catalogs" (CatalogAddr cfg) (Some listener) false (Some shutdownTimeout))
      (AddMetricsToHandler (StorageServerHandler (LocalStorage cfg)))
      (duration_mul 5 Second) (duration_mul 5 Minute) tls in
  wrap_err "error adding catalog server to manager: " (add catalogServer).
End AddServer.
