(* ===== verification/Manager.v ===== *)
(** The manager command ([cmd/manager/main.go]): flags, the source context of the
    unpacker, and how the parts of catalogd are configured and put together. *)
From Stdlib Require Import Ascii.
From S2P Require Import Prelude GoPath Url OsFS Storage Source ImageSource PullSecret GarbageCollector.
From S2P Require Import Http StorageServer Server ServerUtil.

(** * Flags *)

Record Flags := mkFlags {
  metricsAddr : string;
  enableLeaderElection : bool;
  probeAddr : string;
  pprofAddr : string;
  catalogdVersion : bool;
  systemNamespace : string;
  catalogServerAddr : string;
  externalAddr : string;
  cacheDir : string;
  gcInterval : Z;
  certFile : string;
  keyFile : string;
  webhookPort : Z;
  caCertDir : string;
  globalPullSecret : string
}.

Definition Hour : Z := 60 * Minute.

Definition default_flags : Flags :=
  mkFlags "" false ":8081" "0" false "" ":8443" "catalogd-service.olmv1-system.svc" "/var/cache/"
    (12 * Hour) "" "" 9443 "" "".

Definition storageDir : string := "catalogs".
Definition authFilePrefix : string := "catalogd-global-pull-secret".

(** What [main] reads from its environment. *)
Record Env := mkEnv {
  env_TempDir : string;                (** [os.TempDir()] *)
  env_rand : string;                   (** [apimachineryrand.String(8)] *)
  env_uid : Z;
  env_gid : Z;
  env_ModTime : OS → path → Z
}.

(** [setupLog.Error(err, msg); os.Exit(1)] *)
Definition fatal {A : Type} (msg : string) : GoM OS A := throw (ErrString msg).

Definition or_fatal {A : Type} (msg : string) (m : GoM OS A) : GoM OS A :=
  r <- try m ;;
  match r with inl a => ret a | inr _ => fatal msg end.

(** The name of the pull secret, [<namespace>/<name>]. *)
Definition parsePullSecret (globalPullSecret : string) : GoM OS (option NamespacedName) :=
  if decide (globalPullSecret = "") then ret None
  else
    match split_slash globalPullSecret with
    | [ns; name] => ret (Some (mkNN ns name))
    | _ => fatal "value of global-pull-secret should be of the format <namespace>/<name>"
    end.

(** The TLS flags belong together, and metrics need them; the address of the
    metrics endpoint. *)
Definition checkTLSFlags (f : Flags) : GoM OS string :=
  if decide ((certFile f ≠ "" ∧ keyFile f = "") ∨ (certFile f = "" ∧ keyFile f ≠ ""))
  then fatal "unable to configure TLS certificates: tls-cert and tls-key flags must be used together"
  else if decide (metricsAddr f ≠ "" ∧ certFile f = "" ∧ keyFile f = "")
  then fatal "metrics-bind-address requires tls-cert and tls-key flags to be set"
  else if decide (certFile f ≠ "" ∧ keyFile f ≠ "" ∧ metricsAddr f = "") then ret ":7443"
  else ret (metricsAddr f).

(** The external address with its protocol. *)
Definition externalURL (f : Flags) : string :=
  (if decide (certFile f ≠ "" ∧ keyFile f ≠ "") then "https://" else "http://") +:+ externalAddr f.

Definition authFilePath (env : Env) : string :=
  path_Join [env_TempDir env; authFilePrefix +:+ "-" +:+ env_rand env +:+ ".json"].

(** The TLS options of the webhook and of the metrics endpoint: certificates of
    the watcher, and no HTTP/2. *)
Definition tlsOpts (config : TLSConfig) : TLSConfig := mkTLS true (MinVersion config) ["http/1.1"].

(** [metricsserver.Options]: without certificates the endpoint is disabled. *)
Inductive Filter := WithAuthenticationAndAuthorization.

Record MetricsOptions := mkMetrics {
  BindAddress : string;
  SecureServing : bool;
  FilterProvider : option Filter;
  metrics_TLSOpts : list (TLSConfig → TLSConfig)
}.

Definition metricsServerOptions (f : Flags) (addr : string) : MetricsOptions :=
  if decide (certFile f ≠ "" ∧ keyFile f ≠ "")
  then mkMetrics addr true (Some WithAuthenticationAndAuthorization) [tlsOpts]
  else mkMetrics "0" false None [].

(** [crwebhook.Options] *)
Record WebhookOptions := mkWebhook { webhook_Port : Z; webhook_TLSOpts : list (TLSConfig → TLSConfig) }.

Definition webhookServer (f : Flags) : WebhookOptions := mkWebhook (webhookPort f) [tlsOpts].

(** The objects of the cache: of the secrets only the pull secret. *)
Definition cacheOptions (key : option NamespacedName) : list NamespacedName :=
  match key with Some k => [k] | None => [] end.

Record ManagerOptions := mkOptions {
  o_Metrics : MetricsOptions;
  o_PprofBindAddress : string;
  o_HealthProbeBindAddress : string;
  o_LeaderElection : bool;
  o_LeaderElectionID : string;
  o_WebhookServer : WebhookOptions;
  o_CacheSecrets : list NamespacedName
}.

(** * The parts of catalogd *)

Section Main.
Context {IL : ImageLib} {CC : ContentServer} {GZ : GzipLib} {SL : ServerLib} {UP : UrlParser}.

(** What is added to the manager, in its configuration. *)
Inductive Runnable :=
  | RunCertWatcher
  | RunCatalogServer (s : CatalogServer)
  | RunClusterCatalogReconciler (storage : LocalDirV1.t) (unpacker : ContainersImageRegistry.t)
  | RunPullSecretReconciler (r : PullSecretReconciler.t)
  | RunHealthz
  | RunReadyz
  | RunGarbageCollector (gc : GarbageCollectorT)
  | RunWebhook.

(** controller-runtime and client-go. A certificate watcher reads its two files
    when it is made. [mgr_Start] runs what was added, until it is told to stop. *)
Class ManagerLib := {
  GetConfig : GoM OS unit;
  certwatcher_New : string → string → GoM OS unit;
  certwatcher_reads cert key w w' :
    certwatcher_New cert key w = (Ok tt, w') → cert ≠ "" ∧ key ≠ "";
  NewManager : ManagerOptions → GoM OS unit;
  mgr_Add : Runnable → GoM OS unit;
  NewMetadataClient : GoM OS unit;
  mgr_Start : list Runnable → GoM OS unit;
  mkSystemContext : string → string → string → SystemContext
}.

Context {ML : ManagerLib}.

(** The source context of the unpacker: CA directory twice, and the auth file
    when there is one and a pull secret is configured. The last branch formats
    the error of [os.Stat], which may be nil. *)
Definition SourceContextFunc (f : Flags) (authFile : string) (key : option NamespacedName)
    : GoM OS SystemContext :=
  st <- try (os_Stat (fpath authFile)) ;;
  match st, key with
  | inl _, Some _ => ret (mkSystemContext (caCertDir f) (caCertDir f) authFile)
  | inl _, None => throw (ErrString "could not stat auth file, error: %!w(<nil>)")
  | inr err, _ =>
      if os_IsNotExist err then ret (mkSystemContext (caCertDir f) (caCertDir f) "")
      else throw (ErrWrap "could not stat auth file, error: " err)
  end.

Definition podNamespace : GoM OS string :=
  r <- try (os_ReadFile (fpath "/var/run/secrets/kubernetes.io/serviceaccount/namespace")) ;;
  match r with
  | inl namespace => ret namespace
  | inr _ => ret "olmv1-system"
  end.

Definition m0770 : Z := 504.

(** The directories below [cacheDir], the unpacker and the storage. *)
Definition setupUnpacker (f : Flags) (env : Env) (key : option NamespacedName)
    : GoM OS ContainersImageRegistry.t :=
  or_fatal "unable to create cache directory" (os_MkdirAll (fpath (cacheDir f)) m0700) ;;
  let unpackCacheBasePath := path_Join [cacheDir f; UnpackCacheDir] in
  or_fatal "unable to create cache directory for unpacking" (os_MkdirAll (fpath unpackCacheBasePath) m0770) ;;
  ret (ContainersImageRegistry.mk unpackCacheBasePath (SourceContextFunc f (authFilePath env) key)
         (env_TempDir env) (env_uid env) (env_gid env) (env_ModTime env)).

Definition setupStorage (f : Flags) : GoM OS LocalDirV1.t :=
  let storeDir := path_Join [cacheDir f; storageDir] in
  or_fatal "unable to create storage directory for catalogs" (os_MkdirAll (fpath storeDir) m0700) ;;
  match url_Parse (externalURL f +:+ "/catalogs/") with
  | inr _ => fatal "unable to create base storage URL"
  | inl baseStorageURL => ret (LocalDirV1.mk storeDir baseStorageURL)
  end.

(** Adds one part to the manager and to the list of what was added. *)
Definition add (msg : string) (r : Runnable) (added : list Runnable) : GoM OS (list Runnable) :=
  or_fatal msg (mgr_Add r) ;; ret (added ++ [r]).

(** The configuration of the cluster's client and the watcher of the certificate,
    which [main] needs before anything else. *)
Definition newCertWatcher (f : Flags) : GoM OS unit :=
  or_fatal "unable to get kubeconfig" GetConfig ;;
  or_fatal "Failed to initialize certificate watcher" (certwatcher_New (certFile f) (keyFile f)).

(** Up to the start of the manager. *)
Definition setup (f : Flags) (env : Env) : GoM OS (list Runnable) :=
  globalPullSecretKey <- parsePullSecret (globalPullSecret f) ;;
  metricsAddr <- checkTLSFlags f ;;
  newCertWatcher f ;;
  or_fatal "unable to create manager"
    (NewManager (mkOptions (metricsServerOptions f metricsAddr) (pprofAddr f) (probeAddr f)
                   (enableLeaderElection f) "catalogd-operator-lock" (webhookServer f)
                   (cacheOptions globalPullSecretKey))) ;;
  added <- add "unable to add certificate watcher to manager" RunCertWatcher [] ;;
  (if decide (systemNamespace f = "") then podNamespace else ret (systemNamespace f)) ;;
  unpacker <- setupUnpacker f env globalPullSecretKey ;;
  localStorage <- setupStorage f ;;
  added <- or_fatal "unable to configure catalog server"
             (AddCatalogServerToManager (λ s, mgr_Add (RunCatalogServer s) ;; ret (added ++ [RunCatalogServer s]))
                (mkConfig (externalURL f) (catalogServerAddr f) (certFile f) (keyFile f) localStorage)) ;;
  added <- add "unable to create controller" (RunClusterCatalogReconciler localStorage unpacker) added ;;
  added <- match globalPullSecretKey with
           | None => ret added
           | Some key =>
               add "unable to create controller"
                 (RunPullSecretReconciler (PullSecretReconciler.mk key (authFilePath env))) added
           end ;;
  added <- add "unable to set up health check" RunHealthz added ;;
  added <- add "unable to set up ready check" RunReadyz added ;;
  or_fatal "unable to setup client for garbage collection" NewMetadataClient ;;
  added <- add "unable to add garbage collector to manager"
             (RunGarbageCollector (mkGC (path_Join [cacheDir f; UnpackCacheDir]) (gcInterval f))) added ;;
  add "unable to create webhook" RunWebhook added.

Definition run (f : Flags) (env : Env) : GoM OS unit :=
  if catalogdVersion f then ret tt
  else
    added <- setup f env ;;
    or_fatal "problem running manager" (mgr_Start added) ;;
    or_fatal "failed to cleanup temporary auth file" (os_Remove (fpath (authFilePath env))).

(** The exit code of the process. *)
Definition main (f : Flags) (env : Env) : GoM OS Z :=
  r <- try (run f env) ;;
  match r with inl _ => ret 0%Z | inr _ => ret 1%Z end.
End Main.
