(* ===== verification/ManagerCorrect.v ===== *)
(** The properties of the manager command. *)
From Stdlib Require Import Ascii.
From S2P Require Import Prelude GoPath Url OsFS OsLemmas Storage Source.
From S2P Require Import ImageSource ImageTrees ImageFrame PullSecret GarbageCollector.
From S2P Require Import Http StorageServer StorageRequests Server ServerUtil Manager.

Lemma or_fatal_Ok {A : Type} msg (m : GoM OS A) w a w' :
  or_fatal msg m w = (Ok a, w') → m w = (Ok a, w').
Proof. unfold or_fatal, bind, try. destruct (m w) as [[x|e|s|] w1]; try done. Qed.

Section Correct.
Context {IL : ImageLib} {CC : ContentServer} {GZ : GzipLib} {SL : ServerLib} {UP : UrlParser}.
Context {ML : ManagerLib}.
Implicit Types (f : Flags) (env : Env) (w : OS).

(** * Flags *)

(** The flags [main] accepts. *)
Definition flags_ok f : Prop :=
  (globalPullSecret f = "" ∨ ∃ ns n, slash_free ns = true ∧ slash_free n = true ∧
                                     globalPullSecret f = ns +:+ "/" +:+ n) ∧
  (certFile f = "" ↔ keyFile f = "") ∧
  (metricsAddr f ≠ "" → certFile f ≠ "").

Lemma parsePullSecret_spec (secret : string) w :
  parsePullSecret secret w =
  (if decide (secret = "") then Ok None
   else match split_slash secret with
        | [ns; n] => Ok (Some (mkNN ns n))
        | _ => Err (ErrString "value of global-pull-secret should be of the format <namespace>/<name>")
        end, w).
Proof.
  unfold parsePullSecret. case_decide; [done|].
  destruct (split_slash secret) as [|ns [|n [|]]]; done.
Qed.

Lemma join_split (s : string) : join_slash (split_slash s) = s.
Proof.
  induction s as [|c s IH]; [done|]. simpl. destruct (is_slash c) eqn:Ec.
  - apply Ascii.eqb_eq in Ec as ->. rewrite join_slash_app; [by rewrite IH|].
    destruct (split_slash_cons s) as (? & ? & ->). done.
  - destruct (split_slash_cons s) as (x & xs & Hs). rewrite Hs in *.
    destruct xs as [|y ys]; [simpl in *; by rewrite IH|].
    change (String c x +:+ String "/" (join_slash (y :: ys)) = String c s). simpl in IH. by rewrite <-IH.
Qed.

Lemma two_parts (s ns n : string) :
  split_slash s = [ns; n] ↔ slash_free ns = true ∧ slash_free n = true ∧ s = ns +:+ "/" +:+ n.
Proof.
  split.
  - intros H. pose proof (split_slash_all_free s) as Hf. rewrite H in Hf.
    apply Forall_cons in Hf as [Hns Hf]. apply Forall_cons in Hf as [Hn _].
    split_and!; [done..|]. by rewrite <-(join_split s), H.
  - intros (Hns & Hn & ->). change ("/" +:+ n) with (String "/" n).
    by rewrite split_slash_app, !split_slash_free.
Qed.

(** C29: Flags that [main] does not accept make it exit with status 1 before it
    touches anything: a pull secret that is not [<namespace>/<name>], one TLS
    file without the other, or an address for metrics without TLS. All others
    pass, with the parts of the secret's name, and [:7443] for metrics when TLS
    is set up and no address is given. *)
Theorem flags_checked f env w :
  catalogdVersion f = false →
  (¬ flags_ok f → main f env w = (Ok 1%Z, w)) ∧
  (flags_ok f → ∃ key,
     parsePullSecret (globalPullSecret f) w = (Ok key, w) ∧
     checkTLSFlags f w = (Ok (if decide (certFile f ≠ "" ∧ metricsAddr f = "") then ":7443"
                              else metricsAddr f), w) ∧
     match key with
     | None => globalPullSecret f = ""
     | Some k => globalPullSecret f = PullSecret.Namespace k +:+ "/" +:+ PullSecret.Name k
     end).
Proof.
  intros Hv. split.
  - intros Hno. unfold main, bind at 1, try, run. rewrite Hv. unfold bind at 1, setup, bind at 1.
    rewrite parsePullSecret_spec.
    case_decide as Hs; [|destruct (split_slash (globalPullSecret f)) as [|ns [|n [|]]] eqn:E; try done].
    all: unfold bind, checkTLSFlags; repeat (case_decide; [done|]); exfalso; apply Hno; split_and!;
      try (by left); try (right; exists ns, n; by apply two_parts); try naive_solver.
    all: destruct (decide (certFile f = "")), (decide (keyFile f = "")); naive_solver.
  - intros (Hs & Htls & Hm). rewrite parsePullSecret_spec.
    assert (checkTLSFlags f w = (Ok (if decide (certFile f ≠ "" ∧ metricsAddr f = "") then ":7443"
                              else metricsAddr f), w)) as ->.
    { unfold checkTLSFlags. rewrite decide_False by naive_solver. rewrite decide_False by naive_solver.
      repeat case_decide; naive_solver. }
    case_decide as He; [by exists None|].
    destruct Hs as [?|(ns & n & H)]; [done|]. pose proof H as (_ & _ & Heq).
    apply two_parts in H. rewrite H. by exists (Some (mkNN ns n)).
Qed.

(** * Putting the parts together *)

(** The parts [main] makes from its flags. *)
Definition the_key f : option NamespacedName :=
  match split_slash (globalPullSecret f) with [ns; n] => Some (mkNN ns n) | _ => None end.

Definition the_unpacker f env : ContainersImageRegistry.t :=
  ContainersImageRegistry.mk (path_Join [cacheDir f; UnpackCacheDir])
    (SourceContextFunc f (authFilePath env) (the_key f))
    (env_TempDir env) (env_uid env) (env_gid env) (env_ModTime env).

Definition the_storage f (u : URL) : LocalDirV1.t := LocalDirV1.mk (path_Join [cacheDir f; storageDir]) u.

Definition the_server f (u : URL) (listener : string) : CatalogServer :=
  mkCatalogServer
    (HttpServer.mkServer "catalogs" (catalogServerAddr f) (Some listener) false (Some 30))
    (AddMetricsToHandler (StorageServerHandler (the_storage f u)))
    (5 * Second) (5 * Minute) (Some (mkTLS true VersionTLS12 [])).

Definition the_parts f env (u : URL) (listener : string) : list Runnable :=
  [RunCertWatcher; RunCatalogServer (the_server f u listener);
   RunClusterCatalogReconciler (the_storage f u) (the_unpacker f env)]
  ++ match the_key f with
     | Some key => [RunPullSecretReconciler (PullSecretReconciler.mk key (authFilePath env))]
     | None => []
     end
  ++ [RunHealthz; RunReadyz;
      RunGarbageCollector (mkGC (path_Join [cacheDir f; UnpackCacheDir]) (gcInterval f)); RunWebhook].

Lemma parsed_key f key w w' :
  parsePullSecret (globalPullSecret f) w = (Ok key, w') → key = the_key f.
Proof.
  rewrite parsePullSecret_spec. unfold the_key. case_decide as He; [by rewrite He; intros [= <-]|].
  destruct (split_slash (globalPullSecret f)) as [|ns [|n [|]]]; by intros [= <-].
Qed.

Lemma add_Ok msg r added w l w' : add msg r added w = (Ok l, w') → l = added ++ [r].
Proof. unfold add. intros ([] & w1 & _ & H)%bind_Ok. by injection H. Qed.

Lemma setupStorage_Ok f w s w' :
  setupStorage f w = (Ok s, w') →
  ∃ u, url_Parse (externalURL f +:+ "/catalogs/") = inl u ∧ s = the_storage f u.
Proof.
  unfold setupStorage. intros (x & w1 & _ & H)%bind_Ok.
  destruct (url_Parse _) as [u|e]; [|done]. injection H as <- _. eauto.
Qed.

Lemma setupUnpacker_Ok f env key w i w' :
  setupUnpacker f env key w = (Ok i, w') → key = the_key f → i = the_unpacker f env.
Proof.
  unfold setupUnpacker. intros (x & w1 & _ & H)%bind_Ok ->.
  apply bind_Ok in H as (y & w2 & _ & H). by injection H.
Qed.

Lemma addServer_Ok f s (added : list Runnable) w l w' :
  certFile f ≠ "" → keyFile f ≠ "" →
  AddCatalogServerToManager (λ s, mgr_Add (RunCatalogServer s) ;; ret (added ++ [RunCatalogServer s]))
    (mkConfig (externalURL f) (catalogServerAddr f) (certFile f) (keyFile f) (the_storage f s)) w = (Ok l, w') →
  ∃ listener, l = added ++ [RunCatalogServer (the_server f s listener)].
Proof.
  intros Hc Hk. unfold AddCatalogServerToManager. intros (listener & w1 & _ & H)%bind_Ok. exists listener.
  unfold wrap_err in H. destruct (bind _ _ w1) as [[a|e|m|] w2] eqn:E; try done. injection H as -> ->.
  apply bind_Ok in E as ([] & w3 & _ & H). injection H as <- _. cbn [CertFile KeyFile]. by rewrite decide_True.
Qed.

(** Takes one step of a successful run apart. *)
Ltac setup_step H x := apply bind_Ok in H as (x & ? & ? & H).

Lemma newCertWatcher_Ok f u w w' : newCertWatcher f w = (Ok u, w') → certFile f ≠ "" ∧ keyFile f ≠ "".
Proof.
  intros (x & w1 & _ & H%or_fatal_Ok)%bind_Ok. destruct u. by apply certwatcher_reads in H.
Qed.

Lemma setup_Ok f env w l w' :
  setup f env w = (Ok l, w') →
  certFile f ≠ "" ∧ keyFile f ≠ "" ∧
  ∃ u listener, url_Parse (externalURL f +:+ "/catalogs/") = inl u ∧ l = the_parts f env u listener.
Proof.
  unfold setup. intros H.
  setup_step H k0. setup_step H maddr. setup_step H u1. setup_step H u2.
  setup_step H l1. setup_step H ns. setup_step H unpacker. setup_step H storage. setup_step H l2.
  setup_step H l3. setup_step H l4. setup_step H l5. setup_step H l6. setup_step H u4. setup_step H l7.
  repeat match goal with
  | H : add _ _ _ _ = (Ok _, _) |- _ => apply add_Ok in H; subst
  | H : or_fatal _ _ _ = (Ok _, _) |- _ => apply or_fatal_Ok in H
  | H : parsePullSecret _ _ = (Ok _, _) |- _ => apply parsed_key in H
  | H : newCertWatcher _ _ = (Ok _, _) |- _ => apply newCertWatcher_Ok in H as [? ?]
  | H : setupStorage _ _ = (Ok _, _) |- _ => apply setupStorage_Ok in H as (u & Hu & ->)
  end.
  split; [done|]. split; [done|].
  match goal with H : AddCatalogServerToManager _ _ _ = _ |- _ =>
    apply addServer_Ok in H as [listener ->]; [|done..] end.
  match goal with H : setupUnpacker _ _ _ _ = _ |- _ => apply setupUnpacker_Ok in H; [|done] end.
  subst. exists u, listener. split; [done|]. unfold the_parts.
  destruct (the_key f); match goal with H : _ = (Ok l4, _) |- _ => first [apply add_Ok in H|injection H as <- _] end;
    subst; by rewrite <-!(assoc_L (++)).
Qed.

(** C15: Whenever [main] comes to start the manager, the parts fit together: the
    catalog server answers requests exactly as the handler of the storage the
    ClusterCatalog controller writes to, over TLS and with a shutdown timeout of
    thirty seconds; the garbage collector works on the cache of the unpacker;
    the pull secret controller runs exactly when a pull secret is given, and
    writes the file the unpacker reads its credentials from. *)
Theorem main_wires_parts f env w l w' :
  setup f env w = (Ok l, w') →
  ∃ srv storage unpacker,
    l = [RunCertWatcher; RunCatalogServer srv; RunClusterCatalogReconciler storage unpacker]
        ++ match the_key f with
           | Some key => [RunPullSecretReconciler (PullSecretReconciler.mk key (authFilePath env))]
           | None => []
           end
        ++ [RunHealthz; RunReadyz;
            RunGarbageCollector (mkGC (ContainersImageRegistry.BaseCachePath unpacker) (gcInterval f)); RunWebhook] ∧
    (∀ h r w, cs_handler srv h r w = StorageServerHandler storage h r w) ∧
    cs_tls srv = Some (mkTLS true VersionTLS12 []) ∧
    HttpServer.ShutdownTimeout (cs_server srv) = Some 30 ∧
    LocalDirV1.RootDir storage = path_Join [cacheDir f; "catalogs"] ∧
    ContainersImageRegistry.BaseCachePath unpacker = path_Join [cacheDir f; "unpack"] ∧
    ContainersImageRegistry.SourceContextFunc unpacker
      = SourceContextFunc f (authFilePath env) (the_key f).
Proof.
  intros (Hc & Hk & u & listener & Hu & ->)%setup_Ok.
  exists (the_server f u listener), (the_storage f u), (the_unpacker f env).
  split_and!; try done. intros h r w1. apply Instrument_passes.
Qed.

(** C38: Without certificates [main] always exits with status 1, although its
    flags, its protocol choice and its metrics set-up provide for serving
    without TLS: the certificate watcher is made in any case, and reads the two
    files. *)
Theorem no_tls_never_starts f env w code w' :
  catalogdVersion f = false → certFile f = "" → main f env w = (Ok code, w') → code = 1%Z.
Proof.
  intros Hv Hc. unfold main, run. rewrite Hv. intros (r & w1 & Hr & H)%bind_Ok.
  destruct r as [[]|e]; [|by injection H]. apply try_Ok in Hr.
  apply bind_Ok in Hr as (l & w2 & Hs & _). by apply setup_Ok in Hs as (Hne & _).
Qed.

(** C39: After the manager has stopped, [main] removes the auth file: it exits with
    status 0 when the file is there, and with status 1 when it is not, as on
    every regular shutdown without a pull secret. *)
Theorem exit_code_needs_auth_file f env w l w1 w2 :
  catalogdVersion f = false → setup f env w = (Ok l, w1) → mgr_Start l w1 = (Ok tt, w2) →
  no_faults w2 → walk (os_fs w2) (fpath (authFilePath env)) = None →
  parent_writable (os_fs w2) (fpath (authFilePath env)) = true →
  match os_fs w2 !! fpath (authFilePath env) with
  | Some (File _ _) =>
      main f env w = (Ok 0%Z, set_fs (delete (fpath (authFilePath env)) (os_fs w2)) w2)
  | None => main f env w = (Ok 1%Z, w2)
  | _ => True
  end.
Proof.
  intros Hv Hs Hm Hw Hwalk Hpw.
  assert (Hrun : main f env w
    = bind (try (or_fatal "failed to cleanup temporary auth file" (os_Remove (fpath (authFilePath env)))))
        (λ r, match r with inl _ => ret 0%Z | inr _ => ret 1%Z end) w2).
  { unfold main, run. rewrite Hv. unfold bind at 1 2, try at 1. rewrite Hs.
    unfold bind at 1, or_fatal at 1, bind at 1, try at 1. by rewrite Hm. }
  rewrite Hrun. unfold or_fatal, bind, try, ret.
  destruct (os_fs w2 !! fpath (authFilePath env)) as [[|md d| |]|] eqn:E; try done.
  - by rewrite (Remove_file _ md d).
  - by rewrite Remove_missing.
Qed.
End Correct.
