(* ===== verification/ManagerSystem.v ===== *)
(** The running program: what [cmd/manager/main.go] puts together, with the
    theorems about the parts applied to the parts it makes. *)
From Stdlib Require Import Ascii.
From S2P Require Import Prelude GoPath Url OsFS OsLemmas Api Storage Source PullSecret GarbageCollector.
From S2P Require Import Controller ControllerLemmas ControllerCorrect ImageSource ImageFrame System.
From S2P Require Import Http StorageServer StorageRequests Server ServerUtil Manager ManagerCorrect.

(** An external address without anything to encode: a host name, with or without
    a port. *)
Definition plain_host (host : string) : bool :=
  not_empty host && slash_free host && valid_port host &&
  forallb (λ c, negb (special_char c) && negb (shouldEscapeHost c)) (String.list_ascii_of_string host).

(** The directories of the configuration: the cache directory and the temporary
    directory are absolute paths, the random part of the auth file's name has no
    slash, and the directory of the catalogs holds neither the temporary files
    nor the files of the image libraries, nor is it among them. *)
Definition good_dirs {IL : ImageLib} {ILC : ImageLibContract} (f : Flags) (env : Env) : Prop :=
  is_rooted (cacheDir f) = true ∧
  is_rooted (env_TempDir env) = true ∧ slash_free (env_rand env) = true ∧
  apart (storageDir :: fpath (cacheDir f)) (fpath (env_TempDir env)) ∧
  ∀ q, scratch q → apart (storageDir :: fpath (cacheDir f)) q.

Lemma forallb_existsb {A : Type} (f g : A → bool) l :
  forallb (λ c, negb (f c) && negb (g c)) l = true → existsb f l = false ∧ existsb g l = false.
Proof.
  induction l as [|c l IH]; [done|]. simpl. intros [[Hf Hg]%andb_true_iff Hl]%andb_true_iff.
  apply negb_true_iff in Hf as ->, Hg as ->. by apply IH.
Qed.

Lemma cut_host_free host rest : slash_free host = true → cut_host (host +:+ String "/" rest) = (host, String "/" rest).
Proof.
  induction host as [|c host IH]; [done|]. simpl. intros [Hc%negb_true_iff Hh]%andb_true_iff.
  by rewrite Hc, IH.
Qed.

Lemma chars_app a b : String.list_ascii_of_string (a +:+ b) = String.list_ascii_of_string a ++ String.list_ascii_of_string b.
Proof. induction a as [|c a IH]; [done|]. simpl. by rewrite IH. Qed.

(** The base URL of the storage. *)
Lemma base_url_parsed {UP : UrlParser} host :
  plain_host host = true →
  url_Parse ("https://" +:+ host +:+ "/catalogs/") = inl (mkURL "https" host "/catalogs/" "").
Proof.
  unfold plain_host. intros [[[Hne Hs]%andb_true_iff Hp]%andb_true_iff [Hc He]%forallb_existsb]%andb_true_iff.
  unfold url_Parse.
  assert (existsb special_char (String.list_ascii_of_string ("https://" +:+ host +:+ "/catalogs/")) = false)
    as -> by (by rewrite !chars_app, !existsb_app, Hc).
  change (cut_scheme _) with (Some ("https", "//" +:+ host +:+ "/catalogs/")).
  change ("//" +:+ host +:+ "/catalogs/") with (String "/" (String "/" (host +:+ String "/" "catalogs/"))).
  cbv beta iota. by rewrite cut_host_free, Hp, He by done.
Qed.

Section Running.
Context {IL : ImageLib} {ILC : ImageLibContract} {CC : ContentServer} {GZ : GzipLib}.
Context {SL : ServerLib} {UP : UrlParser} {ML : ManagerLib}.
Implicit Types (f : Flags) (env : Env) (w : OS).

(** * Directories and addresses *)

Lemma SourceContextFunc_reads (R : fsT → fsT → Prop) `{!PreOrder R} f file key :
  stable (fs_rel R) (SourceContextFunc f file key).
Proof.
  unfold SourceContextFunc. apply (stable_bind (fs_rel R)).
  - apply (stable_try (fs_rel R)), stable_Stat, _.
  - intros [n|e]; [destruct key|destruct (os_IsNotExist e)]; apply stable_ret, _ || apply stable_throw, _.
Qed.

Lemma apart_siblings x y (p : path) : x ≠ y → apart (x :: p) (y :: p).
Proof.
  intros Hne. split; intros H; apply Hne; [|symmetry]; by eapply (suffix_child_inj _ _ p); [exact H|].
Qed.

Lemma storage_root f u :
  is_rooted (cacheDir f) = true → LocalDirV1.root (the_storage f u) = storageDir :: fpath (cacheDir f).
Proof.
  intros Hr. unfold LocalDirV1.root. cbn [the_storage LocalDirV1.RootDir].
  rewrite fpath_Join by (done || by repeat constructor). done.
Qed.

Lemma parts_separate f env u : good_dirs f env → separate (the_storage f u) (the_unpacker f env).
Proof.
  intros (Hr & _ & _ & Ht & Hq). split; rewrite ?storage_root by done; try done.
  - by apply is_rooted_Join.
  - cbn [the_unpacker ContainersImageRegistry.BaseCachePath].
    rewrite fpath_Join by (done || by repeat constructor).
    by apply apart_siblings.
  - apply (SourceContextFunc_reads (keeps _)).
Qed.

Lemma parts_mounted f :
  mounted_at (the_storage f (mkURL "https" (externalAddr f) "/catalogs/" "")) ["catalogs"].
Proof.
  split; [done|]. split; [|split; [|done]]; (apply Forall_cons_2; [|apply Forall_nil_2]); [|done].
  by apply (bool_decide_unpack _).
Qed.

Lemma parts_plain_base f :
  plain_host (externalAddr f) = true → plain_base (mkURL "https" (externalAddr f) "/catalogs/" "").
Proof. intros H. split_and!; try done. cbn. by destruct (externalAddr f). Qed.

(** What [main] comes to run with such a configuration. *)
Lemma setup_parts f env w l w' :
  plain_host (externalAddr f) = true → setup f env w = (Ok l, w') →
  ∃ listener, let u := mkURL "https" (externalAddr f) "/catalogs/" "" in l = the_parts f env u listener.
Proof.
  intros Hh (Hc & Hk & u & listener & Hu & ->)%setup_Ok. exists listener.
  unfold externalURL in Hu. rewrite decide_True in Hu by done.
  rewrite string_app_assoc, base_url_parsed in Hu by done. by injection Hu as <-.
Qed.

(** * The other parts leave the catalogs alone *)

Lemma keeps_collectEntries s expected cachePath es removed :
  is_rooted cachePath = true → apart (LocalDirV1.root s) (fpath cachePath) →
  (∀ e, e ∈ es → elem_ok e.1) →
  stable (fs_rel (keeps s)) (collectEntries expected cachePath es removed).
Proof.
  intros Hr Ha. revert removed. induction es as [|e es IH]; intros removed Hok; [apply stable_ret, _|]. simpl.
  assert (Hes : ∀ e', e' ∈ es → elem_ok e'.1) by (intros; apply Hok; by right).
  destruct (_ && _); [by apply IH|].
  apply (stable_bind (fs_rel (keeps s))); [|intros _; by apply IH].
  apply (stable_wrap_err (fs_rel (keeps s))). rewrite fpath_entry by (done || apply Hok; by left).
  apply keeps_RemoveAll. eapply apart_below; [exact Ha|]. by apply suffix_cons_r.
Qed.

Lemma keeps_runGarbageCollection s listCatalogs cachePath :
  stable (fs_rel (=)) listCatalogs → is_rooted cachePath = true →
  apart (LocalDirV1.root s) (fpath cachePath) →
  stable (fs_rel (keeps s)) (runGarbageCollection listCatalogs cachePath).
Proof.
  intros Hl Hr Ha w. unfold fs_rel.
  destruct (run_cases listCatalogs cachePath Hl w) as [->|(names & w1 & w2 & _ & Hfs & ->)]; [done|].
  intros Hs. rewrite <-Hfs in Hs |- *. apply keeps_collectEntries; [done..| |done].
  intros e. apply entries_ok, Hs.
Qed.

Lemma keeps_WriteFile s p d perm :
  apart (LocalDirV1.root s) p → path_ok p → stable (fs_rel (keeps s)) (os_WriteFile p d perm).
Proof.
  intros Ha Hp. apply (stable_writes_keeps s (λ q, q = p)); [by intros q ->|].
  apply stable_WriteFile; [apply _|..].
  - intros m md d0 d1 Hm. apply writes_insert; [done|]. intros Hwf. by eapply wf_replace.
  - intros m Hw Hn Hpw. apply writes_insert; [done|]. intros Hwf. by apply wf_insert_new.
Qed.

Lemma keeps_Remove s p : apart (LocalDirV1.root s) p → stable (fs_rel (keeps s)) (os_Remove p).
Proof.
  intros Ha. apply (stable_writes_keeps s (λ q, q = p)); [by intros q ->|].
  apply stable_Remove; [apply _|]. intros m n. by apply writes_delete.
Qed.

Lemma keeps_PullSecret s Get IsNotFound r req :
  (∀ k, stable (fs_rel (=)) (Get k)) → apart (LocalDirV1.root s) (PullSecretReconciler.auth_file r) →
  stable (fs_rel (keeps s)) (PullSecretReconciler.Reconcile Get IsNotFound r req).
Proof.
  intros Hget Ha. unfold PullSecretReconciler.Reconcile. case_decide; [apply stable_ret, _|].
  apply (stable_bind (fs_rel (keeps s))).
  { apply (stable_try (fs_rel (keeps s))). eapply stable_fs_mono; [|apply Hget]. by intros m ? ->. }
  intros [secret|err].
  - unfold PullSecretReconciler.writeSecretToFile.
    destruct (secret !! dockerconfigjson); [|apply stable_ret, _].
    apply (stable_wrap_err (fs_rel (keeps s))), keeps_WriteFile; [done|apply fpath_ok].
  - destruct (IsNotFound err); [|apply stable_throw, _].
    apply (stable_bind (fs_rel (keeps s))); [by apply (stable_try (fs_rel (keeps s))), keeps_Remove|].
    intros [[]|e]; [|destruct (os_IsNotExist e)]; apply stable_ret, _ || apply stable_throw, _.
Qed.

Lemma auth_file_apart f env u key :
  good_dirs f env →
  apart (LocalDirV1.root (the_storage f u))
    (PullSecretReconciler.auth_file (PullSecretReconciler.mk key (authFilePath env))).
Proof.
  intros (Hr & Ht & Hs & Ha & _). rewrite storage_root by done.
  unfold PullSecretReconciler.auth_file, authFilePath. cbn [PullSecretReconciler.AuthFilePath].
  rewrite fpath_Join; [|done|].
  - eapply apart_below; [exact Ha|]. by apply suffix_cons_r.
  - apply Forall_cons_2; [|apply Forall_nil_2]. split_and!; [done..|].
    by rewrite !slash_free_app, Hs.
Qed.
End Running.

(** * The running program *)

Section Program.
Context {A : Type} {DC : DeclCfg path} {IL : ImageLib} {ILC : ImageLibContract} {ET : ErrorText}.
Context {CS : ConditionSetter} {SE : SemanticEquality} {FU : FinalizerUtil}.
Context {FL : FinalizerLib OS path} {JT : Jitterer OS} {CL : Client A}.
Context {CC : ContentServer} {GZ : GzipLib} {SL : ServerLib} {UP : UrlParser} {ML : ManagerLib}.

(** The API as the garbage collector and the pull secret controller see it. *)
Context (listCatalogs : GoM OS (list string)) (list_reads : stable (fs_rel (=)) listCatalogs).
Context (Get : NamespacedName → GoM OS (gmap string string)) (IsNotFound : error → bool).
Context (Get_reads : ∀ k, stable (fs_rel (=)) (Get k)).

(** The file system after an action that does not concern the controller. *)
Definition set_world (w : OS) (t : Ctl OS path A) : Ctl OS path A := mkCtl (ctl_stored t) w (ctl_api t).

(** The steps of the program with the parts [l]: of the ClusterCatalog
    controller (with crashes, restarts and changes elsewhere in the file
    system), of the garbage collector, of the pull secret controller and of the
    catalog server, in any order and with any outcome. *)
Inductive program_step (l : list Runnable) : relation (Ctl OS path A) :=
  | run_catalog storage unpacker t t' :
      RunClusterCatalogReconciler storage unpacker ∈ l → catalogd_step storage unpacker t t' →
      program_step l t t'
  | run_collector gc t o w' :
      RunGarbageCollector gc ∈ l →
      runGarbageCollection listCatalogs (CachePath gc) (ctl_world t) = (o, w') →
      program_step l t (set_world w' t)
  | run_pull_secret r req t o w' :
      RunPullSecretReconciler r ∈ l →
      PullSecretReconciler.Reconcile Get IsNotFound r req (ctl_world t) = (o, w') →
      program_step l t (set_world w' t)
  | run_request srv h r t o w' :
      RunCatalogServer srv ∈ l → cs_handler srv h r (ctl_world t) = (o, w') →
      program_step l t (set_world w' t).

Lemma in_parts f env u listener x :
  x ∈ the_parts f env u listener →
  match x with
  | RunCatalogServer srv => srv = the_server f u listener
  | RunClusterCatalogReconciler s i => s = the_storage f u ∧ i = the_unpacker f env
  | RunPullSecretReconciler r =>
      ∃ key, the_key f = Some key ∧ r = PullSecretReconciler.mk key (authFilePath env)
  | RunGarbageCollector gc => CachePath gc = ContainersImageRegistry.BaseCachePath (the_unpacker f env)
  | _ => True
  end.
Proof.
  unfold the_parts. destruct (the_key f) as [key|] eqn:E; simpl; intros H;
    repeat (apply elem_of_cons in H as [->|H]; [by eauto|]); by apply elem_of_nil in H.
Qed.

(** In the program [main] makes, the steps of the other parts are changes of the
    environment for the controller. *)
Lemma program_step_catalogd f env listener t t' :
  let u := mkURL "https" (externalAddr f) "/catalogs/" "" in
  good_dirs f env → LocalDirV1.inv (the_storage f u) (ctl_world t) →
  program_step (the_parts f env u listener) t t' →
  catalogd_step (the_storage f u) (the_unpacker f env) t t'.
Proof.
  intros u Hd Hi. pose proof (parts_separate f env u Hd) as Hsep.
  assert (Henv : ∀ w', fs_rel (keeps (the_storage f u)) (ctl_world t) w' →
                       catalogd_step (the_storage f u) (the_unpacker f env) t (set_world w' t)).
  { intros w' Hw. apply step_env. by apply (keeps_quiet (the_storage f u)). }
  destruct 1 as [s i t t' Hl H|gc t o w' Hl H|r req t o w' Hl H|srv h r t o w' Hl H];
    apply in_parts in Hl.
  - by destruct Hl as [-> ->].
  - apply Henv. change w' with ((o, w').2). rewrite <-H, Hl.
    apply keeps_runGarbageCollection; [done|apply Hsep..].
  - destruct Hl as (key & _ & ->). apply Henv. change w' with ((o, w').2). rewrite <-H.
    apply keeps_PullSecret; [done|by apply auth_file_apart].
  - subst srv. apply Henv. cbn [cs_handler the_server] in H. unfold AddMetricsToHandler in H.
    rewrite Instrument_passes in H.
    pose proof (reader_handler (the_storage f u) (os_fs (ctl_world t)) h r (proj1 Hi) _ eq_refl) as Hr.
    rewrite H in Hr. unfold fs_rel. simpl in Hr. by rewrite (proj1 Hr).
Qed.

Lemma program_invariant f env listener t0 t :
  let u := mkURL "https" (externalAddr f) "/catalogs/" "" in
  good_dirs f env → LocalDirV1.inv (the_storage f u) (ctl_world t0) → ctl_stored t0 = ∅ →
  rtc (program_step (the_parts f env u listener)) t0 t →
  LocalDirV1.inv (the_storage f u) (ctl_world t) ∧
  ∀ n, elem_ok n → is_Some (ctl_stored t !! n) →
    is_Some (LocalDirV1.view (the_storage f u) (os_fs (ctl_world t)) n).
Proof.
  intros u Hd Hi He Hrun. pose proof (image_unpacker_contract _ _ (parts_separate f env u Hd)) as UC.
  assert (Hc : ∀ t, rtc (catalogd_step (the_storage f u) (the_unpacker f env)) t0 t →
                    consistent (ST := LocalDirV1.instance (the_storage f u))
                      (SC := LocalDirV1.contract (the_storage f u)) t).
  { intros t1. by apply (reachable_consistent (ST := LocalDirV1.instance (the_storage f u))
      (SC := LocalDirV1.contract (the_storage f u)) (UP := image_unpacker (the_unpacker f env))). }
  apply Hc. clear He. assert (Hsteps : rtc (catalogd_step (the_storage f u) (the_unpacker f env)) t0 t); [|done].
  revert Hc. induction Hrun as [t|t t1 t2 Hs _ IH]; intros Hc; [done|].
  assert (H1 : catalogd_step (the_storage f u) (the_unpacker f env) t t1)
    by (by eapply program_step_catalogd).
  eapply rtc_l; [exact H1|]. apply IH; [apply Hc; by apply rtc_once|].
  intros t3 H3. apply Hc. by eapply rtc_l.
Qed.

(** C3: The whole program, as [main] puts it together: after any sequence of steps
    of the catalog controller, the garbage collector, the pull secret controller
    and the catalog server, with any failures, crashes and restarts, a [GET] of
    the address of a catalog that is recorded as stored is answered with status
    200, the JSON lines content type and, once decoded, the stored content. *)
Theorem program_answers_clients f env w0 l w0' storage unpacker srv t0 t name r :
  setup f env w0 = (Ok l, w0') → plain_host (externalAddr f) = true → good_dirs f env →
  RunClusterCatalogReconciler storage unpacker ∈ l → RunCatalogServer srv ∈ l →
  LocalDirV1.inv storage (ctl_world t0) → ctl_stored t0 = ∅ → rtc (program_step l) t0 t →
  is_Some (ctl_stored t !! name) → no_faults (ctl_world t) → elem_ok name → plain name = true →
  asks_for_catalog storage name r → Method r = "GET" →
  ∃ d rs, LocalDirV1.view storage (os_fs (ctl_world t)) name = Some d ∧
    cs_handler srv ∅ r (ctl_world t) = (Ok rs, ctl_world t) ∧
    Code rs = 200%Z ∧ sHeader rs !! "Content-Type" = Some "application/jsonl" ∧ decoded rs = d.
Proof.
  intros Hsetup Hh Hd Hc Hs Hi He Hrun Hst Hw Hn Hp Ha Hget.
  destruct (setup_parts f env w0 l w0' Hh Hsetup) as (listener & ->).
  apply in_parts in Hc as [-> ->], Hs as ->.
  destruct (program_invariant f env listener t0 t Hd Hi He Hrun) as [Hi' Hv].
  destruct (Hv name Hn Hst) as [d Hd'].
  destruct (get_catalog (the_storage f (mkURL "https" (externalAddr f) "/catalogs/" "")) ["catalogs"]
              name r (ctl_world t) d) as (rs & H & Hrs); try done.
  - by apply parts_plain_base.
  - apply parts_mounted.
  - exists d, rs. split; [done|]. split; [|done]. cbn [cs_handler the_server].
    unfold AddMetricsToHandler. by rewrite Instrument_passes.
Qed.

(** * Credentials *)

Definition present (m : fsT) (p : path) : bool := bool_decide (is_Some (m !! p)).

Lemma SourceContextFunc_calm f file key w :
  no_faults w → walk (os_fs w) (fpath file) = None →
  (∀ n, os_fs w !! fpath file = Some n → ∃ md d, n = File md d) →
  SourceContextFunc f file (Some key) w =
  (Ok (mkSystemContext (caCertDir f) (caCertDir f) (if present (os_fs w) (fpath file) then file else "")), w).
Proof.
  intros Hw Hwalk Hf. unfold SourceContextFunc, bind, try, present.
  destruct (os_fs w !! fpath file) as [n|] eqn:E.
  - destruct (Hf n eq_refl) as (md & d & ->). rewrite (Stat_calm _ _ (File md d)) by done. done.
  - unfold os_Stat. rewrite sys_calm by done.
    pose proof (find_missing _ _ [] Hwalk E) as Hm. cbn [app] in Hm. rewrite Hm. done.
Qed.

(** C28: The credentials reach the registry client: after a reconciliation of the
    pull secret without failures, the unpacker's next pull uses the auth file
    when the secret holds a docker configuration, and no credentials when the
    secret does not exist; otherwise it uses the file if it was there before.
    Certificates come from the configured directory in every case. *)
Theorem pull_secret_reaches_unpacker f env w0 l w0' storage unpacker r w w1 got :
  setup f env w0 = (Ok l, w0') → RunClusterCatalogReconciler storage unpacker ∈ l →
  RunPullSecretReconciler r ∈ l →
  try (Get (PullSecretReconciler.SecretKey r)) w = (Ok got, w1) → os_fs w1 = os_fs w → no_faults w1 →
  wf_fs (os_fs w) → PullSecretReconciler.writable_place (os_fs w) (PullSecretReconciler.auth_file r) →
  let w' := (PullSecretReconciler.Reconcile Get IsNotFound r (PullSecretReconciler.SecretKey r) w).2 in
  let before := present (os_fs w) (PullSecretReconciler.auth_file r) in
  let use := match got with
             | inl secret => bool_decide (is_Some (secret !! dockerconfigjson)) || before
             | inr err => negb (IsNotFound err) && before
             end in
  ContainersImageRegistry.SourceContextFunc unpacker w' =
  (Ok (mkSystemContext (caCertDir f) (caCertDir f)
         (if use then PullSecretReconciler.AuthFilePath r else "")), w').
Proof.
  intros (_ & _ & u & listener & _ & ->)%setup_Ok Hc Hr Hget Hfs Hw1 Hwf Hpl.
  apply in_parts in Hc as [-> ->], Hr as (key & Hkey & ->).
  set (r := PullSecretReconciler.mk key (authFilePath env)) in *. intros w' before use.
  assert (Hw' : w' = (PullSecretReconciler.Reconcile Get IsNotFound r (PullSecretReconciler.SecretKey r) w).2)
    by done. clearbody w'.
  pose proof (PullSecretReconciler.Reconcile_calm Get IsNotFound r w w1 got Hget Hfs Hw1 Hwf Hpl) as H.
  destruct (PullSecretReconciler.Reconcile _ _ r _ w) as [res w2]. simpl in Hw'. subst w2.
  destruct H as (Hw & Hout & H). destruct Hpl as (Hwalk & _ & Hfile).
  cbn [the_unpacker ContainersImageRegistry.SourceContextFunc]. rewrite Hkey.
  assert (Huse : present (os_fs w') (PullSecretReconciler.auth_file r) = use ∧
                 ∀ n, os_fs w' !! PullSecretReconciler.auth_file r = Some n → ∃ md d, n = File md d).
  { assert (Hold : ∀ n, os_fs w !! PullSecretReconciler.auth_file r = Some n → ∃ md d, n = File md d).
    { intros n Hn. rewrite Hn in Hfile. destruct n; try done. eauto. }
    unfold use, before, present. destruct got as [secret|err].
    - destruct H as [_ H]. destruct (secret !! dockerconfigjson) as [json|].
      + destruct H as [md ->]. split; [done|]. intros n [= <-]. eauto.
      + by rewrite H.
    - destruct (IsNotFound err); destruct H as [_ H]; [by rewrite H|by rewrite H]. }
  destruct Huse as [<- Hf]. apply SourceContextFunc_calm; [done| |done].
  rewrite <-Hwalk. apply walk_ext. intros q x Hq. apply Hout. intros ->. by eapply suffix_strict.
Qed.
End Program.
