(* ===== verification/Service.v ===== *)
(** The service as its users see it: a map from names to contents that changes
    by publishing what was unpacked for a catalog's object or by withdrawing one, each as the catalog's
    object asks. The controller refines it at the granularity of system calls: a
    run with a fault list that ends the process at some system call stops in the
    state between two of them, so that theorems about all outcomes speak of every
    moment of a call. *)
From S2P Require Import Prelude GoPath Api Storage Source Controller ControllerLemmas ControllerCorrect.

(** * The abstract service *)

Section Abstract.
Context (content_of : ClusterCatalog → string → Prop) (object : string → ClusterCatalog → Prop).
Implicit Types (v : string → option string) (name : string).

Definition same_but v v' name : Prop := ∀ n, elem_ok n → n ≠ name → v' n = v n.

Inductive service_step v v' : Prop :=
  | stay : (∀ n, elem_ok n → v' n = v n) → service_step v v'
  | publish name c d :
      object name c → ¬ unavailable c → content_of c d → v' name = Some d → same_but v v' name →
      service_step v v'
  | withdraw name c :
      object name c → unavailable c ∨ deleting c = true → v' name = None → same_but v v' name →
      service_step v v'.
End Abstract.

(** * What one reconciliation may do to a catalog *)

Section Controller.
Context {W FSys A : Type}.
Context {ST : StorageInstance W FSys} {SC : StorageContract W FSys}.
Context {UP : Unpacker W FSys} {CK : Clock W} {UC : UnpackerContract W FSys}.
Context {CS : ConditionSetter} {SE : SemanticEquality} {ET : ErrorText}.
Context {FU : FinalizerUtil} {FL : FinalizerLib W FSys} {JT : Jitterer W} {CL : Client A}.
Implicit Types (s : RS W FSys) (t : Ctl W FSys A) (name : string).

(** The whole content of what was unpacked for the object, never a part of it. *)
Definition unpacked (c : ClusterCatalog) (d : string) : Prop :=
  ∃ w result w0, Unpack c w = (Ok result, w0) ∧ st_content w0 (FS result) d.

Section Outcomes.
Context (name : string) (Q : option string → Prop).

(** Afterwards the catalog is served as before, or as [Q] says. *)
Definition goes s s' : Prop :=
  cat_name (rs_catalog s) = name → elem_ok name → st_inv (rs_world s) →
  cat_name (rs_catalog s') = name ∧ st_inv (rs_world s') ∧
  (st_view (rs_world s') name = st_view (rs_world s) name ∨ Q (st_view (rs_world s') name)).

#[local] Instance goes_preorder : PreOrder goes.
Proof.
  split; [intros s Hn Hok Hi; by split_and!; [..|left]|]. intros s1 s2 s3 H12 H23 Hn Hok Hi.
  destruct (H12 Hn Hok Hi) as (Hn2 & Hi2 & Hv). destruct (H23 Hn2 Hok Hi2) as (Hn3 & Hi3 & Hv').
  split_and!; [done..|]. destruct Hv' as [->|]; [done|by right].
Qed.

Lemma goes_quiet {B : Type} (m : GoM W B) :
  (elem_ok name → ∀ w, st_inv w → quiet w (m w).2) → stable goes (lift (FSys := FSys) m).
Proof.
  intros H s Hn Hok Hi. specialize (H Hok (rs_world s) Hi). unfold lift.
  destruct (m (rs_world s)) as [r w]. destruct H as [H1 H2].
  split; [done|]. split; [by apply H1|]. left. by apply H2.
Qed.

(** Running one function after the other, from a given state. *)
Lemma goes_bind {B C : Type} (m : GoM (RS W FSys) B) (f : B → GoM (RS W FSys) C) s :
  goes s (m s).2 → (∀ x s1, m s = (Ok x, s1) → goes s1 (f x s1).2) → goes s (bind m f s).2.
Proof.
  intros H1 H2. unfold bind. destruct (m s) as [[x|e|msg|] s1]; try done.
  etrans; [exact H1|]. by apply H2.
Qed.

Lemma goes_Store fsys s :
  (∀ d, st_content (rs_world s) fsys d → Q (Some d)) →
  goes s (lift (FSys := FSys) (st_Store (W := W) name fsys) s).2.
Proof.
  intros HQ Hn Hok Hi. unfold lift. destruct (st_Store name fsys (rs_world s)) as [r w] eqn:E.
  destruct (st_Store_spec _ _ _ _ _ Hi Hok E) as (Hi' & _ & Hr). split; [done|]. split; [done|]. cbn.
  assert (Hnew : (∃ d, st_content (rs_world s) fsys d ∧ st_view w name = Some d) → Q (st_view w name)).
  { intros (d & Hd & ->). by apply HQ. }
  destruct r as [u|e|msg|]; [right; by apply Hnew|by left..|]. destruct Hr; auto.
Qed.

Lemma goes_Delete : Q None → stable goes (lift (FSys := FSys) (st_Delete (W := W) name)).
Proof.
  intros HQ s Hn Hok Hi. unfold lift. destruct (st_Delete name (rs_world s)) as [r w] eqn:E.
  destruct (st_Delete_spec _ _ _ _ Hi Hok E) as (Hi' & _ & Hr). split; [done|]. split; [done|]. cbn.
  destruct r as [u|e|msg|]; [right; by rewrite Hr|destruct Hr as [->|]; auto|done|destruct Hr as [->|]; auto].
Qed.

Lemma goes_pure (m : GoM (RS W FSys) unit) :
  (∀ s, cat_name (rs_catalog (m s).2) = cat_name (rs_catalog s) ∧ rs_world (m s).2 = rs_world s) →
  stable goes m.
Proof.
  intros H s Hn Hok Hi. destruct (H s) as [H1 H2]. rewrite H1, H2. split; [done|]. split; [done|by left].
Qed.

Lemma goes_catalog {B : Type} (f : ClusterCatalog → GoM (RS W FSys) B) :
  (∀ c, cat_name c = name → stable goes (f c)) → stable goes (bind (gets rs_catalog) f).
Proof. intros H s Hn. exact (H (rs_catalog s) Hn s Hn). Qed.

Lemma goes_now : stable goes (lift (FSys := FSys) (Now (W := W))).
Proof. apply goes_quiet. intros _ w _. apply stable_Now. Qed.

Lemma goes_exists : stable goes (lift (FSys := FSys) (st_ContentExists (W := W) name)).
Proof. apply goes_quiet. intros Hok w Hi. by apply (stable_ContentExists name). Qed.

Lemma goes_Unpack c : cat_name c = name → stable goes (lift (FSys := FSys) (Unpack (W := W) c)).
Proof. intros Hc. apply goes_quiet. intros Hok w. apply up_quiet. by rewrite Hc. Qed.

Lemma goes_Cleanup c : cat_name c = name → stable goes (lift (FSys := FSys) (Cleanup (W := W) c)).
Proof. intros Hc. apply goes_quiet. intros Hok w. apply up_cleanup_quiet. by rewrite Hc. Qed.

Lemma goes_status f : stable goes (update_status f).
Proof. apply stable_bind; [apply _|apply goes_now|]. intros now. apply goes_pure. intros s. done. Qed.

Lemma goes_fail {B : Type} gen e : stable goes (fail_progressing (A := B) gen e).
Proof. apply stable_bind; [apply _|apply goes_status|]. intros _. apply stable_throw, _. Qed.

Ltac goes_step :=
  match goal with
  | |- stable _ (bind (gets rs_catalog) _) => apply goes_catalog; intros ? ?
  | |- stable _ (bind _ _) => apply stable_bind; [apply _| |intros ?]
  | |- stable _ (try _) => apply stable_try
  | |- stable _ (ret _) => apply stable_ret, _
  | |- stable _ (throw _) => apply stable_throw, _
  | |- stable _ (panic _) => apply stable_panic, _
  | |- stable _ (gets _) => apply stable_gets, _
  | |- stable _ (modify _) => by apply goes_pure
  | |- stable _ (update_catalog _) => by apply goes_pure
  | |- stable _ (deleteStoredCatalog _) => by apply goes_pure
  | |- stable _ (fail_progressing _ _) => apply goes_fail
  | |- stable _ (update_status _) => apply goes_status
  | |- stable _ (lift Now) => apply goes_now
  | |- stable _ (lift (Unpack _)) => by apply goes_Unpack
  | |- stable _ (lift (Cleanup _)) => by apply goes_Cleanup
  | H : cat_name _ = _ |- stable _ (lift (st_ContentExists _)) => rewrite H; apply goes_exists
  | H : cat_name _ = _ |- stable _ (lift (st_Delete _)) => rewrite H; by apply goes_Delete
  | |- stable _ (match ?x with _ => _ end) => destruct x
  end.

Lemma goes_nextPoll last c : stable goes (nextPollResult last c).
Proof. unfold nextPollResult. repeat goes_step. Qed.

Lemma goes_unpackAndStore s :
  cat_name (rs_catalog s) = name → (∀ d, unpacked (rs_catalog s) d → Q (Some d)) →
  goes s (unpackAndStore s).2.
Proof.
  intros Hc HQ. unfold unpackAndStore. apply goes_bind; [done|]. intros c s0 [= <- <-].
  apply goes_bind; [by apply stable_try, goes_Unpack|]. intros [result|e] s1 Hu; [|apply goes_fail].
  apply try_Ok, lift_inv in Hu as (Hu & Hc1 & _). destruct (decide _); [|done].
  apply goes_bind.
  - rewrite try_state, Hc. apply goes_Store. intros d Hd. apply HQ. by exists (rs_world s), result, (rs_world s1).
  - intros [u|e'] s2 _; [|apply goes_fail].
    match goal with |- goes s2 (?m s2).2 => cut (stable goes m); [intros H; apply H|] end.
    repeat (goes_step || apply goes_nextPoll).
Qed.

Lemma goes_decide_and_run s :
  cat_name (rs_catalog s) = name → (∀ d, unpacked (rs_catalog s) d → Q (Some d)) →
  goes s (decide_and_run (rs_catalog s) s).2.
Proof.
  intros Hc HQ. unfold decide_and_run. apply goes_bind.
  { unfold getCurrentState. match goal with |- goes _ (?m _).2 => cut (stable goes m); [intros H; apply H|] end.
    repeat goes_step. }
  intros cur s1 H1. apply getCurrentState_Ok in H1 as ((Hc1 & _) & _). apply goes_bind.
  { unfold needsUnpack, needsPoll. match goal with |- goes _ (?m _).2 => cut (stable goes m); [intros H; apply H|] end.
    repeat goes_step. }
  intros b s2 H2. apply needsUnpack_Ok in H2 as ((Hc2 & _) & _).
  assert (Hu : goes s2 (unpackAndStore s2).2) by (apply goes_unpackAndStore; by rewrite Hc2, Hc1).
  destruct b; [done|]. destruct cur.2; [|done]. apply goes_nextPoll.
Qed.

Lemma goes_deleteCatalogCache : Q None → stable goes deleteCatalogCache.
Proof. intros HQ. unfold deleteCatalogCache. repeat goes_step. Qed.

Lemma goes_makeUnavailable : Q None → stable goes makeUnavailable.
Proof. intros HQ. unfold makeUnavailable. repeat (goes_step || by apply goes_deleteCatalogCache). Qed.
End Outcomes.

(** Whether the object asks for the catalog to be withdrawn in this call. *)
Definition withdrawn (c : ClusterCatalog) : Prop := unavailable c ∨ (deleting c && has_fin c) = true.

#[global] Instance withdrawn_dec c : Decision (withdrawn c).
Proof. unfold withdrawn, unavailable. apply _. Defined.

Lemma reconcile_goes s :
  let c := rs_catalog s in
  goes (cat_name c) (λ v, if decide (withdrawn c) then v = None else ∃ d, unpacked c d ∧ v = Some d)
    s (reconcile s).2.
Proof.
  intros c. set (Q := λ v, _).
  destruct (decide (unavailable c)) as [Hu|Hu].
  { rewrite reconcile_unavailable by done. apply goes_makeUnavailable. unfold Q.
    rewrite decide_True; [done|by left]. }
  rewrite reconcile_available by done. cbv zeta. fold c.
  assert (Hrun : (deleting c && has_fin c) = false → goes (cat_name c) Q s (decide_and_run c s).2).
  { intros Hf. apply goes_decide_and_run; [done|]. intros d Hd. unfold Q.
    rewrite decide_False; [by exists d|]. intros [|]; congruence. }
  destruct (deleting c) eqn:Ed, (has_fin c) eqn:Eh; [|by apply Hrun..|].
  - assert (HQ : Q None) by (unfold Q, withdrawn; rewrite decide_True; [done|right; by rewrite Ed, Eh]).
    pose proof (goes_deleteCatalogCache (cat_name c) Q HQ s) as H.
    by destruct (deleteCatalogCache s) as [[] s1].
  - intros Hn Hok Hi. split_and!; [done..|]. by left.
Qed.

(** Every moment of a call: the other catalogs are served as before; the one the
    call is for as before, or not at all if its object asks for that, or else
    with the whole content that was unpacked for it. *)
Lemma Reconcile_goes name t n :
  st_inv (ctl_world t) → elem_ok n →
  let t' := (Reconcile name t).2 in
  st_inv (ctl_world t') ∧
  (st_view (ctl_world t') n = st_view (ctl_world t) n ∨
   n = name ∧ ∃ c a, ac_Get name (ctl_api t) = (Ok c, a) ∧
     if decide (withdrawn c) then st_view (ctl_world t') n = None
     else ∃ d, unpacked c d ∧ st_view (ctl_world t') n = Some d).
Proof.
  intros Hi Hn t'. pose proof (Reconcile_inv name t Hi) as Hi'. fold t' in Hi'. split; [done|].
  destruct (ac_Get name (ctl_api t)) as [[c|e|msg|] a1] eqn:Hg.
  2-4: left; destruct (Reconcile_no_object name t) as [_ Hw]; [congruence|]; fold t' in Hw; by rewrite Hw.
  destruct (ac_Get_name _ _ _ _ Hg) as [Hname Hok].
  set (s := mkRS c (ctl_stored t) (ctl_world t)).
  pose proof (Reconcile_state name t c a1 Hi Hg) as Hst. fold s t' in Hst.
  pose proof (frame_reconcile name s Hname Hok Hi) as (_ & _ & _ & Hv).
  pose proof (reconcile_goes s) as Hgo. cbn [s rs_catalog] in Hgo. rewrite Hname in Hgo.
  destruct (Hgo Hname Hok Hi) as (_ & _ & Hd). fold s in Hd.
  destruct (reconcile s) as [r rs]. destruct Hst as (Hw & _ & _). simpl in Hv, Hd. rewrite Hw.
  destruct (decide (n = name)) as [->|Hne]; [|left; by apply Hv].
  destruct Hd as [Hd|Hd]; [by left|right; eauto].
Qed.

(** What the client reads. *)
Definition reads_object t name (c : ClusterCatalog) : Prop := ∃ a, ac_Get name (ctl_api t) = (Ok c, a).

Lemma Reconcile_service name t :
  st_inv (ctl_world t) →
  service_step unpacked (reads_object t) (st_view (ctl_world t)) (st_view (ctl_world (Reconcile name t).2)).
Proof.
  intros Hi. set (t' := (Reconcile name t).2).
  assert (Hoth : same_but (st_view (ctl_world t)) (st_view (ctl_world t')) name).
  { intros n Hn Hne. destruct (Reconcile_goes name t n Hi Hn) as [_ [H|[-> _]]]; done. }
  destruct (decide (elem_ok name)) as [Hok|Hok].
  2:{ apply stay. intros n Hn. apply Hoth; [done|congruence]. }
  destruct (Reconcile_goes name t name Hi Hok) as [_ [H|(_ & c & a & Hg & H)]]; fold t' in H.
  { apply stay. intros n Hn. destruct (decide (n = name)) as [->|]; [done|by apply Hoth]. }
  case_decide as Hw.
  - eapply (withdraw _ _ _ _ name c); [by exists a| |done|done].
    destruct Hw as [|[? _]%andb_true_iff]; auto.
  - destruct H as (d & Hd & Hv). eapply (publish _ _ _ _ name c d); try done; [by exists a|].
    intros Hu. apply Hw. by left.
Qed.

(** A step of the controller, with crashes, restarts and its environment. *)
Lemma step_service t t' :
  st_inv (ctl_world t) → step t t' →
  st_inv (ctl_world t') ∧
  service_step unpacked (reads_object t) (st_view (ctl_world t)) (st_view (ctl_world t')).
Proof.
  intros Hi Hs. destruct Hs as [name t r t' H Hr|name t t' H|t|t w' a' [Hi' Hv]].
  - pose proof (Reconcile_inv name t Hi) as Hi'. pose proof (Reconcile_service name t Hi) as Hst.
    by rewrite H in Hi', Hst.
  - pose proof (Reconcile_inv name t Hi) as Hi'. pose proof (Reconcile_service name t Hi) as Hst.
    by rewrite H in Hi', Hst.
  - split; [done|]. by apply stay.
  - split; [by apply Hi'|]. by apply stay.
Qed.
End Controller.
