(* ===== verification/Availability.v ===== *)
(** What clients of the running program see: the program refines the abstract
    service of [Service.v] step by step, and a catalog that is being served is
    served at every moment of the calls that update it. *)
From S2P Require Import Prelude GoPath Url OsFS OsLemmas Api Storage Source.
From S2P Require Import Controller ControllerLemmas ControllerCorrect Service.
From S2P Require Import ImageSource ImageFrame System GarbageCollector PullSecret.
From S2P Require Import Http StorageServer StorageRequests Server ServerUtil Manager ManagerCorrect ManagerSystem.

Section Program.
Context {A : Type} {DC : DeclCfg path} {IL : ImageLib} {ILC : ImageLibContract} {ET : ErrorText}.
Context {CS : ConditionSetter} {SE : SemanticEquality} {FU : FinalizerUtil}.
Context {FL : FinalizerLib OS path} {JT : Jitterer OS} {CL : Client A}.
Context {CC : ContentServer} {GZ : GzipLib} {SL : ServerLib} {UP : UrlParser} {ML : ManagerLib}.

(** The metas of the file-based catalog that was unpacked for the object,
    concatenated. *)
Definition unpacked_catalog (s : LocalDirV1.t) (i : ContainersImageRegistry.t)
    (c : ClusterCatalog) (d : string) : Prop :=
  ∃ w result w0, ContainersImageRegistry.Unpack i c w = (Ok result, w0) ∧
    LocalDirV1.content s w0 (Source.FS result) d.

(** A process on the same file system whose own system calls succeed. *)
Definition bystander (w : OS) : OS := set_faults [] w.

(** A [GET] of a catalog the storage has. *)
Lemma server_answers f listener w n r d :
  let u := mkURL "https" (externalAddr f) "/catalogs/" "" in
  plain_host (externalAddr f) = true → LocalDirV1.inv (the_storage f u) w → elem_ok n → plain n = true →
  LocalDirV1.view (the_storage f u) (os_fs w) n = Some d →
  asks_for_catalog (the_storage f u) n r → Method r = "GET" →
  ∃ rs, cs_handler (the_server f u listener) ∅ r (bystander w) = (Ok rs, bystander w) ∧
    Code rs = 200%Z ∧ decoded rs = d.
Proof.
  intros u Hh Hi Hn Hp Hv Ha Hget.
  destruct (get_catalog (the_storage f u) ["catalogs"] n r (bystander w) d) as (rs & H & Hcode & _ & Hdec);
    try done.
  - by apply parts_plain_base.
  - apply parts_mounted.
  - exists rs. split; [|done]. cbn [cs_handler the_server].
    unfold AddMetricsToHandler. by rewrite Instrument_passes.
Qed.

(** C5: Updates without a gap. At every moment of a call of [Reconcile], whatever
    happens in it, each catalog that was being served is being served: a [GET]
    of its address is answered with status 200, with the same content if the
    call is for another catalog, and with the same content or the whole content unpacked for the object if
    the call is for this one and its object does not ask to withdraw it. *)
Theorem no_downtime f env w0 l w0' storage unpacker srv (t : Ctl OS path A) name n r d :
  setup f env w0 = (Ok l, w0') → plain_host (externalAddr f) = true → good_dirs f env →
  RunClusterCatalogReconciler storage unpacker ∈ l → RunCatalogServer srv ∈ l →
  LocalDirV1.inv storage (ctl_world t) → elem_ok n → plain n = true →
  (n = name → ∀ c, reads_object t name c → ¬ withdrawn c) →
  LocalDirV1.view storage (os_fs (ctl_world t)) n = Some d →
  asks_for_catalog storage n r → Method r = "GET" →
  let t' := (Reconcile (ST := LocalDirV1.instance storage) (UP := image_unpacker unpacker) name t).2 in
  let w' := bystander (ctl_world t') in
  ∃ rs, cs_handler srv ∅ r w' = (Ok rs, w') ∧ Code rs = 200%Z ∧
    (decoded rs = d ∨
     n = name ∧ ∃ c, reads_object t name c ∧ unpacked_catalog storage unpacker c (decoded rs)).
Proof.
  intros Hsetup Hh Hd Hc Hs Hi Hn Hp Hl Hv Ha Hget.
  destruct (setup_parts f env w0 l w0' Hh Hsetup) as (listener & ->).
  apply in_parts in Hc as [-> ->], Hs as ->. set (u := mkURL _ _ _ _) in *.
  set (st := the_storage f u) in *. pose proof (parts_separate f env u Hd) as Hsep.
  pose proof (image_unpacker_contract st (the_unpacker f env) Hsep) as UC. intros t' w'.
  destruct (Reconcile_goes (ST := LocalDirV1.instance st) (SC := LocalDirV1.contract st)
              (UP := image_unpacker (the_unpacker f env)) name t n Hi Hn) as (Hi' & Hr).
  fold t' in Hi', Hr. simpl in Hi', Hr.
  assert (Hw : ∃ d', LocalDirV1.view st (os_fs (ctl_world t')) n = Some d' ∧
                     (d' = d ∨ n = name ∧ ∃ c, reads_object t name c ∧ unpacked_catalog st (the_unpacker f env) c d')).
  { destruct Hr as [->|(-> & c & a & Hg & Hr)]; [eauto|].
    rewrite decide_False in Hr by (apply Hl; [done|by exists a]). destruct Hr as (d' & Hd' & Hr).
    exists d'. split; [done|]. right. split; [done|]. exists c. split; [by exists a|done]. }
  destruct Hw as (d' & Hv' & Hd').
  destruct (server_answers f listener (ctl_world t') n r d') as (rs & H & Hcode & Hdec); try done.
  exists rs. by rewrite Hdec.
Qed.

Context (listCatalogs : GoM OS (list string)) (listCatalogs_reads : stable (fs_rel (=)) listCatalogs).
Context (Get : NamespacedName → GoM OS (gmap string string)) (IsNotFound : error → bool).
Context (Get_reads : ∀ k, stable (fs_rel (=)) (Get k)).

(** C2: The whole program implements the abstract service. In every state it can
    reach, each of its steps (of any part, with any outcome, also a crash) either
    leaves what is served as it was, or publishes the whole content that was unpacked
    for the object of one catalog, which is not set to unavailable, or withdraws one catalog
    whose object is set to unavailable or being deleted; no other catalog is
    affected. *)
Theorem program_refines_service f env w0 l w0' storage unpacker (t0 t t' : Ctl OS path A) :
  setup f env w0 = (Ok l, w0') → plain_host (externalAddr f) = true → good_dirs f env →
  RunClusterCatalogReconciler storage unpacker ∈ l →
  LocalDirV1.inv storage (ctl_world t0) → ctl_stored t0 = ∅ →
  rtc (program_step listCatalogs Get IsNotFound l) t0 t → program_step listCatalogs Get IsNotFound l t t' →
  service_step (unpacked_catalog storage unpacker) (reads_object t)
    (LocalDirV1.view storage (os_fs (ctl_world t))) (LocalDirV1.view storage (os_fs (ctl_world t'))).
Proof.
  intros Hsetup Hh Hd Hc Hi He Hr Hs.
  destruct (setup_parts f env w0 l w0' Hh Hsetup) as (listener & ->).
  apply in_parts in Hc as [-> ->]. set (u := mkURL _ _ _ _) in *. set (st := the_storage f u) in *.
  pose proof (parts_separate f env u Hd) as Hsep.
  pose proof (image_unpacker_contract st (the_unpacker f env) Hsep) as UC.
  destruct (program_invariant listCatalogs listCatalogs_reads Get IsNotFound Get_reads
              f env listener t0 t Hd Hi He Hr) as [Hit _].
  apply (program_step_catalogd listCatalogs listCatalogs_reads Get IsNotFound Get_reads) in Hs; [|done..].
  by apply (step_service (ST := LocalDirV1.instance st) (SC := LocalDirV1.contract st)
              (UP := image_unpacker (the_unpacker f env))) in Hs as [_ Hs].
Qed.
End Program.
