(* ===== verification/Addresses.v ===== *)
(** The addresses of the catalogs: what [main] makes of the external address,
    what the controller writes into the status of a catalog, and what the schema
    of the API admits there. *)
From Stdlib Require Import Ascii.
From S2P Require Import Prelude GoPath Url OsFS Api Storage Source ImageSource ImageFrame.
From S2P Require Import Http StorageServer Server ServerUtil Manager ManagerCorrect ManagerSystem Crd.

Lemma escape_none should s :
  existsb should (String.list_ascii_of_string s) = false → url_escape should s = s.
Proof.
  induction s as [|c s IH]; [done|]. cbn. intros [Hc Hs]%orb_false_iff. rewrite Hc. by rewrite IH.
Qed.

Lemma escape_host host : plain_host host = true → url_escape shouldEscapeHost host = host.
Proof.
  unfold plain_host. intros [_ [_ He]%forallb_existsb]%andb_true_iff. by apply escape_none.
Qed.

Section Addresses.
Context {IL : ImageLib} {ILC : ImageLibContract} {CC : ContentServer} {GZ : GzipLib}.
Context {SL : ServerLib} {UP : UrlParser} {ML : ManagerLib}.

(** The address of a catalog. *)
Definition address (host name : string) : string := "https://" +:+ host +:+ "/catalogs/" +:+ name.

Lemma address_length host name :
  String.length (address host name) = 18 + (String.length host + String.length name).
Proof. unfold address. rewrite !string_length_app. simpl. lia. Qed.

Lemma the_storage_BaseURL f name :
  plain_host (externalAddr f) = true → elem_ok name → plain name = true →
  LocalDirV1.BaseURL (the_storage f (mkURL "https" (externalAddr f) "/catalogs/" "")) name
  = address (externalAddr f) name.
Proof.
  intros Hh Hn Hp. unfold LocalDirV1.BaseURL. cbn [the_storage LocalDirV1.RootURL].
  rewrite JoinPath_String by (done || by apply parts_plain_base). cbn [uScheme uHost].
  by rewrite escape_host.
Qed.

(** C31: The address the controller writes into the status of a catalog is
    [https://<host>/catalogs/<name>], and the API server admits it exactly when
    host and name together have at most 507 characters: always when both are DNS
    names, which have at most 253, but not for every host with a port. *)
Theorem base_url_admitted f env w l w' storage unpacker name isURL getScheme :
  setup f env w = (Ok l, w') → plain_host (externalAddr f) = true →
  RunClusterCatalogReconciler storage unpacker ∈ l → elem_ok name → plain name = true →
  let url := address (externalAddr f) name in
  isURL url = true → getScheme url = "https" →
  LocalDirV1.BaseURL storage name = url ∧
  (check (ClusterCatalogURLs_Base_rules isURL getScheme) (LocalDirV1.BaseURL storage name) = [] ↔
   String.length (externalAddr f) + String.length name ≤ 507).
Proof.
  intros Hsetup Hh Hl Hn Hp url Hu Hs.
  destruct (setup_parts f env w l w' Hh Hsetup) as (listener & ->). apply in_parts in Hl as [-> _].
  rewrite the_storage_BaseURL by done. fold url. split; [done|].
  assert (Hlen := address_length (externalAddr f) name). fold url in Hlen.
  unfold check, ClusterCatalogURLs_Base_rules, max_length. cbn [List.filter holds].
  rewrite Hu, Hs. cbn [negb bool_decide andb orb]. rewrite Hlen.
  destruct (Nat.leb_spec (18 + (String.length (externalAddr f) + String.length name)) 525); cbn [negb];
    (split; [intros H'|intros H']); try done; lia.
Qed.
End Addresses.
