(* ===== verification/EndToEnd.v ===== *)
(** From the object to the client: the running program takes a catalog whose
    image can be pulled to the point where clients get its content at the address
    in its status. The storage, the unpacker, the controller, the API server and
    the catalog server play together here. *)
From S2P Require Import Prelude GoPath Url OsFS OsLemmas Api Storage Source.
From S2P Require Import Controller ControllerLemmas ControllerCorrect Converge Service.
From S2P Require Import ImageSource ImageTrees ImageFrame ImageOutcome Pull System GarbageCollector PullSecret.
From S2P Require Import Http StorageServer StorageRequests Server ServerUtil Manager ManagerCorrect ManagerSystem.
From S2P Require Import Availability Addresses.

Section Parts.
Context {DC : DeclCfg path} {IL : ImageLib} {ILC : ImageLibContract} {ET : ErrorText}.
Context (s : LocalDirV1.t) (i : ContainersImageRegistry.t) (Hsep : separate s i).
#[local] Instance st_here : StorageInstance OS path := LocalDirV1.instance s.
#[local] Instance sc_here : StorageContract OS path := LocalDirV1.contract s.
#[local] Instance up_here : Unpacker OS path := image_unpacker i.
Context (Hoc : own_cache i).
Abbreviation cache := (fpath (ContainersImageRegistry.BaseCachePath i)).
Abbreviation tmp := (fpath (ContainersImageRegistry.TempDir i)).

(** Looking at a storage whose system calls succeed changes nothing but the
    clock. *)
Lemma reads_calm name w w1 :
  LocalDirV1.inv s w → elem_ok name → no_faults w → reads name w w1 →
  no_faults w1 ∧ os_fs w1 = os_fs w ∧ os_rand w1 = os_rand w.
Proof.
  intros Hi Hn Hw H. induction H as [w|w t w1 w2 Ht _ IH|w b w1 w2 Hb _ IH]; [done|..].
  - assert (Hnow : no_faults w1 ∧ os_fs w1 = os_fs w ∧ os_rand w1 = os_rand w).
    { simpl in Ht. unfold time_Now in Ht. destruct (os_ticks w); injection Ht as _ <-; done. }
    destruct Hnow as (Hw1 & Hfs & Hk). destruct IH as (Hw2 & Hfs2 & Hk2); [|done|].
    { destruct Hi as [Hr Hs]. split; [done|]. by rewrite Hfs. }
    split_and!; [done|congruence..].
  - simpl in Hb. rewrite LocalDirV1.ContentExists_calm in Hb by done. injection Hb as _ <-. by apply IH.
Qed.

Lemma Cleanup_calm c w :
  no_faults w → wf_fs (os_fs w) → usable_cache i (os_fs w) → elem_ok (cat_name c) →
  ∃ w', ContainersImageRegistry.Cleanup i c w = (Ok tt, w').
Proof.
  intros Hw Hwf (md & Hwalk & Hd & Hrwx) Hn. unfold ContainersImageRegistry.Cleanup.
  rewrite (fpath_catalog s i Hsep) by done.
  assert (Hwn : walk (os_fs w) (cat_name c :: cache) = None).
  { apply walk_cons. split; [done|]. exists md. split; [done|]. apply Hrwx. }
  destruct (os_fs w !! (cat_name c :: cache)) as [n|] eqn:E.
  - eexists. unfold wrap_err. erewrite deleteRecursive_calm; try done.
    unfold parent_writable. rewrite Hd. apply Hrwx.
  - exists w. unfold wrap_err. rewrite deleteRecursive_missing; [done|done|].
    exact (find_missing _ _ [] Hwn E).
Qed.

(** The directory [fsys] holds a file-based catalog, and there is a place for it
    in the storage. *)
Definition storable (name : string) (fsys : path) (w : OS) : Prop :=
  no_faults w ∧ LocalDirV1.free_way s (os_fs w) name ∧
  ∃ x rest d, os_rand w = x :: rest ∧
    os_fs w !! temp_path (LocalDirV1.root s) name x = None ∧
    blobs (walk_events fsys (LocalDirV1.walk_state s name x rest w)) = Some d.

(** ** The world a catalog needs *)

(** There is an image in the registry, with a catalog in it, and room for it in
    the temporary directory, in the cache and in the storage. In the cache there
    is nothing at its place yet, or the image itself. *)
Record provided (name : string) (image : ImageSource) (ctx : SystemContext) (m : fsT) (rand : list N)
    (named : Named) (canon : Canonical) (T : fsT) (x y : N) (rest : list N) : Prop := {
  pv_rand : rand = x :: y :: rest;
  pv_layout q : scratch q → apart (temp_path tmp ("oci-layout-" +:+ name) x) q;
  pv_temp : temp_room i name x m;
  pv_cache : roomy i name m;
  pv_image : has_image i (nearby i name x m) ctx (temp_path tmp ("oci-layout-" +:+ name) x) (Digest canon :: name :: cache)
               (Ref image) named canon T;
  pv_place : m !! (Digest canon :: name :: cache) = None ∨
             tree_at m (Digest canon :: name :: cache) (read_only <$> T);
  pv_way : LocalDirV1.free_way s m name;
  pv_new z : z = x ∨ z = y → m !! temp_path (LocalDirV1.root s) name z = None;
  pv_catalog w : no_faults w → stands (os_fs w) (Digest canon :: name :: cache) (read_only <$> T) →
                 is_Some (blobs (walk_events (Digest canon :: name :: cache) w))
}.

Lemma Store_storable name fsys w :
  LocalDirV1.inv s w → elem_ok name → storable name fsys w →
  ∃ w', LocalDirV1.Store s name fsys w = (Ok tt, w').
Proof.
  intros Hi Hn (Hw & Hf & x & rest & d & Hr & Ht & Hb). eexists. by eapply LocalDirV1.Store_calm.
Qed.

Lemma usable_prune m n : usable_cache i m → usable_cache i (prune (LocalDirV1.cat_dir s n) m).
Proof.
  assert (Hout : ∀ q, q `suffix_of` cache → prune (LocalDirV1.cat_dir s n) m !! q = m !! q).
  { intros q Hq. apply prune_out. intros Hs. apply (proj1 (sep_cache _ _ Hsep)).
    etrans; [|exact Hq]. etrans; [|exact Hs]. by apply suffix_cons_r. }
  intros (md & Hwalk & Hd & Hrwx). exists md. split_and!; [|by rewrite Hout|done].
  rewrite <-Hwalk. apply walk_ext. intros q x Hq. apply Hout. etrans; [|exact Hq]. by apply suffix_cons_r.
Qed.

(** ** Pulling and storing in such a world *)

Section Provided.
Context (name : string) (image : ImageSource) (ctx : SystemContext) (m : fsT) (rand : list N).
Context (named : Named) (canon : Canonical) (T : fsT) (x y : N) (rest : list N).
Context (Hn : elem_ok name) (Hpv : provided name image ctx m rand named canon T x y rest).
Abbreviation p := (Digest canon :: name :: cache).

Lemma root_unpulled q : LocalDirV1.root s `suffix_of` q → ¬ pulled i name x q.
Proof.
  assert (Hcmp : ∀ a b, apart (LocalDirV1.root s) a → a `suffix_of` b → LocalDirV1.root s `suffix_of` b → False).
  { intros a b [H1 H2] Ha Hr. destruct (suffix_weak_total _ _ _ Ha Hr); auto. }
  intros Hr [[H|H]|H].
  - by destruct (sep_scratch _ _ Hsep q H).
  - apply (Hcmp cache q); [apply Hsep|etrans; [|exact H]; by apply suffix_cons_r|done].
  - apply (Hcmp tmp q); [apply Hsep|etrans; [|exact H]; by apply suffix_cons_r|done].
Qed.

(** The storage starts to write beside the image. *)
Lemma image_in_walk z l w :
  stands (os_fs w) p (read_only <$> T) →
  stands (os_fs (LocalDirV1.walk_state s name z l w)) p (read_only <$> T).
Proof.
  intros Hst. eapply stands_same; [|exact Hst]. intros q Hq. cbn [os_fs set_fs set_rand LocalDirV1.walk_state].
  destruct (sep_cache _ _ Hsep) as [H1 H2].
  assert (Hnr : ¬ LocalDirV1.root s `suffix_of` q).
  { intros Hr. assert (∃ q', cache `suffix_of` q' ∧ LocalDirV1.root s `suffix_of` q') as (q' & Hc & Hr').
    { assert (cache `suffix_of` p) by by do 2 apply suffix_cons_r.
      destruct Hq as [Hq|Hq]; [exists p|exists q]; split; try done; by etrans. }
    destruct (suffix_weak_total _ _ _ Hc Hr'); auto. }
  rewrite lookup_insert_ne by (intros <-; apply Hnr; by apply suffix_cons_r).
  destruct (decide (q `suffix_of` LocalDirV1.fbc_dir s name)) as [Hf|Hf]; [|by apply mkdirs_ne].
  assert (Hqr : q `suffix_of` LocalDirV1.root s).
  { assert (Hr : LocalDirV1.root s `suffix_of` LocalDirV1.fbc_dir s name) by (by eexists [_; _; _]).
    by destruct (suffix_weak_total _ _ _ Hf Hr). }
  destruct Hq as [Hq|Hq].
  2:{ destruct H2. etrans; [|exact Hqr]. etrans; [|exact Hq]. by do 2 apply suffix_cons_r. }
  destruct (suffix_child q p) as [e He]; [done| |].
  { intros ->. apply H2. etrans; [|exact Hqr]. by do 2 apply suffix_cons_r. }
  destruct (walk_dirs (os_fs w) p q e) as (md & Hmd & _); [apply Hst|done|].
  rewrite mkdirs_lookup; [by rewrite Hmd|done|].
  destruct (suffix_child [] p) as [e' He']; [apply suffix_nil|done|].
  destruct (walk_dirs (os_fs w) p [] e') as (md' & Hmd' & _); [apply Hst|done|eauto].
Qed.

Lemma provided_storable c w :
  cat_name c = name → SourceType (Source (Spec c)) = SourceTypeImage → Image (Source (Spec c)) = Some image →
  ContainersImageRegistry.SourceContextFunc i w = (Ok ctx, w) →
  no_faults w → os_fs w = m → os_rand w = rand →
  ∃ result w2, ContainersImageRegistry.Unpack i c w = (Ok result, w2) ∧ storable name (Source.FS result) w2.
Proof.
  intros Hname Ht Himg Hctx Hw Hfs Hrand.
  destruct Hpv as [Hr Hlay Htmp Hroom Hhas Hplace Hway Hnew Hcat]. rewrite <-Hfs in *. rewrite Hr in Hrand.
  destruct (Unpack_total i Hoc name Hn canon ctx x Hlay (os_fs w) c image named T (y :: rest) w)
    as (result & w2 & Hrun & Hres & Hw2 & Hrand2 & Hwr & HT2); try done.
  { split; [apply Hroom|done]. }
  exists result, w2. split; [done|]. rewrite Hres.
  assert (Hin : ∀ q, LocalDirV1.root s `suffix_of` q → os_fs w2 !! q = os_fs w !! q).
  { intros q Hq. apply Hwr. by apply root_unpulled. }
  split; [done|]. split.
  { destruct Hway as [Hd Hf]. split.
    - intros q n Hb Hs. rewrite Hin by apply Hb. by apply Hd.
    - intros md. rewrite Hin by (by exists ["all"; "v1"; "api"; name]). apply Hf. }
  assert (Hgo : ∀ z l, z = x ∨ z = y → os_rand w2 = z :: l → ∃ x rest d, os_rand w2 = x :: rest ∧
            os_fs w2 !! temp_path (LocalDirV1.root s) name x = None ∧
            blobs (walk_events p (LocalDirV1.walk_state s name x rest w2)) = Some d).
  { intros z l Hz Hl. destruct (Hcat (LocalDirV1.walk_state s name z l w2)) as [d Hd].
    { done. }
    { by apply image_in_walk. }
    exists z, l, d. split_and!; [done| |done]. rewrite Hin by (by apply suffix_cons_r). by apply Hnew. }
  destruct Hrand2 as [H|H]; [apply (Hgo y rest)|apply (Hgo x (y :: rest))]; auto.
Qed.
End Provided.

(** The storage and the unpacker of the program work in such a state. *)
Lemma program_workable c w :
  LocalDirV1.inv s w → elem_ok (cat_name c) → no_faults w → usable_cache i (os_fs w) →
  is_Some (Image (Source (Spec c))) →
  (∀ c' w1, no_faults w1 → os_fs w1 = os_fs w → os_rand w1 = os_rand w → cat_name c' = cat_name c →
     Spec c' = Spec c →
     ∃ result w2, ContainersImageRegistry.Unpack i c' w1 = (Ok result, w2) ∧
       storable (cat_name c) (Source.FS result) w2) →
  workable c w.
Proof.
  intros Hi Hn Hw Hcache Himg Hpull.
  assert (Hread : ∀ w1, reads (cat_name c) w w1 →
            LocalDirV1.inv s w1 ∧ no_faults w1 ∧ os_fs w1 = os_fs w ∧ os_rand w1 = os_rand w).
  { intros w1 Hr. destruct (reads_calm _ _ _ Hi Hn Hw Hr) as (H1 & H2 & H3). split_and!; try done.
    destruct Hi as [? Hs]. split; [done|by rewrite H2]. }
  split; [done|..].
  - intros w1 (Hi1 & Hw1 & _)%Hread. exists w1. by apply LocalDirV1.ContentExists_calm.
  - intros c' w1 (Hi1 & Hw1 & Hfs & Hk)%Hread Hname Hspec.
    destruct (Hpull c' w1) as (result & w2 & Hu & Hst); try done.
    assert (Hi2 : LocalDirV1.inv s w2).
    { pose proof (image_unpacker_contract s i Hsep) as UC. rewrite <-Hname in Hn.
      pose proof (up_quiet c' w1 Hn Hi1) as [Hq _]. simpl in Hq. rewrite Hu in Hq. by apply Hq. }
    destruct (Store_storable _ _ _ Hi2 Hn Hst) as [w3 H3]. by exists result, w2, w3.
  - eexists. split; [by apply LocalDirV1.Delete_calm|]. intros c' now w2 Hnow Hname.
    simpl in Hnow. unfold time_Now in Hnow.
    assert (Hw2 : no_faults w2 ∧ os_fs w2 = prune (LocalDirV1.cat_dir s (cat_name c)) (os_fs w)).
    { simpl in Hnow. destruct (os_ticks w); injection Hnow as _ <-; done. }
    destruct Hw2 as [Hw2 Hfs2]. apply Cleanup_calm; [done|rewrite Hfs2..|by rewrite Hname].
    + apply prune_wf, Hi.
    + by apply usable_prune.
Qed.
End Parts.

Section Program.
Context {A : Type} {DC : DeclCfg path} {IL : ImageLib} {ILC : ImageLibContract} {ET : ErrorText}.
Context {CS : ConditionSetter} {SE : SemanticEquality} {FU : FinalizerUtil}.
Context {FL : FinalizerLib OS path} {JT : Jitterer OS} {CL : Client A} {CA : CalmClient A}.
Context {CC : ContentServer} {GZ : GzipLib} {SL : ServerLib} {UP : UrlParser} {ML : ManagerLib}.

Definition auth_visible (file : string) (key : option NamespacedName) (m : fsT) : Prop :=
  walk m (fpath file) = None ∧
  match key with
  | Some _ => ∀ n, m !! fpath file = Some n → ∃ md d, n = File md d
  | None => m !! fpath file = None
  end.

Definition registry_context (f : Flags) (env : Env) (m : fsT) : SystemContext :=
  mkSystemContext (caCertDir f) (caCertDir f)
    (if present m (fpath (authFilePath env)) then authFilePath env else "").

(** A state of the parts [main] makes in which the object [c] can be served: the
    object is the server's and has no conditions but those of this controller,
    the file system works, the auth file can be looked for, and the registry has the image. *)
Record ready (f : Flags) (env : Env) (s : LocalDirV1.t) (i : ContainersImageRegistry.t) (name : string)
    (c : ClusterCatalog) (t : Ctl OS path A) : Prop := mkReady {
  rd_inv : LocalDirV1.inv s (ctl_world t);
  rd_obj : ac_object (ctl_api t) name = Some c;
  rd_name : cat_name c = name;
  rd_known : known_only (Status c);
  rd_whole : ∀ d, ctl_stored t !! name = Some d → whole_seconds (UnpackTime (unpackResult d));
  rd_type : SourceType (Source (Spec c)) = SourceTypeImage;
  rd_faults : no_faults (ctl_world t);
  rd_auth : auth_visible (authFilePath env) (the_key f) (os_fs (ctl_world t));
  rd_image : ∃ image named canon T x y rest, Image (Source (Spec c)) = Some image ∧
    provided s i name image (registry_context f env (os_fs (ctl_world t))) (os_fs (ctl_world t))
      (os_rand (ctl_world t)) named canon T x y rest
}.

(** The context [SourceContextFunc] makes, and when it does: the place of the auth
    file can be reached, and there is a regular file, or nothing; without a pull
    secret, nothing. *)
Lemma context_visible f env w :
  no_faults w → auth_visible (authFilePath env) (the_key f) (os_fs w) →
  SourceContextFunc f (authFilePath env) (the_key f) w = (Ok (registry_context f env (os_fs w)), w).
Proof.
  intros Hw [Hwalk Hfile]. unfold registry_context. destruct (the_key f) as [key|].
  - by apply SourceContextFunc_calm.
  - unfold SourceContextFunc, bind, try, present, os_Stat. rewrite sys_calm by done.
    pose proof (find_missing _ _ [] Hwalk Hfile) as Hm. cbn [app] in Hm. rewrite Hm. simpl.
    by rewrite bool_decide_false by (by rewrite Hfile; intros []).
Qed.

(** What a call for a live object leaves in the storage. *)
Lemma live_content s i name c (t t' : Ctl OS path A) res :
  separate s i → LocalDirV1.inv s (ctl_world t) → elem_ok name →
  ac_object (ctl_api t) name = Some c → cat_name c = name → ¬ withdrawn c →
  Reconcile (ST := LocalDirV1.instance s) (UP := image_unpacker i) name t = (res, t') →
  LocalDirV1.inv s (ctl_world t') ∧
  (LocalDirV1.view s (os_fs (ctl_world t')) name = LocalDirV1.view s (os_fs (ctl_world t)) name ∨
   ∃ d, unpacked_catalog s i c d ∧ LocalDirV1.view s (os_fs (ctl_world t')) name = Some d).
Proof.
  intros Hsep Hi Hn Ho Hname Hl Hrun. pose proof (image_unpacker_contract s i Hsep) as UC.
  destruct (Reconcile_goes (ST := LocalDirV1.instance s) (SC := LocalDirV1.contract s)
              (UP := image_unpacker i) name t name Hi Hn) as [Hi' Hr].
  rewrite Hrun in Hi', Hr. simpl in Hi', Hr. split; [done|].
  destruct Hr as [Hr|(_ & c0 & a0 & Hg & Hr)]; [by left|right].
  destruct (calm_Get _ _ _ Ho Hname Hn) as [a1 Hg1]. rewrite Hg in Hg1. injection Hg1 as -> _.
  by rewrite decide_False in Hr.
Qed.

(** The content of [name] is what was stored before, or was unpacked from the
    image the specification asks for. *)
Definition content_for s i name (c : ClusterCatalog) (t : Ctl OS path A) (d : string) : Prop :=
  LocalDirV1.view s (os_fs (ctl_world t)) name = Some d ∨
  ∃ c0, cat_name c0 = name ∧ Spec c0 = Spec c ∧ unpacked_catalog s i c0 d.

(** One or two calls that return without an error. *)
Definition settles s i name (t t' : Ctl OS path A) : Prop :=
  let call := Reconcile (ST := LocalDirV1.instance s) (UP := image_unpacker i) name in
  ∃ r1 t1, call t = (Ok (r1, None), t1) ∧ (t' = t1 ∨ ∃ r2, call t1 = (Ok (r2, None), t')).

Lemma converged_serving s name c (t : Ctl OS path A) :
  ¬ unavailable c → deleting c = false →
  converged (ST := LocalDirV1.instance s) (SC := LocalDirV1.contract s) name c t →
  ∃ c', ac_object (ctl_api t) name = Some c' ∧ skeleton c' = skeleton c ∧
    shows (Status c') TypeServing ConditionTrue ReasonAvailable msgServing (cat_generation c') ∧
    URLs (Status c') = Some (mkURLs (LocalDirV1.BaseURL s name)) ∧
    is_Some (LocalDirV1.view s (os_fs (ctl_world t)) name).
Proof.
  intros Hu Hd Hc. unfold converged in Hc. rewrite decide_False, Hd in Hc by done.
  destruct Hc as (c' & d & Ho & Hsk & _ & _ & _ & _ & (Hs & _ & _ & Hurl & _) & Hv).
  exists c'. by split_and!.
Qed.

Lemma not_withdrawn c c' : ¬ unavailable c → deleting c = false → skeleton c' = skeleton c → ¬ withdrawn c'.
Proof.
  intros Hu Hd Hsk [Hu'|H]; [|by rewrite (skeleton_deleting _ _ Hsk), Hd in H].
  apply Hu. unfold unavailable in *. by rewrite <-(skeleton_Spec _ _ Hsk).
Qed.

(** The call that unpacks. *)
Lemma live_settles s i name c (t : Ctl OS path A) :
  separate s i → live c →
  started (ST := LocalDirV1.instance s) (SC := LocalDirV1.contract s) (UP := image_unpacker i) name c t →
  ∃ res t' d, Reconcile (ST := LocalDirV1.instance s) (UP := image_unpacker i) name t = (Ok (res, None), t') ∧
    LocalDirV1.inv s (ctl_world t') ∧
    converged (ST := LocalDirV1.instance s) (SC := LocalDirV1.contract s) name c t' ∧
    LocalDirV1.view s (os_fs (ctl_world t')) name = Some d ∧ content_for s i name c t d.
Proof.
  intros Hsep Hl Hs. pose proof (image_unpacker_contract s i Hsep) as UC.
  destruct (converge_live name c t Hs Hl) as (res & t' & Hrun & Hc).
  destruct Hs as [Hi Hn Ho Hname _ _ _]. destruct Hl as (Hu & Hd & _).
  destruct (live_content s i name c t t' _ Hsep Hi Hn Ho Hname (not_withdrawn c c Hu Hd eq_refl) Hrun)
    as [Hi' Hv].
  destruct (converged_serving s name c t' Hu Hd Hc) as (_ & _ & _ & _ & _ & d & Hd').
  exists res, t', d. split_and!; try done.
  rewrite Hd' in Hv. destruct Hv as [Hv|(d' & Hun & [= ->])]; [by left|right; eauto].
Qed.

Lemma ready_started f env s i name c (t : Ctl OS path A) :
  separate s i → own_cache i → elem_ok name →
  ContainersImageRegistry.SourceContextFunc i = SourceContextFunc f (authFilePath env) (the_key f) →
  ready f env s i name c t →
  started (ST := LocalDirV1.instance s) (SC := LocalDirV1.contract s) (UP := image_unpacker i) name c t.
Proof.
  intros Hsep Hoc Hn Hctx [Hi Ho <- Hk Hwh Ht Hf Hauth (image & named & canon & T & x & y & rest & Himg & Hpv)].
  split; try done. apply program_workable; try done.
  { apply (pv_cache _ _ _ _ _ _ _ _ _ _ _ _ _ Hpv). }
  intros c' w1 Hw1 Hfs Hrand Hname Hspec.
  eapply (provided_storable s i Hsep Hoc (cat_name c)); eauto; [by rewrite Hspec..|].
  rewrite Hctx. rewrite <-Hfs in Hauth |- *. by apply context_visible.
Qed.

Lemma ready_settles s i name c (t : Ctl OS path A) :
  separate s i → started (ST := LocalDirV1.instance s) (SC := LocalDirV1.contract s) (UP := image_unpacker i)
    name c t → ¬ unavailable c → deleting c = false →
  ∃ t' d, settles s i name t t' ∧ LocalDirV1.inv s (ctl_world t') ∧
    converged (ST := LocalDirV1.instance s) (SC := LocalDirV1.contract s) name c t' ∧
    LocalDirV1.view s (os_fs (ctl_world t')) name = Some d ∧ content_for s i name c t d.
Proof.
  intros Hsep Hs Hu Hd. pose proof (image_unpacker_contract s i Hsep) as UC.
  pose proof Hs as [Hi Hn Ho Hname _ _ _].
  destruct (decide (fbcDeletionFinalizer ∈ cat_finalizers c)) as [Hfin|Hfin].
  - destruct (live_settles s i name c t Hsep) as (res & t' & d & Hrun & H); [by split_and!|done|].
    exists t', d. split; [|done]. exists res, t'. auto.
  - destruct (converge_new name c t Hs Hu Hd Hfin) as (c1 & t1 & Hrun1 & Hs1 & Hl1 & Hsk).
    destruct (live_content s i name c t t1 _ Hsep Hi Hn Ho Hname (not_withdrawn c c Hu Hd eq_refl) Hrun1)
      as [Hi1 Hv1].
    destruct (live_settles s i name c1 t1 Hsep Hl1 Hs1) as (res & t' & d & Hrun & Hi' & Hc & Hv & Hfor).
    exists t', d. split_and!; [exists 0%Z, t1; eauto|done|by apply (converged_skeleton _ _ c1)|done|].
    destruct Hfor as [Hfor|(c0 & ? & Hsp & ?)]; [|right; exists c0; by rewrite Hsp, (skeleton_Spec _ _ Hsk)].
    rewrite Hfor in Hv1. destruct Hv1 as [Hv1|(d' & Hun & [= ->])]; [by left|right; eauto].
Qed.

(** The unpacker's directories are its own. *)
Definition own_dirs (f : Flags) (env : Env) : Prop :=
  apart (UnpackCacheDir :: fpath (cacheDir f)) (fpath (env_TempDir env)) ∧
  ∀ q, scratch q → apart (UnpackCacheDir :: fpath (cacheDir f)) q.

Lemma parts_own_cache f env : good_dirs f env → own_dirs f env → own_cache (the_unpacker f env).
Proof.
  intros (Hr & _) [Ht Hs].
  assert (Hc : fpath (path_Join [cacheDir f; UnpackCacheDir]) = UnpackCacheDir :: fpath (cacheDir f)).
  { by rewrite fpath_Join by (done || by repeat constructor). }
  split; cbn [the_unpacker ContainersImageRegistry.BaseCachePath ContainersImageRegistry.TempDir
              ContainersImageRegistry.SourceContextFunc]; rewrite ?Hc; try done.
  - by apply is_rooted_Join.
  - apply (SourceContextFunc_reads (=)).
Qed.

(** C6: From the object to the client. Take an object that is available, not being
    deleted, and whose status has no conditions but those of this controller
    ([known_only]), while the API server answers ([CalmClient]), no system call
    fails, and the record of the object, if there is one, has its time of
    unpacking in whole seconds. Let the registry have the image of the object:
    the calls of the image libraries succeed, the layers extract to files the
    catalog library can read ([has_image], [pv_catalog]), and the temporary, the
    cache and the storage directory have room for them ([provided]) and do not
    contain each other ([good_dirs], [own_dirs]); the place of the image in the
    cache is empty or holds that image. Then [Unpack] and [Store]
    succeed, one or two calls of [Reconcile] return without an error, and after
    them the status of the object says that the catalog is served at
    [https://<external address>/catalogs/<name>], and the catalog server answers
    every [GET] for it with status 200 and the whole content: what was unpacked
    from an image for this specification, or what was stored before. *)
Theorem catalog_ends_up_served f env w0 l w0' storage unpacker srv name c (t : Ctl OS path A) :
  setup f env w0 = (Ok l, w0') → plain_host (externalAddr f) = true → good_dirs f env → own_dirs f env →
  RunClusterCatalogReconciler storage unpacker ∈ l → RunCatalogServer srv ∈ l →
  elem_ok name → plain name = true →
  ready f env storage unpacker name c t → ¬ unavailable c → deleting c = false →
  ∃ t' c' d, settles storage unpacker name t t' ∧
    ac_object (ctl_api t') name = Some c' ∧ skeleton c' = skeleton c ∧
    shows (Status c') TypeServing ConditionTrue ReasonAvailable msgServing (cat_generation c') ∧
    URLs (Status c') = Some (mkURLs (address (externalAddr f) name)) ∧
    content_for storage unpacker name c t d ∧
    ∀ r, asks_for_catalog storage name r → Method r = "GET" →
      ∃ rs, cs_handler srv ∅ r (bystander (ctl_world t')) = (Ok rs, bystander (ctl_world t')) ∧
        Code rs = 200%Z ∧ decoded rs = d.
Proof.
  intros Hsetup Hh Hdirs Hown Hc Hsrv Hn Hp Hr Hu Hd.
  destruct (setup_parts f env w0 l w0' Hh Hsetup) as (listener & ->).
  apply in_parts in Hc as [-> ->], Hsrv as ->. set (u := mkURL _ _ _ _) in *.
  pose proof (parts_separate f env u Hdirs) as Hsep. pose proof (parts_own_cache f env Hdirs Hown) as Hoc.
  pose proof (ready_started f env _ _ _ _ _ Hsep Hoc Hn eq_refl Hr) as Hs.
  destruct (ready_settles _ _ _ _ _ Hsep Hs Hu Hd) as (t' & d & Hrun & Hi' & Hcv & Hv & Hfor).
  destruct (converged_serving _ _ _ _ Hu Hd Hcv) as (c' & Ho & Hsk & Hsh & Hurl & _).
  exists t', c', d. split_and!; try done.
  - by rewrite Hurl, <-(the_storage_BaseURL f name).
  - intros r Ha Hget. by apply (server_answers f listener (ctl_world t') name r d).
Qed.
End Program.
