(* ===== verification/ManagerDemo.v ===== *)
(** A configuration of [cmd/manager/main.go] and the libraries it needs, with
    which the properties of the command and of the running program are
    exercised. *)
From S2P Require Import Prelude GoPath Url OsFS OsLemmas Api Storage StorageDemo Source PullSecret.
From S2P Require Import Controller ControllerLemmas ControllerCorrect ImageSource ImageFrame ImageCorrect ImageOutcome Pull ImageDemo.
From S2P Require Import ControllerDemo System Http StorageServer StorageRequests ServerCorrect Server Crd.
From S2P Require Import ServerUtil Manager ManagerCorrect ManagerSystem Service Availability Addresses EndToEnd.

#[local] Existing Instance demo_lib.
#[local] Existing Instance demo_lib_contract.
#[local] Existing Instance demo_content.
#[local] Existing Instance demo_gzip.

#[local] Instance demo_net : ServerLib := {|
  net_Listen addr := ret addr;
  InstrumentHandlerDuration _ handler := handler;
  Instrument_passes _ _ _ _ _ := eq_refl
|}.

#[local] Instance demo_urls : UrlParser := {| url_Parse_other s := inr (ErrString ("parse " +:+ s)) |}.

Definition read_pair (cert key : string) : GoM OS unit :=
  if decide (cert ≠ "" ∧ key ≠ "") then ret tt else throw (ErrErrno "open" [] ENOENT).

#[local] Program Instance demo_manager : ManagerLib := {|
  GetConfig := ret tt;
  certwatcher_New := read_pair;
  NewManager _ := ret tt;
  mgr_Add _ := ret tt;
  NewMetadataClient := ret tt;
  mgr_Start _ := ret tt;
  mkSystemContext docker oci auth := (docker, oci, auth)
|}.
Next Obligation. intros cert key w w'. unfold read_pair. by case_decide. Qed.

Definition demo_flags : Flags :=
  mkFlags "" false ":8081" "0" false "olmv1-system" ":8443" "catalogd.svc" "/var" (12 * Hour)
    "/certs/tls.crt" "/certs/tls.key" 9443 "/ca" "olmv1-system/pull".

Definition demo_env : Env := mkEnv "/tmp" "abcd1234" 1000 1000 (λ _ _, 77%Z).

Definition demo_setup : outcome (list Runnable) * OS := setup demo_flags demo_env (image_os []).

Lemma demo_setup_ok : match demo_setup.1 with Ok _ => True | _ => False end.
Proof. vm_compute. exact I. Qed.

Lemma demo_setup_parts : ∃ listener w', demo_setup = (Ok (the_parts demo_flags demo_env demo_url listener), w').
Proof.
  pose proof demo_setup_ok as H. destruct demo_setup as [[l|e|msg|] w'] eqn:E; [|destruct H..].
  destruct (setup_parts demo_flags demo_env (image_os []) l w') as (listener & ->); [done|exact E|].
  by exists listener, w'.
Qed.

Lemma demo_good_dirs : good_dirs demo_flags demo_env.
Proof.
  split_and!; try done.
  - split; apply (bool_decide_unpack _); vm_compute; exact I.
Qed.

(** * Witnesses *)

Lemma main_wires_parts_witness :
  ∃ listener w' srv storage unpacker l,
    demo_setup = (Ok l, w') ∧ l = the_parts demo_flags demo_env demo_url listener ∧
    RunCatalogServer srv ∈ l ∧ (∀ h r w, cs_handler srv h r w = StorageServerHandler storage h r w) ∧
    LocalDirV1.RootDir storage = "/var/catalogs" ∧
    ContainersImageRegistry.BaseCachePath unpacker = "/var/unpack".
Proof.
  destruct demo_setup_parts as (listener & w' & E).
  destruct (main_wires_parts demo_flags demo_env (image_os []) _ w' E)
    as (srv & storage & unpacker & Hl & Hh & _ & _ & Hd & Hc & _).
  exists listener, w', srv, storage, unpacker, (the_parts demo_flags demo_env demo_url listener).
  split; [exact E|]. split; [reflexivity|]. split; [rewrite Hl; right; left|].
  split; [exact Hh|]. split; [rewrite Hd|rewrite Hc]; vm_compute; reflexivity.
Defined.

Lemma flags_checked_witness :
  main (mkFlags ":8080" false "" "" false "" "" "" "" 0 "" "" 0 "" "") demo_env (image_os [])
  = (Ok 1%Z, image_os []) ∧
  ∃ key, parsePullSecret "olmv1-system/pull" (image_os []) = (Ok key, image_os []).
Proof.
  split.
  - apply flags_checked; [reflexivity|]. intros (_ & _ & H). apply H; [discriminate|reflexivity].
  - destruct (flags_checked demo_flags demo_env (image_os []) eq_refl) as [_ H].
    destruct H as (key & H & _); [|by exists key].
    split_and!; [|vm_compute; split; discriminate|intros []; reflexivity].
    right. exists "olmv1-system", "pull". split_and!; reflexivity.
Defined.

Lemma no_tls_never_starts_witness :
  ∃ code w', main default_flags demo_env (image_os []) = (Ok code, w') ∧ code = 1%Z.
Proof.
  assert (H : match (main default_flags demo_env (image_os [])).1 with Ok _ => True | _ => False end)
    by (vm_compute; exact I).
  destruct (main default_flags demo_env (image_os [])) as [[code|e|msg|] w'] eqn:E; [|destruct H..].
  exists code, w'. split; [reflexivity|].
  exact (no_tls_never_starts default_flags demo_env (image_os []) code w' eq_refl eq_refl E).
Defined.

Lemma demo_setup_calm : os_fs demo_setup.2 = os_fs (image_os []) ∧ os_faults demo_setup.2 = [].
Proof.
  split; [vm_cast_no_check (eq_refl (os_fs (image_os [])))|vm_cast_no_check (@eq_refl (list fault) [])].
Qed.

(** A regular shutdown without a pull secret having been written. *)
Lemma exit_code_needs_auth_file_witness :
  ∃ w', main demo_flags demo_env (image_os []) = (Ok 1%Z, w').
Proof.
  destruct demo_setup_parts as (listener & w' & E). exists w'.
  pose proof (exit_code_needs_auth_file demo_flags demo_env (image_os []) _ w' w' eq_refl E eq_refl) as H.
  assert (Hw : demo_setup.2 = w') by (rewrite E; reflexivity).
  pose proof demo_setup_calm as Hfs.
  rewrite Hw in Hfs. destruct Hfs as [Hfs Hf]. unfold no_faults in H. rewrite Hfs, Hf in H.
  apply H; vm_compute; reflexivity.
Defined.

(** The program pulls, unpacks and stores the catalog [op], and then a client
    asks for it. *)
Definition demo_catalogs : LocalDirV1.t := the_storage demo_flags demo_url.
Definition demo_unpacker : ContainersImageRegistry.t := the_unpacker demo_flags demo_env.

Definition program_run : outcome (Z * option error) * Ctl OS path (gmap string ClusterCatalog) :=
  Eval vm_compute in
    Reconcile (ST := LocalDirV1.instance demo_catalogs) (UP := image_unpacker demo_unpacker) "op" start.

Lemma program_run_eq :
  Reconcile (ST := LocalDirV1.instance demo_catalogs) (UP := image_unpacker demo_unpacker) "op" start
  = program_run.
Proof. vm_compute. reflexivity. Defined.

Definition no_catalogs : GoM OS (list string) := ret [].

Lemma found_reads k : stable (fs_rel (=)) (found k).
Proof. apply stable_ret, _. Qed.

Lemma program_answers_clients_witness :
  ∃ srv rs, cs_handler srv ∅ (get "/catalogs/op/api/v1/all") (ctl_world program_run.2)
            = (Ok rs, ctl_world program_run.2) ∧
    Code rs = 200%Z ∧ decoded rs = "BA".
Proof.
  destruct demo_setup_parts as (listener & w' & E).
  destruct (program_answers_clients no_catalogs (stable_ret (fs_rel (=)) []) found not_found found_reads
              demo_flags demo_env (image_os [])
              (the_parts demo_flags demo_env demo_url listener) w' demo_catalogs demo_unpacker
              (the_server demo_flags demo_url listener) start program_run.2 "op"
              (get "/catalogs/op/api/v1/all")) as (d & rs & Hd & H & Hc & _ & Hdec).
  - exact E.
  - reflexivity.
  - apply demo_good_dirs.
  - right. right. left.
  - right. left.
  - split; [reflexivity|]. apply LocalDirV1.sound_by_check. vm_compute. reflexivity.
  - reflexivity.
  - eapply rtc_l; [|apply rtc_refl]. apply (run_catalog _ _ _ _ demo_catalogs demo_unpacker); [right; right; left|].
    apply (step_reconcile (ST := LocalDirV1.instance demo_catalogs) (UP := image_unpacker demo_unpacker)
             (SC := LocalDirV1.contract demo_catalogs) "op" start program_run.1 program_run.2).
    + rewrite program_run_eq. destruct program_run. reflexivity.
    + vm_compute. discriminate.
  - vm_compute. eexists. reflexivity.
  - reflexivity.
  - elem.
  - reflexivity.
  - split_and!; reflexivity.
  - reflexivity.
  - exists (the_server demo_flags demo_url listener), rs. split; [exact H|]. split; [exact Hc|].
    rewrite Hdec. vm_compute in Hd. injection Hd as <-. reflexivity.
Defined.

(** The program starts again and is storing the catalog once more; it has written
    the temporary file and not renamed it yet. *)
Definition storing : Ctl OS path (gmap string ClusterCatalog) :=
  mkCtl ∅ (set_rand [9%N] (set_faults (replicate 6 FNone ++ [FKill]) (ctl_world program_run.2)))
    (ctl_api program_run.2).

Definition midway : Ctl OS path (gmap string ClusterCatalog) :=
  (Reconcile (ST := LocalDirV1.instance demo_catalogs) (UP := image_unpacker demo_unpacker) "op" storing).2.

Lemma no_downtime_witness :
  ∃ srv rs, cs_handler srv ∅ (get "/catalogs/op/api/v1/all") (bystander (ctl_world midway))
            = (Ok rs, bystander (ctl_world midway)) ∧ Code rs = 200%Z ∧
    (decoded rs = "BA" ∨ ∃ c, reads_object storing "op" c ∧ unpacked_catalog demo_catalogs demo_unpacker c (decoded rs)).
Proof.
  destruct demo_setup_parts as (listener & w' & E).
  destruct (no_downtime demo_flags demo_env (image_os [])
              (the_parts demo_flags demo_env demo_url listener) w' demo_catalogs demo_unpacker
              (the_server demo_flags demo_url listener) storing "op" "op"
              (get "/catalogs/op/api/v1/all") "BA") as (rs & H & Hc & Hd).
  - exact E.
  - reflexivity.
  - apply demo_good_dirs.
  - right. right. left.
  - right. left.
  - split; [reflexivity|]. apply LocalDirV1.sound_by_check. vm_compute. reflexivity.
  - elem.
  - reflexivity.
  - intros _ c [a Hg]. vm_compute in Hg. injection Hg as <- _.
    apply (bool_decide_unpack _). vm_compute. exact I.
  - vm_compute. reflexivity.
  - split_and!; reflexivity.
  - reflexivity.
  - exists (the_server demo_flags demo_url listener), rs. split; [exact H|]. split; [exact Hc|].
    destruct Hd as [Hd|[_ Hd]]; [left|right]; exact Hd.
Defined.

(** Pulling and storing [op] publishes it. *)
Lemma program_refines_service_witness :
  service_step (unpacked_catalog demo_catalogs demo_unpacker) (reads_object start)
    (LocalDirV1.view demo_catalogs (os_fs (image_os [])))
    (LocalDirV1.view demo_catalogs (os_fs (ctl_world program_run.2))) ∧
  LocalDirV1.view demo_catalogs (os_fs (image_os [])) "op" = None ∧
  LocalDirV1.view demo_catalogs (os_fs (ctl_world program_run.2)) "op" = Some "BA".
Proof.
  split; [|split; vm_compute; reflexivity].
  destruct demo_setup_parts as (listener & w' & E).
  apply (program_refines_service no_catalogs (stable_ret (fs_rel (=)) []) found not_found found_reads
           demo_flags demo_env (image_os [])
           (the_parts demo_flags demo_env demo_url listener) w' demo_catalogs demo_unpacker start start
           program_run.2).
  - exact E.
  - reflexivity.
  - apply demo_good_dirs.
  - right. right. left.
  - split; [reflexivity|]. apply LocalDirV1.sound_by_check. vm_compute. reflexivity.
  - reflexivity.
  - apply rtc_refl.
  - apply (run_catalog _ _ _ _ demo_catalogs demo_unpacker); [right; right; left|].
    apply (step_reconcile (ST := LocalDirV1.instance demo_catalogs) (UP := image_unpacker demo_unpacker)
             (SC := LocalDirV1.contract demo_catalogs) "op" start program_run.1 program_run.2).
    + rewrite program_run_eq. destruct program_run. reflexivity.
    + vm_compute. discriminate.
Defined.

Lemma base_url_admitted_witness :
  LocalDirV1.BaseURL demo_catalogs "op" = "https://catalogd.svc/catalogs/op" ∧
  check (ClusterCatalogURLs_Base_rules (λ _, true) (λ _, "https")) (LocalDirV1.BaseURL demo_catalogs "op") = [].
Proof.
  destruct demo_setup_parts as (listener & w' & E).
  destruct (base_url_admitted demo_flags demo_env (image_os [])
              (the_parts demo_flags demo_env demo_url listener) w' demo_catalogs demo_unpacker "op"
              (λ _, true) (λ _, "https")) as [Hu Hc].
  - exact E.
  - reflexivity.
  - right. right. left.
  - elem.
  - reflexivity.
  - reflexivity.
  - reflexivity.
  - split; [exact Hu|]. apply Hc. vm_compute. lia.
Defined.

Lemma pull_secret_reaches_unpacker_witness :
  let r := PullSecretReconciler.mk (mkNN "olmv1-system" "pull") (authFilePath demo_env) in
  let w' := (PullSecretReconciler.Reconcile found not_found r (PullSecretReconciler.SecretKey r) (image_os [])).2 in
  ContainersImageRegistry.SourceContextFunc demo_unpacker w'
  = (Ok ("/ca", "/ca", "/tmp/catalogd-global-pull-secret-abcd1234.json"), w').
Proof.
  destruct demo_setup_parts as (listener & w' & E). cbv zeta.
  eapply eq_trans; [apply (pull_secret_reaches_unpacker found not_found demo_flags demo_env (image_os [])
           (the_parts demo_flags demo_env demo_url listener) w' demo_catalogs demo_unpacker
           (PullSecretReconciler.mk (mkNN "olmv1-system" "pull") (authFilePath demo_env))
           (image_os []) (image_os []) (inl {[ dockerconfigjson := "{}" ]}))|].
  - exact E.
  - right. right. left.
  - right. right. right. left.
  - reflexivity.
  - reflexivity.
  - reflexivity.
  - apply image_wf.
  - split_and!; vm_compute; reflexivity || exact I.
  - vm_compute. reflexivity.
Defined.

(** A catalog that has just been created: nothing has been pulled, stored or
    recorded. *)
Definition created : Ctl OS path (gmap string ClusterCatalog) :=
  mkCtl ∅ (image_os []) {[ "op" := op_cat ]}.

(** Writing a new file into a directory that can be reached. *)
Lemma write_new x d p T w :
  no_faults w → stands (os_fs w) p T → T !! [] = Some (Dir m0700) → T !! [x] = None →
  ∃ w', os_WriteFile (x :: p) d m0600 w = (Ok tt, w') ∧ no_faults w' ∧ os_rand w' = os_rand w ∧
    stands (os_fs w') p (<[[x] := File m0600 d]> T).
Proof.
  intros Hw [Hwalk HT] Hd Hx. rewrite <-(tree_root _ _ _ HT) in Hd. rewrite <-HT in Hx. simpl in Hx.
  destruct (PullSecretReconciler.WriteFile_calm (x :: p) d m0600 w) as (md & Hrun & Hmd); [done|..].
  { split_and!; [|by simpl; rewrite Hd|by rewrite Hx]. apply walk_cons. split; [done|]. by exists m0700. }
  rewrite (Hmd Hx) in Hrun. eexists. split; [exact Hrun|]. split_and!; [done..|]. split; simpl.
  - rewrite <-Hwalk. apply walk_ext. intros q z Hz. apply lookup_insert_ne. intros <-.
    eapply suffix_strict; [exact Hz|]. by apply suffix_cons_r.
  - intros q. destruct (decide (q = [x])) as [->|Hne]; [by rewrite !lookup_insert_eq|].
    rewrite !lookup_insert_ne; [apply HT|done|]. intros Heq. apply Hne. by apply (inj (.++ p)).
Qed.
(** The files of the image. *)
Definition op_tree : fsT := <[["b.yaml"] := File m0600 "B"]> (<[["a.yaml"] := File m0600 "A"]> empty_dir).

Lemma layer_extracts p w :
  no_faults w → stands (os_fs w) p empty_dir →
  ∃ w', apply_files p layer (applyLayerFilter 1000 1000 "/configs") w = (Ok tt, w') ∧
    no_faults w' ∧ os_rand w' = os_rand w ∧ tree_at (os_fs w') p op_tree.
Proof.
  intros Hw Hst.
  destruct (write_new "a.yaml" "A" p empty_dir w) as (w1 & E1 & F1 & R1 & S1); [done..|].
  destruct (write_new "b.yaml" "B" p (<[["a.yaml"] := File m0600 "A"]> empty_dir) w1)
    as (w2 & E2 & F2 & R2 & S2); [done..|].
  exists w2. split_and!; [|done|congruence|apply S2].
  change (bind (os_WriteFile ("a.yaml" :: p) "A" m0600)
            (λ _, bind (os_WriteFile ("b.yaml" :: p) "B" m0600) (λ _, ret tt)) w = (Ok tt, w2)).
  by rewrite (bind_step _ _ _ _ _ E1), (bind_step _ _ _ _ _ E2).
Qed.

Lemma ret_succeeds {X : Type} P (a : X) : succeeds P (ret a) a.
Proof. intros w Hw _. by exists w. Qed.

Lemma op_has_image near ctx dir p :
  has_image demo_unpacker near ctx dir p "quay.io/op:v1" "quay.io/op:v1" tt op_tree.
Proof.
  split.
  - done.
  - right. split; [done|]. exists true, tt, "manifest", op_digest. by split_and!; try apply ret_succeeds.
  - split; [by exists m0700|]. intros q Hq. unfold op_tree, empty_dir in Hq.
    repeat (apply lookup_insert_Some in Hq as [[_ Hq]|[_ Hq]]; [done|]).
    by apply lookup_singleton_Some in Hq as [_ Hq].
  - exists true, true, tt, tt, empty_dir. split_and!; try done.
    + right. split; [done|]. intros w Hw _. by eexists _, w.
    + intros w Hw [_ HT]. by exists w.
    + apply ret_succeeds.
    + exists true, tt, {[ ConfigDirLabel := "/configs" ]}, "/configs".
      split_and!; try apply ret_succeeds; [done|].
      exists layer, layer, op_tree. split_and!; try apply ret_succeeds; [|done].
      intros w Hw _ Hwalk HT. by apply layer_extracts.
Qed.

(** A directory is walked without an error. *)
Lemma dir_blobs p T w md :
  stands (os_fs w) p T → T !! [] = Some (Dir md) → is_Some (blobs (dir_events p w)).
Proof.
  intros [_ HT] Hd. unfold dir_events. rewrite (tree_root _ _ _ HT), Hd.
  induction (map_to_list (os_fs w)) as [|[q n] l [d IH]]; [done|]. cbn [omap list_omap].
  destruct (file_event p (q, n)) as [[z ev]|] eqn:E; [|by exists d].
  unfold file_event in E. destruct n; [done| |done..]. simpl in E. case_decide; [|done].
  injection E as <- <-. simpl in IH |- *. rewrite IH. by eexists.
Qed.

Lemma demo_own_dirs : own_dirs demo_flags demo_env.
Proof. split; [split; apply (bool_decide_unpack _); vm_compute; exact I|intros q []]. Qed.

Lemma op_provided :
  provided demo_catalogs demo_unpacker "op" (mkImageSource "quay.io/op:v1" None)
    (registry_context demo_flags demo_env image_fs) image_fs [1%N; 2%N] "quay.io/op:v1" tt op_tree 1 2 [].
Proof.
  split.
  - reflexivity.
  - intros q [].
  - split_and!; vm_compute; reflexivity.
  - split; [exact (image_wf [])|]. split.
    + exists m0700. split_and!; vm_compute; repeat split.
    + intros n Hn. vm_compute in Hn. injection Hn as <-. exists m0700. by split_and!.
  - apply op_has_image.
  - left. vm_compute. reflexivity.
  - apply LocalDirV1.free_by_check. vm_compute. reflexivity.
  - intros z [-> | ->]; vm_compute; reflexivity.
  - intros w _ Hst. eapply (dir_blobs _ _ _ m0500); [exact Hst|]. reflexivity.
Qed.

Lemma created_ready : ready demo_flags demo_env demo_catalogs demo_unpacker "op" op_cat created.
Proof.
  split.
  - split; [reflexivity|]. apply LocalDirV1.sound_by_check. vm_compute. reflexivity.
  - vm_compute. reflexivity.
  - reflexivity.
  - constructor.
  - intros d Hd. vm_compute in Hd. discriminate Hd.
  - reflexivity.
  - reflexivity.
  - split; [vm_compute; reflexivity|]. intros n Hn. vm_compute in Hn. discriminate Hn.
  - exists (mkImageSource "quay.io/op:v1" None), "quay.io/op:v1", tt, op_tree, 1%N, 2%N, [].
    split; [reflexivity|exact op_provided].
Qed.

Lemma catalog_ends_up_served_witness :
  ∃ t' c' srv rs, settles demo_catalogs demo_unpacker "op" created t' ∧
    ac_object (ctl_api t') "op" = Some c' ∧
    URLs (Status c') = Some (mkURLs "https://catalogd.svc/catalogs/op") ∧
    cs_handler srv ∅ (get "/catalogs/op/api/v1/all") (bystander (ctl_world t'))
    = (Ok rs, bystander (ctl_world t')) ∧ Code rs = 200%Z.
Proof.
  destruct demo_setup_parts as (listener & w' & E).
  destruct (catalog_ends_up_served demo_flags demo_env (image_os [])
              (the_parts demo_flags demo_env demo_url listener) w' demo_catalogs demo_unpacker
              (the_server demo_flags demo_url listener) "op" op_cat created)
    as (t' & c' & d & Hrun & Ho & _ & _ & Hurl & _ & Hget).
  - exact E.
  - reflexivity.
  - apply demo_good_dirs.
  - exact demo_own_dirs.
  - right. right. left.
  - right. left.
  - elem.
  - reflexivity.
  - exact created_ready.
  - apply (bool_decide_unpack _). vm_compute. exact I.
  - reflexivity.
  - destruct (Hget (get "/catalogs/op/api/v1/all")) as (rs & H & Hc & _);
      [split_and!; reflexivity|reflexivity|].
    exists t', c', (the_server demo_flags demo_url listener), rs. by split_and!.
Defined.
