(* ===== verification/Util.v ===== *)
(** Two small packages: [internal/k8sutil/k8sutil.go] and
    [internal/version/version.go]. *)
From Stdlib Require Import Ascii.
From stdpp Require Import pretty.
From S2P Require Import Prelude GoPath Url Regexp.

(** * [MetadataName] *)

(** The characters the expression [invalidNameChars] matches; names are ASCII. *)
Definition invalidNameChars (c : ascii) : bool := negb (is_alnum c || one_of ".-" c).

Fixpoint ReplaceAllString (f : ascii → bool) (s : string) (by_ : ascii) : string :=
  match s with
  | EmptyString => EmptyString
  | String c s' => String (if f c then by_ else c) (ReplaceAllString f s' by_)
  end.

(** [validation.IsDNS1123Subdomain] gives the reasons why a name is not one. *)
Definition MetadataName (IsDNS1123Subdomain : string → list string) (name : string) : string * bool :=
  let result := ReplaceAllString invalidNameChars name "-" in
  (result, bool_decide (IsDNS1123Subdomain result = [])).

Lemma replaced_valid s :
  all_chars (λ c, negb (invalidNameChars c)) (ReplaceAllString invalidNameChars s "-") = true.
Proof.
  unfold all_chars. induction s as [|c s IH]; [done|]. simpl. rewrite IH, andb_true_r.
  destruct (invalidNameChars c) eqn:E; [done|by rewrite E].
Qed.

Lemma replaced_id s :
  all_chars (λ c, negb (invalidNameChars c)) s = true → ReplaceAllString invalidNameChars s "-" = s.
Proof.
  unfold all_chars. induction s as [|c s IH]; [done|]. simpl.
  intros [Hc%negb_true_iff Hs]%andb_true_iff. by rewrite Hc, IH.
Qed.

(** The result has only characters of a DNS name, valid names stay as they are,
    and the function is idempotent. *)
Theorem metadata_name_clean dns name :
  all_chars (λ c, negb (invalidNameChars c)) (MetadataName dns name).1 = true ∧
  (all_chars (λ c, negb (invalidNameChars c)) name = true → (MetadataName dns name).1 = name) ∧
  MetadataName dns (MetadataName dns name).1 = MetadataName dns name.
Proof.
  split; [apply replaced_valid|]. split; [apply replaced_id|].
  unfold MetadataName. cbn [fst]. by rewrite (replaced_id _ (replaced_valid name)).
Qed.

(** * [Version] *)

Record Info := mkInfo {
  Major : string; Minor : string; GitVersion : string; GitCommit : string; GitTreeState : string;
  BuildDate : string; GoVersion : string; Compiler : string; Platform : string
}.

(** Set by the linker and by the Go runtime. *)
Record Build := mkBuild {
  gitVersion : string; gitCommit : string; gitTreeState : string; commitDate : string;
  runtime_Version : string; runtime_Compiler : string; GOOS : string; GOARCH : string
}.

Definition TrimPrefix_v (s : string) : string :=
  match s with String "v" s' => s' | _ => s end.

(** [semver.Parse], as far as the major and minor number. *)
Definition Version (semver_Parse : string → option (N * N)) (b : Build) : Info :=
  let '(major, minor) :=
    match semver_Parse (TrimPrefix_v (gitVersion b)) with
    | Some (major, minor) => (pretty major, pretty minor)
    | None => (EmptyString, EmptyString)
    end in
  mkInfo major minor (gitVersion b) (gitCommit b) (gitTreeState b) (commitDate b) (runtime_Version b)
    (runtime_Compiler b) (GOOS b +:+ "/" +:+ GOARCH b).
