(* ===== verification/Registration.v ===== *)
(** What the packages register when the program is loaded: the kinds of the API
    ([api/v1/groupversion_info.go], the [init] functions of
    [clustercatalog_types.go] and [cmd/manager/main.go]), the feature gates
    ([internal/features/features.go]); and the buckets of the histogram of request
    durations ([internal/metrics/metrics.go], in [ServerUtil.v]). *)
From stdpp Require Import sorting.
From S2P Require Import Prelude ServerUtil.

(** * The kinds of the API *)

(** [schema.GroupVersion] *)
Record GroupVersionT := mkGV { Group : string; gv_Version : string }.

#[global] Instance GroupVersionT_eq_dec : EqDecision GroupVersionT.
Proof. solve_decision. Defined.

Definition GroupVersion : GroupVersionT := mkGV "olm.operatorframework.io" "v1".

(** [runtime.Scheme] of apimachinery, client-go's kinds, and the function a
    [scheme.Builder] of controller-runtime registers for a list of objects:
    it adds their kinds, forgets none, and fails for none. *)
Class SchemeLib := {
  Scheme : Type;
  NewScheme : Scheme;
  recognizes : Scheme → GroupVersionT → string → bool;
  clientgo_AddToScheme : Scheme → Scheme + error;
  AddKnownTypes : GroupVersionT → list string → Scheme → Scheme + error;
  AddKnownTypes_Ok gv kinds s : ∃ s', AddKnownTypes gv kinds s = inl s';
  AddKnownTypes_spec gv kinds s s' gv' kind :
    AddKnownTypes gv kinds s = inl s' →
    recognizes s' gv' kind = true ↔ (gv' = gv ∧ kind ∈ kinds) ∨ recognizes s gv' kind = true
}.

(** [scheme.Builder]: the lists of objects that were registered. *)
Record Builder := mkBuilder { b_GroupVersion : GroupVersionT; b_registered : list (list string) }.

Definition Register (kinds : list string) (b : Builder) : Builder :=
  mkBuilder (b_GroupVersion b) (b_registered b ++ [kinds]).

(** [SchemeBuilder], before and after the [init] of the types. *)
Definition SchemeBuilder0 : Builder := mkBuilder GroupVersion [].
Definition types_init (b : Builder) : Builder := Register ["ClusterCatalog"; "ClusterCatalogList"] b.
Definition SchemeBuilder : Builder := types_init SchemeBuilder0.

Section Scheme.
Context {SL : SchemeLib}.

Fixpoint add_all (gv : GroupVersionT) (l : list (list string)) (s : Scheme) : Scheme + error :=
  match l with
  | [] => inl s
  | kinds :: l' => match AddKnownTypes gv kinds s with inl s' => add_all gv l' s' | inr e => inr e end
  end.

Definition AddToScheme : Scheme → Scheme + error :=
  add_all (b_GroupVersion SchemeBuilder) (b_registered SchemeBuilder).

(** [utilruntime.Must] *)
Definition Must {ET : ErrorText} {A : Type} (r : A + error) : GoM unit A :=
  match r with inl a => ret a | inr e => panic (error_text e) end.

(** [init] of the manager: the scheme all its clients use. *)
Definition main_init {ET : ErrorText} : GoM unit Scheme :=
  s <- Must (clientgo_AddToScheme NewScheme) ;;
  Must (AddToScheme s).

(** The program comes up with the kinds of the API known, and with those of
    client-go, when the latter can be registered; else it panics. *)
Theorem kinds_registered {ET : ErrorText} :
  match clientgo_AddToScheme NewScheme with
  | inr e => main_init tt = (Panic (error_text e), tt)
  | inl s0 =>
      ∃ s, main_init tt = (Ok s, tt) ∧
        ∀ gv kind, recognizes s gv kind = true ↔
          (gv = GroupVersion ∧ kind ∈ ["ClusterCatalog"; "ClusterCatalogList"]) ∨
          recognizes s0 gv kind = true
  end.
Proof.
  unfold main_init, Must, bind. destruct (clientgo_AddToScheme NewScheme) as [s0|e]; [|done].
  cbn -[AddKnownTypes]. destruct (AddKnownTypes_Ok GroupVersion ["ClusterCatalog"; "ClusterCatalogList"] s0) as [s Hs].
  cbn [b_GroupVersion b_registered] in *. rewrite Hs. exists s. split; [done|].
  intros gv kind. by apply AddKnownTypes_spec.
Qed.
End Scheme.

(** * Feature gates *)

(** [featuregate] of component-base: a gate knows its own features and those that
    were added; an empty table can always be added. *)
Class FeatureGateLib := {
  FeatureGate : Type;
  FeatureSpec : Type;
  NewFeatureGate : FeatureGate;
  known : FeatureGate → gset string;
  gate_Add : gmap string FeatureSpec → FeatureGate → FeatureGate + error;
  gate_Add_empty g : ∃ g', gate_Add ∅ g = inl g' ∧ known g' = known g
}.

Section Features.
Context {FG : FeatureGateLib} {ET : ErrorText}.

Definition catalogdFeatureGates : gmap string FeatureSpec := ∅.

Definition features_init : GoM unit FeatureGate := Must (gate_Add catalogdFeatureGates NewFeatureGate).

(** The program defines no feature of its own. *)
Theorem no_features_defined : ∃ g, features_init tt = (Ok g, tt) ∧ known g = known NewFeatureGate.
Proof.
  destruct (gate_Add_empty NewFeatureGate) as (g & Hg & Hk). exists g.
  unfold features_init, catalogdFeatureGates, Must. by rewrite Hg.
Qed.
End Features.

(** * The histogram *)

(** The bounds are increasing, as Prometheus demands; every 100 ms up to one
    second and its fourfold are among them, which Apdex scores need; and none but
    these and ten seconds. *)
Theorem buckets_for_apdex b :
  StronglySorted Z.lt (Buckets RequestDurationMetric) ∧
  (b ∈ Buckets RequestDurationMetric ↔
   (∃ t, (1 ≤ t ≤ 10)%Z ∧ (b = t ∨ b = 4 * t)%Z) ∨ b = 100%Z).
Proof.
  split; [repeat constructor|]. cbn [Buckets RequestDurationMetric]. rewrite !elem_of_cons. split.
  - intros H. repeat destruct H as [->|H]; try (by right); try (by apply elem_of_nil in H); left.
    1-10: eexists; split; [|by left]; lia.
    + exists 3%Z. lia.
    + exists 4%Z. lia.
    + exists 5%Z. lia.
    + exists 6%Z. lia.
    + exists 7%Z. lia.
    + exists 8%Z. lia.
    + exists 9%Z. lia.
    + exists 10%Z. lia.
  - intros [(t & Ht & [->| ->])| ->]; [| |tauto].
    + assert (t = 1 ∨ t = 2 ∨ t = 3 ∨ t = 4 ∨ t = 5 ∨ t = 6 ∨ t = 7 ∨ t = 8 ∨ t = 9 ∨ t = 10)%Z by lia. tauto.
    + assert (t = 1 ∨ t = 2 ∨ t = 3 ∨ t = 4 ∨ t = 5 ∨ t = 6 ∨ t = 7 ∨ t = 8 ∨ t = 9 ∨ t = 10)%Z by lia.
      repeat match goal with H : _ ∨ _ |- _ => destruct H as [->|H] | H : _ = _ |- _ => subst end; simpl; tauto.
Qed.

(** * Instances *)

(** A scheme as the list of what was registered, and a gate as its features. *)
#[local] Program Instance list_scheme : SchemeLib := {
  Scheme := list (GroupVersionT * string);
  NewScheme := [];
  recognizes s gv kind := bool_decide ((gv, kind) ∈ s);
  clientgo_AddToScheme s := inl ((mkGV "" "v1", "Secret") :: s);
  AddKnownTypes gv kinds s := inl ((pair gv <$> kinds) ++ s)
}.
Next Obligation. intros gv kinds s. by eexists. Qed.
Next Obligation.
  intros gv kinds s s' gv' kind. simpl. intros [= <-].
  rewrite !bool_decide_eq_true, elem_of_app, list_elem_of_fmap. naive_solver.
Qed.

#[local] Program Instance set_gates : FeatureGateLib := {
  FeatureGate := gset string;
  FeatureSpec := bool;
  NewFeatureGate := {[ "AllAlpha"; "AllBeta" ]};
  known g := g;
  gate_Add m g := inl (dom m ∪ g)
}.
Next Obligation. intros g. eexists. split; [done|]. by rewrite dom_empty_L, union_empty_l_L. Qed.

Example scheme_of_main {ET : ErrorText} :
  match (main_init tt).1 with
  | Ok s => recognizes s GroupVersion "ClusterCatalog" && negb (recognizes s GroupVersion "Secret")
  | _ => false
  end = true.
Proof. vm_compute. reflexivity. Qed.
